(* ===== verification/_CoqProject ===== *)
-Q . S2P
Prelude.v
Js.v
Async.v
Remote.v
Config.v
Fixture.v
Handlers.v
Render.v
EventLoop.v
Spec.v
Accounting.v
Scenarios.v
Safety.v
History.v
Reactions.v
Logs.v
Failures.v
Refinement.v
WellFormed.v
Lifecycle.v
View.v
Chain.v
Journeys.v
Progress.v
Closed.v
Outage.v
Shared.v
Reload.v
Signer.v
Examples.v
