(* ===== verification/Prelude.v ===== *)
(** * A verification development for the GIF portal front end (src/src/App.jsx)

    ** The program

    The repository is one React component, [App] of src/src/App.jsx: a page
    that connects a browser wallet (Phantom), reads the list of links
    stored in one account of an on-chain program through the Anchor client,
    and lets the connected user append a link or create the account.  Its
    parts, in the words of the specification:
    - the _wallet session manager_: [checkIfWalletIsConnected] (silent
      reconnection, run by the window's [load] event) and [connectWallet]
      (the connect button), which set the [walletAddress] cell;
    - the _entry list view-model_: [getGifList] (fetch), [sendGif]
      (submit), [createGifAccount] (initialise) and [onInputChange], over
      the cells [inputValue] and [gifList], with [getProvider] building the
      client;
    - the _UI surface_: the JSX of [renderNotContainedContainer],
      [renderConnectedContainer] and the component's [return];
    - the module constants (program id, storage keypair, network, options).
    The wallet and the on-chain program are outside the repository: the
    page only sends them requests and reacts to how the promises settle.

    ** The files

    - [Prelude] (this file): the scope and class for [try]/[catch], the
      hint database [gif], shared lemmas on lists and strings: the queue
      discipline of pending tasks, a decision procedure for
      [sublist_of], counting ([count], [tally], the rewrite database
      [counting]) and sums over a list.
    - [Js]: JavaScript values as the source uses them: [null] as [None],
      truthiness ([Truthy]), [!], [&&], [?:], thrown values.
    - [Async]: bodies of [async] functions as programs [Prog]: a free monad
      over synchronous effects and awaited requests, with [bind],
      [try_catch], [run] (execution up to the first pending promise),
      program equivalence with its [Proper] instances, and the predicates
      [safe], [await_bound], [lawful] and [never_throws] with their rules.
    - [Remote]: the shapes of the wallet and Anchor interfaces the source
      reads and calls, and the four awaited requests ([Call]).
    - [Config]: lines 13-36, over the classes [Web3] (the functions of
      @solana/web3.js the constants call) and [Build] (idl.json and
      keypair.json).
    - [Fixture]: one concrete configuration, for the worked examples.
    - [Handlers]: [AppState] (the three [useState] cells, lines 40-42), the
      effects [Action], and every handler and effect of lines 50-222,
      statement by statement, console output included.  A handler that
      reads a state variable takes the value its closure captured.
    - [Render]: the JSX as a tree ([Elem]) with its event bindings;
      [listeners] and [by_tag] observe a render; [closure] is the handler a
      binding stands for.
    - [EventLoop]: the page as a transition system.  A [World] holds the
      component state, [window.solana], the pending tasks (suspended
      handlers), and what the page has done (requests sent, console,
      alerts, unhandled rejections).  [perform] gives each effect its
      meaning, [exec] runs a handler to its first [await], [commit] is
      React's run of the [[walletAddress]] effect after a render that
      changed it, [mount] is the first render with its two effects,
      [unmount] the cleanup of the first effect (line 213), and [step] is
      one turn of the event loop: the [load] event, a user event on a
      control the current render of a mounted page offers, the settlement
      of a pending promise, a change of the wallet object, or the
      unmounting of the component.  The environment chooses the order and
      the outcomes.  [reachable] is the set of worlds so obtained;
      [WorldInv] and [Closed] package what an invariant of all reachable
      worlds, or of all pending tasks, has to provide, with rules to
      combine them.
    - [Spec]: the view-model of the specification as a machine of its
      own, written without the handlers: the data model ([Model]:
      session, entry list state, draft, operations in flight, whether
      the view is attached, whether the one reconnection is still due),
      the operations [tryReconnectSilently], [connectInteractively],
      [refreshList], [initializeStorage], [submitEntry] and [detach], the
      answers to remote operations ([settle]) and the control the UI
      shows ([shown]); [spec_step] reads an event as an operation.
    - [Accounting]: the invariant of that machine ([model_wf]): what ties
      the operations in flight, the operations started and the unhandled
      rejections together.
    - [Scenarios]: event sequences on the fixture and the worlds they
      lead to, used by the worked examples.
    - [Safety]: invariants of every reachable world, one policy each.
    - [History]: what the page has written ([history]) and the worlds
      that differ in it only ([prepend], [forget], the equivalence [≡]
      with its [Proper] instances).
    - [Reactions]: what each event does, on every branch.
    - [Logs]: what the console shows, event by event ([said],
      [transcript]).
    - [Failures]: what becomes of a rejected promise.
    - [Refinement]: the abstraction [abs] from worlds to models and the
      simulation between [EventLoop.step] and [Spec.spec_step].
    - [WellFormed]: [wf], the one invariant that every step preserves,
      assembled from the policies of [Safety], the law of [Reactions] and
      the books of [Accounting].
    - [Lifecycle]: what unmounting does and does not do.
    - [View]: the render after an event, read back off the tree.
    - [Chain]: a reference wallet and program behind the page ([Chain],
      [process]), the page with them as a closed system ([Net], [move]:
      the page takes an event, the chain processes a request, the network
      delivers an answer or loses it, another visitor creates the storage
      account or appends an entry), and the invariants of the moves, each
      an instance of the class [NetInv].
    - [Journeys]: single requests followed from the page to the chain and
      back, leg by leg.
    - [Progress]: the measure that makes every handler finish ([weight])
      and the loop that answers the oldest request ([drain]).
    - [Closed]: the closed system served to rest: the typing of the
      answers on their way ([typed]), the loop in which the chain
      processes the oldest request and its answer is delivered
      ([serve], [serve_all]), and the measure of every schedule
      ([budget]).
    - [Outage]: the dead end of a page that lost its list ([lost]).
    - [Shared]: two visitors on the one program, each with a page, a
      wallet and an inbox of their own ([Duo], [duo_move]): a move of
      one is, for the other, a sequence of moves of somebody else
      ([news]).
    - [Reload]: the session of the page as a grant of the wallet
      ([session_granted]), and the page opened again on a wallet that
      remembers its trust ([reload]).
    - [Signer]: the user account the transactions name ([sent_as],
      [authorised]).
    - [Examples]: the scenarios evaluated from first render to last event.

    ** The theorems

    - Handlers as programs ([Handlers]): which handlers can reject
      ([handlers_rejections]: the connect button's, and no other), how
      many promises each awaits, and [onLoad_equiv].
    - The view ([Render]): [App_offers] (a render binds exactly the handlers
      meant for its state), the images and captions of the grid, the text
      box.
    - Safety ([Safety]), by induction over [reachable]:
      [reachable_requests_ok] (no request is malformed; no [addGif] with an
      empty link), [session_never_dropped], [reachable_never_navigated],
      [pending_await_bound].
    - History ([History]): [history_is_write_only] (a run commutes with
      a longer past: the page reads nothing of what it wrote), and
      [step_proper], [run_events_proper] for rewriting with [≡].
    - Reactions ([Reactions]): for each event, the world after it in terms
      of the world before it.  For settlements ([settle_fetch],
      [settle_addGif], [settle_startStuffOff], [settle_connect]) the
      theorems hold for whatever task is pending at whatever position of
      whatever reachable world, because every suspension a handler leaves
      obeys [task_law]; [stale_fetch_overwrites] is the consequence for two
      fetches answered out of order.  For events that start a handler:
      [submit_empty], [submit_link], [submit_link_no_wallet],
      [change_input], [click_createGifAccount], [click_connectWallet],
      [load_reconnect].
    - Refinement ([Refinement]): [step_simulation] (every step of the
      page is the same step of the specification's machine between the
      abstractions), proved once per handler and once per kind of pending
      request, and [step_refused] (what the page refuses, the machine
      refuses); hence [page_refines_spec] (the abstraction commutes with
      runs) and [spec_reachable_realised] (every model the machine
      reaches abstracts a reachable world); and
      [program_request_needs_session], an invariant proved on the machine
      ([Spec.spec_reachable_needs_session]) and carried to the page, and
      [fail_all_quiesces], a run to rest found on the machine
      ([Spec.spec_fail_all]) and carried to the page.
    - The console ([Logs]): [console_is_transcript]: every event adds
      exactly the lines of [transcript], a function of the event and the
      world written without the handlers; the law [task_logs] of the
      suspensions is checked on every path of every handler.
    - Failures ([Failures]): [failure_is_reported]: a rejected promise
      leaves one console line that carries the error, or an unhandled
      rejection, never nothing.
    - Well-formedness ([WellFormed]): [wf_invariant] (the mounted page is
      well formed and every step keeps it so), and two readings of it:
      [uncaught_from_prompts] (every unhandled rejection is the answer to
      an interactive connection of its own) and [reconnect_once] (one
      silent reconnection at most, and none before the [load] event).
      The part of [wf] on counts is proved on the machine
      ([Accounting.spec_step_wf]) and carried over by the simulation.
    - Lifecycle ([Lifecycle]): [unmounted_refuses] (an unmounted page
      accepts answers and nothing else) and [unmount_cancels_nothing]
      (unmounting commutes with the answer to a request to the program:
      the continuation runs in full).
    - The view after an event ([View]): [typed_is_shown] and
      [fetched_is_shown], round trips from an event through the state to
      the rendered tree.
    - The page on the chain ([Chain]): every move is one of the six
      cases of the view [moved] ([move_moved]) and an event of the page
      ([move_step]), so all of the above holds there; beyond it,
      [shown_is_stored] (the list shown is a prefix of the list stored,
      however stale the answers).
    - Journeys ([Journeys]): [submitted_is_shown] (a submitted link is
      stored under the wallet's key and shown as the last entry after
      the refetch), [initialised_is_shown] (the storage account is
      created from the page, and the empty list and the form are shown),
      [trusted_page_opens] (the page opened with a trusted wallet ends
      connected and showing the stored list) and [alerted_but_stored]
      (a confirmation lost on the way: the link is stored and the page
      alerts a failure).
    - Progress ([Progress]): [drain_terminates]: answering the oldest
      request with any answers of the right type leaves nothing pending.
    - The closed system ([Closed]): [chain_quiesces] (served oldest
      first, the page on the chain comes to rest, whatever the user
      approves) and [every_schedule_ends] with [answers_sn] (in any
      order of processing, delivering and losing, a schedule of answers
      is finite and can go on while something is pending).
    - The dead end ([Outage]): [lost_list_stays_lost]: once the list is
      [null] while the storage account exists, with nothing in flight,
      no move brings the list back.
    - Two visitors ([Shared]): each page of a reachable pair is a page
      [Chain] reaches ([duo_reachable_visitor]), and a schedule of one
      page is a schedule of the pair ([duo_play_lift]), so the theorems
      about one page hold of both; [visitors_agree] (the two lists
      shown are prefixes of the stored list, hence of one another),
      [visitors_independent] (a move on one's own page commutes with
      any move of the other visitor), [neighbour_is_shown] (after two
      submissions in turn the second visitor is shown both entries and
      the first is not shown the second's) and [duo_schedule_ends] (the
      answers to both pages, interleaved, are a bounded schedule).
    - The reload ([Reload]): [net_reachable_session] (on the chain the
      session of the page is the key of the wallet, granted by a wallet
      that trusts the site since) and [reload_restores] (a reloaded
      page gets its session back without a prompt and shows the whole
      stored list).
    - The signer ([Signer]): [step_signs] (a step sends transactions
      from the form and the initialisation button only, under the key
      [window.solana] exposes) and [sender_is_session] (on the chain the
      user of every transaction sent is the key whose address is the
      session).
    Every theorem with a hypothesis is applied to a world of [Scenarios],
    or to a state of [Chain], [Journeys], [Closed], [Outage], [Shared],
    [Reload] or [Signer], in a lemma named after it ([..._witness]).

    ** Bounds

    [run] is structural on the program, a handler is a finite tree, and a
    turn of the event loop runs one handler to its next [await];
    [pending_await_bound] shows that a task is resumed at most twice.
    The event loop itself does not terminate and is modelled by [step]
    and [reachable], not by a function that runs it.  The functions with
    fuel are [Progress.drain] and [Closed.serve_all]: each answer lowers
    [Progress.weight] by one at least, a fetch weighs one and every
    other request two, so the fuel [2 * length (pending w)] of
    [drain_terminates] and [chain_quiesces] is enough, and the theorems
    state that with it the loops end with nothing pending.  For
    schedules in any order the measure is [Closed.budget], three times
    the weight plus two for a slot not yet processed and one for an
    answer that can still be lost; it is at most eight per pending task,
    the bound of [every_schedule_ends].

    ** What is not modelled

    - Of the wallet and the on-chain program: in [Safety], [Reactions],
      [Refinement] and [WellFormed] every outcome is the environment's
      choice ([Outcome]) and the theorems hold for all of them.  [Chain]
      fixes the behaviour the specification describes; signatures, fees,
      consensus and the account layout are not modelled, a request is
      processed at one moment, and a lost request or answer shows as a
      rejection chosen by the network ([MFail]), not as a time-out of a
      clock.  The wallet has one key and never withdraws its trust in
      the site; across a reload of the page it keeps both and exposes
      the key again when asked ([Reload.after_reload]).
    - Of React: each setter is applied when it is called, and the effect
      of [[walletAddress]] runs when a handler returns or suspends; no
      handler reads a cell after setting it, so batching is not
      observable in [visible].  A component is mounted once: there is no
      remount, and the double invocation of effects of React's strict
      mode is not modelled.  After the unmount the setters of a resumed
      handler still update [app]; React would discard them, and nothing
      of the model reads them, since an unmounted page renders nothing
      and runs no effect.
    - The window's [load] event is taken to follow the mount; a page
      mounted after the event has fired never reconnects silently, which
      the model shows as a run without [EvLoad].
    - The stylesheet, the contents of the image asset and the text of
      console output beyond what the handlers pass to it; the polyfill
      [window.Buffer = Buffer] of line 8, which the Anchor client needs
      and the component never reads.
    - Of the configuration: keypair.json is taken to hold integers under
      the keys ["0"], ["1"], ... in that order, so [Config.Object_values]
      is the list of its values as it stands and [Config.Uint8Array]
      reduces integers modulo 256; the ordering of other keys by
      [Object.values] and the conversion of values that are not
      integers are not modelled, and no theorem is about them.
    - Of several visitors: [Shared] has two pages; more are moves of
      somebody else ([MOther], [MCreate]) to each of them.  Each visitor
      has one page: two tabs of one wallet are not modelled.
    - The console is not part of the abstraction [Refinement.abs]: the
      machine of [Spec] does not carry the transcript, which [Logs]
      states on the page itself. *)

From stdpp Require Export base tactics option list strings.
From Stdlib Require Export Lia.

(** ** Scope and classes for effectful programs

    stdpp supplies [MRet], [MBind] and [MThrow] with the notations
    [x ← m; k] and [m ;; k].  JavaScript's [try { p } catch (e) { h }] has
    no counterpart there; the class below adds it, with its notation in
    [prog_scope]. *)

Declare Scope prog_scope.
Delimit Scope prog_scope with prog.

Class MCatch (E : Type) (M : Type → Type) :=
  mcatch : ∀ {A}, M A → (E → M A) → M A.
Global Arguments mcatch {_ _ _ _} _ _ : assert.
Global Hint Mode MCatch ! ! : typeclass_instances.

Notation "'try' p 'catch' e '⇒' h" := (mcatch p (λ e, h))
  (at level 10, p at level 200, e name, h at level 200,
   format "'[v' 'try'  '[' p ']' '/' 'catch'  e  '⇒'  '[' h ']' ']'") : prog_scope.

(** ** The hint database of the development

    Lemmas that close the routine side goals about the queue of pending
    tasks and about programs are registered in [gif]. *)

Create HintDb gif discriminated.

(** ** Lists: the queue discipline of pending tasks *)

Section list_lemmas.
Context {A : Type}.
Implicit Types (l : list A) (x : A) (i : nat) (P : A → Prop).

Lemma Forall_snoc P l x : Forall P l → P x → Forall P (l ++ [x]).
Proof. intros. apply Forall_app. by split; [|constructor]. Qed.

Lemma Forall_lookup_Some P l i x : Forall P l → l !! i = Some x → P x.
Proof. intros Hl Hi. by eapply Forall_lookup_1 in Hl. Qed.

Lemma list_delete_insert l i x : delete i (<[i:=x]> l) = delete i l.
Proof.
  revert i. induction l as [|y l IH]; intros [|i]; simpl; [done..|].
  by rewrite IH.
Qed.

Lemma sum_list_with_delete (f : A → nat) l i x :
  l !! i = Some x → sum_list_with f l = f x + sum_list_with f (delete i l).
Proof.
  intros Hi. rewrite <-(take_drop_middle l i x Hi) at 1.
  rewrite delete_take_drop, !sum_list_with_app. simpl. lia.
Qed.

Lemma sum_list_with_bound (f : A → nat) l b :
  (∀ x, f x ≤ b) → sum_list_with f l ≤ b * length l.
Proof.
  intros Hf. induction l as [|x l IH]; simpl; [lia|]. specialize (Hf x). lia.
Qed.

Lemma sum_list_with_lower (f : A → nat) l b :
  (∀ x, b ≤ f x) → b * length l ≤ sum_list_with f l.
Proof.
  intros Hf. induction l as [|x l IH]; simpl; [lia|]. specialize (Hf x). lia.
Qed.

Lemma sum_list_with_insert (f : A → nat) l i x y :
  l !! i = Some x →
  sum_list_with f (<[i:=y]> l) + f x = sum_list_with f l + f y.
Proof.
  intros Hi. rewrite (sum_list_with_delete f l i x Hi).
  rewrite (sum_list_with_delete f (<[i:=y]> l) i y)
    by (apply list_lookup_insert_eq; by eapply lookup_lt_Some).
  rewrite list_delete_insert. lia.
Qed.

Lemma sum_list_with_replicate (f : A → nat) k x :
  sum_list_with f (replicate k x) = k * f x.
Proof. induction k as [|k IH]; simpl; lia. Qed.

Lemma Forall_sublist P l k : l `sublist_of` k → Forall P k → Forall P l.
Proof.
  induction 1 as [|x l k _ IH|x l k _ IH]; [done|..];
    intros [??]%Forall_cons; auto.
Qed.

End list_lemmas.

#[export] Hint Resolve Forall_snoc Forall_delete Forall_nil_2 : gif.

(** ** Lists: deciding [sublist_of]

    The first list is matched greedily against the second. *)

Section sublist_dec.
Context `{EqDecision A}.
Implicit Types (l k : list A).

Fixpoint sublist_b l k {struct k} : bool :=
  match k with
  | [] => if l is [] then true else false
  | y :: k' =>
      match l with
      | [] => true
      | x :: l' => if decide (x = y) then sublist_b l' k' else sublist_b l k'
      end
  end.

Lemma sublist_b_spec l k : sublist_b l k = true ↔ l `sublist_of` k.
Proof.
  revert l. induction k as [|y k IH]; intros [|x l]; simpl.
  - done.
  - by rewrite sublist_nil_r.
  - split; [intros _; apply sublist_nil_l | done].
  - rewrite sublist_cons_r. case_decide as Hxy; rewrite IH.
    + subst. split; [intros; right; eauto|].
      intros [Hs|(l' & [= <-] & Hs)]; [|done].
      etrans; [|exact Hs]. by apply sublist_cons.
    + split; [by left|]. by intros [?|(l' & [= ? _] & _)].
Qed.

#[export] Instance sublist_dec l k : Decision (l `sublist_of` k).
Proof.
  refine (cast_if (decide (sublist_b l k = true))); by rewrite <-sublist_b_spec.
Defined.

End sublist_dec.

(** ** Lists: counting the elements with a property *)

Definition count {A} (P : A → Prop) `{!∀ x, Decision (P x)} (l : list A) : nat :=
  length (filter P l).

(** One element counted: [1] when it has the property. *)
Definition tally {A} (P : A → Prop) `{!∀ x, Decision (P x)} (x : A) : nat :=
  if decide (P x) then 1 else 0.

Section count_lemmas.
Context {A : Type} (P : A → Prop) `{!∀ x, Decision (P x)}.
Implicit Types (l k : list A) (x : A) (i : nat).

Lemma count_nil : count P [] = 0.
Proof. done. Qed.

Lemma count_cons x l : count P (x :: l) = tally P x + count P l.
Proof. unfold count, tally. rewrite filter_cons. by case_decide. Qed.

Lemma count_app l k : count P (l ++ k) = count P l + count P k.
Proof. unfold count. by rewrite filter_app, length_app. Qed.

Lemma count_snoc l x : count P (l ++ [x]) = count P l + tally P x.
Proof. rewrite count_app, count_cons, count_nil. lia. Qed.

(** Deleting an element takes its tally off the count. *)
Lemma count_delete l i x :
  l !! i = Some x → count P l = count P (delete i l) + tally P x.
Proof.
  intros Hi. rewrite <-(take_drop_middle l i x Hi) at 1.
  rewrite delete_take_drop, !count_app, count_cons. lia.
Qed.

Lemma count_le_length l : count P l ≤ length l.
Proof. apply length_filter. Qed.

Lemma count_fmap {B} (f : B → A) (l : list B) :
  count P (f <$> l) = count (λ y, P (f y)) l.
Proof.
  unfold count. induction l as [|y l IH]; [done|].
  rewrite fmap_cons, !filter_cons. case_decide; simpl; by rewrite IH.
Qed.

Lemma tally_le_1 x : tally P x ≤ 1.
Proof. unfold tally. case_decide; lia. Qed.

End count_lemmas.

(** [autorewrite with counting] splits a count along a list. *)
Create Rewrite HintDb counting.
#[export] Hint Rewrite @count_nil @count_snoc @count_app @count_cons
  @count_fmap : counting.

(** ** Strings: JavaScript's [s.length === 0] *)

Lemma string_length_zero (s : string) : String.length s = 0 ↔ s = "".
Proof. destruct s; simpl; split; intros; done. Qed.

Lemma string_length_eqb_zero (s : string) :
  (String.length s =? 0) = true ↔ s = "".
Proof. rewrite Nat.eqb_eq. apply string_length_zero. Qed.

Lemma string_length_eqb_nonzero (s : string) :
  (String.length s =? 0) = false ↔ s ≠ "".
Proof. rewrite Nat.eqb_neq. by rewrite string_length_zero. Qed.
