(* ===== verification/Js.v ===== *)
(** * Js: the JavaScript values and conversions App.jsx relies on

    App.jsx branches on values by JavaScript truthiness ([if (solana)],
    [if (walletAddress)], [!walletAddress && ...]), compares with [null]
    ([gifList === null]), tests [inputValue.length === 0] and builds one
    string with a template literal.  This file fixes how those read in the
    model:
    - [null] and [undefined] are [None] of an [option], and [x === null]
      is a [match] on it;
    - truthiness is the class [Truthy], with the instances the source uses
      (a string is truthy when it is not empty, [null] is falsy, an object
      is truthy);
    - thrown and rejected values are [JsError] records;
    - [js_and] is the short-circuit [&&] of JSX conditional rendering. *)

From S2P Require Import Prelude.

(** ** Errors: what [throw] raises and what a promise rejects with *)

Record JsError := mkJsError {
  err_name : string;
  err_message : string
}.

#[export] Instance JsError_eq_dec : EqDecision JsError.
Proof. solve_decision. Defined.

(** Reading a property of [undefined] or [null]. *)
Definition TypeError (msg : string) : JsError := mkJsError "TypeError" msg.

(** ** Truthiness *)

Class Truthy (A : Type) := truthy : A → bool.
Global Hint Mode Truthy ! : typeclass_instances.

#[export] Instance truthy_bool : Truthy bool := λ b, b.

(** The empty string is the only falsy string. *)
#[export] Instance truthy_string : Truthy string :=
  λ s, negb (String.length s =? 0).

(** [null] / [undefined] are falsy; otherwise the value decides. *)
#[export] Instance truthy_option `{Truthy A} : Truthy (option A) :=
  λ o, match o with Some a => truthy a | None => false end.

(** [!x] *)
Definition js_not `{Truthy A} (x : A) : bool := negb (truthy x).

(** [x && y] where only the rendering of the result matters: the right
    operand when [x] is truthy, nothing otherwise ([false], [null] and the
    empty string all render as nothing in JSX). *)
Definition js_and `{Truthy A} {B} (x : A) (y : B) : option B :=
  if truthy x then Some y else None.

(** [c ? a : b] *)
Definition js_cond `{Truthy A} {B} (c : A) (a b : B) : B :=
  if truthy c then a else b.

(** ** Facts *)

Lemma truthy_string_spec (s : string) : truthy s = true ↔ s ≠ "".
Proof.
  unfold truthy, truthy_string. rewrite negb_true_iff.
  apply string_length_eqb_nonzero.
Qed.

Lemma truthy_string_false (s : string) : truthy s = false ↔ s = "".
Proof.
  unfold truthy, truthy_string. rewrite negb_false_iff.
  apply string_length_eqb_zero.
Qed.

Lemma truthy_nullable_string (o : option string) :
  truthy o = true ↔ ∃ s, o = Some s ∧ s ≠ "".
Proof.
  destruct o as [s|]; simpl.
  - unfold truthy at 1; simpl. rewrite truthy_string_spec. split.
    + intros Hs. by exists s.
    + by intros (? & [= <-] & ?).
  - split; [done|]. by intros (? & ? & ?).
Qed.

(** An optional value is as truthy as the value it holds. *)
Lemma truthy_Some `{Truthy A} (a : A) : truthy (Some a) = truthy a.
Proof. done. Qed.

Lemma truthy_is_Some `{Truthy A} (o : option A) : truthy o = true → is_Some o.
Proof. destruct o; [eauto | done]. Qed.

Lemma js_and_Some `{Truthy A} {B} (x : A) (y z : B) :
  js_and x y = Some z ↔ truthy x = true ∧ z = y.
Proof.
  unfold js_and. destruct (truthy x); split; intros; simplify_eq; try done.
  - by destruct_and!; subst.
  - by destruct_and!.
Qed.

Lemma js_and_None `{Truthy A} {B} (x : A) (y : B) :
  js_and x y = None ↔ truthy x = false.
Proof. unfold js_and. by destruct (truthy x). Qed.

(** Exactly one of [!x && a] and [x && b] renders. *)
Lemma js_and_not_exclusive `{Truthy A} {B C} (x : A) (a : B) (b : C) :
  (js_and (js_not x) a = Some a ∧ js_and x b = None) ∨
  (js_and (js_not x) a = None ∧ js_and x b = Some b).
Proof.
  unfold js_and, js_not. destruct (truthy x); [right | left]; done.
Qed.

#[export] Hint Resolve truthy_is_Some : gif.
