(* ===== verification/Async.v ===== *)
(** * Async: JavaScript's async functions as an executable free monad

    Every handler of App.jsx is an [async] arrow function: straight-line
    code that performs synchronous effects (console output, React state
    setters, reads of [window]), suspends at each [await] until the awaited
    promise settles, and may run inside [try { } catch (error) { }].

    [Prog Eff Req Err R] is the syntax of such a function body:
    - [Ret r]: the function returns [r];
    - [Throw e]: an exception propagates;
    - [Act a k]: the synchronous effect [a : Eff X] happens, then [k] runs
      on its result;
    - [Await c k]: the function is suspended on the request [c : Req X];
      [k] is resumed with [Fulfilled x] or [Rejected e] when the promise
      settles.

    [bind] is sequencing, [try_catch] is [try]/[catch], [await] turns a
    rejection into a [Throw] as JavaScript does.  [run] executes the
    synchronous prefix of a program against a handler for the effects and
    stops at the first [Await], at a return or at an uncaught exception; it
    is a structural [Fixpoint], so every synchronous segment terminates.

    Programs are compared with [≡] (pointwise equality of continuations);
    the monad laws and the [try]/[catch] laws hold up to [≡] and [bind] and
    [try_catch] are [Proper] for it.  [safe P Q p] says that every effect
    [p] can perform satisfies [P] and every request it can issue satisfies
    [Q], on every path; [await_bound n p] bounds the number of suspensions
    on every path. *)

From S2P Require Import Prelude.

Section prog.
Context {Eff Req : Type → Type} {Err : Type}.

(** How a promise settles. *)
Inductive Settled (X : Type) : Type :=
| Fulfilled (x : X)
| Rejected (e : Err).

Inductive Prog (R : Type) : Type :=
| Ret (r : R)
| Throw (e : Err)
| Act {X : Type} (a : Eff X) (k : X → Prog R)
| Await {X : Type} (c : Req X) (k : Settled X → Prog R).

End prog.

Global Arguments Settled : clear implicits.
Global Arguments Fulfilled {Err X} x.
Global Arguments Rejected {Err X} e.
Global Arguments Prog : clear implicits.
Global Arguments Ret {Eff Req Err R} r.
Global Arguments Throw {Eff Req Err R} e.
Global Arguments Act {Eff Req Err R X} a k.
Global Arguments Await {Eff Req Err R X} c k.

Section ops.
Context {Eff Req : Type → Type} {Err : Type}.
Local Abbreviation Prog := (Prog Eff Req Err).
Local Abbreviation Settled := (Settled Err).

(** Sequencing: [p; f(result of p)]. *)
Fixpoint bind {A B} (p : Prog A) (f : A → Prog B) : Prog B :=
  match p with
  | Ret r => f r
  | Throw e => Throw e
  | Act a k => Act a (λ x, bind (k x) f)
  | Await c k => Await c (λ s, bind (k s) f)
  end.

(** [try { p } catch (e) { h e }]: the handler sees exceptions of [p] only,
    at whatever suspension they arise. *)
Fixpoint try_catch {A} (p : Prog A) (h : Err → Prog A) : Prog A :=
  match p with
  | Ret r => Ret r
  | Throw e => h e
  | Act a k => Act a (λ x, try_catch (k x) h)
  | Await c k => Await c (λ s, try_catch (k s) h)
  end.

(** A synchronous effect, as a program. *)
Definition act {X} (a : Eff X) : Prog X := Act a Ret.

(** [await c]: the value the promise is fulfilled with; a rejection is
    thrown at the [await]. *)
Definition settled_prog {X} (s : Settled X) : Prog X :=
  match s with
  | Fulfilled x => Ret x
  | Rejected e => Throw e
  end.

Definition await {X} (c : Req X) : Prog X := Await c settled_prog.

(** ** Execution of the synchronous prefix *)

(** Why a program stopped. *)
Inductive Stop (R : Type) : Type :=
| Returned (r : R)
| Thrown (e : Err)
| Awaiting {X : Type} (c : Req X) (k : Settled X → Prog R).

Fixpoint run {S R} (h : ∀ X, Eff X → S → X * S) (p : Prog R) (s : S)
  : Stop R * S :=
  match p with
  | Ret r => (Returned _ r, s)
  | Throw e => (Thrown _ e, s)
  | Act a k => let '(x, s') := h _ a s in run h (k x) s'
  | Await c k => (Awaiting _ c k, s)
  end.

(** ** Equivalence of programs: equal up to extensionality of the
    continuations *)

Fixpoint prog_eq {R} (p q : Prog R) : Prop :=
  match p with
  | Ret r => q = Ret r
  | Throw e => q = Throw e
  | Act a k => ∃ k', q = Act a k' ∧ ∀ x, prog_eq (k x) (k' x)
  | Await c k => ∃ k', q = Await c k' ∧ ∀ s, prog_eq (k s) (k' s)
  end.

(** ** What a program can do, on every path *)

Section safe.
Context (P : ∀ X, Eff X → Prop) (Q : ∀ X, Req X → Prop).

Fixpoint safe {R} (p : Prog R) : Prop :=
  match p with
  | Ret _ | Throw _ => True
  | Act a k => P _ a ∧ ∀ x, safe (k x)
  | Await c k => Q _ c ∧ ∀ s, safe (k s)
  end.

End safe.

(** At most [n] suspensions before the program ends, however the promises
    settle. *)
Fixpoint await_bound {R} (n : nat) (p : Prog R) : Prop :=
  match p with
  | Ret _ | Throw _ => True
  | Act a k => ∀ x, await_bound n (k x)
  | Await c k =>
      match n with
      | 0 => False
      | S m => ∀ s, await_bound m (k s)
      end
  end.

(** Every suspension of the program, at any depth, satisfies the law [L]
    of its request and continuation. *)
Fixpoint lawful {R}
    (L : ∀ X, Req X → (Settled X → Prog R) → Prop) (p : Prog R) : Prop :=
  match p with
  | Ret _ | Throw _ => True
  | Act a k => ∀ x, lawful L (k x)
  | Await c k => L _ c k ∧ ∀ s, lawful L (k s)
  end.

(** No path of the program ends in an uncaught exception. *)
Fixpoint never_throws {R} (p : Prog R) : Prop :=
  match p with
  | Ret _ => True
  | Throw _ => False
  | Act a k => ∀ x, never_throws (k x)
  | Await c k => ∀ s, never_throws (k s)
  end.

End ops.

Global Arguments Stop : clear implicits.
Global Arguments Returned {Eff Req Err R} r.
Global Arguments Thrown {Eff Req Err R} e.
Global Arguments Awaiting {Eff Req Err R X} c k.

#[export] Instance prog_ret {Eff Req Err} : MRet (Prog Eff Req Err) :=
  λ _ r, Ret r.
#[export] Instance prog_bind {Eff Req Err} : MBind (Prog Eff Req Err) :=
  λ _ _ f p, bind p f.
#[export] Instance prog_throw {Eff Req Err} : MThrow Err (Prog Eff Req Err) :=
  λ _ e, Throw e.
#[export] Instance prog_catch {Eff Req Err} : MCatch Err (Prog Eff Req Err) :=
  λ _ p h, try_catch p h.
#[export] Instance prog_equiv {Eff Req Err R} : Equiv (Prog Eff Req Err R) :=
  prog_eq.

(** Expose the constructors of a program written with the notations. *)
Ltac prog_unfold :=
  unfold mbind, prog_bind, mret, prog_ret, mthrow, prog_throw, mcatch,
    prog_catch, await, act in *.

(** Walk every path of a concrete program: used for [safe], [await_bound]
    and [never_throws] goals, which are conjunctions and quantifications
    over the branches. *)
Ltac prog_paths :=
  prog_unfold;
  repeat first
    [ progress (simpl in *)
    | progress intros
    | split
    | done
    | case_match
    | match goal with s : Settled _ _ |- _ => destruct s end ].

(** * Laws *)

Section laws.
Context {Eff Req : Type → Type} {Err : Type}.
Local Abbreviation Prog := (Prog Eff Req Err).
Implicit Types (e : Err).

(** ** [≡] is an equivalence *)

Local Ltac peq := unfold equiv, prog_equiv in *.

Lemma prog_eq_refl {R} (p : Prog R) : p ≡ p.
Proof. peq. induction p; simpl; eauto. Qed.

Lemma prog_eq_sym {R} (p q : Prog R) : p ≡ q → q ≡ p.
Proof.
  peq. revert q. induction p as [| |X a k IH|X c k IH]; intros q Hq;
    simpl in Hq; try (by subst);
    destruct Hq as (k' & -> & Hk); exists k; eauto.
Qed.

Lemma prog_eq_trans {R} (p q u : Prog R) : p ≡ q → q ≡ u → p ≡ u.
Proof.
  peq. revert q u. induction p as [?|?|X a k IH|X c k IH]; intros q u Hpq Hqr;
    simpl in Hpq; try (by subst);
    destruct Hpq as (k' & -> & Hk); destruct Hqr as (k'' & -> & Hk');
    exists k''; eauto.
Qed.

#[export] Instance prog_equivalence {R} : Equivalence (≡@{Prog R}).
Proof.
  split; [exact prog_eq_refl | exact prog_eq_sym | exact prog_eq_trans].
Qed.

Lemma prog_eq_Act {R X} (a : Eff X) (k k' : X → Prog R) :
  (∀ x, k x ≡ k' x) → Act a k ≡ Act a k'.
Proof. peq. intros. exists k'. eauto. Qed.

Lemma prog_eq_Await {R X} (c : Req X) (k k' : Settled Err X → Prog R) :
  (∀ s, k s ≡ k' s) → Await c k ≡ Await c k'.
Proof. peq. intros. exists k'. eauto. Qed.

(** One constructor of a proof of [≡]. *)
Local Ltac peq_step :=
  first [reflexivity | apply prog_eq_Act | apply prog_eq_Await].

(** ** [bind] and [try_catch] respect [≡] *)

Lemma bind_proper {A B} (p q : Prog A) (f g : A → Prog B) :
  p ≡ q → (∀ a, f a ≡ g a) → bind p f ≡ bind q g.
Proof.
  peq. intros Hpq Hfg. revert q Hpq.
  induction p as [?|?|X a k IH|X c k IH]; intros q Hpq; simpl in Hpq.
  - subst. apply Hfg.
  - by subst.
  - destruct Hpq as (k' & -> & Hk). simpl. eexists. split; [done|]. intros x. apply IH, Hk.
  - destruct Hpq as (k' & -> & Hk). simpl. eexists. split; [done|]. intros x. apply IH, Hk.
Qed.

Lemma try_catch_proper {A} (p q : Prog A) (h h' : Err → Prog A) :
  p ≡ q → (∀ e, h e ≡ h' e) → try_catch p h ≡ try_catch q h'.
Proof.
  peq. intros Hpq Hh. revert q Hpq.
  induction p as [?|?|X a k IH|X c k IH]; intros q Hpq; simpl in Hpq.
  - by subst.
  - subst. apply Hh.
  - destruct Hpq as (k' & -> & Hk). simpl. eexists. split; [done|]. intros x. apply IH, Hk.
  - destruct Hpq as (k' & -> & Hk). simpl. eexists. split; [done|]. intros x. apply IH, Hk.
Qed.

#[export] Instance bind_Proper {A B} :
  Proper ((≡) ==> pointwise_relation A (≡) ==> (≡)) (@bind Eff Req Err A B).
Proof. intros p q Hpq f g Hfg. by apply bind_proper. Qed.

#[export] Instance try_catch_Proper {A} :
  Proper ((≡) ==> pointwise_relation Err (≡) ==> (≡)) (@try_catch Eff Req Err A).
Proof. intros p q Hpq f g Hfg. by apply try_catch_proper. Qed.

(** ** Monad laws *)

Lemma bind_ret_l {A B} (a : A) (f : A → Prog B) : bind (Ret a) f = f a.
Proof. done. Qed.

Lemma bind_throw {A B} e (f : A → Prog B) : bind (Throw e) f = Throw e.
Proof. done. Qed.

Lemma bind_ret_r {A} (p : Prog A) : bind p Ret ≡ p.
Proof.
  induction p; simpl; peq_step; eauto.
Qed.

Lemma bind_assoc {A B C} (p : Prog A) (f : A → Prog B) (g : B → Prog C) :
  bind (bind p f) g ≡ bind p (λ a, bind (f a) g).
Proof.
  induction p; simpl; peq_step; eauto.
Qed.

(** ** [try]/[catch] laws *)

Lemma try_catch_ret {A} (a : A) (h : Err → Prog A) : try_catch (Ret a) h = Ret a.
Proof. done. Qed.

Lemma try_catch_throw {A} e (h : Err → Prog A) : try_catch (Throw e) h = h e.
Proof. done. Qed.

(** Rethrowing is no handler at all. *)
Lemma try_catch_rethrow {A} (p : Prog A) : try_catch p Throw ≡ p.
Proof.
  induction p; simpl; peq_step; eauto.
Qed.

(** A handler is never run twice: an inner [try] shadows the outer one for
    the exceptions of the body. *)
Lemma try_catch_nested {A} (p : Prog A) (h1 h2 : Err → Prog A) :
  try_catch (try_catch p h1) h2 ≡ try_catch p (λ e, try_catch (h1 e) h2).
Proof.
  induction p; simpl; peq_step; eauto.
Qed.

(** [await] of a request followed by a continuation is the suspension on
    that request. *)
Lemma bind_await {X B} (c : Req X) (f : X → Prog B) :
  bind (await c) f =
  Await c (λ s, bind (settled_prog s) f).
Proof. done. Qed.

(** ** Execution *)

Section run.
Context {S : Type} (h : ∀ X, Eff X → S → X * S).

(** Running a sequence: run the first part; continue with the second only
    if the first returned within this synchronous segment. *)
Lemma run_bind {A B} (p : Prog A) (f : A → Prog B) (s : S) :
  run h (bind p f) s =
  match run h p s with
  | (Returned r, s') => run h (f r) s'
  | (Thrown e, s') => (Thrown e, s')
  | (Awaiting c k, s') => (Awaiting c (λ x, bind (k x) f), s')
  end.
Proof.
  revert s. induction p as [| |X a k IH|X c k IH]; intros s; simpl; try done.
  destruct (h X a s) as [x s']. apply IH.
Qed.

Lemma run_try_catch {A} (p : Prog A) (hd : Err → Prog A) (s : S) :
  run h (try_catch p hd) s =
  match run h p s with
  | (Returned r, s') => (Returned r, s')
  | (Thrown e, s') => run h (hd e) s'
  | (Awaiting c k, s') => (Awaiting c (λ x, try_catch (k x) hd), s')
  end.
Proof.
  revert s. induction p as [| |X a k IH|X c k IH]; intros s; simpl; try done.
  destruct (h X a s) as [x s']. apply IH.
Qed.

Lemma run_act {X} (a : Eff X) (s : S) :
  run h (act a : Prog X) s = (Returned (h X a s).1, (h X a s).2).
Proof. simpl. by destruct (h X a s). Qed.

End run.

(** ** Safety *)

Section safe_lemmas.
Context (P : ∀ X, Eff X → Prop) (Q : ∀ X, Req X → Prop).

Lemma safe_bind {A B} (p : Prog A) (f : A → Prog B) :
  safe P Q p → (∀ a, safe P Q (f a)) → safe P Q (bind p f).
Proof. induction p; simpl; intros; destruct_and?; eauto. Qed.

Lemma safe_try_catch {A} (p : Prog A) (h : Err → Prog A) :
  safe P Q p → (∀ e, safe P Q (h e)) → safe P Q (try_catch p h).
Proof. induction p; simpl; intros; destruct_and?; eauto. Qed.

Lemma safe_act {X} (a : Eff X) : P X a → safe P Q (act a : Prog X).
Proof. simpl. auto. Qed.

Lemma safe_await {X} (c : Req X) : Q X c → safe P Q (await c : Prog X).
Proof. simpl. split; [done|]. by intros []. Qed.

Lemma safe_ret {A} (a : A) : safe P Q (Ret a : Prog A).
Proof. done. Qed.

Lemma safe_prog_eq {A} (p q : Prog A) : p ≡ q → safe P Q p → safe P Q q.
Proof.
  peq. revert q. induction p as [| |X a k IH|X c k IH]; intros q Hq Hs;
    simpl in Hq; try (by subst);
    destruct Hq as (k' & -> & Hk); destruct Hs; split; eauto.
Qed.

(** A safe program keeps an invariant that every allowed effect keeps; and
    where it suspends, the request is allowed and every resumption is safe
    again. *)
Lemma run_safe {S A} (h : ∀ X, Eff X → S → X * S) (Inv : S → Prop)
    (p : Prog A) (s : S) :
  (∀ X (a : Eff X) s, P X a → Inv s → Inv (h X a s).2) →
  safe P Q p → Inv s →
  Inv (run h p s).2 ∧
  match (run h p s).1 with
  | Awaiting c k => Q _ c ∧ ∀ x, safe P Q (k x)
  | _ => True
  end.
Proof.
  intros Hh. revert s. induction p as [| |X a k IH|X c k IH];
    intros s Hs Hi; simpl in *; try done.
  destruct Hs as [Ha Hk]. specialize (Hh X a s Ha Hi).
  destruct (h X a s) as [x s']. by apply IH.
Qed.

End safe_lemmas.

Lemma safe_weaken (P P' : ∀ X, Eff X → Prop) (Q Q' : ∀ X, Req X → Prop)
    {A} (p : Prog A) :
  (∀ X a, P X a → P' X a) → (∀ X c, Q X c → Q' X c) →
  safe P Q p → safe P' Q' p.
Proof. intros HP HQ. induction p; simpl; intros; destruct_and?; eauto. Qed.

(** ** Bounded suspension *)

Lemma await_bound_mono {A} (n m : nat) (p : Prog A) :
  n ≤ m → await_bound n p → await_bound m p.
Proof.
  revert n m. induction p as [| |X a k IH|X c k IH]; intros n m Hle Hb;
    simpl in *; try done; [by eauto|].
  destruct n as [|n]; [done|]. destruct m as [|m]; [lia|].
  intros s. apply (IH s n); [lia | done].
Qed.

Lemma await_bound_bind {A B} (n m : nat) (p : Prog A) (f : A → Prog B) :
  await_bound n p → (∀ a, await_bound m (f a)) → await_bound (n + m) (bind p f).
Proof.
  revert n. induction p as [| |X a k IH|X c k IH]; intros n Hp Hf;
    simpl in *; try done.
  - apply await_bound_mono with m; [lia | done].
  - eauto.
  - destruct n as [|n]; [done|]. simpl. eauto.
Qed.

Lemma await_bound_try_catch {A} (n m : nat) (p : Prog A) (h : Err → Prog A) :
  await_bound n p → (∀ e, await_bound m (h e)) →
  await_bound (n + m) (try_catch p h).
Proof.
  revert n. induction p as [| |X a k IH|X c k IH]; intros n Hp Hf;
    simpl in *; try done.
  - apply await_bound_mono with m; [lia | done].
  - eauto.
  - destruct n as [|n]; [done|]. simpl. eauto.
Qed.

Lemma await_bound_act {X} (a : Eff X) : await_bound 0 (act a : Prog X).
Proof. done. Qed.

Lemma await_bound_await {X} (c : Req X) : await_bound 1 (await c : Prog X).
Proof. simpl. by intros []. Qed.

(** ** Laws of suspensions *)

Lemma lawful_weaken {A} (L L' : ∀ X, Req X → (Settled Err X → Prog A) → Prop)
    (p : Prog A) :
  (∀ X c k, L X c k → L' X c k) → lawful L p → lawful L' p.
Proof. intros HL. induction p; simpl; intros; destruct_and?; eauto. Qed.

Lemma lawful_and {A} (L L' : ∀ X, Req X → (Settled Err X → Prog A) → Prop)
    (p : Prog A) :
  lawful L p → lawful L' p → lawful (λ X c k, L X c k ∧ L' X c k) p.
Proof. induction p; simpl; intros; destruct_and?; eauto. Qed.

(** ** Exceptions *)

Lemma never_throws_bind {A B} (p : Prog A) (f : A → Prog B) :
  never_throws p → (∀ a, never_throws (f a)) → never_throws (bind p f).
Proof. induction p; simpl; eauto. Qed.

(** A handler that cannot throw makes the whole [try] unable to throw,
    whatever its body does. *)
Lemma never_throws_try_catch {A} (p : Prog A) (h : Err → Prog A) :
  (∀ e, never_throws (h e)) → never_throws (try_catch p h).
Proof. induction p; simpl; eauto. Qed.

Lemma never_throws_act {X} (a : Eff X) : never_throws (act a : Prog X).
Proof. done. Qed.

Lemma never_throws_ret {A} (a : A) : never_throws (Ret a : Prog A).
Proof. done. Qed.

Lemma never_throws_prog_eq {A} (p q : Prog A) :
  p ≡ q → never_throws p → never_throws q.
Proof.
  peq. revert q. induction p as [?|?|X a k IH|X c k IH]; intros q Hq Hs;
    simpl in Hq; try (by subst);
    destruct Hq as (k' & -> & Hk); simpl in *; eauto.
Qed.

(** Its synchronous segments never end in [Thrown], and each resumption
    again never throws. *)
Lemma run_never_throws {S A} (h : ∀ X, Eff X → S → X * S) (p : Prog A) (s : S) :
  never_throws p →
  match (run h p s).1 with
  | Returned _ => True
  | Thrown _ => False
  | Awaiting c k => ∀ x, never_throws (k x)
  end.
Proof.
  revert s. induction p as [?|?|X a k IH|X c k IH]; intros s Hp; simpl in *;
    try done.
  destruct (h X a s) as [x s']. by apply IH.
Qed.

End laws.

#[export] Hint Resolve never_throws_bind never_throws_try_catch
  never_throws_act never_throws_ret : gif.

(** Prove a fact about a program from the facts about its parts, by the
    rules registered in [gif]: the monad operations are unfolded to
    [bind] and [try_catch], the effects are left as they are. *)
Ltac prog_auto :=
  unfold mbind, prog_bind, mret, prog_ret, mcatch, prog_catch in *;
  auto 10 with gif.
#[export] Hint Resolve safe_bind safe_try_catch safe_act safe_await safe_ret : gif.
#[export] Hint Resolve await_bound_act await_bound_await : gif.
