(* ===== verification/Remote.v ===== *)
(** * Remote: the external interfaces App.jsx consumes

    App.jsx owns no protocol of its own: it calls the wallet extension
    injected at [window.solana], the @solana/web3.js value classes and the
    Anchor client ([Provider], [Program], [program.rpc.*],
    [program.account.baseAccount.fetch]).  None of that code is part of the
    repository.  This file gives those interfaces the shape the source uses
    them with:
    - the value records ([PublicKey], [Keypair], [Solana], [Provider],
      [Program], [GifItem], [Account], ...), one field per property the
      source reads or passes;
    - the class [Web3] of library operations the module-level code calls
      and whose results the model does not compute
      ([Keypair.fromSecretKey], [clusterApiUrl], [SystemProgram.programId]);
    - [Call], the four asynchronous requests the handlers await, indexed by
      the type of the value the promise is fulfilled with;
    - [JsVal], the values handed to [console.log]. *)

From S2P Require Import Prelude Js.
From Stdlib Require Import ZArith.

(** ** @solana/web3.js *)

(** A public key, identified by its base-58 rendering (what
    [publicKey.toString()] returns). *)
Record PublicKey := mkPublicKey { pk_base58 : string }.

Definition pk_toString (k : PublicKey) : string := pk_base58 k.

(** [new PublicKey(address)] for an address in base 58. *)
Definition new_PublicKey (address : string) : PublicKey := mkPublicKey address.

Record Keypair := mkKeypair {
  kp_publicKey : PublicKey;
  kp_secretKey : list Z
}.

(** Library operations whose results are not computed by the model. *)
Class Web3 := {
  Keypair_fromSecretKey : list Z → Keypair;
  clusterApiUrl : string → string;
  SystemProgram_programId : PublicKey
}.

(** ** The wallet extension at [window.solana] *)

Record Solana := mkSolana {
  isPhantom : bool;
  sol_publicKey : option PublicKey
}.

(** An object is truthy. *)
#[export] Instance truthy_Solana : Truthy Solana := λ _, true.

Record ConnectOpts := mkConnectOpts { onlyIfTrusted : bool }.

Record ConnectResponse := mkConnectResponse { publicKey : PublicKey }.

(** ** The Anchor client *)

Record Connection := new_Connection {
  conn_endpoint : string;
  conn_commitment : string
}.

(** [new Provider(connection, wallet, opts)]; the wallet is whatever
    [window.solana] held, [undefined] included. *)
Record Provider := new_Provider {
  prov_connection : Connection;
  prov_wallet : option Solana;
  prov_opts : string
}.

(** The interface description loaded from idl.json; the source reads
    [idl.metadata.address] only. *)
Record Idl := mkIdl { idl_metadata_address : string }.

Record Program := new_Program {
  prog_idl : Idl;
  prog_programId : PublicKey;
  prog_provider : Provider
}.

(** One entry of the on-chain list, as the grid reads it. *)
Record GifItem := mkGifItem {
  gifLink : string;
  userAddress : PublicKey
}.

(** The fetched storage account. *)
Record Account := mkAccount { acct_gifList : list GifItem }.

(** The [accounts] objects of the two instructions. *)
Record AddGifAccounts := mkAddGifAccounts {
  ag_baseAccount : PublicKey;
  ag_user : option PublicKey
}.

Record StartStuffOffAccounts := mkStartStuffOffAccounts {
  ss_baseAccount : PublicKey;
  ss_user : option PublicKey;
  ss_systemProgram : PublicKey
}.

(** A transaction signature, what [program.rpc.*] resolves with. *)
Definition TxSig := string.

(** ** The asynchronous requests *)

Inductive Call : Type → Type :=
| SolanaConnect (opts : option ConnectOpts) : Call ConnectResponse
| RpcAddGif (program : Program) (link : string) (accounts : AddGifAccounts)
    : Call TxSig
| RpcStartStuffOff (program : Program) (accounts : StartStuffOffAccounts)
    (signers : list Keypair) : Call TxSig
| AccountFetch (program : Program) (address : PublicKey) : Call Account.

(** ** Console arguments *)

Inductive JsVal :=
| VStr (s : string)
| VKey (k : option PublicKey)
| VAccount (a : Account)
| VError (e : JsError).

(** ** Decidable equality *)

#[export] Instance PublicKey_eq_dec : EqDecision PublicKey.
Proof. solve_decision. Defined.
#[export] Instance Keypair_eq_dec : EqDecision Keypair.
Proof. solve_decision. Defined.
#[export] Instance Solana_eq_dec : EqDecision Solana.
Proof. solve_decision. Defined.
#[export] Instance ConnectOpts_eq_dec : EqDecision ConnectOpts.
Proof. solve_decision. Defined.
#[export] Instance ConnectResponse_eq_dec : EqDecision ConnectResponse.
Proof. solve_decision. Defined.
#[export] Instance Connection_eq_dec : EqDecision Connection.
Proof. solve_decision. Defined.
#[export] Instance Provider_eq_dec : EqDecision Provider.
Proof. solve_decision. Defined.
#[export] Instance Idl_eq_dec : EqDecision Idl.
Proof. solve_decision. Defined.
#[export] Instance Program_eq_dec : EqDecision Program.
Proof. solve_decision. Defined.
#[export] Instance GifItem_eq_dec : EqDecision GifItem.
Proof. solve_decision. Defined.
#[export] Instance Account_eq_dec : EqDecision Account.
Proof. solve_decision. Defined.
#[export] Instance AddGifAccounts_eq_dec : EqDecision AddGifAccounts.
Proof. solve_decision. Defined.
#[export] Instance StartStuffOffAccounts_eq_dec : EqDecision StartStuffOffAccounts.
Proof. solve_decision. Defined.
#[export] Instance JsVal_eq_dec : EqDecision JsVal.
Proof. solve_decision. Defined.

(** ** Facts *)

Lemma pk_toString_new (address : string) :
  pk_toString (new_PublicKey address) = address.
Proof. done. Qed.

Lemma pk_toString_inj (k1 k2 : PublicKey) :
  pk_toString k1 = pk_toString k2 → k1 = k2.
Proof. destruct k1, k2; simpl; congruence. Qed.
