(* ===== verification/Config.v ===== *)
(** * Config: the module-level constants of App.jsx (lines 13-36)

    Before the component is defined, App.jsx computes its fixed
    configuration: the footer constants, the keypair of the storage account
    (rebuilt from keypair.json), the program id (read from idl.json), the
    cluster URL and the commitment options.  The two JSON files are inputs
    of the build and not part of the sources; the class [Build] stands for
    their contents, and every definition below is computed from it the way
    the source computes it. *)

From S2P Require Import Prelude Js Remote.
From Stdlib Require Import ZArith.

(** keypair.json: [kp._keypair.secretKey] is an object whose keys are the
    indices ["0"], ["1"], ... of a serialised byte array; [kpj_secretKey]
    holds its values in index order. *)
Record KeypairJson := mkKeypairJson { kpj_secretKey : list Z }.

(** The JSON files imported at lines 10-11. *)
Class Build := {
  idl : Idl;
  kp : KeypairJson
}.

(** [opts] *)
Record Opts := mkOpts { preflightCommitment : string }.

(** [Object.values(o)] of an object with index keys: the values in index
    order.  The object is given as the list of its values in that order
    ([kpj_secretKey]); the ordering of keys that are not indices is not
    modelled. *)
Definition Object_values (o : list Z) : list Z := o.

(** [new Uint8Array(arr)] on integers: every element is reduced modulo
    [2^8].  Values that are not integers are not representable here. *)
Definition Uint8Array (arr : list Z) : list Z := (λ z, z mod 256)%Z <$> arr.

Section config.
Context {web3 : Web3} {build : Build}.

Definition GITHUB_HANDLE : string := "anicca3".
Definition GITHUB_LINK : string := "https://github.com/" +:+ GITHUB_HANDLE.
Definition CREATOR_NAME : string := "anicca".

Definition arr : list Z := Object_values (kpj_secretKey kp).
Definition secret : list Z := Uint8Array arr.
Definition baseAccount : Keypair := Keypair_fromSecretKey secret.

Definition programID : PublicKey := new_PublicKey (idl_metadata_address idl).

Definition network : string := clusterApiUrl "devnet".

Definition opts : Opts := {| preflightCommitment := "processed" |}.

(** ** Facts *)

(** [secret] has one element for each value of the JSON object. *)
Lemma secret_length : length secret = length (kpj_secretKey kp).
Proof. unfold secret, Uint8Array, arr, Object_values. apply length_fmap. Qed.

(** Bytes already in range are kept as they are. *)
Lemma secret_id :
  Forall (λ b, 0 ≤ b < 256)%Z (kpj_secretKey kp) → secret = kpj_secretKey kp.
Proof.
  unfold secret, Uint8Array, arr, Object_values.
  induction 1 as [|b l Hb Hl IH]; simpl; [done|].
  f_equal; [by apply Z.mod_small | exact IH].
Qed.

End config.
