(* ===== verification/Fixture.v ===== *)
(** * Fixture: one concrete configuration, for the worked examples

    The theorems of the development hold for every wallet, every build
    input and every library instance.  Their worked examples need one of
    each: a four-byte stand-in for keypair.json (with values outside the
    byte range, to exercise the reduction of [Uint8Array]), an IDL address,
    a Phantom wallet with and without a key, and a library instance that
    takes the second half of the secret as the public key. *)

From S2P Require Import Prelude Js Remote Config.
From Stdlib Require Import ZArith.

Definition demo_key : PublicKey := new_PublicKey "BaseAcc1".
Definition alice : PublicKey := new_PublicKey "ALiCE111".
Definition bob : PublicKey := new_PublicKey "B0B22222".

Definition demo_web3 : Web3 := {|
  Keypair_fromSecretKey := λ secret, mkKeypair demo_key secret;
  clusterApiUrl := λ cluster, "https://api." +:+ cluster +:+ ".solana.com";
  SystemProgram_programId := new_PublicKey "11111111111111111111111111111111"
|}.

Definition demo_build : Build := {|
  idl := mkIdl "Prog1111";
  kp := mkKeypairJson [1; 255; 256; -1]%Z
|}.

(** A Phantom wallet that has not connected yet, and one connected as
    [alice]. *)
Definition phantom : Solana := mkSolana true None.
Definition phantom_alice : Solana := mkSolana true (Some alice).

(** An injected wallet that is not Phantom. *)
Definition other_wallet : Solana := mkSolana false None.

Definition gif1 : GifItem := mkGifItem "https://x/y.gif" alice.
Definition gif2 : GifItem := mkGifItem "https://x/z.gif" bob.
