(* ===== verification/Handlers.v ===== *)
(** * Handlers: the component state and the handlers of App.jsx

    The component [App] keeps three [useState] cells ([AppState]) and
    defines its handlers as closures over them.  Each handler is translated
    statement by statement into a program of [Async.Prog] over
    - [Action], the synchronous effects the source performs (console
      output, [alert], the three state setters, reads of [window.solana],
      [e.preventDefault()], the [load] listener), and
    - [Remote.Call], the promises it awaits.

    A handler that reads a state variable takes the value captured by the
    render that created the closure as an argument ([sendGif inputValue]):
    a setter called earlier in the same handler does not change it.
    [await f()] of one of the component's own async functions, as the last
    statement before the caller returns, is the callee's body in sequence. *)

From S2P Require Import Prelude Js Async Remote Config.

(** ** Component state (lines 40-48) *)

Record AppState := mkAppState {
  walletAddress : option string;
  inputValue : string;
  gifList : option (list GifItem)
}.

Definition initialState : AppState := {|
  walletAddress := None;
  inputValue := "https://media.giphy.com/media/KhNxr5hsrljL0Ynsz4/giphy.gif";
  gifList := Some []
|}.

Definition TEST_GIFS : list string := [
  "https://media.giphy.com/media/26BRCJC7IaqO7efLy/giphy.gif";
  "https://media.giphy.com/media/xT1XGOGdyDrL2BTfxK/giphy.gif";
  "https://media.giphy.com/media/mXuPwP0kxQqvu0M168/giphy.gif"
].

(** ** Synchronous effects *)

Inductive Action : Type → Type :=
| ConsoleLog (args : list JsVal) : Action ()
| ConsoleError (args : list JsVal) : Action ()
| WindowAlert (msg : string) : Action ()
| WindowSolana : Action (option Solana)
| SetWalletAddress (v : option string) : Action ()
| SetInputValue (v : string) : Action ()
| SetGifList (v : option (list GifItem)) : Action ()
| PreventDefault : Action ()
| AddLoadListener : Action ()
| RemoveLoadListener : Action ().

(** The programs of the component. *)
Abbreviation JS := (Prog Action Call JsError).

Definition log (args : list JsVal) : JS () := act (ConsoleLog args).

(** [provider.wallet.publicKey]: reading a property of [undefined]
    throws. *)
Definition provider_wallet_publicKey (provider : Provider)
  : JS (option PublicKey) :=
  match prov_wallet provider with
  | Some wallet => mret (sol_publicKey wallet)
  | None =>
      mthrow (TypeError "Cannot read properties of undefined (reading 'publicKey')")
  end.

Section handlers.
Context {web3 : Web3} {build : Build}.
Local Open Scope prog_scope.

(** Lines 50-70. *)
Definition checkIfWalletIsConnected : JS () :=
  try
    (solana ← act WindowSolana;
     match solana with
     | Some solana =>
         log [VStr "solana object found"];;
         if isPhantom solana then
           log [VStr "Phantom wallet found"];;
           response ← await (SolanaConnect (Some {| onlyIfTrusted := true |}));
           log [VStr "Connected with Public Key:";
                VStr (pk_toString (publicKey response))];;
           act (SetWalletAddress (Some (pk_toString (publicKey response))))
         else mret ()
     | None => log [VStr "solana object not found. Get a Phantom wallet."]
     end)
  catch error ⇒ act (ConsoleError [VError error]).

(** Lines 72-82. *)
Definition connectWallet : JS () :=
  solana ← act WindowSolana;
  match solana with
  | Some solana =>
      response ← await (SolanaConnect None);
      log [VStr "Connected with Public Key:";
           VStr (pk_toString (publicKey response))];;
      act (SetWalletAddress (Some (pk_toString (publicKey response))))
  | None => mret ()
  end.

(** Lines 128-134. *)
Definition getProvider : JS Provider :=
  let connection := new_Connection network (preflightCommitment opts) in
  wallet ← act WindowSolana;
  let provider := new_Provider connection wallet (preflightCommitment opts) in
  mret provider.

(** Lines 137-139; [value] is [e.target.value]. *)
Definition onInputChange (value : string) : JS () :=
  act (SetInputValue value).

(** Lines 192-205. *)
Definition getGifList : JS () :=
  try
    (provider ← getProvider;
     let program := new_Program idl programID provider in
     account ← await (AccountFetch program (kp_publicKey baseAccount));
     log [VStr "Got the account"; VAccount account];;
     act (SetGifList (Some (acct_gifList account))))
  catch error ⇒
    (log [VStr "Error in getGifList: "; VError error];;
     act (SetGifList None)).

(** Lines 141-168; [inputValue] is the value the closure captured. *)
Definition sendGif (inputValue : string) : JS () :=
  act PreventDefault;;
  if String.length inputValue =? 0 then
    log [VStr "No gif link given!"]
  else
    act (SetInputValue "");;
    log [VStr "Gif link:"; VStr inputValue];;
    try
      (provider ← getProvider;
       let program := new_Program idl programID provider in
       log [VKey (Some (kp_publicKey baseAccount))];;
       walletKey ← provider_wallet_publicKey provider;
       log [VKey walletKey];;
       user ← provider_wallet_publicKey provider;
       await (RpcAddGif program inputValue
                {| ag_baseAccount := kp_publicKey baseAccount;
                   ag_user := user |});;
       log [VStr "GIF successfully sent to program"; VStr inputValue];;
       getGifList)
    catch error ⇒
      (log [VStr "Error sending GIF:"; VError error];;
       act (WindowAlert "fal")).

(** Lines 173-190. *)
Definition createGifAccount : JS () :=
  try
    (provider ← getProvider;
     let program := new_Program idl programID provider in
     user ← provider_wallet_publicKey provider;
     await (RpcStartStuffOff program
              {| ss_baseAccount := kp_publicKey baseAccount;
                 ss_user := user;
                 ss_systemProgram := SystemProgram_programId |}
              [baseAccount]);;
     log [VStr "Created a new BaseAccount w/ address:";
          VStr (pk_toString (kp_publicKey baseAccount))];;
     getGifList)
  catch error ⇒ log [VStr "Error creating BaseAccount account:"; VError error].

(** Lines 207-214: the first effect.  [onLoad] awaits the silent
    reconnection; the effect registers it for the window's [load] event and
    its cleanup removes it. *)
Definition onLoad : JS () :=
  checkIfWalletIsConnected;; mret ().

Definition useEffect_load : JS () := act AddLoadListener.

Definition useEffect_load_cleanup : JS () := act RemoveLoadListener.

(** Lines 216-222: the second effect, run after a render in which
    [walletAddress] changed. *)
Definition useEffect_walletAddress (walletAddress : option string) : JS () :=
  if truthy walletAddress then
    log [VStr "Fetching gifs..."];;
    getGifList
  else mret ().

End handlers.

(** Unfold the handlers down to the constructors of [Prog]. *)
Ltac handler_unfold :=
  unfold onLoad, useEffect_walletAddress, useEffect_load,
    useEffect_load_cleanup, sendGif, createGifAccount, connectWallet,
    checkIfWalletIsConnected, getGifList, onInputChange, getProvider,
    provider_wallet_publicKey, log in *.

(** Walk every path of a handler. *)
Ltac handler_paths := handler_unfold; prog_paths.

(** * Facts about the handlers as programs *)

Section handler_facts.
Context {web3 : Web3} {build : Build}.


(** ** Exceptions: which handlers can reject *)

Lemma getGifList_never_throws : never_throws getGifList.
Proof. unfold getGifList, log. prog_auto. Qed.

Lemma checkIfWalletIsConnected_never_throws :
  never_throws checkIfWalletIsConnected.
Proof. unfold checkIfWalletIsConnected. prog_auto. Qed.

#[local] Hint Resolve getGifList_never_throws
  checkIfWalletIsConnected_never_throws : gif.

(** The load listener never rejects, whatever the wallet object is
    and however the connection settles. *)
Lemma onLoad_never_throws : never_throws onLoad.
Proof. unfold onLoad. prog_auto. Qed.

(** [sendGif] never rejects: every failure after the guard is caught
    and alerted. *)
Lemma sendGif_never_throws inputValue : never_throws (sendGif inputValue).
Proof. unfold sendGif, log. case_match; prog_auto. Qed.

Lemma createGifAccount_never_throws : never_throws createGifAccount.
Proof. unfold createGifAccount, log. prog_auto. Qed.

Lemma useEffect_walletAddress_never_throws walletAddress :
  never_throws (useEffect_walletAddress walletAddress).
Proof. unfold useEffect_walletAddress, log. case_match; prog_auto. Qed.

(** [connectWallet] has no [try]: a rejected [connect()] escapes it. *)
Lemma connectWallet_may_throw : ¬ never_throws connectWallet.
Proof.
  unfold connectWallet. prog_unfold. simpl. intros Hn.
  exact (Hn (Some (mkSolana true None)) (Rejected (TypeError ""))).
Qed.

Lemma onInputChange_never_throws value : never_throws (onInputChange value).
Proof. done. Qed.

(** C26. Of the handlers the page binds to events and effects, the one of
    the connect button is the only one whose promise can be rejected:
    the load listener, the submission, the initialisation, the input
    handler and the effect of the session catch or cannot raise every
    failure, whatever the wallet object is and however the promises
    settle; [connectWallet] awaits the wallet outside any [try]. *)
Theorem handlers_rejections :
  never_throws onLoad ∧
  (∀ inputValue, never_throws (sendGif inputValue)) ∧
  never_throws createGifAccount ∧
  (∀ value, never_throws (onInputChange value)) ∧
  (∀ walletAddress, never_throws (useEffect_walletAddress walletAddress)) ∧
  ¬ never_throws connectWallet.
Proof.
  split_and!;
    [apply onLoad_never_throws | apply sendGif_never_throws
    |apply createGifAccount_never_throws | apply onInputChange_never_throws
    |apply useEffect_walletAddress_never_throws | apply connectWallet_may_throw].
Qed.

(** ** Suspensions: how many promises a handler waits for *)

Lemma getGifList_await_bound : await_bound 1 getGifList.
Proof. handler_paths. Qed.

Lemma checkIfWalletIsConnected_await_bound :
  await_bound 1 checkIfWalletIsConnected.
Proof. handler_paths. Qed.

Lemma connectWallet_await_bound : await_bound 1 connectWallet.
Proof. handler_paths. Qed.

Lemma sendGif_await_bound inputValue : await_bound 2 (sendGif inputValue).
Proof. handler_paths. Qed.

Lemma createGifAccount_await_bound : await_bound 2 createGifAccount.
Proof. handler_paths. Qed.

Lemma useEffect_walletAddress_await_bound walletAddress :
  await_bound 1 (useEffect_walletAddress walletAddress).
Proof. handler_paths. Qed.

(** ** Equations *)

(** Awaiting the reconnection and returning is the reconnection. *)
Lemma onLoad_equiv : onLoad ≡ checkIfWalletIsConnected.
Proof.
  unfold onLoad. prog_unfold. etrans; [|apply bind_ret_r].
  apply bind_proper; [reflexivity | by intros []].
Qed.

End handler_facts.
