(* ===== verification/Render.v ===== *)
(** * Render: the view of App.jsx as a tree

    The component returns JSX; what matters of it is which elements are on
    the page and which handler each one is bound to, because the user can
    only trigger the handlers the current render offers.  [Elem] is the
    rendered tree: tags with attributes and children, text, and [Empty] for
    a child that renders nothing ([false], [null], the empty string).
    [renderNotContainedContainer], [renderConnectedContainer] and [App] are
    the three pieces of JSX of the source; [listeners] reads the event
    bindings off a tree, [by_tag] the elements of one kind. *)

From S2P Require Import Prelude Js Async Remote Config Fixture Handlers.

(** The closures the JSX binds to events. *)
Inductive Handler :=
| H_connectWallet
| H_createGifAccount
| H_sendGif
| H_onInputChange.

#[export] Instance Handler_eq_dec : EqDecision Handler.
Proof. solve_decision. Defined.

Inductive Attr :=
| AStr (name value : string)
| AKey (index : nat)
| AOn (event : string) (h : Handler).

#[warnings="-register-all"]
Inductive Elem :=
| Tag (name : string) (attrs : list Attr) (children : list Elem)
| Text (s : string)
| Empty.

(** [{x && e}] as a child. *)
Definition child (o : option Elem) : Elem := default Empty o.

Definition className (v : string) : Attr := AStr "className" v.
Definition onClick (h : Handler) : Attr := AOn "click" h.
Definition onSubmit (h : Handler) : Attr := AOn "submit" h.
Definition onChange (h : Handler) : Attr := AOn "change" h.

(** The event bindings of an attribute list and of a tree. *)
Definition attr_listeners (attrs : list Attr) : list (string * Handler) :=
  omap (λ a, match a with AOn ev h => Some (ev, h) | _ => None end) attrs.

Fixpoint listeners (e : Elem) : list (string * Handler) :=
  match e with
  | Tag _ attrs children => attr_listeners attrs ++ flat_map listeners children
  | Text _ | Empty => []
  end.

(** The elements with a given tag name, in document order. *)
Fixpoint by_tag (name : string) (e : Elem) : list Elem :=
  match e with
  | Tag n attrs children =>
      (if decide (n = name) then [e] else []) ++ flat_map (by_tag name) children
  | Text _ | Empty => []
  end.

(** The string attribute [name] of an element. *)
Fixpoint attr_value (name : string) (attrs : list Attr) : option string :=
  match attrs with
  | [] => None
  | AStr n v :: rest => if decide (n = name) then Some v else attr_value name rest
  | _ :: rest => attr_value name rest
  end.

Definition attr (name : string) (e : Elem) : option string :=
  match e with
  | Tag _ attrs _ => attr_value name attrs
  | _ => None
  end.

Definition children (e : Elem) : list Elem :=
  match e with
  | Tag _ _ cs => cs
  | _ => []
  end.

(** Line 2: the image asset, imported by its path. *)
Definition githubLogo : string := "./assets/github.svg".

Section render.
Context {web3 : Web3} {build : Build}.

(** Lines 84-91. *)
Definition renderNotContainedContainer : Elem :=
  Tag "button"
    [className "cta-button connect-wallet-button"; onClick H_connectWallet]
    [Text "Connect to Wallet"].

(** One cell of the grid (lines 116-119): the image (line 117) and the
    caption with the submitter's address (line 118). *)
Definition gif_img (item : GifItem) : Elem :=
  Tag "img" [AStr "src" (gifLink item)] [].

Definition gif_caption (item : GifItem) : Elem :=
  Tag "p" [] [Text ("ðŸ“¨" +:+ pk_toString (userAddress item))].

Definition renderGifItem (index : nat) (item : GifItem) : Elem :=
  Tag "div" [className "gif-item"; AKey index]
    [gif_img item; gif_caption item].

(** Lines 93-125. *)
Definition renderConnectedContainer (s : AppState) : Elem :=
  match gifList s with
  | None =>
      Tag "div" [className "connected-container"]
        [Tag "button"
           [className "cta-button submit-gif-button"; onClick H_createGifAccount]
           [Text "Do One-Time Initialization For GIF Program Account"]]
  | Some gifList =>
      Tag "div" [className "connected-container"]
        [Tag "form" [onSubmit H_sendGif]
           [Tag "input"
              [AStr "type" "text"; AStr "placeholder" "Enter gif link!";
               AStr "value" (inputValue s); onChange H_onInputChange] [];
            Tag "button"
              [AStr "type" "submit"; className "cta-button submit-gif-button"]
              [Text "Submit"]];
         Tag "div" [className "gif-grid"] (imap renderGifItem gifList)]
  end.

(** Lines 224-249. *)
Definition App (s : AppState) : Elem :=
  Tag "div" [className "App"]
    [Tag "div"
       [className (js_cond (walletAddress s) "authed-container" "container")]
       [Tag "div" [className "container"]
          [Tag "div" [className "header-container"]
             [Tag "p" [className "header"] [Text "ðŸ–¼ OnDeck "];
              Tag "p" [className "sub-text"]
                [Text "Leave a message in the OnDeck metaverse âœ¨"];
              child (js_and (js_not (walletAddress s)) renderNotContainedContainer);
              child (js_and (walletAddress s) (renderConnectedContainer s))];
           Tag "div" [className "footer-container"]
             [Tag "img"
                [AStr "alt" "Github Logo"; className "github-logo";
                 AStr "src" githubLogo] [];
              Tag "a"
                [className "footer-text"; AStr "href" GITHUB_LINK;
                 AStr "target" "_blank"; AStr "rel" "noreferrer"]
                [Text ("built by @" +:+ CREATOR_NAME)]]]]].

(** The controls the page is meant to offer, by state: the connect button
    while there is no session; with a session, the initialisation button
    while the list is [null], the form otherwise. *)
Definition offered (s : AppState) (event : string) (h : Handler) : Prop :=
  match h with
  | H_connectWallet => event = "click" ∧ truthy (walletAddress s) = false
  | H_createGifAccount =>
      event = "click" ∧ truthy (walletAddress s) = true ∧ gifList s = None
  | H_sendGif =>
      event = "submit" ∧ truthy (walletAddress s) = true ∧ is_Some (gifList s)
  | H_onInputChange =>
      event = "change" ∧ truthy (walletAddress s) = true ∧ is_Some (gifList s)
  end.

(** The closure an event binding stands for, in the render of state [s];
    [value] is [e.target.value] of a change event. *)
Definition closure (h : Handler) (s : AppState) (value : string) : JS () :=
  match h with
  | H_connectWallet => connectWallet
  | H_createGifAccount => createGifAccount
  | H_sendGif => sendGif (inputValue s)
  | H_onInputChange => onInputChange value
  end.

End render.

(** * Facts about the view *)

Section render_facts.
Context {web3 : Web3} {build : Build}.
Implicit Types (s : AppState) (l : list GifItem).

(** ** The grid *)

Lemma flat_map_imap_nil {A B C} (g : B → list C) (f : nat → A → B) (l : list A) :
  (∀ i x, g (f i x) = []) → flat_map g (imap f l) = [].
Proof.
  revert f. induction l as [|x l IH]; intros f Hf; simpl; [done|].
  rewrite Hf. simpl. apply IH. intros i y. apply Hf.
Qed.

Lemma flat_map_imap_singleton {A B C} (g : B → list C) (f : nat → A → B)
    (h : A → C) (l : list A) :
  (∀ i x, g (f i x) = [h x]) → flat_map g (imap f l) = h <$> l.
Proof.
  revert f. induction l as [|x l IH]; intros f Hf; simpl; [done|].
  rewrite Hf. simpl. f_equal. apply IH. intros i y. apply Hf.
Qed.

(** The grid binds no handler. *)
Lemma listeners_grid l : flat_map listeners (imap renderGifItem l) = [].
Proof. by apply flat_map_imap_nil. Qed.

Lemma by_tag_img_grid l :
  flat_map (by_tag "img") (imap renderGifItem l) = gif_img <$> l.
Proof. by apply flat_map_imap_singleton. Qed.

Lemma by_tag_p_grid l :
  flat_map (by_tag "p") (imap renderGifItem l) = gif_caption <$> l.
Proof. by apply flat_map_imap_singleton. Qed.

(** ** Which handlers a render offers *)

Lemma listeners_renderConnectedContainer s :
  listeners (renderConnectedContainer s) =
  match gifList s with
  | None => [("click", H_createGifAccount)]
  | Some _ => [("submit", H_sendGif); ("change", H_onInputChange)]
  end.
Proof.
  unfold renderConnectedContainer. destruct (gifList s) as [l|]; simpl; [|done].
  by rewrite listeners_grid.
Qed.

Lemma listeners_App s :
  listeners (App s) =
  if truthy (walletAddress s) then
    match gifList s with
    | None => [("click", H_createGifAccount)]
    | Some _ => [("submit", H_sendGif); ("change", H_onInputChange)]
    end
  else [("click", H_connectWallet)].
Proof.
  unfold App, js_and, js_not. simpl listeners at 1.
  destruct (truthy (walletAddress s)) eqn:Hw; simpl.
  - rewrite listeners_renderConnectedContainer. by rewrite !app_nil_r.
  - done.
Qed.

(** Every binding of every render is one of the four of the source. *)
Lemma listeners_App_cases s ev h :
  (ev, h) ∈ listeners (App s) →
  (ev = "click" ∧ h = H_connectWallet ∧ truthy (walletAddress s) = false) ∨
  (ev = "click" ∧ h = H_createGifAccount ∧
     truthy (walletAddress s) = true ∧ gifList s = None) ∨
  (ev = "submit" ∧ h = H_sendGif ∧
     truthy (walletAddress s) = true ∧ is_Some (gifList s)) ∨
  (ev = "change" ∧ h = H_onInputChange ∧
     truthy (walletAddress s) = true ∧ is_Some (gifList s)).
Proof.
  rewrite listeners_App.
  destruct (truthy (walletAddress s)); [destruct (gifList s) eqn:Hg|];
    rewrite ?elem_of_cons, elem_of_nil; intros Hin; destruct_or?;
    simplify_eq; eauto 10.
Qed.

(** C38. The page offers exactly the controls meant for its state. *)
Theorem App_offers s event h :
  (event, h) ∈ listeners (App s) ↔ offered s event h.
Proof.
  rewrite listeners_App. unfold offered.
  destruct (truthy (walletAddress s)); [destruct (gifList s) eqn:Hg|];
    rewrite ?elem_of_cons, elem_of_nil; destruct h;
    split; intros; destruct_or?; destruct_and?; simplify_eq; eauto;
    by destruct_and?.
Qed.

(** ** What the connected view shows *)

Lemma by_tag_img_shown s l :
  gifList s = Some l →
  by_tag "img" (renderConnectedContainer s) = gif_img <$> l.
Proof.
  intros Hl. unfold renderConnectedContainer. rewrite Hl. simpl.
  by rewrite by_tag_img_grid, app_nil_r.
Qed.

Lemma by_tag_p_renderConnectedContainer s l :
  gifList s = Some l →
  by_tag "p" (renderConnectedContainer s) = gif_caption <$> l.
Proof.
  intros Hl. unfold renderConnectedContainer. rewrite Hl. simpl.
  by rewrite by_tag_p_grid, app_nil_r.
Qed.

(** ** What the whole page shows *)

(** The text boxes of the page are those of the connected view. *)
Lemma by_tag_input_App s :
  by_tag "input" (App s) =
  if truthy (walletAddress s) then by_tag "input" (renderConnectedContainer s)
  else [].
Proof.
  unfold App, js_and, js_not. destruct (truthy (walletAddress s)); simpl;
    by rewrite ?app_nil_r.
Qed.

(** The images of the page are those of the connected view, followed by
    the logo of the footer. *)
Lemma by_tag_img_App s :
  by_tag "img" (App s) =
  (if truthy (walletAddress s) then by_tag "img" (renderConnectedContainer s)
   else [])
  ++ [Tag "img" [AStr "alt" "Github Logo"; className "github-logo";
                 AStr "src" githubLogo] []].
Proof.
  unfold App, js_and, js_not. destruct (truthy (walletAddress s)); simpl;
    by rewrite ?app_nil_r.
Qed.

Lemma input_value_shown s l :
  gifList s = Some l →
  attr "value" <$> by_tag "input" (renderConnectedContainer s)
  = [Some (inputValue s)].
Proof.
  intros Hl. unfold renderConnectedContainer. rewrite Hl. simpl.
  rewrite (flat_map_imap_nil (by_tag "input")); done.
Qed.

End render_facts.
