(* ===== verification/EventLoop.v ===== *)
(** * EventLoop: the page as a transition system

    JavaScript is single-threaded: the page reacts to one event at a time,
    and each reaction runs a program up to its next [await].  [World] is
    what the reactions read and write: the component's state, the wallet
    object at [window.solana], the promises in flight with the
    continuations suspended on them ([pending]), and what has been observed
    so far (console, alerts, requests issued, uncaught rejections).

    - [perform] gives each synchronous effect its meaning on the world;
    - [exec] runs the synchronous prefix of a program ([Async.run]) and
      files the suspension, or the uncaught exception, it ends with;
    - [commit] is React's commit after a reaction: when [walletAddress]
      changed, the second effect of the component runs;
    - [step] is one event: the window's [load], a user event on an element
      the current render offers, the settlement of a pending promise with
      an outcome of the environment's choosing, a change of the wallet
      object, or the unmounting of the component ([unmount]);
    - [reachable] closes [step] from the mounted page. *)

From S2P Require Import Prelude Js Async Remote Config Handlers Render.

(** A suspended async function: the request awaited and the continuation. *)
Inductive Task :=
| mkTask {X : Type} (c : Call X) (k : Settled JsError X → JS ()).

(** A request without its result type, for the record of what was sent. *)
Inductive Request :=
| ReqConnect (opts : option ConnectOpts)
| ReqAddGif (program : Program) (link : string) (accounts : AddGifAccounts)
| ReqStartStuffOff (program : Program) (accounts : StartStuffOffAccounts)
    (signers : list Keypair)
| ReqFetch (program : Program) (address : PublicKey).

#[export] Instance Request_eq_dec : EqDecision Request.
Proof. solve_decision. Defined.

Definition request_of {X} (c : Call X) : Request :=
  match c with
  | SolanaConnect opts => ReqConnect opts
  | RpcAddGif program link accounts => ReqAddGif program link accounts
  | RpcStartStuffOff program accounts signers =>
      ReqStartStuffOff program accounts signers
  | AccountFetch program address => ReqFetch program address
  end.

Definition task_request (t : Task) : Request :=
  match t with mkTask c _ => request_of c end.

Inductive ConsoleLine :=
| LogLine (args : list JsVal)
| ErrorLine (args : list JsVal).

#[export] Instance ConsoleLine_eq_dec : EqDecision ConsoleLine.
Proof. solve_decision. Defined.

Record World := mkWorld {
  app : AppState;                (* the three useState cells *)
  solana : option Solana;        (* window.solana *)
  loadListener : bool;           (* onLoad is registered for 'load' *)
  loaded : bool;                 (* the load event has fired *)
  pending : list Task;           (* promises in flight, oldest first *)
  issued : list Request;         (* every request sent, oldest first *)
  console : list ConsoleLine;    (* oldest first *)
  alerts : list string;
  defaultPrevented : bool;       (* of the event being dispatched *)
  navigations : nat;             (* form submissions the browser performed *)
  uncaught : list JsError;       (* unhandled promise rejections *)
  mounted : bool                 (* the component is in the tree *)
}.

(** ** Field updates *)

Definition set_app (f : AppState → AppState) (w : World) : World :=
  mkWorld (f (app w)) (solana w) (loadListener w) (loaded w) (pending w)
    (issued w) (console w) (alerts w) (defaultPrevented w) (navigations w)
    (uncaught w) (mounted w).
Definition set_solana (s : option Solana) (w : World) : World :=
  mkWorld (app w) s (loadListener w) (loaded w) (pending w)
    (issued w) (console w) (alerts w) (defaultPrevented w) (navigations w)
    (uncaught w) (mounted w).
Definition set_loadListener (b : bool) (w : World) : World :=
  mkWorld (app w) (solana w) b (loaded w) (pending w)
    (issued w) (console w) (alerts w) (defaultPrevented w) (navigations w)
    (uncaught w) (mounted w).
Definition set_loaded (b : bool) (w : World) : World :=
  mkWorld (app w) (solana w) (loadListener w) b (pending w)
    (issued w) (console w) (alerts w) (defaultPrevented w) (navigations w)
    (uncaught w) (mounted w).
Definition set_pending (f : list Task → list Task) (w : World) : World :=
  mkWorld (app w) (solana w) (loadListener w) (loaded w) (f (pending w))
    (issued w) (console w) (alerts w) (defaultPrevented w) (navigations w)
    (uncaught w) (mounted w).
Definition set_issued (f : list Request → list Request) (w : World) : World :=
  mkWorld (app w) (solana w) (loadListener w) (loaded w) (pending w)
    (f (issued w)) (console w) (alerts w) (defaultPrevented w) (navigations w)
    (uncaught w) (mounted w).
Definition set_console (f : list ConsoleLine → list ConsoleLine) (w : World)
  : World :=
  mkWorld (app w) (solana w) (loadListener w) (loaded w) (pending w)
    (issued w) (f (console w)) (alerts w) (defaultPrevented w) (navigations w)
    (uncaught w) (mounted w).
Definition set_alerts (f : list string → list string) (w : World) : World :=
  mkWorld (app w) (solana w) (loadListener w) (loaded w) (pending w)
    (issued w) (console w) (f (alerts w)) (defaultPrevented w) (navigations w)
    (uncaught w) (mounted w).
Definition set_defaultPrevented (b : bool) (w : World) : World :=
  mkWorld (app w) (solana w) (loadListener w) (loaded w) (pending w)
    (issued w) (console w) (alerts w) b (navigations w)
    (uncaught w) (mounted w).
Definition set_navigations (f : nat → nat) (w : World) : World :=
  mkWorld (app w) (solana w) (loadListener w) (loaded w) (pending w)
    (issued w) (console w) (alerts w) (defaultPrevented w) (f (navigations w))
    (uncaught w) (mounted w).
Definition set_uncaught (f : list JsError → list JsError) (w : World) : World :=
  mkWorld (app w) (solana w) (loadListener w) (loaded w) (pending w)
    (issued w) (console w) (alerts w) (defaultPrevented w) (navigations w)
    (f (uncaught w)) (mounted w).
Definition set_mounted (b : bool) (w : World) : World :=
  mkWorld (app w) (solana w) (loadListener w) (loaded w) (pending w)
    (issued w) (console w) (alerts w) (defaultPrevented w) (navigations w)
    (uncaught w) b.

Definition set_walletAddress (v : option string) (s : AppState) : AppState :=
  mkAppState v (inputValue s) (gifList s).
Definition set_inputValue (v : string) (s : AppState) : AppState :=
  mkAppState (walletAddress s) v (gifList s).
Definition set_gifList (v : option (list GifItem)) (s : AppState) : AppState :=
  mkAppState (walletAddress s) (inputValue s) v.

(** [simpl] computes through the updates. *)
Global Arguments set_app _ _ / : assert.
Global Arguments set_solana _ _ / : assert.
Global Arguments set_loadListener _ _ / : assert.
Global Arguments set_loaded _ _ / : assert.
Global Arguments set_pending _ _ / : assert.
Global Arguments set_issued _ _ / : assert.
Global Arguments set_console _ _ / : assert.
Global Arguments set_alerts _ _ / : assert.
Global Arguments set_defaultPrevented _ _ / : assert.
Global Arguments set_navigations _ _ / : assert.
Global Arguments set_uncaught _ _ / : assert.
Global Arguments set_mounted _ _ / : assert.
Global Arguments set_walletAddress _ _ / : assert.
Global Arguments set_inputValue _ _ / : assert.
Global Arguments set_gifList _ _ / : assert.

(** ** The meaning of the synchronous effects *)

Definition perform (X : Type) (a : Action X) (w : World) : X * World :=
  match a in Action X return X * World with
  | ConsoleLog args => ((), set_console (λ l, l ++ [LogLine args]) w)
  | ConsoleError args => ((), set_console (λ l, l ++ [ErrorLine args]) w)
  | WindowAlert msg => ((), set_alerts (λ l, l ++ [msg]) w)
  | WindowSolana => (solana w, w)
  | SetWalletAddress v => ((), set_app (set_walletAddress v) w)
  | SetInputValue v => ((), set_app (set_inputValue v) w)
  | SetGifList v => ((), set_app (set_gifList v) w)
  | PreventDefault => ((), set_defaultPrevented true w)
  | AddLoadListener => ((), set_loadListener true w)
  | RemoveLoadListener => ((), set_loadListener false w)
  end.

(** ** Running a reaction *)

(** File what the synchronous segment ended with: nothing for a return, an
    unhandled rejection for an uncaught exception (the promise of the
    async function is rejected and nobody awaits it), a pending task for a
    suspension. *)
Definition file (r : Stop Action Call JsError () * World) : World :=
  match r with
  | (Returned _, w) => w
  | (Thrown e, w) => set_uncaught (λ l, l ++ [e]) w
  | (Awaiting c k, w) =>
      set_pending (λ l, l ++ [mkTask c k])
        (set_issued (λ l, l ++ [request_of c]) w)
  end.

Definition exec (p : JS ()) (w : World) : World := file (run perform p w).

Section loop.
Context {web3 : Web3} {build : Build}.

(** React's commit: the effect with dependency [walletAddress] runs when
    the value differs from the one of the previous render.  A component
    that is no longer in the tree is not rendered and runs no effect. *)
Definition commit (prev : option string) (w : World) : World :=
  if mounted w then
    if decide (walletAddress (app w) = prev) then w
    else exec (useEffect_walletAddress (walletAddress (app w))) w
  else w.

(** One reaction: the program, then the commit. *)
Definition dispatch (p : JS ()) (w : World) : World :=
  commit (walletAddress (app w)) (exec p w).

(** ** The page before and after the component mounts *)

Definition page (sol : option Solana) : World := {|
  app := initialState;
  solana := sol;
  loadListener := false;
  loaded := false;
  pending := [];
  issued := [];
  console := [];
  alerts := [];
  defaultPrevented := false;
  navigations := 0;
  uncaught := [];
  mounted := false
|}.

(** The first render runs both effects, in the order of their
    declaration. *)
Definition mount (w : World) : World :=
  exec (useEffect_walletAddress (walletAddress (app w)))
    (exec useEffect_load (set_mounted true w)).

(** Unmounting runs the cleanup of the first effect (line 213) and takes
    the component out of the tree.  Nothing cancels the promises in
    flight: their continuations still run when they settle. *)
Definition unmount (w : World) : World :=
  set_mounted false (exec useEffect_load_cleanup w).

Definition initial (sol : option Solana) : World := mount (page sol).

(** ** Events *)

(** How the environment settles a promise. *)
Inductive Outcome :=
| Connected (r : ConnectResponse)
| Confirmed (sig : TxSig)
| Fetched (a : Account)
| Failed (e : JsError).

(** An outcome fits a request when it is a rejection or a value of the
    type the request resolves with. *)
Definition settle_as {X} (c : Call X) (o : Outcome)
  : option (Settled JsError X) :=
  match c in Call X return option (Settled JsError X) with
  | SolanaConnect _ =>
      match o with
      | Connected r => Some (Fulfilled r)
      | Failed e => Some (Rejected e)
      | _ => None
      end
  | RpcAddGif _ _ _ | RpcStartStuffOff _ _ _ =>
      match o with
      | Confirmed sig => Some (Fulfilled sig)
      | Failed e => Some (Rejected e)
      | _ => None
      end
  | AccountFetch _ _ =>
      match o with
      | Fetched a => Some (Fulfilled a)
      | Failed e => Some (Rejected e)
      | _ => None
      end
  end.

Definition resume (t : Task) (o : Outcome) : option (JS ()) :=
  match t with mkTask c k => k <$> settle_as c o end.

Inductive Event :=
| EvLoad
| EvUI (event : string) (h : Handler) (value : string)
| EvSettle (i : nat) (o : Outcome)
| EvWallet (s : option Solana)
| EvUnmount.

(** The browser's default action for an event the handler did not
    prevent: a form submission navigates. *)
Definition default_action (event : string) (w : World) : World :=
  if decide (event = "submit") then
    if defaultPrevented w then w else set_navigations S w
  else w.

Definition step (ev : Event) (w : World) : option World :=
  match ev with
  | EvLoad =>
      if loadListener w && negb (loaded w)
      then Some (dispatch onLoad (set_loaded true w))
      else None
  | EvUI event h value =>
      if mounted w && bool_decide ((event, h) ∈ listeners (App (app w)))
      then Some (default_action event
                   (dispatch (closure h (app w) value)
                      (set_defaultPrevented false w)))
      else None
  | EvSettle i o =>
      t ← pending w !! i;
      p ← resume t o;
      Some (dispatch p (set_pending (delete i) w))
  | EvWallet s => Some (set_solana s w)
  | EvUnmount => if mounted w then Some (unmount w) else None
  end.

Fixpoint run_events (evs : list Event) (w : World) : option World :=
  match evs with
  | [] => Some w
  | ev :: evs => step ev w ≫= run_events evs
  end.

Inductive reachable (sol : option Solana) : World → Prop :=
| reach_initial : reachable sol (initial sol)
| reach_step w ev w' :
    reachable sol w → step ev w = Some w' → reachable sol w'.

End loop.

(** The tasks, the requests and the rejection a stop contributes. *)
Definition spawned (r : Stop Action Call JsError ()) : list Task :=
  match r with Awaiting c k => [mkTask c k] | _ => [] end.

Definition thrown (r : Stop Action Call JsError ()) : list JsError :=
  match r with Thrown e => [e] | _ => [] end.

(** ** Predicates on the loop

    [Closed Φ]: a property of programs that survives running them, so that
    what a program with [Φ] leaves suspended has [Φ] again.  [tasks_ok Φ]
    says every pending task, seen as the program suspended on its request,
    has [Φ]; [handlers_ok Φ] that every program the loop can start has
    it. *)

Section policy_defs.
Context {web3 : Web3} {build : Build}.
Context (Φ : JS () → Prop).

Class Closed : Prop := {
  closed_act X (a : Action X) k x : Φ (Act a k) → Φ (k x);
  closed_await X (c : Call X) k s : Φ (Await c k) → Φ (k s)
}.

Definition task_ok (t : Task) : Prop :=
  match t with mkTask c k => Φ (Await c k) end.

Definition tasks_ok (w : World) : Prop := Forall task_ok (pending w).

Record handlers_ok : Prop := {
  ok_onLoad : Φ onLoad;
  ok_useEffect_walletAddress v : Φ (useEffect_walletAddress v);
  ok_closure h s v : Φ (closure h s v)
}.

End policy_defs.

(** [WorldInv P Q Inv]: the property [Inv] of the world survives every
    effect allowed by [P], the filing of every request allowed by [Q], and
    the bookkeeping of the loop. *)
Class WorldInv (P : ∀ X, Action X → Prop) (Q : ∀ X, Call X → Prop)
    (Inv : World → Prop) : Prop := {
  inv_perform X (a : Action X) w : P X a → Inv w → Inv (perform X a w).2;
  inv_file_await X (c : Call X) k w :
    Q X c → Inv w → Inv (file (Awaiting c k, w));
  inv_file_thrown e w : Inv w → Inv (file (Thrown e, w));
  inv_delete i w : Inv w → Inv (set_pending (delete i) w);
  inv_loaded w : Inv w → Inv (set_loaded true w);
  inv_event w : Inv w → Inv (set_defaultPrevented false w);
  inv_solana s w : Inv w → Inv (set_solana s w);
  inv_unmount w : Inv w → Inv (set_mounted false (set_loadListener false w))
}.

(** * Execution: what a reaction can and cannot change *)

Section frame.
Implicit Types (w : World) (p : JS ()).

(** A projection of the world that no synchronous effect changes is not
    changed by a synchronous segment. *)
Lemma run_frame {A R} (F : World → A) (p : JS R) w :
  (∀ X (a : Action X) w, F (perform X a w).2 = F w) →
  F (run perform p w).2 = F w.
Proof.
  intros HF. revert w. induction p as [?|?|X a k IH|X c k IH]; intros w;
    simpl; try done.
  specialize (HF X a w). destruct (perform X a w) as [x w']. simpl in HF.
  by rewrite IH.
Qed.

Lemma perform_pending X (a : Action X) w : pending (perform X a w).2 = pending w.
Proof. by destruct a. Qed.
Lemma perform_issued X (a : Action X) w : issued (perform X a w).2 = issued w.
Proof. by destruct a. Qed.
Lemma perform_uncaught X (a : Action X) w : uncaught (perform X a w).2 = uncaught w.
Proof. by destruct a. Qed.
Lemma perform_solana X (a : Action X) w : solana (perform X a w).2 = solana w.
Proof. by destruct a. Qed.
Lemma perform_loaded X (a : Action X) w : loaded (perform X a w).2 = loaded w.
Proof. by destruct a. Qed.
Lemma perform_mounted X (a : Action X) w : mounted (perform X a w).2 = mounted w.
Proof. by destruct a. Qed.
Lemma perform_navigations X (a : Action X) w :
  navigations (perform X a w).2 = navigations w.
Proof. by destruct a. Qed.

(** [exec] appends: one task and one request for a suspension, one
    rejection for an uncaught exception. *)
Lemma exec_pending p w :
  pending (exec p w) = pending w ++ spawned (run perform p w).1.
Proof.
  unfold exec, file. pose proof (run_frame pending p w perform_pending) as Hf.
  destruct (run perform p w) as [[| |X c k] w']; simpl in *;
    rewrite ?app_nil_r; congruence.
Qed.

Lemma exec_issued p w :
  issued (exec p w) = issued w ++ (task_request <$> spawned (run perform p w).1).
Proof.
  unfold exec, file. pose proof (run_frame issued p w perform_issued) as Hf.
  destruct (run perform p w) as [[| |X c k] w']; simpl in *;
    rewrite ?app_nil_r; congruence.
Qed.

Lemma exec_uncaught p w :
  uncaught (exec p w) = uncaught w ++ thrown (run perform p w).1.
Proof.
  unfold exec, file. pose proof (run_frame uncaught p w perform_uncaught) as Hf.
  destruct (run perform p w) as [[| |X c k] w']; simpl in *;
    rewrite ?app_nil_r; congruence.
Qed.

(** What [exec] leaves to the synchronous segment. *)
Lemma exec_observe {A} (F : World → A) p w :
  (∀ f w, F (set_pending f w) = F w) →
  (∀ f w, F (set_issued f w) = F w) →
  (∀ f w, F (set_uncaught f w) = F w) →
  F (exec p w) = F (run perform p w).2.
Proof.
  intros Hp Hi Hu. unfold exec, file.
  destruct (run perform p w) as [[| |X c k] w'];
    cbn -[set_pending set_issued set_uncaught]; by rewrite ?Hp, ?Hi, ?Hu.
Qed.

Lemma exec_app p w : app (exec p w) = app (run perform p w).2.
Proof. by apply (exec_observe app). Qed.
Lemma exec_console p w : console (exec p w) = console (run perform p w).2.
Proof. by apply (exec_observe console). Qed.
Lemma exec_alerts p w : alerts (exec p w) = alerts (run perform p w).2.
Proof. by apply (exec_observe alerts). Qed.
Lemma exec_defaultPrevented p w :
  defaultPrevented (exec p w) = defaultPrevented (run perform p w).2.
Proof. by apply (exec_observe defaultPrevented). Qed.

Lemma exec_solana p w : solana (exec p w) = solana w.
Proof.
  rewrite (exec_observe solana) by done. apply run_frame, perform_solana.
Qed.
Lemma exec_navigations p w : navigations (exec p w) = navigations w.
Proof.
  rewrite (exec_observe navigations) by done.
  apply run_frame, perform_navigations.
Qed.
Lemma exec_loaded p w : loaded (exec p w) = loaded w.
Proof.
  rewrite (exec_observe loaded) by done. apply run_frame, perform_loaded.
Qed.
Lemma exec_mounted p w : mounted (exec p w) = mounted w.
Proof.
  rewrite (exec_observe mounted) by done. apply run_frame, perform_mounted.
Qed.

(** The cleanup is one effect. *)
Lemma unmount_eq `{Web3, Build} w :
  unmount w = set_mounted false (set_loadListener false w).
Proof. reflexivity. Qed.

(** A change of the world that the effects allowed by [P] neither see nor
    undo can be made before a synchronous segment or after it. *)
Lemma run_commute {R} (P : ∀ X, Action X → Prop) (Q : ∀ X, Call X → Prop)
    (F : World → World) (p : JS R) w :
  (∀ X (a : Action X) w, P X a →
     perform X a (F w) = ((perform X a w).1, F (perform X a w).2)) →
  safe P Q p →
  run perform p (F w) = ((run perform p w).1, F (run perform p w).2).
Proof.
  intros HF. revert w. induction p as [?|?|X a k IH|X c k IH]; intros w Hp;
    simpl in *; try done.
  destruct Hp as [Ha Hk]. rewrite (HF X a w Ha).
  destruct (perform X a w) as [x w1]. by apply IH.
Qed.

Lemma exec_commute (P : ∀ X, Action X → Prop) (Q : ∀ X, Call X → Prop)
    (F : World → World) p w :
  (∀ X (a : Action X) w, P X a →
     perform X a (F w) = ((perform X a w).1, F (perform X a w).2)) →
  (∀ r w, file (r, F w) = F (file (r, w))) →
  safe P Q p → exec p (F w) = F (exec p w).
Proof.
  intros HF Hfile Hp. unfold exec. rewrite (run_commute P Q F p w HF Hp).
  rewrite Hfile. by destruct (run perform p w).
Qed.

End frame.

(** * Runs *)

Section runs.
Context {web3 : Web3} {build : Build}.

Lemma reachable_run_events_from sol evs w w' :
  reachable sol w → run_events evs w = Some w' → reachable sol w'.
Proof.
  revert w. induction evs as [|ev evs IH]; intros w Hw Hr; simpl in Hr.
  - by simplify_eq.
  - destruct (step ev w) as [w1|] eqn:Hs; simplify_eq/=.
    eapply IH; [|done]. by eapply reach_step.
Qed.

(** Every world a sequence of events leads to from the mounted page is
    reachable. *)
Lemma reachable_run_events sol evs w :
  run_events evs (initial sol) = Some w → reachable sol w.
Proof. apply reachable_run_events_from. constructor. Qed.

Lemma reachable_run_events_inv sol w :
  reachable sol w → ∃ evs, run_events evs (initial sol) = Some w.
Proof.
  induction 1 as [|w ev w' Hr [evs IH] Hs]; [by exists []|].
  exists (evs ++ [ev]). revert IH. generalize (initial sol).
  induction evs as [|e evs IHe]; intros w0 Hw0; simpl in *.
  - simplify_eq. by rewrite Hs.
  - destruct (step e w0); simplify_eq/=. by apply IHe.
Qed.

(** The settlement of the promise of a pending task resumes the task, in
    the world without it. *)
Lemma step_settle w i X (c : Call X) k o :
  pending w !! i = Some (mkTask c k) →
  step (EvSettle i o) w =
  (λ s, dispatch (k s) (set_pending (delete i) w)) <$> settle_as c o.
Proof.
  intros Hi. cbn [step]. rewrite Hi. simpl. by destruct (settle_as c o).
Qed.

Lemma run_events_app evs1 evs2 (w : World) :
  run_events (evs1 ++ evs2) w = run_events evs1 w ≫= run_events evs2.
Proof.
  revert w. induction evs1 as [|e evs1 IH]; intros w; simpl; [done|].
  destruct (step e w); simpl; [apply IH | done].
Qed.

End runs.

(** * Invariants of the loop *)

(** ** The browser never navigates *)

Section prevent.
Context {web3 : Web3} {build : Build}.
Implicit Types (w : World) (p : JS ()).

(** No effect of the component clears the flag of the event. *)
Lemma run_defaultPrevented {R} (p : JS R) w :
  defaultPrevented w = true → defaultPrevented (run perform p w).2 = true.
Proof.
  revert w. induction p as [?|?|X a k IH|X c k IH]; intros w Hw; simpl;
    try done.
  destruct (perform X a w) as [x w'] eqn:Ha. apply IH.
  by destruct a; simpl in Ha; simplify_eq.
Qed.

Lemma exec_defaultPrevented_true p w :
  defaultPrevented w = true → defaultPrevented (exec p w) = true.
Proof. rewrite exec_defaultPrevented. apply run_defaultPrevented. Qed.

Lemma commit_defaultPrevented_true prev w :
  defaultPrevented w = true → defaultPrevented (commit prev w) = true.
Proof.
  unfold commit. case_match; [|done]. case_decide; [done|].
  apply exec_defaultPrevented_true.
Qed.

Lemma dispatch_sendGif_prevented inputValue w :
  defaultPrevented (dispatch (sendGif inputValue) w) = true.
Proof.
  unfold dispatch. apply commit_defaultPrevented_true.
  rewrite exec_defaultPrevented. unfold sendGif. prog_unfold. simpl.
  by apply run_defaultPrevented.
Qed.

(** Every user event the page offers leaves the browser nothing to do. *)
Lemma default_action_offered event h value w :
  (event, h) ∈ listeners (App (app w)) →
  let w' := dispatch (closure h (app w) value) (set_defaultPrevented false w) in
  default_action event w' = w'.
Proof.
  intros Hin; simpl. unfold default_action. case_decide as Hev; [|done].
  apply listeners_App_cases in Hin.
  destruct Hin as [(?&?&?)|[(?&?&?)|[(?&->&?)|(?&?&?)]]]; simplify_eq.
  simpl. by rewrite dispatch_sendGif_prevented.
Qed.

(** A user event is accepted on a mounted page that offers it, and runs
    the handler bound to it. *)
Lemma step_ui_offered event h value w w' :
  step (EvUI event h value) w = Some w' →
  mounted w = true ∧ (event, h) ∈ listeners (App (app w)) ∧
  w' = dispatch (closure h (app w) value) (set_defaultPrevented false w).
Proof.
  unfold step. destruct (mounted w); cbn [andb]; [|done].
  case_bool_decide as Hin; [|done]. intros [= <-].
  split_and!; [done..|]. apply default_action_offered, Hin.
Qed.

Lemma step_ui_enabled event h value w :
  mounted w = true → (event, h) ∈ listeners (App (app w)) →
  is_Some (step (EvUI event h value) w).
Proof. intros Hm Hin. unfold step. by rewrite Hm, bool_decide_eq_true_2. Qed.

End prevent.

(** ** Pending tasks keep a closed property *)

Section policy.
Context {web3 : Web3} {build : Build}.
Context (Φ : JS () → Prop) `{!Closed Φ}.
Implicit Types (w : World) (p : JS ()).

Lemma run_closed p w : Φ p → Forall (task_ok Φ) (spawned (run perform p w).1).
Proof.
  revert w. induction p as [?|?|X a k IH|X c k IH]; intros w Hp; simpl;
    try by constructor.
  destruct (perform X a w) as [x w']. apply IH. by eapply closed_act.
Qed.

Lemma exec_tasks_ok p w : Φ p → tasks_ok Φ w → tasks_ok Φ (exec p w).
Proof.
  unfold tasks_ok. rewrite exec_pending. intros. apply Forall_app.
  split; [done | by apply run_closed].
Qed.

Context (Hh : handlers_ok Φ).

Lemma commit_tasks_ok prev w : tasks_ok Φ w → tasks_ok Φ (commit prev w).
Proof.
  unfold commit. case_match; [|done]. case_decide; [done|].
  apply exec_tasks_ok, Hh.
Qed.

Lemma dispatch_tasks_ok p w : Φ p → tasks_ok Φ w → tasks_ok Φ (dispatch p w).
Proof. intros. by apply commit_tasks_ok, exec_tasks_ok. Qed.

Lemma resume_ok t o p : task_ok Φ t → resume t o = Some p → Φ p.
Proof.
  destruct t as [X c k]; simpl. intros Hk Hr.
  destruct (settle_as c o) as [s|]; simplify_eq/=. by eapply closed_await.
Qed.

Lemma step_tasks_ok ev w w' :
  tasks_ok Φ w → step ev w = Some w' → tasks_ok Φ w'.
Proof.
  intros Hw Hs. destruct ev as [|event h value|i o|s|]; simpl in Hs.
  - case_match; simplify_eq. apply dispatch_tasks_ok; [apply Hh | done].
  - destruct (step_ui_offered _ _ _ _ _ Hs) as (_ & Hin & ->).
    apply dispatch_tasks_ok; [apply Hh | done].
  - destruct (pending w !! i) as [t|] eqn:Hi; simplify_eq/=.
    destruct (resume t o) as [p|] eqn:Hr; simplify_eq/=.
    apply dispatch_tasks_ok.
    + eapply resume_ok; [|done]. by eapply Forall_lookup_Some.
    + by apply Forall_delete.
  - by simplify_eq.
  - by case_match; simplify_eq.
Qed.

Lemma initial_tasks_ok sol : tasks_ok Φ (initial sol).
Proof. constructor. Qed.

(** In every reachable world, every pending task has [Φ]. *)
Lemma reachable_tasks_ok sol w : reachable sol w → tasks_ok Φ w.
Proof.
  induction 1; [apply initial_tasks_ok | by eapply step_tasks_ok].
Qed.

Lemma reachable_task_ok sol w i t :
  reachable sol w → pending w !! i = Some t → task_ok Φ t.
Proof.
  intros Hr Hi. eapply Forall_lookup_Some; [|done]. by eapply reachable_tasks_ok.
Qed.

End policy.

#[export] Instance safe_Closed (P : ∀ X, Action X → Prop)
    (Q : ∀ X, Call X → Prop) : Closed (safe P Q).
Proof. split; simpl; intros; destruct_and?; eauto. Qed.

(** A handler suspends twice at most; what it leaves suspended once more
    at most. *)
#[export] Instance await_bound_Closed n : Closed (await_bound n).
Proof.
  split; simpl; intros; eauto.
  destruct n; [done|]. eapply await_bound_mono; [|eauto]. lia.
Qed.

#[export] Instance lawful_Closed L : Closed (lawful L).
Proof. split; simpl; intros; destruct_and?; eauto. Qed.

(** ** World invariants under a policy *)

Section world_inv.
Context {web3 : Web3} {build : Build}.
Context (P : ∀ X, Action X → Prop) (Q : ∀ X, Call X → Prop).
Context (Inv : World → Prop) `{!WorldInv P Q Inv}.
Context (Hh : handlers_ok (safe P Q)).
Implicit Types (w : World) (p : JS ()).

Lemma exec_inv p w : safe P Q p → Inv w → Inv (exec p w).
Proof.
  intros Hp Hw. unfold exec.
  destruct (run_safe P Q perform Inv p w) as [Hi Hk];
    [intros; by apply inv_perform | done | done |].
  destruct (run perform p w) as [[| |X c k] w']; simpl in Hi, Hk.
  - done.
  - by apply inv_file_thrown.
  - apply inv_file_await; [apply Hk | done].
Qed.

Lemma commit_inv prev w : Inv w → Inv (commit prev w).
Proof.
  unfold commit. case_match; [|done]. case_decide; [done|]. apply exec_inv, Hh.
Qed.

Lemma dispatch_inv p w : safe P Q p → Inv w → Inv (dispatch p w).
Proof. intros. by apply commit_inv, exec_inv. Qed.

(** One event keeps the invariant, provided the continuation it may resume
    is within the policy. *)
Lemma step_inv ev w w' :
  tasks_ok (safe P Q) w → Inv w → step ev w = Some w' → Inv w'.
Proof.
  intros Ht Hw Hs. destruct ev as [|event h value|i o|s|]; simpl in Hs.
  - case_match; simplify_eq. apply dispatch_inv; [apply Hh|by apply inv_loaded].
  - destruct (step_ui_offered _ _ _ _ _ Hs) as (_ & Hin & ->).
    apply dispatch_inv; [apply Hh | by apply inv_event].
  - destruct (pending w !! i) as [t|] eqn:Hi; simplify_eq/=.
    destruct (resume t o) as [p|] eqn:Hr; simplify_eq/=.
    apply dispatch_inv; [|by apply inv_delete].
    eapply (resume_ok (safe P Q)); [|done]. by eapply Forall_lookup_Some.
  - simplify_eq. by apply inv_solana.
  - case_match; simplify_eq. by apply inv_unmount.
Qed.

(** An invariant of the mounted page is an invariant of every reachable
    world. *)
Lemma reachable_inv sol w : Inv (initial sol) → reachable sol w → Inv w.
Proof.
  intros H0. induction 1 as [|w ev w' Hr IH Hs]; [done|].
  apply (step_inv ev w w'); [|done..].
  by apply (reachable_tasks_ok (safe P Q) Hh sol).
Qed.

End world_inv.

(** ** Combining policies and invariants *)

Section combine.
Context {web3 : Web3} {build : Build}.

Lemma and_Closed (Φ Ψ : JS () → Prop) :
  Closed Φ → Closed Ψ → Closed (λ p, Φ p ∧ Ψ p).
Proof.
  intros HΦ HΨ. split.
  - intros X a k x [??]. split; by eapply closed_act.
  - intros X c k s [??]. split; by eapply closed_await.
Qed.

Lemma handlers_ok_and (Φ Ψ : JS () → Prop) :
  handlers_ok Φ → handlers_ok Ψ → handlers_ok (λ p, Φ p ∧ Ψ p).
Proof. intros [] []. by split. Qed.

Lemma tasks_ok_impl (Φ Ψ : JS () → Prop) w :
  (∀ p, Φ p → Ψ p) → tasks_ok Φ w → tasks_ok Ψ w.
Proof.
  intros H Hw. eapply Forall_impl; [exact Hw|]. intros [X c k]. apply H.
Qed.

(** An invariant under a policy is one under a stricter policy. *)
Lemma WorldInv_weaken (P P' : ∀ X, Action X → Prop) (Q Q' : ∀ X, Call X → Prop)
    (Inv : World → Prop) :
  (∀ X a, P' X a → P X a) → (∀ X c, Q' X c → Q X c) →
  WorldInv P Q Inv → WorldInv P' Q' Inv.
Proof.
  intros HP HQ []. split; try done.
  - intros X a w ?%HP. by apply inv_perform0.
  - intros X c k w ?%HQ. by apply inv_file_await0.
Qed.

Lemma WorldInv_and (P : ∀ X, Action X → Prop) (Q : ∀ X, Call X → Prop)
    (I J : World → Prop) :
  WorldInv P Q I → WorldInv P Q J → WorldInv P Q (λ w, I w ∧ J w).
Proof.
  intros HI HJ.
  split; intros; destruct_and?; split;
    first [by apply (inv_perform (Inv:=I)) | by apply (inv_perform (Inv:=J))
          |by apply (inv_file_await (Inv:=I))
          |by apply (inv_file_await (Inv:=J))
          |by apply (inv_file_thrown (Inv:=I))
          |by apply (inv_file_thrown (Inv:=J))
          |by apply (inv_delete (Inv:=I)) | by apply (inv_delete (Inv:=J))
          |by apply (inv_loaded (Inv:=I)) | by apply (inv_loaded (Inv:=J))
          |by apply (inv_event (Inv:=I)) | by apply (inv_event (Inv:=J))
          |by apply (inv_solana (Inv:=I)) | by apply (inv_solana (Inv:=J))
          |by apply (inv_unmount (Inv:=I)) | by apply (inv_unmount (Inv:=J))].
Qed.

End combine.
