(* ===== verification/Spec.v ===== *)
(** * Spec: the view-model of the specification

    The specification describes the page by its data model (a session, an
    entry list that is uninitialised or populated, a draft) and by the
    operations of its two components: [tryReconnectSilently] and
    [connectInteractively] of the wallet session manager, [refreshList],
    [initializeStorage] and [submitEntry] of the entry list view-model.
    This file is that description as a machine of its own, written without
    the handlers: a [Model] holds the data and the remote operations in
    flight, each operation is a function on models, [settle] says what the
    answer to a remote operation does, [shown] is the control the UI
    surface offers, and [detach] takes the view off the page without
    cancelling anything.  [spec_step] reads the events of [EventLoop] as
    operations of this machine, and [spec_run] runs a sequence of them.

    The machine abstracts the page: a pending task is only the kind of
    operation it waits for, and the console, the record of requests and
    the browser's bookkeeping are absent.  [Refinement] shows that every
    step of the page is a step of this machine. *)

From S2P Require Import Prelude Js Async Remote Config Handlers Render EventLoop.

(** ** Data model *)

Inductive EntryListState :=
| Uninitialized
| Populated (entries : list GifItem).

#[export] Instance EntryListState_eq_dec : EqDecision EntryListState.
Proof. solve_decision. Defined.

(** A remote operation in flight. *)
Inductive Operation :=
| Connecting (interactive : bool)
| Fetching
| Submitting (link : string)
| Initializing.

#[export] Instance Operation_eq_dec : EqDecision Operation.
Proof. solve_decision. Defined.

Record Model := mkModel {
  session : option string;
  entryList : EntryListState;
  draftInput : string;
  walletProvider : option Solana;
  attached : bool;                (* the view is on the page *)
  reconnectDue : bool;            (* the one reconnection is still to come *)
  inFlight : list Operation;      (* oldest first *)
  started : list Operation;       (* every operation started, oldest first *)
  alerted : list string;
  unhandled : list JsError
}.

Definition with_session (v : option string) (m : Model) : Model :=
  mkModel v (entryList m) (draftInput m) (walletProvider m)
    (attached m) (reconnectDue m) (inFlight m)
    (started m) (alerted m) (unhandled m).
Definition with_entryList (v : EntryListState) (m : Model) : Model :=
  mkModel (session m) v (draftInput m) (walletProvider m)
    (attached m) (reconnectDue m) (inFlight m)
    (started m) (alerted m) (unhandled m).
Definition with_draftInput (v : string) (m : Model) : Model :=
  mkModel (session m) (entryList m) v (walletProvider m)
    (attached m) (reconnectDue m) (inFlight m)
    (started m) (alerted m) (unhandled m).
Definition with_walletProvider (v : option Solana) (m : Model) : Model :=
  mkModel (session m) (entryList m) (draftInput m) v
    (attached m) (reconnectDue m) (inFlight m)
    (started m) (alerted m) (unhandled m).
Definition with_attached (v : bool) (m : Model) : Model :=
  mkModel (session m) (entryList m) (draftInput m) (walletProvider m)
    v (reconnectDue m) (inFlight m)
    (started m) (alerted m) (unhandled m).
Definition with_reconnectDue (v : bool) (m : Model) : Model :=
  mkModel (session m) (entryList m) (draftInput m) (walletProvider m)
    (attached m) v (inFlight m)
    (started m) (alerted m) (unhandled m).
Definition with_inFlight (f : list Operation → list Operation) (m : Model)
  : Model :=
  mkModel (session m) (entryList m) (draftInput m) (walletProvider m)
    (attached m) (reconnectDue m) (f (inFlight m))
    (started m) (alerted m) (unhandled m).

(** Start a remote operation. *)
Definition start (op : Operation) (m : Model) : Model :=
  mkModel (session m) (entryList m) (draftInput m) (walletProvider m)
    (attached m) (reconnectDue m) (inFlight m ++ [op])
    (started m ++ [op]) (alerted m) (unhandled m).

(** Show a blocking alert. *)
Definition alert (msg : string) (m : Model) : Model :=
  mkModel (session m) (entryList m) (draftInput m) (walletProvider m)
    (attached m) (reconnectDue m) (inFlight m)
    (started m) (alerted m ++ [msg]) (unhandled m).

(** A rejection that reaches nobody. *)
Definition reject (e : JsError) (m : Model) : Model :=
  mkModel (session m) (entryList m) (draftInput m) (walletProvider m)
    (attached m) (reconnectDue m) (inFlight m)
    (started m) (alerted m) (unhandled m ++ [e]).

Global Arguments with_session _ _ / : assert.
Global Arguments with_entryList _ _ / : assert.
Global Arguments with_draftInput _ _ / : assert.
Global Arguments with_walletProvider _ _ / : assert.
Global Arguments with_reconnectDue _ _ / : assert.
Global Arguments with_attached _ _ / : assert.
Global Arguments with_inFlight _ _ / : assert.
Global Arguments start _ _ / : assert.
Global Arguments alert _ _ / : assert.
Global Arguments reject _ _ / : assert.

(** ** Wallet session manager *)

(** Ask a Phantom wallet for a connection it already trusts; attempted
    once, when the page has loaded. *)
Definition tryReconnectSilently (m : Model) : Model :=
  match walletProvider m with
  | Some provider =>
      if isPhantom provider then start (Connecting false) m else m
  | None => m
  end.

(** Ask the wallet for a connection, prompting the user; nothing without
    a wallet. *)
Definition connectInteractively (m : Model) : Model :=
  if walletProvider m is Some _ then start (Connecting true) m else m.

(** ** Entry list view-model *)

Definition refreshList : Model → Model := start Fetching.

Definition initializeStorage (m : Model) : Model :=
  if walletProvider m is Some _ then start Initializing m else m.

(** An empty draft is refused locally.  Otherwise the draft is cleared
    whatever follows, and the link is sent; without a wallet the
    submission fails on the spot. *)
Definition submitEntry (m : Model) : Model :=
  if decide (draftInput m = "") then m
  else
    let m' := with_draftInput "" m in
    if walletProvider m is Some _ then start (Submitting (draftInput m)) m'
    else alert "fal" m'.

Definition editDraft (text : string) : Model → Model := with_draftInput text.

(** A granted connection sets the session; on an attached view, a session
    that is new and present is followed by the first fetch. *)
Definition openSession (id : string) (m : Model) : Model :=
  let m' := with_session (Some id) m in
  if attached m then
    if decide (Some id = session m) then m'
    else if truthy id then refreshList m' else m'
  else m'.

(** Taking the view off the page cancels nothing: operations in flight
    are still answered. *)
Definition detach (m : Model) : Model := with_attached false m.

(** What the answer to an operation does; [None] when the answer is not
    one the operation can have. *)
Definition settle (op : Operation) (o : Outcome) (m : Model) : option Model :=
  match op, o with
  | Connecting _, Connected response =>
      Some (openSession (pk_toString (publicKey response)) m)
  | Connecting interactive, Failed e =>
      Some (if interactive then reject e m else m)
  | Fetching, Fetched account =>
      Some (with_entryList (Populated (acct_gifList account)) m)
  | Fetching, Failed _ => Some (with_entryList Uninitialized m)
  | Submitting _, Confirmed _ => Some (refreshList m)
  | Submitting _, Failed _ => Some (alert "fal" m)
  | Initializing, Confirmed _ => Some (refreshList m)
  | Initializing, Failed _ => Some m
  | _, _ => None
  end.

(** ** UI surface *)

Inductive Control := ConnectButton | InitializeButton | EntryForm.

#[export] Instance Control_eq_dec : EqDecision Control.
Proof. solve_decision. Defined.

Definition shown (m : Model) : Control :=
  if truthy (session m) then
    match entryList m with
    | Uninitialized => InitializeButton
    | Populated _ => EntryForm
    end
  else ConnectButton.

(** The control an event binding belongs to, and the event it answers. *)
Definition control_of (h : Handler) : Control * string :=
  match h with
  | H_connectWallet => (ConnectButton, "click")
  | H_createGifAccount => (InitializeButton, "click")
  | H_sendGif => (EntryForm, "submit")
  | H_onInputChange => (EntryForm, "change")
  end.

Definition operate (h : Handler) (value : string) : Model → Model :=
  match h with
  | H_connectWallet => connectInteractively
  | H_createGifAccount => initializeStorage
  | H_sendGif => submitEntry
  | H_onInputChange => editDraft value
  end.

(** ** The machine *)

Definition spec_step (ev : Event) (m : Model) : option Model :=
  match ev with
  | EvLoad =>
      if attached m && reconnectDue m
      then Some (tryReconnectSilently (with_reconnectDue false m))
      else None
  | EvUI event h value =>
      if attached m && bool_decide (control_of h = (shown m, event))
      then Some (operate h value m) else None
  | EvSettle i o =>
      op ← inFlight m !! i;
      settle op o (with_inFlight (delete i) m)
  | EvWallet provider => Some (with_walletProvider provider m)
  | EvUnmount => if attached m then Some (detach m) else None
  end.

(** The page as it opens: no session, an empty list, the draft the page
    is delivered with, nothing in flight. *)
Definition spec_initial (provider : option Solana) : Model := {|
  session := None;
  entryList := Populated [];
  draftInput := inputValue initialState;
  walletProvider := provider;
  attached := true;
  reconnectDue := true;
  inFlight := [];
  started := [];
  alerted := [];
  unhandled := []
|}.

Inductive spec_reachable (provider : option Solana) : Model → Prop :=
| spec_reach_initial : spec_reachable provider (spec_initial provider)
| spec_reach_step m ev m' :
    spec_reachable provider m → spec_step ev m = Some m' →
    spec_reachable provider m'.

(** ** Properties of the machine *)

(** Operations on the remote program. *)
Definition on_program (op : Operation) : Prop :=
  match op with Connecting _ => False | _ => True end.

#[export] Instance on_program_dec op : Decision (on_program op).
Proof. destruct op; simpl; apply _. Defined.

(** The operations that change what the program holds. *)
Definition transaction (op : Operation) : Prop :=
  match op with Submitting _ | Initializing => True | _ => False end.

(** The events that can start one: the form and the initialisation
    button. *)
Definition transacts (ev : Event) : Prop :=
  match ev with
  | EvUI _ H_sendGif _ | EvUI _ H_createGifAccount _ => True
  | _ => False
  end.

(** No operation on the program is started outside a session. *)
Definition program_needs_session (m : Model) : Prop :=
  session m = None →
  Forall (λ op, ¬ on_program op) (started m) ∧
  Forall (λ op, ¬ on_program op) (inFlight m).

(** The machine run over a sequence of events. *)
Fixpoint spec_run (evs : list Event) (m : Model) : option Model :=
  match evs with
  | [] => Some m
  | ev :: evs => spec_step ev m ≫= spec_run evs
  end.

(** Name the operations a step has started: none or one. *)
Ltac started_ops :=
  cbn;
  first [ exists []; split; [by rewrite app_nil_r|]
        | eexists [_]; split; [done|] ];
  first [ by left | right; repeat constructor; by intros [] ].

Section spec_facts.
Implicit Types (m : Model) (op : Operation) (o : Outcome).

Lemma operate_session h value m :
  is_Some (session m) → is_Some (session (operate h value m)).
Proof.
  destruct h; simpl;
    unfold connectInteractively, initializeStorage, submitEntry;
    repeat case_match; done.
Qed.

Lemma settle_session op o m m' :
  settle op o m = Some m' → is_Some (session m) → is_Some (session m').
Proof.
  destruct op, o; simpl; intros; simplify_eq; try done;
    unfold openSession; repeat case_match; simpl; eauto.
Qed.

(** A user event is accepted on an attached view, on the control shown. *)
Lemma spec_step_ui_inv event h value m m' :
  spec_step (EvUI event h value) m = Some m' →
  attached m = true ∧ control_of h = (shown m, event) ∧
  m' = operate h value m.
Proof.
  simpl. destruct (attached m); simpl; [|done].
  case_bool_decide; by intros [= <-].
Qed.

(** The session changes only when a connection is granted, and then to
    the identifier the wallet answers with. *)
Lemma spec_step_session_inv ev m m' :
  spec_step ev m = Some m' →
  session m' = session m ∨
  ∃ i response, ev = EvSettle i (Connected response) ∧
                session m' = Some (pk_toString (publicKey response)).
Proof.
  destruct ev as [|event h value|i o|provider|]; cbn [spec_step].
  - case_match; intros [= <-]. left. unfold tryReconnectSilently.
    by repeat case_match.
  - intros (_ & _ & ->)%spec_step_ui_inv. left. destruct h; simpl;
      unfold connectInteractively, initializeStorage, submitEntry;
      by repeat case_match.
  - intros (op & _ & Hs)%bind_Some.
    destruct op, o; simpl in Hs; simplify_eq; try (by left);
      try (left; by case_match).
    right. eexists _, _. split; [done|]. unfold openSession.
    by repeat case_match.
  - intros [= <-]. by left.
  - case_match; intros [= <-]. by left.
Qed.

(** Transactions are started by the user, on the form or the
    initialisation button: every other event starts connections and
    fetches only. *)
Lemma spec_step_transaction ev m m' :
  spec_step ev m = Some m' →
  ∃ ops, started m' = started m ++ ops ∧
         (transacts ev ∨ Forall (λ op, ¬ transaction op) ops).
Proof.
  destruct ev as [|event h value|i o|provider|]; cbn [spec_step].
  - case_match; intros [= <-]. unfold tryReconnectSilently.
    repeat case_match; started_ops.
  - intros (_ & _ & ->)%spec_step_ui_inv.
    destruct h; simpl;
      unfold connectInteractively, initializeStorage, submitEntry;
      repeat case_match; started_ops.
  - intros (op & _ & Hs)%bind_Some.
    destruct op, o; simpl in Hs; simplify_eq; unfold openSession;
      repeat case_match; started_ops.
  - intros [= <-]. started_ops.
  - case_match; intros [= <-]. started_ops.
Qed.

(** The machine has no disconnect. *)
Lemma spec_step_session ev m m' :
  spec_step ev m = Some m' → is_Some (session m) → is_Some (session m').
Proof. intros [->|(? & ? & _ & ->)]%spec_step_session_inv; eauto. Qed.

Lemma session_None_shown m : session m = None → shown m = ConnectButton.
Proof. unfold shown. by intros ->. Qed.

Lemma operate_needs_session h value m :
  control_of h = (ConnectButton, "click") →
  program_needs_session m → program_needs_session (operate h value m).
Proof.
  destruct h; try done. intros _ Hm Hs. simpl in *.
  unfold connectInteractively in *. destruct (walletProvider m); simpl in *;
    destruct (Hm Hs); [|done].
  split; auto with gif.
Qed.

Lemma settle_needs_session op o m m' :
  settle op o m = Some m' → ¬ on_program op → session m' = None →
  session m = None ∧ started m' = started m ∧ inFlight m' = inFlight m.
Proof.
  destruct op, o; simpl; intros; simplify_eq; try done.
  - unfold openSession in *. by repeat case_match.
  - by case_match.
Qed.

(** Every step of the machine keeps program operations inside sessions. *)
Lemma spec_step_needs_session ev m m' :
  spec_step ev m = Some m' →
  program_needs_session m → program_needs_session m'.
Proof.
  destruct ev as [|event h value|i o|provider|]; simpl.
  - case_match; intros [= <-] Hm Hs. unfold tryReconnectSilently in *.
    repeat case_match; simpl in *; destruct (Hm Hs); try done.
    split; auto with gif.
  - intros (_ & Hc & ->)%spec_step_ui_inv Hm.
    destruct (session m) eqn:Hs.
    + intros Hs'. destruct (operate_session h value m) as [? Ho];
        [by rewrite Hs|]. by rewrite Hs' in Ho.
    + rewrite (session_None_shown _ Hs) in Hc.
      apply operate_needs_session; [|done]. by destruct h; simplify_eq/=.
  - destruct (inFlight m !! i) as [op|] eqn:Hi; simpl; [|done].
    intros Hst Hm Hs'.
    destruct (session m) eqn:Hs.
    { destruct (settle_session _ _ _ _ Hst) as [? Ho];
        [done|]. by rewrite Hs' in Ho. }
    destruct (Hm Hs) as [Hall Hfl].
    pose proof (Forall_lookup_Some _ _ _ _ Hfl Hi) as Hop.
    destruct (settle_needs_session _ _ _ _ Hst Hop Hs') as (_ & -> & ->).
    simpl. auto with gif.
  - by intros [= <-].
  - by case_match; intros [= <-].
Qed.

Lemma spec_reachable_needs_session provider m :
  spec_reachable provider m → program_needs_session m.
Proof.
  induction 1 as [|m ev m' _ IH Hs]; [by split|].
  by apply (spec_step_needs_session ev m).
Qed.

(** The entry list changes only when a fetch is answered. *)
Lemma spec_step_entryList ev m m' :
  spec_step ev m = Some m' →
  entryList m' = entryList m ∨ entryList m' = Uninitialized ∨
  ∃ i a, ev = EvSettle i (Fetched a) ∧ entryList m' = Populated (acct_gifList a).
Proof.
  destruct ev as [|event h value|i o|provider|]; cbn [spec_step].
  - case_match; intros [= <-]. left. unfold tryReconnectSilently.
    by repeat case_match.
  - intros (_ & _ & ->)%spec_step_ui_inv. left. destruct h; simpl;
      unfold connectInteractively, initializeStorage, submitEntry;
      by repeat case_match.
  - intros (op & _ & Hs)%bind_Some.
    destruct op, o; simpl in Hs; simplify_eq;
      first [by left; unfold openSession; repeat case_match
            |by right; left | by right; right; eauto].
  - intros [= <-]. by left.
  - case_match; intros [= <-]. by left.
Qed.

(** ** Coming to rest *)

(** A failed operation starts nothing. *)
Lemma settle_failed op e m :
  ∃ m', settle op (Failed e) m = Some m' ∧ inFlight m' = inFlight m ∧
        started m' = started m ∧ session m' = session m.
Proof. destruct op as [[]| | |]; simpl; eauto. Qed.

(** When every operation in flight fails, oldest first, the machine comes
    to rest having started nothing. *)
Lemma spec_fail_all e m :
  ∃ m', spec_run (replicate (length (inFlight m)) (EvSettle 0 (Failed e))) m
        = Some m' ∧
        inFlight m' = [] ∧ started m' = started m ∧ session m' = session m.
Proof.
  remember (length (inFlight m)) as n eqn:Hn. revert m Hn.
  induction n as [|n IH]; intros m Hn.
  - exists m. simpl. by rewrite (nil_length_inv (inFlight m)).
  - assert (is_Some (inFlight m !! 0)) as [op Hop]
      by (apply lookup_lt_is_Some; lia).
    destruct (settle_failed op e (with_inFlight (delete 0) m))
      as (m1 & Hs & Hf1 & Hst & Hse).
    destruct (IH m1) as (m' & Hrun & ? & ? & ?).
    { rewrite Hf1. simpl. rewrite length_delete by eauto. lia. }
    simpl in Hst, Hse. exists m'. split_and!; [|done|congruence..].
    change (spec_step (EvSettle 0 (Failed e)) m ≫=
            spec_run (replicate n (EvSettle 0 (Failed e))) = Some m').
    simpl spec_step. rewrite Hop. simpl in Hs |- *. by rewrite Hs.
Qed.

End spec_facts.
