(* ===== verification/Accounting.v ===== *)
(** * Accounting: the books of the specification's machine balance

    The machine of [Spec] keeps two records, the operations in flight and
    every operation ever started, beside the rejections that reached
    nobody.  This file states what ties them together, and shows that
    every step of the machine keeps it:
    - an operation in flight was started, and the two records list the
      operations in the same order;
    - the silent reconnection is started once at most, and not before the
      page has loaded;
    - every rejection that reached nobody is the answer to an interactive
      connection of its own: the rejections and the interactive
      connections still in flight together are no more than the
      interactive connections started;
    - outside a session nothing is asked of the program
      ([Spec.program_needs_session]).
    [model_wf] is their conjunction; it is decidable, so a model given by
    its fields is checked by evaluation. *)

From S2P Require Import Prelude Js Async Remote Config Handlers Render EventLoop Spec.

(** The reconnection attempted when the page has loaded. *)
Definition silent (op : Operation) : Prop := op = Connecting false.

(** The connection the user asks for. *)
Definition prompted (op : Operation) : Prop := op = Connecting true.

#[export] Instance silent_dec op : Decision (silent op).
Proof. unfold silent. apply _. Defined.

#[export] Instance prompted_dec op : Decision (prompted op).
Proof. unfold prompted. apply _. Defined.

(** The books balance, with [slack] interactive connections taken out of
    flight and not yet answered. *)
Definition accounted (slack : nat) (m : Model) : Prop :=
  inFlight m `sublist_of` started m ∧
  count silent (started m) ≤ (if reconnectDue m then 0 else 1) ∧
  length (unhandled m) + count prompted (inFlight m) + slack
    ≤ count prompted (started m).

Definition model_wf (m : Model) : Prop :=
  accounted 0 m ∧ program_needs_session m.

#[export] Instance accounted_dec slack m : Decision (accounted slack m).
Proof. unfold accounted. apply _. Defined.

#[export] Instance model_wf_dec m : Decision (model_wf m).
Proof. unfold model_wf, program_needs_session. apply _. Defined.

Section accounting.
Implicit Types (m : Model) (op : Operation) (o : Outcome) (slack : nat).

Lemma accounted_weaken slack m : accounted slack m → accounted 0 m.
Proof. intros (? & ? & ?). split_and!; [done..|lia]. Qed.

(** Starting an operation enters it in both records. *)
Lemma accounted_start op slack m :
  ¬ silent op → accounted slack m → accounted slack (start op m).
Proof.
  intros Hs (Hsub & Hre & Hun). split_and!; simpl.
  - by apply sublist_app.
  - rewrite count_snoc. unfold tally. by rewrite decide_False, Nat.add_0_r.
  - rewrite !count_snoc. lia.
Qed.

(** The one silent reconnection, when it is due. *)
Lemma accounted_reconnect m :
  reconnectDue m = true → accounted 0 m →
  accounted 0 (tryReconnectSilently (with_reconnectDue false m)).
Proof.
  intros Hd (Hsub & Hre & Hun). rewrite Hd in Hre.
  unfold tryReconnectSilently. simpl.
  destruct (walletProvider m) as [[[] ?]|]; split_and!; simpl;
    autorewrite with counting; unfold tally; simpl;
    try apply sublist_app; try done; lia.
Qed.

Lemma operate_accounted h value m :
  accounted 0 m → accounted 0 (operate h value m).
Proof.
  intros Hm. destruct h; simpl;
    unfold connectInteractively, initializeStorage, submitEntry, editDraft;
    repeat case_match; try done; by apply accounted_start.
Qed.

(** An operation taken out of flight to be answered: when it is an
    interactive connection, one is missing from the books until the
    answer is entered. *)
Lemma accounted_take i op m :
  inFlight m !! i = Some op → accounted 0 m →
  accounted (tally prompted op) (with_inFlight (delete i) m).
Proof.
  intros Hi (Hsub & Hre & Hun). split_and!; simpl; [|done|].
  - etrans; [apply sublist_delete | done].
  - rewrite (count_delete prompted _ _ _ Hi) in Hun. lia.
Qed.

Lemma openSession_accounted id slack m :
  accounted slack m → accounted 0 (openSession id m).
Proof.
  intros Hm%accounted_weaken. unfold openSession.
  repeat case_match; try done. by apply (accounted_start Fetching).
Qed.

(** The answer enters the books: a rejected interactive connection is the
    rejection that reaches nobody. *)
Lemma settle_accounted op o m m' :
  settle op o m = Some m' → accounted (tally prompted op) m → accounted 0 m'.
Proof.
  destruct op as [[]| | |], o; simpl; intros [= <-] Hm;
    try (by apply accounted_weaken in Hm);
    try (by apply accounted_start; [|apply accounted_weaken in Hm]);
    try (by eapply openSession_accounted).
  destruct Hm as (? & ? & Hun). split_and!; simpl; [done..|].
  change (tally prompted (Connecting true)) with 1 in Hun.
  rewrite length_app. simpl. lia.
Qed.

(** Every step of the machine keeps the books. *)
Lemma spec_step_accounted ev m m' :
  spec_step ev m = Some m' → accounted 0 m → accounted 0 m'.
Proof.
  destruct ev as [|event h value|i o|provider|]; cbn [spec_step].
  - case_match eqn:Hg; intros [= <-]. apply andb_prop in Hg as [_ Hd].
    by apply accounted_reconnect.
  - intros (_ & _ & ->)%spec_step_ui_inv. apply operate_accounted.
  - destruct (inFlight m !! i) as [op|] eqn:Hi; simpl; [|done].
    intros Hs Hm. eapply settle_accounted; [done|]. by apply accounted_take.
  - by intros [= <-].
  - by case_match; intros [= <-].
Qed.

Lemma spec_step_wf ev m m' : spec_step ev m = Some m' → model_wf m → model_wf m'.
Proof.
  intros Hs [? ?]. split;
    [by eapply spec_step_accounted | by eapply spec_step_needs_session].
Qed.

Lemma spec_initial_wf provider : model_wf (spec_initial provider).
Proof.
  split; [|done]. split_and!; simpl; rewrite ?count_nil; [|lia..].
  apply sublist_nil.
Qed.

Lemma spec_reachable_wf provider m : spec_reachable provider m → model_wf m.
Proof.
  induction 1; [apply spec_initial_wf | by eapply spec_step_wf].
Qed.

End accounting.
