(* ===== verification/Scenarios.v ===== *)
(** * Scenarios: concrete runs of the page

    Sequences of events on the configuration of [Fixture] and the worlds
    they lead to, found by evaluation.  They are the inputs of the worked
    examples of the files that follow; [Examples] evaluates them to the
    end. *)

From S2P Require Import Prelude Js Async Remote Config Fixture Handlers Render EventLoop.

Definition connect_alice : Outcome := Connected (mkConnectResponse alice).

(** The silent reconnection succeeds and the first fetch returns one
    entry. *)
Definition evs_reconnect : list Event :=
  [EvLoad; EvSettle 0 connect_alice; EvSettle 0 (Fetched (mkAccount [gif1]))].

(** Then the user types a link and submits it; the transaction is
    confirmed and the refetch returns two entries. *)
Definition evs_submit : list Event :=
  evs_reconnect ++
  [EvUI "change" H_onInputChange "https://x/z.gif";
   EvUI "submit" H_sendGif "";
   EvSettle 0 (Confirmed "sig1");
   EvSettle 0 (Fetched (mkAccount [gif1; gif2]))].

(** The storage account does not exist yet: the fetch fails, the user
    initialises it, and the refetch returns the empty list. *)
Definition evs_initialise : list Event :=
  [EvLoad; EvSettle 0 connect_alice;
   EvSettle 0 (Failed (mkJsError "Error" "Account does not exist"));
   EvUI "click" H_createGifAccount "";
   EvSettle 0 (Confirmed "sig0");
   EvSettle 0 (Fetched (mkAccount []))].

(** The user connects by hand and declines in the wallet's dialog. *)
Definition evs_declined : list Event :=
  [EvUI "click" H_connectWallet "";
   EvSettle 0 (Failed (mkJsError "Error" "User rejected the request."))].

(** Two fetches in flight settle in the opposite order: the reconnection's
    fetch (issued first, answered with the older list) settles after the
    refetch of a submission. *)
Definition evs_stale : list Event :=
  [EvLoad; EvSettle 0 connect_alice;
   EvUI "submit" H_sendGif "";
   EvSettle 1 (Confirmed "sig1");
   EvSettle 1 (Fetched (mkAccount [gif1]));
   EvSettle 0 (Fetched (mkAccount []))].

Section scenarios.
#[local] Existing Instances demo_web3 demo_build.

Definition run_demo (evs : list Event) : option World :=
  run_events evs (initial (Some phantom)).

Definition state_after (evs : list Event) : option AppState :=
  app <$> run_demo evs.

(** The world a scenario ends in (the bare page if it cannot run). *)
Definition world_after (evs : list Event) : World :=
  default (page None) (run_demo evs).

(** Connected, with the first fetch in flight. *)
Definition w_connected : World := world_after [EvLoad; EvSettle 0 connect_alice].

(** Connected, the list fetched, nothing in flight. *)
Definition w_listed : World := world_after evs_reconnect.

(** A link typed into the text box. *)
Definition w_typed : World :=
  world_after (evs_reconnect ++ [EvUI "change" H_onInputChange "https://x/z.gif"]).

(** The link submitted: an [addGif] in flight. *)
Definition w_submitted : World :=
  world_after (evs_reconnect ++
    [EvUI "change" H_onInputChange "https://x/z.gif"; EvUI "submit" H_sendGif ""]).

(** The storage account missing and the initialisation requested. *)
Definition w_initialising : World :=
  world_after
    [EvLoad; EvSettle 0 connect_alice;
     EvSettle 0 (Failed (mkJsError "Error" "Account does not exist"));
     EvUI "click" H_createGifAccount ""].

(** Two fetches in flight: the reconnection's, and the refetch that
    follows a confirmed submission. *)
Definition w_two_fetches : World :=
  world_after
    [EvLoad; EvSettle 0 connect_alice; EvUI "submit" H_sendGif "";
     EvSettle 1 (Confirmed "sig1")].

(** The refetch answered first, with one entry; the reconnection's fetch
    still in flight. *)
Definition w_refetched : World :=
  world_after
    [EvLoad; EvSettle 0 connect_alice; EvUI "submit" H_sendGif "";
     EvSettle 1 (Confirmed "sig1"); EvSettle 1 (Fetched (mkAccount [gif1]))].

(** The connect button clicked: an interactive connection in flight. *)
Definition w_connecting : World := world_after [EvUI "click" H_connectWallet ""].

(** Connected, and the draft the page opens with submitted at once: an
    [addGif] in flight behind the first fetch. *)
Definition w_sent : World :=
  world_after [EvLoad; EvSettle 0 connect_alice; EvUI "submit" H_sendGif ""].

(** The link submitted and the component taken off the page with the
    [addGif] still in flight. *)
Definition w_abandoned : World :=
  world_after (evs_reconnect ++
    [EvUI "change" H_onInputChange "https://x/z.gif"; EvUI "submit" H_sendGif "";
     EvUnmount]).

Lemma run_demo_reachable evs w :
  run_demo evs = Some w → reachable (Some phantom) w.
Proof. apply reachable_run_events. Qed.

Lemma world_after_reachable evs :
  is_Some (run_demo evs) → reachable (Some phantom) (world_after evs).
Proof.
  intros [w Hw]. apply (run_demo_reachable evs). unfold world_after.
  by rewrite Hw.
Qed.

End scenarios.

(** Tactics for the worked examples: name the world an event leads to and
    the task at a position, both found by evaluation. *)
Ltac next_world ev w w' Hs :=
  destruct (step (web3 := demo_web3) (build := demo_build) ev w)
    as [w'|] eqn:Hs; [|by vm_compute in Hs].

Ltac pending_task w i t Ht :=
  destruct (pending w !! i) as [t|] eqn:Ht; [|by vm_compute in Ht].

Ltac task_is Ht := vm_compute in Ht; injection Ht as <-; reflexivity.

Ltac demo_reachable := apply world_after_reachable; vm_compute; eauto.
