(* ===== verification/Safety.v ===== *)
(** * Safety: what the page never does, whatever the environment does

    The environment chooses the wallet object, the order in which promises
    settle and what they settle with, and the user chooses among the events
    the page offers.  The theorems of this file hold in every world
    reachable that way ([EventLoop.reachable]):
    - every request sent is well formed ([request_ok]): an [addGif] never
      carries an empty link, and every request names the program of the
      IDL and the storage account of the keypair;
    - the session is never dropped: no reaction resets [walletAddress] to
      [null];
    - a form submission never makes the browser navigate;
    - a pending task needs at most two settlements to finish;
    - the [load] listener is registered exactly while the component is
      mounted ([reachable_listening]).
    Each is the invariant of a policy on effects and requests that every
    handler keeps; [WellFormed] combines them into the one invariant of
    the page. *)

From S2P Require Import Prelude Js Async Remote Config Fixture Handlers Render EventLoop Scenarios.

Section safety_defs.
Context {web3 : Web3} {build : Build}.

(** The requests the source means to send. *)
Definition request_ok (r : Request) : Prop :=
  match r with
  | ReqConnect _ => True
  | ReqAddGif program link accounts =>
      link ≠ "" ∧
      prog_idl program = idl ∧ prog_programId program = programID ∧
      ag_baseAccount accounts = kp_publicKey baseAccount
  | ReqStartStuffOff program accounts signers =>
      prog_idl program = idl ∧ prog_programId program = programID ∧
      ss_baseAccount accounts = kp_publicKey baseAccount ∧
      ss_systemProgram accounts = SystemProgram_programId ∧
      signers = [baseAccount]
  | ReqFetch program address =>
      prog_idl program = idl ∧ prog_programId program = programID ∧
      address = kp_publicKey baseAccount
  end.

Definition call_ok (X : Type) (c : Call X) : Prop := request_ok (request_of c).

(** Every effect but clearing the session. *)
Definition keeps_session (X : Type) (a : Action X) : Prop :=
  match a with
  | SetWalletAddress None => False
  | _ => True
  end.

(** Every effect but adding or removing the [load] listener. *)
Definition keeps_listener (X : Type) (a : Action X) : Prop :=
  match a with
  | AddLoadListener | RemoveLoadListener => False
  | _ => True
  end.

Definition any_action (X : Type) (a : Action X) : Prop := True.
Definition any_call (X : Type) (c : Call X) : Prop := True.

Definition requests_ok (w : World) : Prop := Forall request_ok (issued w).
Definition connected (w : World) : Prop := is_Some (walletAddress (app w)).
Definition never_navigated (w : World) : Prop := navigations w = 0.
Definition listening (w : World) : Prop := loadListener w = mounted w.

End safety_defs.

Section safety.
Context {web3 : Web3} {build : Build}.
Implicit Types (w : World) (sol : option Solana).

(** ** Policies the handlers follow *)

Lemma handlers_any : handlers_ok (safe any_action any_call).
Proof.
  split; [|intros v|intros [] s v]; simpl; handler_paths.
Qed.

Lemma handlers_call_ok : handlers_ok (safe any_action call_ok).
Proof.
  split; [|intros v|intros [] s v]; simpl; handler_paths;
    by apply string_length_eqb_nonzero.
Qed.

Lemma handlers_keep_session : handlers_ok (safe keeps_session any_call).
Proof.
  split; [|intros v|intros [] s v]; simpl; handler_paths.
Qed.

Lemma handlers_keep_listener : handlers_ok (safe keeps_listener any_call).
Proof.
  split; [|intros v|intros [] s v]; simpl; handler_paths.
Qed.

Lemma handlers_await_bound : handlers_ok (await_bound 2).
Proof.
  split; [|intros v|intros [] s v]; simpl; handler_paths.
Qed.

(** ** The invariants *)

#[export] Instance requests_ok_inv : WorldInv any_action call_ok requests_ok.
Proof.
  split; unfold requests_ok; try done.
  - intros X a w _. by rewrite perform_issued.
  - intros X c k w Hc Hw. simpl. auto with gif.
Qed.

#[export] Instance connected_inv : WorldInv keeps_session any_call connected.
Proof.
  split; unfold connected; try done.
  intros X a w Ha Hw. destruct a as [| | | |[v|]| | | | |]; simpl in *; done || eauto.
Qed.

#[export] Instance never_navigated_inv :
  WorldInv any_action any_call never_navigated.
Proof.
  split; unfold never_navigated; try done.
  intros X a w _. by rewrite perform_navigations.
Qed.

#[export] Instance listening_inv : WorldInv keeps_listener any_call listening.
Proof.
  split; unfold listening; try done.
  intros X a w Ha Hw. by destruct a.
Qed.

(** The listener is registered exactly while the component is mounted:
    the first effect adds it, its cleanup removes it, and no handler
    touches it. *)
Lemma reachable_listening sol w : reachable sol w → listening w.
Proof. by apply (reachable_inv _ _ listening handlers_keep_listener). Qed.

(** C1. Every request the page has ever sent is well formed: it names the
    program of the IDL and the storage account of the keypair, an
    initialisation is signed by that keypair, and an [addGif] carries a
    link that is not empty. *)
Theorem reachable_requests_ok sol w :
  reachable sol w → requests_ok w.
Proof.
  apply (reachable_inv _ _ requests_ok handlers_call_ok). constructor.
Qed.

(** C15. There is no disconnect: an event never resets the session. *)
Theorem session_never_dropped sol w ev w' :
  reachable sol w → step ev w = Some w' → connected w → connected w'.
Proof.
  intros Hr Hs Hc.
  eapply (step_inv _ _ connected handlers_keep_session); [|done..].
  by eapply reachable_tasks_ok; [apply _ | apply handlers_keep_session|].
Qed.

(** C23. Submitting the form never reloads the page: the one handler of a
    submit event, [sendGif], calls [preventDefault] before anything else,
    on the empty draft too, so in no reachable world has the browser
    performed the default action of a form submission. *)
Theorem reachable_never_navigated sol w :
  reachable sol w → never_navigated w.
Proof. by apply (reachable_inv _ _ never_navigated handlers_any). Qed.

(** A pending task is resumed at most twice before it is finished: its
    continuation suspends at most once more. *)
Theorem pending_await_bound sol w i X (c : Call X) k s :
  reachable sol w → pending w !! i = Some (mkTask c k) → await_bound 1 (k s).
Proof.
  intros Hr Hi.
  by pose proof (reachable_task_ok _ handlers_await_bound _ _ _ _ Hr Hi s).
Qed.

End safety.

(** * Worked examples *)

Section safety_examples.
#[local] Existing Instances demo_web3 demo_build.

(** With the preset draft submitted right after the reconnection, the
    requests sent so far (the trusted connection, the first fetch and the
    [addGif]) are well formed. *)
Lemma reachable_requests_ok_witness : requests_ok w_sent.
Proof. apply (reachable_requests_ok (Some phantom)). demo_reachable. Defined.

(** Connected, with a link submitted, and the oldest request in flight
    fails: the handler that awaited it runs its [catch], and the session
    is still open. *)
Lemma session_never_dropped_witness :
  from_option connected False
    (step (EvSettle 0 (Failed (mkJsError "Error" "Account does not exist")))
       w_sent).
Proof.
  next_world (EvSettle 0 (Failed (mkJsError "Error" "Account does not exist")))
    w_sent w' Hs.
  cbn [from_option]. eapply (session_never_dropped (Some phantom) w_sent);
    [demo_reachable | exact Hs | by eexists].
Defined.

(** The form was submitted and the page is still the same page. *)
Lemma reachable_never_navigated_witness : never_navigated w_sent.
Proof. apply (reachable_never_navigated (Some phantom)). demo_reachable. Defined.

(** The task of the connect button: once the wallet has declined,
    nothing of it is left to wait for. *)
Lemma pending_await_bound_witness :
  from_option
    (λ t, match t with
          | mkTask c k => await_bound 1 (k (Rejected (TypeError "rejected")))
          end)
    False (pending w_connecting !! 0).
Proof.
  pending_task w_connecting 0 t Ht. simpl. destruct t as [X c k].
  apply (pending_await_bound (Some phantom) w_connecting 0 X c k);
    [demo_reachable | exact Ht].
Defined.

End safety_examples.
