(* ===== verification/History.v ===== *)
(** * History: the page never reads what it has written

    A world records what the page has done so far: the requests sent,
    the console, the alerts, the unhandled rejections, the navigations.
    No effect of [Handlers.Action] reads any of them, so a reaction does
    the same, and writes the same, whatever the page did before:
    - [prepend h w] is the world [w] with the history [h] before its own;
    - [exec], [commit], [dispatch], [step] and [run_events] commute with
      [prepend h] ([history_is_write_only]);
    - two worlds are equivalent, [w1 ≡ w2], when they differ in their
      histories only; [step] and [run_events] respect the equivalence
      ([step_proper], [run_events_proper]), so a statement about the state
      of the page can be proved on the world with the empty history
      ([forget]). *)

From S2P Require Import Prelude Js Async Remote Config Handlers Render EventLoop Safety.

Record History := mkHistory {
  h_issued : list Request;
  h_console : list ConsoleLine;
  h_alerts : list string;
  h_uncaught : list JsError;
  h_navigations : nat
}.

(** What the page has written so far. *)
Definition history (w : World) : History :=
  mkHistory (issued w) (console w) (alerts w) (uncaught w) (navigations w).

(** The world [w] with the history [h] before its own. *)
Definition prepend (h : History) (w : World) : World :=
  mkWorld (app w) (solana w) (loadListener w) (loaded w) (pending w)
    (h_issued h ++ issued w) (h_console h ++ console w)
    (h_alerts h ++ alerts w) (defaultPrevented w)
    (h_navigations h + navigations w) (h_uncaught h ++ uncaught w) (mounted w).

(** The world [w] with nothing written yet. *)
Definition forget (w : World) : World :=
  mkWorld (app w) (solana w) (loadListener w) (loaded w) (pending w)
    [] [] [] (defaultPrevented w) 0 [] (mounted w).

(** Worlds that differ in their histories only. *)
#[export] Instance world_equiv : Equiv World := λ w1 w2, forget w1 = forget w2.

#[export] Instance world_equivalence : Equivalence (≡@{World}).
Proof.
  unfold equiv, world_equiv. split; [by intros ?|by intros ??|].
  intros ???; apply eq_trans.
Qed.

Section history.
Implicit Types (w : World) (h : History) (p : JS ()).

Lemma prepend_forget w : prepend (history w) (forget w) = w.
Proof. destruct w. unfold prepend. simpl. by rewrite !app_nil_r, Nat.add_0_r. Qed.

Lemma forget_prepend h w : forget (prepend h w) = forget w.
Proof. done. Qed.

Lemma prepend_equiv h w : prepend h w ≡ w.
Proof. apply forget_prepend. Qed.

Lemma safe_any {R} (p : JS R) : safe any_action any_call p.
Proof. induction p as [?|?|X a k IH|X c k IH]; simpl; by try split. Qed.

(** Every effect appends to the history or leaves it alone. *)
Lemma perform_prepend X (a : Action X) h w :
  perform X a (prepend h w) = ((perform X a w).1, prepend h (perform X a w).2).
Proof. destruct a; unfold prepend; simpl; by rewrite ?app_assoc. Qed.

Lemma file_prepend r h w : file (r, prepend h w) = prepend h (file (r, w)).
Proof. destruct r; unfold prepend; simpl; by rewrite ?app_assoc. Qed.

Lemma exec_prepend p h w : exec p (prepend h w) = prepend h (exec p w).
Proof.
  apply (exec_commute any_action any_call (prepend h));
    [intros; apply perform_prepend | intros; apply file_prepend | apply safe_any].
Qed.

Context {web3 : Web3} {build : Build}.

Lemma commit_prepend prev h w :
  commit prev (prepend h w) = prepend h (commit prev w).
Proof.
  unfold commit. cbn [mounted app prepend]. destruct (mounted w); [|done].
  case_decide; [done|]. apply exec_prepend.
Qed.

Lemma dispatch_prepend p h w :
  dispatch p (prepend h w) = prepend h (dispatch p w).
Proof.
  unfold dispatch. by rewrite exec_prepend, commit_prepend.
Qed.

Lemma default_action_prepend event h w :
  default_action event (prepend h w) = prepend h (default_action event w).
Proof.
  unfold default_action. case_decide; [|done]. cbn [defaultPrevented prepend].
  destruct (defaultPrevented w); [done|]. unfold prepend. simpl.
  by rewrite Nat.add_succ_r.
Qed.

Lemma step_prepend ev h w : step ev (prepend h w) = prepend h <$> step ev w.
Proof.
  destruct ev as [|event h0 value|i o|s|]; cbn [step];
    cbn [loadListener loaded mounted app pending prepend].
  - case_match; [|done]. simpl. f_equal.
    by rewrite <-dispatch_prepend.
  - case_match; [|done]. simpl. f_equal.
    by rewrite <-default_action_prepend, <-dispatch_prepend.
  - destruct (pending w !! i) as [t|]; [|done]. simpl.
    destruct (resume t o) as [p|]; [|done]. simpl. f_equal.
    by rewrite <-dispatch_prepend.
  - done.
  - by case_match.
Qed.

(** The history is write-only: a page with a longer past accepts the
    same events, ends in the same state and writes the same.  For every
    sequence of events, running it from the world [w] with the history
    [h] before its own gives the run from [w] with [h] before its
    history: nothing the page has logged, alerted, sent or left unhandled
    changes what it does next. *)
Theorem history_is_write_only evs h w :
  run_events evs (prepend h w) = prepend h <$> run_events evs w.
Proof.
  revert w. induction evs as [|ev evs IH]; intros w; [done|].
  cbn [run_events]. rewrite step_prepend.
  destruct (step ev w) as [w1|]; [apply IH | done].
Qed.

(** ** The equivalence it induces *)

#[export] Instance step_proper : Proper ((=) ==> (≡) ==> (≡)) step.
Proof.
  intros ev _ <- w1 w2 Hw.
  rewrite <-(prepend_forget w1), <-(prepend_forget w2), !step_prepend, Hw.
  destruct (step ev (forget w2)); constructor. by rewrite !prepend_equiv.
Qed.

#[export] Instance run_events_proper : Proper ((=) ==> (≡) ==> (≡)) run_events.
Proof.
  intros evs _ <-. induction evs as [|ev evs IH]; intros w1 w2 Hw;
    [by constructor|].
  cbn [run_events]. destruct (step_proper ev ev eq_refl w1 w2 Hw); [|constructor].
  by apply IH.
Qed.

#[export] Instance app_proper : Proper ((≡) ==> (=)) app.
Proof. intros w1 w2 Hw. by apply (f_equal app) in Hw. Qed.

#[export] Instance pending_proper : Proper ((≡) ==> (=)) pending.
Proof. intros w1 w2 Hw. by apply (f_equal pending) in Hw. Qed.

(** What the page shows after a run depends on the state it started
    from, not on its history. *)
Lemma run_events_app_forget evs w :
  app <$> run_events evs w = app <$> run_events evs (forget w).
Proof.
  assert (w ≡ forget w) as Hw by done.
  destruct (run_events_proper evs evs eq_refl _ _ Hw) as [w1 w2 H12|]; [|done].
  simpl. by rewrite H12.
Qed.

End history.
