(* ===== verification/Reactions.v ===== *)
(** * Reactions: what each event does, on every branch

    The functional behaviour of the page, one theorem per event and
    outcome.  Two kinds of event start a handler (a user event, the
    window's [load]); the others resume one (the settlement of a promise).
    For the latter the theorems hold for whatever task is pending in
    whatever reachable world: [task_law] states, per kind of request, what
    the continuation suspended on it does when it is resumed, every
    handler is shown to leave only lawful suspensions behind
    ([handlers_lawful]), and [EventLoop.reachable_task_ok] carries the law
    to every pending task.

    What a reaction did is read off [visible]: the component state, the
    requests in flight, the requests sent, the alerts shown and the
    rejections nobody handled. *)

From S2P Require Import Prelude Js Async Remote Config Fixture Handlers Render EventLoop Scenarios.

(** The requests of the pending tasks, oldest first. *)
Definition in_flight (w : World) : list Request := task_request <$> pending w.

Definition visible (w : World)
  : AppState * list Request * list Request * list string * list JsError :=
  (app w, in_flight w, issued w, alerts w, uncaught w).

(** The answers a request can have: a rejection, or a value of the type
    the request resolves with. *)
Definition fits (r : Request) (o : Outcome) : Prop :=
  match r, o with
  | _, Failed _ => True
  | ReqConnect _, Connected _ => True
  | (ReqAddGif _ _ _ | ReqStartStuffOff _ _ _), Confirmed _ => True
  | ReqFetch _ _, Fetched _ => True
  | _, _ => False
  end.

#[export] Instance fits_dec r o : Decision (fits r o).
Proof. destruct r, o; simpl; apply _. Defined.

(** The list a settled fetch leaves in the state. *)
Definition fetched (s : Settled JsError Account) : option (list GifItem) :=
  match s with
  | Fulfilled account => Some (acct_gifList account)
  | Rejected _ => None
  end.

(** The wallet address a settled connection leaves in the state. *)
Definition session_after (s : Settled JsError ConnectResponse) (st : AppState)
  : AppState :=
  match s with
  | Fulfilled response =>
      set_walletAddress (Some (pk_toString (publicKey response))) st
  | Rejected _ => st
  end.

Section reaction_defs.
Context {web3 : Web3} {build : Build}.

(** The program client the handlers build in world [w]. *)
Definition program_in (w : World) : Program :=
  new_Program idl programID
    (new_Provider (new_Connection network (preflightCommitment opts))
       (solana w) (preflightCommitment opts)).

(** The request [getGifList] sends in world [w]. *)
Definition fetch_request (w : World) : Request :=
  ReqFetch (program_in w) (kp_publicKey baseAccount).

(** The request a submission sends. *)
Definition addGif_request (w : World) (wallet : Solana) : Request :=
  ReqAddGif (program_in w) (inputValue (app w))
    {| ag_baseAccount := kp_publicKey baseAccount;
       ag_user := sol_publicKey wallet |}.

(** The request the initialisation sends. *)
Definition startStuffOff_request (w : World) (wallet : Solana) : Request :=
  ReqStartStuffOff (program_in w)
    {| ss_baseAccount := kp_publicKey baseAccount;
       ss_user := sol_publicKey wallet;
       ss_systemProgram := SystemProgram_programId |}
    [baseAccount].

(** What follows a settled transaction: a refetch when it was confirmed;
    otherwise the alerts [alerted] and nothing else. *)
Definition after_transaction (alerted : list string)
    (s : Settled JsError TxSig) (w w' : World) : Prop :=
  match s with
  | Fulfilled _ =>
      visible w' =
      (app w, in_flight w ++ [fetch_request w], issued w ++ [fetch_request w],
       alerts w, uncaught w)
  | Rejected _ =>
      visible w' =
      (app w, in_flight w, issued w, alerts w ++ alerted, uncaught w)
  end.

(** The law of a suspension, by request. *)
Definition task_law (X : Type) (c : Call X) : (Settled JsError X → JS ()) → Prop :=
  match c in Call X return (Settled JsError X → JS ()) → Prop with
  | SolanaConnect opts => λ k, ∀ s w,
      visible (exec (k s) w) =
      (session_after s (app w), in_flight w, issued w, alerts w,
       uncaught w ++
         match s, opts with
         | Rejected e, None => [e]
         | _, _ => []
         end)
  | RpcAddGif _ _ _ => λ k, ∀ s w, after_transaction ["fal"] s w (exec (k s) w)
  | RpcStartStuffOff _ _ _ => λ k, ∀ s w, after_transaction [] s w (exec (k s) w)
  | AccountFetch _ _ => λ k, ∀ s w,
      visible (exec (k s) w) =
      (set_gifList (fetched s) (app w), in_flight w, issued w, alerts w,
       uncaught w)
  end.

(** What a step does that resumes the task at position [i] waiting for a
    transaction: a refetch when it was confirmed; otherwise the alerts
    [alerted] and nothing else. *)
Definition transaction_settled (alerted : list string) (i : nat) (o : Outcome)
    (w w' : World) : Prop :=
  match o with
  | Confirmed _ =>
      visible w' =
      (app w, delete i (in_flight w) ++ [fetch_request w],
       issued w ++ [fetch_request w], alerts w, uncaught w)
  | _ =>
      visible w' =
      (app w, delete i (in_flight w), issued w, alerts w ++ alerted, uncaught w)
  end.

(** What a step does that resumes a task waiting for the wallet:
    - connected with the address the state already holds: nothing;
    - connected with a new address: the session is set and, when the
      address is truthy and the component is mounted, the first fetch is
      sent by the effect;
    - declined: nothing, but for the rejection of the interactive path
      ([opts] is [None]), which nobody handles. *)
Definition connect_settled (opts : option ConnectOpts) (i : nat) (o : Outcome)
    (w w' : World) : Prop :=
  match o with
  | Connected response =>
      let address := Some (pk_toString (publicKey response)) in
      let fetch :=
        if mounted w then
          if decide (address = walletAddress (app w)) then []
          else if truthy address then [fetch_request w] else []
        else [] in
      visible w' =
      (set_walletAddress address (app w), delete i (in_flight w) ++ fetch,
       issued w ++ fetch, alerts w, uncaught w)
  | Failed e =>
      visible w' =
      (app w, delete i (in_flight w), issued w, alerts w,
       uncaught w ++ if opts is None then [e] else [])
  | _ => False
  end.

End reaction_defs.

(** Evaluate [visible] of an executed program on a symbolic world. *)
Ltac visible_eval :=
  unfold after_transaction, visible, in_flight, exec, file, fetch_request,
    program_in;
  simpl; rewrite ?fmap_app, ?app_nil_r; simpl; try done.

(** Whether the component is still mounted decides if an effect runs. *)
Ltac case_mounted :=
  repeat match goal with
  | |- context [if mounted ?w then _ else _] => destruct (mounted w)
  | |- context [if ?b then _ else _] => is_var b; destruct b
  end.

(** Evaluate the reaction to an event in a world given by its fields. *)
Ltac start_eval :=
  handler_unfold; prog_unfold;
  unfold dispatch, commit, exec, file, visible, in_flight, fetch_request,
    program_in;
  simpl; case_mounted; repeat case_decide; simpl;
  rewrite ?fmap_app, ?app_nil_r; simpl; try done.

Section reactions.
Context {web3 : Web3} {build : Build}.
Implicit Types (w : World) (sol : option Solana).

(** Every suspension of every handler obeys the law of its request. *)
Lemma handlers_lawful : handlers_ok (lawful task_law).
Proof.
  split; [|intros v|intros [] s v]; simpl; handler_paths; visible_eval.
Qed.

(** ** Anatomy of a step *)

Lemma commit_same prev w : walletAddress (app w) = prev → commit prev w = w.
Proof. intros. unfold commit. case_match; [|done]. by case_decide. Qed.

Lemma visible_app w a f i al u : visible w = (a, f, i, al, u) → app w = a.
Proof. unfold visible. by intros [= ?]. Qed.

Lemma visible_in_flight w a f i al u :
  visible w = (a, f, i, al, u) → in_flight w = f.
Proof. unfold visible. by intros [= ?]. Qed.

Lemma visible_issued w a f i al u : visible w = (a, f, i, al, u) → issued w = i.
Proof. unfold visible. by intros [= ?]. Qed.

Lemma visible_alerts w a f i al u : visible w = (a, f, i, al, u) → alerts w = al.
Proof. unfold visible. by intros [= ?]. Qed.

Lemma visible_uncaught w a f i al u :
  visible w = (a, f, i, al, u) → uncaught w = u.
Proof. unfold visible. by intros [= ?]. Qed.

(** The second effect sends the first fetch of a session. *)
Lemma visible_useEffect_walletAddress v w :
  visible (exec (useEffect_walletAddress v) w) =
  if truthy v
  then (app w, in_flight w ++ [fetch_request w], issued w ++ [fetch_request w],
        alerts w, uncaught w)
  else visible w.
Proof. handler_unfold. destruct (truthy v); prog_unfold; visible_eval. Qed.

(** In every reachable world the pending tasks are lawful. *)
Lemma reachable_lawful sol w : reachable sol w → tasks_ok (lawful task_law) w.
Proof. apply (reachable_tasks_ok _ handlers_lawful). Qed.

(** A settlement resumes a lawful task with an outcome of its type, in
    the world [w0] that is [w] without the task. *)
Lemma step_settle_lawful w i X (c : Call X) k o w' :
  tasks_ok (lawful task_law) w → pending w !! i = Some (mkTask c k) →
  step (EvSettle i o) w = Some w' →
  ∃ s w0, settle_as c o = Some s ∧ task_law X c k ∧
    w' = commit (walletAddress (app w)) (exec (k s) w0) ∧
    app w0 = app w ∧ in_flight w0 = delete i (in_flight w) ∧
    issued w0 = issued w ∧ alerts w0 = alerts w ∧ uncaught w0 = uncaught w ∧
    fetch_request w0 = fetch_request w ∧ solana w0 = solana w ∧
    loaded w0 = loaded w ∧ mounted w0 = mounted w.
Proof.
  intros Hl Hi Hs. simpl in Hs. rewrite Hi in Hs. simpl in Hs.
  destruct (settle_as c o) as [s|]; simplify_eq/=.
  exists s, (set_pending (delete i) w). split_and!; try done.
  - by destruct (Forall_lookup_Some _ _ _ _ Hl Hi).
  - apply list_fmap_delete.
Qed.

Lemma step_settle_inv sol w i X (c : Call X) k o w' :
  reachable sol w → pending w !! i = Some (mkTask c k) →
  step (EvSettle i o) w = Some w' →
  ∃ s w0, settle_as c o = Some s ∧ task_law X c k ∧
    w' = commit (walletAddress (app w)) (exec (k s) w0) ∧
    app w0 = app w ∧ in_flight w0 = delete i (in_flight w) ∧
    issued w0 = issued w ∧ alerts w0 = alerts w ∧ uncaught w0 = uncaught w ∧
    fetch_request w0 = fetch_request w ∧ solana w0 = solana w ∧
    loaded w0 = loaded w ∧ mounted w0 = mounted w.
Proof. intros Hr%reachable_lawful. by apply step_settle_lawful. Qed.

(** A request in flight is the request of a pending task. *)
Lemma in_flight_lookup w i r :
  in_flight w !! i = Some r ↔ ∃ t, pending w !! i = Some t ∧ task_request t = r.
Proof.
  unfold in_flight. rewrite list_lookup_fmap_Some.
  split; intros (t & ? & ?); by exists t.
Qed.

(** The page accepts every answer that fits the request. *)
Lemma step_settle_fits w i r o :
  in_flight w !! i = Some r → fits r o → is_Some (step (EvSettle i o) w).
Proof.
  intros ([X c k] & Hi & <-)%in_flight_lookup Hf.
  rewrite (step_settle _ _ _ _ _ _ Hi). by destruct c, o.
Qed.

(** ** Settlements *)

(** The list an outcome of a fetch leaves in the state. *)
Lemma settle_fetch_shape (o : Outcome) program address s :
  settle_as (AccountFetch program address) o = Some s →
  fetched s = match o with Fetched a => Some (acct_gifList a) | _ => None end.
Proof. destruct o; simpl; intros; by simplify_eq. Qed.

(** Resuming a task that waited for a fetch, in the world [w0] that is [w]
    without the task. *)
Lemma resume_fetch program address k (s : Settled JsError Account) i w w0 :
  task_law _ (AccountFetch program address) k →
  app w0 = app w → in_flight w0 = delete i (in_flight w) →
  issued w0 = issued w → alerts w0 = alerts w → uncaught w0 = uncaught w →
  visible (commit (walletAddress (app w)) (exec (k s) w0)) =
  (set_gifList (fetched s) (app w), delete i (in_flight w), issued w,
   alerts w, uncaught w).
Proof.
  intros Hk Ha Hf Hi Hal Hu. specialize (Hk s w0).
  rewrite Ha, Hf, Hi, Hal, Hu in Hk.
  by rewrite commit_same by (by rewrite (visible_app _ _ _ _ _ _ Hk)).
Qed.

(** A fetch in flight settles: the list is replaced by the fetched one, or
    by [null] when the fetch failed. *)
Lemma fetch_settled sol w i program address o w' :
  reachable sol w → in_flight w !! i = Some (ReqFetch program address) →
  step (EvSettle i o) w = Some w' →
  visible w' =
  (set_gifList (match o with Fetched a => Some (acct_gifList a) | _ => None end)
     (app w),
   delete i (in_flight w), issued w, alerts w, uncaught w).
Proof.
  intros Hr ([X c k] & Hi & Ht)%in_flight_lookup Hs.
  destruct c; simplify_eq/=.
  destruct (step_settle_inv _ _ _ _ _ _ _ _ Hr Hi Hs)
    as (s & w0 & Ho & Hk & -> & Ha & Hf & Hi0 & Hal & Hu & _).
  rewrite (resume_fetch program address k s i w w0) by done.
  by rewrite (settle_fetch_shape _ _ _ _ Ho).
Qed.

(** C9. Whenever a fetch settles, in whatever reachable world and in whatever
    order with the other promises, the list is replaced by exactly the
    fetched one, or by [null] when the fetch failed; nothing is sent and
    nothing else changes. *)
Theorem settle_fetch sol w i t program address o w' :
  reachable sol w → pending w !! i = Some t →
  task_request t = ReqFetch program address →
  step (EvSettle i o) w = Some w' →
  visible w' =
  (set_gifList (match o with Fetched a => Some (acct_gifList a) | _ => None end)
     (app w),
   delete i (in_flight w), issued w, alerts w, uncaught w).
Proof.
  intros Hr Hi Ht. apply (fetch_settled sol _ _ program address); [done|].
  apply in_flight_lookup. eauto.
Qed.

(** C34. Answers are applied in the order they arrive, not in the order the
    fetches were sent: when two fetches are in flight and the newer one is
    answered first, the answer to the older one is what the page shows in
    the end. *)
Theorem stale_fetch_overwrites sol w i j pi ai pj aj a b w1 w2 :
  reachable sol w → i < j →
  in_flight w !! i = Some (ReqFetch pi ai) →
  in_flight w !! j = Some (ReqFetch pj aj) →
  step (EvSettle j (Fetched b)) w = Some w1 →
  step (EvSettle i (Fetched a)) w1 = Some w2 →
  gifList (app w1) = Some (acct_gifList b) ∧
  gifList (app w2) = Some (acct_gifList a) ∧
  in_flight w2 = delete i (delete j (in_flight w)).
Proof.
  intros Hr Hij Hi Hj Hs1 Hs2.
  pose proof (fetch_settled _ _ _ _ _ _ _ Hr Hj Hs1) as Hv1.
  pose proof (visible_in_flight _ _ _ _ _ _ Hv1) as Hf1.
  assert (in_flight w1 !! i = Some (ReqFetch pi ai)) as Hi1
    by (by rewrite Hf1, list_lookup_delete_lt).
  pose proof (fetch_settled _ _ _ _ _ _ _ (reach_step _ _ _ _ Hr Hs1) Hi1 Hs2)
    as Hv2.
  rewrite (visible_app _ _ _ _ _ _ Hv1), (visible_app _ _ _ _ _ _ Hv2).
  by rewrite (visible_in_flight _ _ _ _ _ _ Hv2), Hf1.
Qed.

(** The outcomes a transaction can settle with. *)
Lemma settle_tx_shape {X} (c : Call X) (o : Outcome) (s : Settled JsError X) :
  settle_as c o = Some s →
  match o with
  | Confirmed _ => ∃ x, s = Fulfilled x
  | _ => ∃ e, s = Rejected e
  end ∨ (∃ opts, request_of c = ReqConnect opts)
      ∨ (∃ program address, request_of c = ReqFetch program address).
Proof. destruct c, o; simpl; intros; simplify_eq; eauto. Qed.

Lemma after_transaction_settled alerted i o s w w0 k :
  match o with
  | Confirmed _ => ∃ x, s = Fulfilled x
  | _ => ∃ e, s = Rejected e
  end →
  app w0 = app w → in_flight w0 = delete i (in_flight w) →
  issued w0 = issued w → alerts w0 = alerts w → uncaught w0 = uncaught w →
  fetch_request w0 = fetch_request w →
  after_transaction alerted s w0 (exec (k s) w0) →
  transaction_settled alerted i o w
    (commit (walletAddress (app w)) (exec (k s) w0)).
Proof.
  intros Ho Ha Hf Hi Hal Hu Hr Hk. unfold transaction_settled.
  destruct o; destruct Ho as [? ->];
    cbv beta iota delta [after_transaction] in Hk;
    rewrite ?Ha, ?Hf, ?Hi, ?Hal, ?Hu, ?Hr in Hk;
    by rewrite commit_same by (by rewrite (visible_app _ _ _ _ _ _ Hk)).
Qed.

(** A transaction settles: what its task was resumed with is what
    [task_law] says of it. *)
Ltac transaction_settles Hr Hi Ht Hs :=
  let t := lazymatch type of Hi with _ = Some ?t => t end in
  destruct t as [X c k]; destruct c; simplify_eq/=;
  destruct (step_settle_inv _ _ _ _ _ _ _ _ Hr Hi Hs)
    as (s & w0 & Ho & Hk & -> & Ha & Hf & Hi0 & Hal & Hu & Hfr & _);
  apply after_transaction_settled; try done;
  by destruct (settle_tx_shape _ _ _ Ho) as [?|[[??]|(?&?&?)]].

Lemma addGif_settled sol w i t program link accounts o w' :
  reachable sol w → pending w !! i = Some t →
  task_request t = ReqAddGif program link accounts →
  step (EvSettle i o) w = Some w' →
  transaction_settled ["fal"] i o w w'.
Proof. intros Hr Hi Ht Hs. transaction_settles Hr Hi Ht Hs. Qed.

Lemma startStuffOff_settled sol w i t program accounts signers o w' :
  reachable sol w → pending w !! i = Some t →
  task_request t = ReqStartStuffOff program accounts signers →
  step (EvSettle i o) w = Some w' →
  transaction_settled [] i o w w'.
Proof. intros Hr Hi Ht Hs. transaction_settles Hr Hi Ht Hs. Qed.

(** C11. When an [addGif] is confirmed, exactly one refetch is sent; when it
    fails, the alert is shown and nothing is sent.  The state is left as it
    is either way: the draft was cleared when the request was sent. *)
Theorem settle_addGif sol w i t program link accounts o w' :
  reachable sol w → pending w !! i = Some t →
  task_request t = ReqAddGif program link accounts →
  step (EvSettle i o) w = Some w' →
  transaction_settled ["fal"] i o w w'.
Proof. apply addGif_settled. Qed.

(** C13. When the initialisation is confirmed, exactly one fetch is sent; when
    it fails, nothing is sent and the list is left as it is. *)
Theorem settle_startStuffOff sol w i t program accounts signers o w' :
  reachable sol w → pending w !! i = Some t →
  task_request t = ReqStartStuffOff program accounts signers →
  step (EvSettle i o) w = Some w' →
  transaction_settled [] i o w w'.
Proof. apply startStuffOff_settled. Qed.

Lemma settle_connect_shape opts (o : Outcome) s :
  settle_as (SolanaConnect opts) o = Some s →
  match o with
  | Connected response => s = Fulfilled response
  | Failed e => s = Rejected e
  | _ => False
  end.
Proof. destruct o; simpl; intros; by simplify_eq. Qed.

(** Resuming a task that waited for the wallet, in the world [w0] that is
    [w] without the task. *)
Lemma resume_connect opts k (s : Settled JsError ConnectResponse) i o w w0 :
  task_law _ (SolanaConnect opts) k →
  match o with
  | Connected response => s = Fulfilled response
  | Failed e => s = Rejected e
  | _ => False
  end →
  app w0 = app w → in_flight w0 = delete i (in_flight w) →
  issued w0 = issued w → alerts w0 = alerts w → uncaught w0 = uncaught w →
  fetch_request w0 = fetch_request w → mounted w0 = mounted w →
  connect_settled opts i o w (commit (walletAddress (app w)) (exec (k s) w0)).
Proof.
  intros Hk Ho Ha Hf Hi0 Hal Hu Hfr Hm.
  specialize (Hk s w0). rewrite Ha, Hf, Hi0, Hal, Hu in Hk.
  pose proof (visible_app _ _ _ _ _ _ Hk) as Happ.
  unfold connect_settled. destruct o as [response| | |e]; try done; subst s.
  - unfold commit. rewrite exec_mounted, Hm, Happ.
    destruct (mounted w); [|by rewrite Hk, !app_nil_r].
    cbv beta iota delta [session_after set_walletAddress walletAddress].
    destruct (decide _) as [Hd|Hd]; [by rewrite Hk, !app_nil_r|].
    rewrite visible_useEffect_walletAddress.
    destruct (truthy _); [|by rewrite Hk, !app_nil_r].
    unfold fetch_request at 1 2, program_in. rewrite exec_solana.
    fold (program_in w0). fold (fetch_request w0). rewrite Hfr.
    unfold visible in Hk. injection Hk as -> -> -> -> ->. by rewrite app_nil_r.
  - rewrite commit_same by (by rewrite Happ). rewrite Hk. by destruct opts.
Qed.

Lemma connect_answered sol w i t opts o w' :
  reachable sol w → pending w !! i = Some t →
  task_request t = ReqConnect opts →
  step (EvSettle i o) w = Some w' →
  connect_settled opts i o w w'.
Proof.
  intros Hr Hi Ht Hs. destruct t as [X c k]. destruct c; simplify_eq/=.
  destruct (step_settle_inv _ _ _ _ _ _ _ _ Hr Hi Hs)
    as (s & w0 & Ho%settle_connect_shape & Hk & -> & Ha & Hf & Hi0 & Hal & Hu
        & Hfr & _ & _ & Hm).
  by apply (resume_connect _ _ s).
Qed.

(** C12. When the wallet answers: a new address opens the session and, when it
    is truthy, the effect sends the first fetch; a refusal changes nothing,
    and on the interactive path it is a rejection nobody handles. *)
Theorem settle_connect sol w i t opts o w' :
  reachable sol w → pending w !! i = Some t →
  task_request t = ReqConnect opts →
  step (EvSettle i o) w = Some w' →
  connect_settled opts i o w w'.
Proof. apply connect_answered. Qed.

(** ** Events that start a handler *)

Lemma empty_submitted w w' value :
  step (EvUI "submit" H_sendGif value) w = Some w' →
  inputValue (app w) = "" →
  visible w' = visible w.
Proof.
  intros (_ & _ & ->)%step_ui_offered Hi. simpl closure. rewrite Hi. by start_eval.
Qed.

(** C14. Submitting with an empty draft does nothing: no request, no change of
    state. *)
Theorem submit_empty w w' value :
  step (EvUI "submit" H_sendGif value) w = Some w' →
  inputValue (app w) = "" →
  visible w' = visible w.
Proof. apply empty_submitted. Qed.

Lemma link_submitted w w' value wallet :
  step (EvUI "submit" H_sendGif value) w = Some w' →
  inputValue (app w) ≠ "" →
  solana w = Some wallet →
  visible w' =
  (set_inputValue "" (app w), in_flight w ++ [addGif_request w wallet],
   issued w ++ [addGif_request w wallet], alerts w, uncaught w).
Proof.
  intros (_ & _ & ->)%step_ui_offered Hi%string_length_eqb_nonzero Hw.
  simpl closure. unfold sendGif, addGif_request. rewrite Hi.
  destruct w; simpl in *; subst. by start_eval.
Qed.

(** C10. Submitting a link clears the draft at once and sends one [addGif]
    with the link the render showed, for the storage account and the
    wallet's key. *)
Theorem submit_link w w' value wallet :
  step (EvUI "submit" H_sendGif value) w = Some w' →
  inputValue (app w) ≠ "" →
  solana w = Some wallet →
  let request :=
    ReqAddGif (program_in w) (inputValue (app w))
      {| ag_baseAccount := kp_publicKey baseAccount;
         ag_user := sol_publicKey wallet |} in
  visible w' =
  (set_inputValue "" (app w), in_flight w ++ [request], issued w ++ [request],
   alerts w, uncaught w).
Proof. apply link_submitted. Qed.

(** C39. With the wallet gone the submission fails before anything is sent:
    the draft is lost and the alert is shown. *)
Theorem submit_link_no_wallet w w' value :
  step (EvUI "submit" H_sendGif value) w = Some w' →
  inputValue (app w) ≠ "" →
  solana w = None →
  visible w' =
  (set_inputValue "" (app w), in_flight w, issued w, alerts w ++ ["fal"],
   uncaught w).
Proof.
  intros (_ & _ & ->)%step_ui_offered Hi%string_length_eqb_nonzero Hw. simpl closure.
  unfold sendGif. rewrite Hi. destruct w; simpl in *; subst. by start_eval.
Qed.

(** Typing replaces the draft. *)
Theorem change_input w w' value :
  step (EvUI "change" H_onInputChange value) w = Some w' →
  visible w' =
  (set_inputValue value (app w), in_flight w, issued w, alerts w, uncaught w).
Proof. intros (_ & _ & ->)%step_ui_offered. by start_eval. Qed.

Lemma createGifAccount_clicked w w' value wallet :
  step (EvUI "click" H_createGifAccount value) w = Some w' →
  solana w = Some wallet →
  visible w' =
  (app w, in_flight w ++ [startStuffOff_request w wallet],
   issued w ++ [startStuffOff_request w wallet], alerts w, uncaught w).
Proof.
  intros (_ & _ & ->)%step_ui_offered Hw. destruct w; simpl in *; subst.
  by start_eval.
Qed.

(** C37. The initialisation button sends one [startStuffOff], signed by the
    storage account's keypair. *)
Theorem click_createGifAccount w w' value wallet :
  step (EvUI "click" H_createGifAccount value) w = Some w' →
  solana w = Some wallet →
  let request := startStuffOff_request w wallet in
  visible w' =
  (app w, in_flight w ++ [request], issued w ++ [request], alerts w,
   uncaught w).
Proof. apply createGifAccount_clicked. Qed.

(** C36. The connect button asks the wallet to connect, prompting the user;
    without a wallet it does nothing. *)
Theorem click_connectWallet w w' value :
  step (EvUI "click" H_connectWallet value) w = Some w' →
  let request := if solana w is Some _ then [ReqConnect None] else [] in
  visible w' =
  (app w, in_flight w ++ request, issued w ++ request, alerts w, uncaught w).
Proof.
  intros (_ & _ & ->)%step_ui_offered. destruct w as [? [?|]]; simpl in *.
  all: by start_eval.
Qed.

(** C35. The silent reconnection after the page has loaded: a trusted
    connection is requested from a Phantom wallet; with another wallet or
    none, nothing is sent and nothing is thrown. *)
Theorem load_reconnect w w' :
  step EvLoad w = Some w' →
  let request :=
    match solana w with
    | Some wallet =>
        if isPhantom wallet
        then [ReqConnect (Some {| onlyIfTrusted := true |})] else []
    | None => []
    end in
  visible w' =
  (app w, in_flight w ++ request, issued w ++ request, alerts w, uncaught w).
Proof.
  simpl. case_match; intros; simplify_eq.
  destruct w as [? [[[] ?]|]]; simpl in *; by start_eval.
Qed.

End reactions.

(** * Worked examples *)

Section reaction_examples.
#[local] Existing Instances demo_web3 demo_build.

(** The first fetch of the session returns two entries: the state holds
    exactly those two, in that order. *)
Lemma settle_fetch_witness :
  gifList ∘ app <$> step (EvSettle 0 (Fetched (mkAccount [gif1; gif2]))) w_connected
  = Some (Some [gif1; gif2]).
Proof.
  next_world (EvSettle 0 (Fetched (mkAccount [gif1; gif2]))) w_connected w' Hs.
  pending_task w_connected 0 t Ht.
  assert (task_request t = fetch_request w_connected) as Hq by task_is Ht.
  assert (reachable (Some phantom) w_connected) as Hr by demo_reachable.
  pose proof (settle_fetch _ _ _ _ _ _ _ _ Hr Ht Hq Hs) as Hv.
  apply visible_app in Hv. simpl. by rewrite Hv.
Defined.

(** The reconnection's fetch is answered after the refetch of a
    submission: the page ends with the older, empty list. *)
Lemma stale_fetch_overwrites_witness :
  gifList ∘ app <$> step (EvSettle 0 (Fetched (mkAccount []))) w_refetched
  = Some (Some []).
Proof.
  assert (step (EvSettle 1 (Fetched (mkAccount [gif1]))) w_two_fetches
          = Some w_refetched) as Hs1 by (vm_compute; reflexivity).
  next_world (EvSettle 0 (Fetched (mkAccount []))) w_refetched w2 Hs2.
  assert (reachable (Some phantom) w_two_fetches) as Hr by demo_reachable.
  assert (∃ p a, in_flight w_two_fetches !! 0 = Some (ReqFetch p a))
    as (pi & ai & Hi) by (vm_compute; eauto).
  assert (∃ p a, in_flight w_two_fetches !! 1 = Some (ReqFetch p a))
    as (pj & aj & Hj) by (vm_compute; eauto).
  assert (0 < 1) as Hlt by lia.
  destruct (stale_fetch_overwrites _ _ _ _ _ _ _ _ _ _ _ _ Hr Hlt Hi Hj Hs1 Hs2)
    as (_ & Hg & _).
  simpl. by rewrite Hg.
Defined.

(** The transaction of the submitted link is confirmed: one refetch is
    sent and it is the only request in flight. *)
Lemma settle_addGif_witness :
  in_flight <$> step (EvSettle 0 (Confirmed "sig1")) w_submitted
  = Some [fetch_request w_submitted].
Proof.
  next_world (EvSettle 0 (Confirmed "sig1")) w_submitted w' Hs.
  pending_task w_submitted 0 t Ht.
  assert (∃ p l a, task_request t = ReqAddGif p l a) as (p & l & a & Hq).
  { vm_compute in Ht. injection Ht as <-. by eexists _, _, _. }
  assert (reachable (Some phantom) w_submitted) as Hr by demo_reachable.
  pose proof (settle_addGif _ _ _ _ _ _ _ _ _ Hr Ht Hq Hs) as Hv.
  unfold transaction_settled in Hv.
  simpl. by rewrite (visible_in_flight _ _ _ _ _ _ Hv).
Defined.

(** The initialisation fails: nothing is sent and the list stays [null]. *)
Lemma settle_startStuffOff_witness :
  (λ w', (gifList (app w'), in_flight w')) <$>
    step (EvSettle 0 (Failed (TypeError "rejected"))) w_initialising
  = Some (None, []).
Proof.
  next_world (EvSettle 0 (Failed (TypeError "rejected"))) w_initialising w' Hs.
  pending_task w_initialising 0 t Ht.
  assert (∃ p a g, task_request t = ReqStartStuffOff p a g) as (p & a & g & Hq).
  { vm_compute in Ht. injection Ht as <-. by eexists _, _, _. }
  assert (reachable (Some phantom) w_initialising) as Hr by demo_reachable.
  pose proof (settle_startStuffOff _ _ _ _ _ _ _ _ _ Hr Ht Hq Hs) as Hv.
  unfold transaction_settled in Hv.
  simpl. by rewrite (visible_app _ _ _ _ _ _ Hv),
    (visible_in_flight _ _ _ _ _ _ Hv).
Defined.

(** The user declines the interactive connection: the rejection is left
    unhandled and the session stays closed. *)
Lemma settle_connect_witness :
  (λ w', (walletAddress (app w'), uncaught w')) <$>
    step (EvSettle 0 (Failed (TypeError "declined"))) w_connecting
  = Some (None, [TypeError "declined"]).
Proof.
  next_world (EvSettle 0 (Failed (TypeError "declined"))) w_connecting w' Hs.
  pending_task w_connecting 0 t Ht.
  assert (task_request t = ReqConnect None) as Hq by task_is Ht.
  assert (reachable (Some phantom) w_connecting) as Hr by demo_reachable.
  pose proof (settle_connect _ _ _ _ _ _ _ Hr Ht Hq Hs) as Hv.
  unfold connect_settled in Hv.
  simpl. by rewrite (visible_app _ _ _ _ _ _ Hv),
    (visible_uncaught _ _ _ _ _ _ Hv).
Defined.

(** After a submission the draft is empty: submitting again does
    nothing. *)
Lemma submit_empty_witness :
  visible <$> step (EvUI "submit" H_sendGif "") (world_after evs_submit)
  = Some (visible (world_after evs_submit)).
Proof.
  next_world (EvUI "submit" H_sendGif "") (world_after evs_submit) w' Hs.
  simpl. f_equal. by apply (submit_empty _ _ _ Hs).
Defined.

(** Submitting the typed link clears the text box and leaves one [addGif]
    with that link in flight. *)
Lemma submit_link_witness :
  (λ w', (inputValue (app w'), in_flight w')) <$>
    step (EvUI "submit" H_sendGif "") w_typed
  = Some ("", [ReqAddGif (program_in w_typed) "https://x/z.gif"
                 (mkAddGifAccounts demo_key None)]).
Proof.
  next_world (EvUI "submit" H_sendGif "") w_typed w' Hs.
  assert (inputValue (app w_typed) ≠ "") as Hi by (by vm_compute).
  pose proof (submit_link _ _ _ phantom Hs Hi eq_refl) as Hv.
  simpl. by rewrite (visible_app _ _ _ _ _ _ Hv),
    (visible_in_flight _ _ _ _ _ _ Hv).
Defined.

(** The wallet extension is removed after the link was typed: the
    submission alerts and sends nothing. *)
Lemma submit_link_no_wallet_witness :
  (λ w', (inputValue (app w'), in_flight w', alerts w')) <$>
    step (EvUI "submit" H_sendGif "") (set_solana None w_typed)
  = Some ("", [], ["fal"]).
Proof.
  next_world (EvUI "submit" H_sendGif "") (set_solana None w_typed) w' Hs.
  assert (inputValue (app (set_solana None w_typed)) ≠ "") as Hi
    by (by vm_compute).
  pose proof (submit_link_no_wallet _ _ _ Hs Hi eq_refl) as Hv.
  simpl. by rewrite (visible_app _ _ _ _ _ _ Hv),
    (visible_in_flight _ _ _ _ _ _ Hv),
    (visible_alerts _ _ _ _ _ _ Hv).
Defined.

Lemma change_input_witness :
  inputValue ∘ app <$> step (EvUI "change" H_onInputChange "abc") w_listed
  = Some "abc".
Proof.
  next_world (EvUI "change" H_onInputChange "abc") w_listed w' Hs.
  pose proof (change_input _ _ _ Hs) as Hv%visible_app. simpl. by rewrite Hv.
Defined.

Lemma click_createGifAccount_witness :
  issued <$> step (EvUI "click" H_createGifAccount "")
    (world_after [EvLoad; EvSettle 0 connect_alice; EvSettle 0 (Failed (TypeError "no account"))])
  = issued <$> Some w_initialising.
Proof.
  set (w := world_after _).
  next_world (EvUI "click" H_createGifAccount "") w w' Hs.
  pose proof (click_createGifAccount _ _ _ phantom Hs eq_refl) as Hv.
  simpl. by rewrite (visible_issued _ _ _ _ _ _ Hv).
Defined.

Lemma click_connectWallet_witness :
  in_flight <$> step (EvUI "click" H_connectWallet "") (world_after [])
  = Some [ReqConnect None].
Proof.
  next_world (EvUI "click" H_connectWallet "") (world_after []) w' Hs.
  pose proof (click_connectWallet _ _ _ Hs) as Hv.
  simpl. by rewrite (visible_in_flight _ _ _ _ _ _ Hv).
Defined.

(** When the page has loaded, a trusted connection is requested from the
    Phantom wallet. *)
Lemma load_reconnect_witness :
  in_flight <$> step EvLoad (world_after [])
  = Some [ReqConnect (Some {| onlyIfTrusted := true |})].
Proof.
  next_world EvLoad (world_after []) w' Hs.
  pose proof (load_reconnect _ _ Hs) as Hv.
  simpl. by rewrite (visible_in_flight _ _ _ _ _ _ Hv).
Defined.

End reaction_examples.
