(* ===== verification/Logs.v ===== *)
(** * Logs: what the console shows

    Every handler writes to the console, and the specification calls the
    console the only diagnostic of several failures.  This file states
    what is written, event by event, without the handlers: [said r o] is
    what the answer [o] to the request [r] makes the page write,
    [fetching] the line of the session's effect, and [transcript ev w]
    the lines the event [ev] adds in the world [w].  The console of the
    page is then a function of the events it has taken
    ([console_is_transcript]): every suspension a handler leaves obeys
    [task_logs], which [handlers_log] checks on every path. *)

From S2P Require Import Prelude Js Async Remote Config Fixture Handlers Render EventLoop Scenarios Safety History Reactions.

Section log_defs.
Context {web3 : Web3} {build : Build}.

(** What the answer to a request makes the page write.  An answer that
    does not fit the request is not accepted, and writes nothing. *)
Definition said (r : Request) (o : Outcome) : list ConsoleLine :=
  match r, o with
  | ReqConnect _, Connected response =>
      [LogLine [VStr "Connected with Public Key:";
                VStr (pk_toString (publicKey response))]]
  | ReqConnect (Some _), Failed e => [ErrorLine [VError e]]
  | ReqConnect None, Failed _ => []
  | ReqAddGif _ link _, Confirmed _ =>
      [LogLine [VStr "GIF successfully sent to program"; VStr link]]
  | ReqAddGif _ _ _, Failed e => [LogLine [VStr "Error sending GIF:"; VError e]]
  | ReqStartStuffOff _ _ _, Confirmed _ =>
      [LogLine [VStr "Created a new BaseAccount w/ address:";
                VStr (pk_toString (kp_publicKey baseAccount))]]
  | ReqStartStuffOff _ _ _, Failed e =>
      [LogLine [VStr "Error creating BaseAccount account:"; VError e]]
  | ReqFetch _ _, Fetched a => [LogLine [VStr "Got the account"; VAccount a]]
  | ReqFetch _ _, Failed e => [LogLine [VStr "Error in getGifList: "; VError e]]
  | _, _ => []
  end.

(** The line of the second effect, when a render of the mounted page
    finds a new, truthy address. *)
Definition fetching (w : World) (address : option string) : list ConsoleLine :=
  if mounted w && bool_decide (address ≠ walletAddress (app w)) && truthy address
  then [LogLine [VStr "Fetching gifs..."]]
  else [].

Definition undefined_publicKey : JsError :=
  TypeError "Cannot read properties of undefined (reading 'publicKey')".

(** The lines an event adds. *)
Definition transcript (ev : Event) (w : World) : list ConsoleLine :=
  match ev with
  | EvLoad =>
      match solana w with
      | Some wallet =>
          LogLine [VStr "solana object found"]
          :: (if isPhantom wallet then [LogLine [VStr "Phantom wallet found"]]
              else [])
      | None => [LogLine [VStr "solana object not found. Get a Phantom wallet."]]
      end
  | EvUI _ H_sendGif _ =>
      if String.length (inputValue (app w)) =? 0
      then [LogLine [VStr "No gif link given!"]]
      else
        [LogLine [VStr "Gif link:"; VStr (inputValue (app w))];
         LogLine [VKey (Some (kp_publicKey baseAccount))]]
        ++ match solana w with
           | Some wallet => [LogLine [VKey (sol_publicKey wallet)]]
           | None => [LogLine [VStr "Error sending GIF:";
                               VError undefined_publicKey]]
           end
  | EvUI _ H_createGifAccount _ =>
      match solana w with
      | Some _ => []
      | None => [LogLine [VStr "Error creating BaseAccount account:";
                          VError undefined_publicKey]]
      end
  | EvUI _ H_connectWallet _ | EvUI _ H_onInputChange _ => []
  | EvSettle i o =>
      match in_flight w !! i with
      | Some r =>
          said r o
          ++ (if o is Connected response
              then fetching w (Some (pk_toString (publicKey response)))
              else [])
      | None => []
      end
  | EvWallet _ | EvUnmount => []
  end.

(** The law of a suspension: resumed, it writes what [said] says. *)
Definition task_logs (X : Type) (c : Call X) (k : Settled JsError X → JS ())
  : Prop :=
  ∀ o s w, settle_as c o = Some s →
    console (exec (k s) w) = console w ++ said (request_of c) o.

End log_defs.

(** Evaluate the console of an executed program on a symbolic world. *)
Ltac log_eval :=
  unfold said, exec, file; simpl; rewrite <-?app_assoc, ?app_nil_r; simpl;
  try done.

(** Evaluate the console after the reaction to an event, in a world
    given by its fields. *)
Ltac log_start :=
  handler_unfold; prog_unfold;
  unfold dispatch, commit, exec, file; simpl; case_mounted;
  repeat case_decide; simpl; rewrite <-?app_assoc, ?app_nil_r; simpl;
  try done.

Section logs.
Context {web3 : Web3} {build : Build}.
Implicit Types (w : World) (sol : option Solana).

(** Every suspension of every handler writes what [said] says. *)
Lemma handlers_log : handlers_ok (lawful task_logs).
Proof.
  split; [|intros v|intros [] s v]; simpl; handler_paths;
    unfold task_logs; intros outcome settled world Hs; destruct outcome;
    simplify_eq/=; log_eval.
Qed.

Lemma reachable_logs sol w : reachable sol w → tasks_ok (lawful task_logs) w.
Proof. apply (reachable_tasks_ok _ handlers_log). Qed.

(** The commit writes the line of the effect. *)
Lemma commit_console prev w :
  console (commit prev w)
  = console w
    ++ (if mounted w && bool_decide (walletAddress (app w) ≠ prev)
           && truthy (walletAddress (app w))
        then [LogLine [VStr "Fetching gifs..."]] else []).
Proof.
  unfold commit. destruct (mounted w); [|by rewrite app_nil_r]. simpl.
  case_decide as Hd.
  - rewrite bool_decide_eq_false_2 by (by intros []). by rewrite app_nil_r.
  - rewrite bool_decide_eq_true_2 by done. simpl.
    handler_unfold. destruct (truthy (walletAddress (app w)));
      prog_unfold; log_eval.
Qed.

(** ** Event by event *)

Lemma load_console w w' :
  step EvLoad w = Some w' → console w' = console w ++ transcript EvLoad w.
Proof.
  simpl. case_match; intros; simplify_eq.
  destruct w as [? [[[] ?]|]]; simpl in *; by log_start.
Qed.

Lemma ui_console event h value w w' :
  step (EvUI event h value) w = Some w' →
  console w' = console w ++ transcript (EvUI event h value) w.
Proof.
  intros (_ & _ & ->)%step_ui_offered. destruct h; cbn [closure transcript].
  - destruct w as [? [?|]]; simpl in *; by log_start.
  - destruct w as [? [?|]]; simpl in *; by log_start.
  - unfold sendGif. destruct (String.length (inputValue (app w)) =? 0);
      destruct w as [? [?|]]; simpl in *; by log_start.
  - by log_start.
Qed.

(** The session after an answer: the address of a granted connection,
    and otherwise the one before. *)
Lemma resumed_session X (c : Call X) k o s w :
  task_law X c k → settle_as c o = Some s →
  walletAddress (app (exec (k s) w))
  = if o is Connected response then Some (pk_toString (publicKey response))
    else walletAddress (app w).
Proof.
  destruct c; simpl; intros Hk Hs; specialize (Hk s w);
    destruct o; simplify_eq/=; by rewrite (visible_app _ _ _ _ _ _ Hk).
Qed.

Lemma settle_console sol w i o w' :
  reachable sol w → step (EvSettle i o) w = Some w' →
  console w' = console w ++ transcript (EvSettle i o) w.
Proof.
  intros Hr Hs. pose proof Hs as ([X c k] & Hi & _)%bind_Some.
  destruct (reachable_task_ok _ handlers_log _ _ _ _ Hr Hi) as [Hlog _].
  destruct (reachable_task_ok _ handlers_lawful _ _ _ _ Hr Hi) as [Hlaw _].
  rewrite (step_settle _ _ _ _ _ _ Hi) in Hs.
  destruct (settle_as c o) as [s|] eqn:Ho; [|done]. injection Hs as <-.
  cbn [transcript]. unfold in_flight. rewrite list_lookup_fmap, Hi.
  cbn [fmap option_fmap option_map task_request].
  unfold dispatch. rewrite commit_console, (Hlog o s _ Ho), exec_mounted.
  rewrite (resumed_session _ _ _ _ _ _ Hlaw Ho). cbn [console mounted app set_pending].
  rewrite <-app_assoc. do 2 f_equal. unfold fetching.
  destruct o; try done;
    rewrite bool_decide_eq_false_2 by (by intros []);
    by rewrite andb_false_r.
Qed.

(** C27. The console is a function of the events.  Every event a reachable
    page accepts adds to the console exactly the lines of [transcript]:
    the lines of the handler the event starts, or the line for the
    answer a pending task is resumed with, followed by the line of the
    effect when the answer opens a session. *)
Theorem console_is_transcript sol w ev w' :
  reachable sol w → step ev w = Some w' →
  console w' = console w ++ transcript ev w.
Proof.
  intros Hr Hs. destruct ev as [|event h value|i o|s|].
  - by apply load_console.
  - by apply ui_console.
  - by eapply settle_console.
  - injection Hs as <-. cbn. by rewrite app_nil_r.
  - cbn [step] in Hs. case_match; [|done]. injection Hs as <-.
    cbn. by rewrite app_nil_r.
Qed.

End logs.

(** * Worked examples *)

Section log_examples.
#[local] Existing Instances demo_web3 demo_build.

(** The wallet grants the connection asked for by the connect button:
    the key is logged, and the effect announces the first fetch. *)
Lemma console_is_transcript_witness :
  from_option
    (λ w', console w'
           = console w_connecting
             ++ [LogLine [VStr "Connected with Public Key:"; VStr "ALiCE111"];
                 LogLine [VStr "Fetching gifs..."]])
    False (step (EvSettle 0 connect_alice) w_connecting).
Proof.
  next_world (EvSettle 0 connect_alice) w_connecting w' Hs. cbn [from_option].
  by rewrite (console_is_transcript (Some phantom) w_connecting _ w'
                ltac:(demo_reachable) Hs).
Defined.

End log_examples.
