(* ===== verification/Failures.v ===== *)
(** * Failures: no failure is swallowed

    The specification's error taxonomy asks what becomes of a remote
    failure.  This file answers for every request the page can have in
    flight: when its promise is rejected, the continuation either writes
    a console line that carries the error and finishes, or lets the
    rejection escape unhandled (the connect button, and only it).  In
    both cases it sends nothing more and leaves the session as it is.
    [reports] is that law of a continuation, [handlers_report] shows that
    every handler keeps it, and [failure_is_reported] reads it off a step
    of the event loop. *)

From S2P Require Import Prelude Js Async Remote Config Fixture Handlers Render EventLoop Scenarios Safety Reactions.

(** The arguments of a console call. *)
Definition line_args (l : ConsoleLine) : list JsVal :=
  match l with LogLine args | ErrorLine args => args end.

(** What a continuation does with a rejection: a console line with the
    error, or the rejection of the handler itself. *)
Definition reports (X : Type) (c : Call X) (k : Settled JsError X → JS ())
  : Prop :=
  ∀ e w,
    let r := run perform (k (Rejected e)) w in
    (∃ line, console r.2 = console w ++ [line] ∧ VError e ∈ line_args line ∧
             r.1 = Returned ())
    ∨ (console r.2 = console w ∧ r.1 = Thrown e).

Ltac reports_eval :=
  intros ? ?; cbn;
  first [right; split; reflexivity
        |left; eexists; split_and!; [reflexivity| |reflexivity];
         cbn; repeat constructor].

Section failures.
Context {web3 : Web3} {build : Build}.
Implicit Types (w : World) (sol : option Solana).

Lemma handlers_report : handlers_ok (lawful reports).
Proof.
  split; [|intros v|intros [] s v]; simpl; handler_paths; reports_eval.
Qed.

(** A rejection leaves the session as it is. *)
Lemma rejected_keeps_session X (c : Call X) k e w :
  task_law X c k →
  walletAddress (app (exec (k (Rejected e)) w)) = walletAddress (app w).
Proof.
  destruct c; simpl; intros Hk; specialize (Hk (Rejected e) w);
    by rewrite (visible_app _ _ _ _ _ _ Hk).
Qed.

(** C25. No failure is swallowed: when the promise of a pending task is
    rejected, in whatever reachable world, either one console line
    carrying the error is written and no rejection escapes, or the
    console is left as it is and the rejection is recorded as
    unhandled. *)
Theorem failure_is_reported sol w i t e w' :
  reachable sol w → pending w !! i = Some t →
  step (EvSettle i (Failed e)) w = Some w' →
  (∃ line, console w' = console w ++ [line] ∧ VError e ∈ line_args line ∧
           uncaught w' = uncaught w)
  ∨ (console w' = console w ∧ uncaught w' = uncaught w ++ [e]).
Proof.
  intros Hr Hi Hs. destruct t as [X c k].
  destruct (reachable_task_ok _ handlers_report _ _ _ _ Hr Hi) as [Hrep _].
  destruct (reachable_task_ok _ handlers_lawful _ _ _ _ Hr Hi) as [Hlaw _].
  rewrite (step_settle _ _ _ _ _ _ Hi) in Hs.
  assert (settle_as c (Failed e) = Some (Rejected e)) as Ho by by destruct c.
  rewrite Ho in Hs. cbn [fmap option_fmap option_map] in Hs.
  assert (w' = dispatch (k (Rejected e)) (set_pending (delete i) w)) as ->
    by congruence.
  unfold dispatch.
  rewrite commit_same by (by rewrite (rejected_keeps_session _ _ _ _ _ Hlaw)).
  rewrite exec_console, exec_uncaught.
  destruct (Hrep e (set_pending (delete i) w))
    as [(line & -> & ? & ->)|[-> ->]]; simpl; rewrite ?app_nil_r; eauto.
Qed.

End failures.

(** * Worked examples *)

Section failure_examples.
#[local] Existing Instances demo_web3 demo_build.

(** The [addGif] of [w_submitted] is refused. *)
Lemma failure_is_reported_witness :
  from_option
    (λ w', (∃ line, console w' = console w_submitted ++ [line] ∧
                    VError (TypeError "refused") ∈ line_args line ∧
                    uncaught w' = uncaught w_submitted)
           ∨ (console w' = console w_submitted ∧
              uncaught w' = uncaught w_submitted ++ [TypeError "refused"]))
    False (step (EvSettle 0 (Failed (TypeError "refused"))) w_submitted).
Proof.
  next_world (EvSettle 0 (Failed (TypeError "refused"))) w_submitted w' Hs.
  pending_task w_submitted 0 t Ht. cbn [from_option].
  apply (failure_is_reported (Some phantom) w_submitted 0 t);
    [demo_reachable | exact Ht | exact Hs].
Defined.

End failure_examples.
