(* ===== verification/Refinement.v ===== *)
(** * Refinement: the page implements the specification's view-model

    [abs] reads a [Model] of [Spec] off a world of [EventLoop]: the three
    cells as session, entry list and draft, each pending task as the
    operation it waits for, each request sent as the operation it started.
    The handlers, their continuations, the console and the browser's
    bookkeeping are forgotten.

    [step_simulation] is the diagram: whenever the page takes a step, the
    machine of the specification takes the same step between the
    abstractions, the unmount included.  It is proved once per handler
    ([closure_refines]) and once per kind of pending request, from the law
    every suspension obeys ([Reactions.task_law]); [step_simulation_from]
    is the same diagram from any world whose tasks are lawful and whose
    listener follows the mount, reachable or not.  [step_refused] is the converse: an event the
    page refuses, the machine refuses.  Together they make [abs] commute
    with runs ([page_refines_spec]) and the machine tight
    ([spec_reachable_realised]).  What is proved of the machine then
    holds of the page; [program_request_needs_session] is proved that
    way. *)

From S2P Require Import Prelude Js Async Remote Config Fixture Handlers Render EventLoop Spec Scenarios Safety Reactions.

Definition entry_state (l : option (list GifItem)) : EntryListState :=
  match l with
  | None => Uninitialized
  | Some entries => Populated entries
  end.

(** The operation a request starts; a connection is interactive when it
    carries no options. *)
Definition operation_of (r : Request) : Operation :=
  match r with
  | ReqConnect opts => Connecting (if opts is None then true else false)
  | ReqAddGif _ link _ => Submitting link
  | ReqStartStuffOff _ _ _ => Initializing
  | ReqFetch _ _ => Fetching
  end.

Definition abs (w : World) : Model := {|
  session := walletAddress (app w);
  entryList := entry_state (gifList (app w));
  draftInput := inputValue (app w);
  walletProvider := solana w;
  attached := mounted w;
  reconnectDue := negb (loaded w);
  inFlight := operation_of <$> in_flight w;
  started := operation_of <$> issued w;
  alerted := alerts w;
  unhandled := uncaught w
|}.

(** Requests to the wallet. *)
Definition is_connect (r : Request) : Prop :=
  match r with ReqConnect _ => True | _ => False end.

(** Evaluate both sides of a refinement equation on a world given by its
    fields. *)
Ltac abs_eval :=
  unfold abs, operate, tryReconnectSilently, connectInteractively,
    initializeStorage, submitEntry, editDraft, refreshList, entry_state;
  start_eval.

Section refinement.
Context {web3 : Web3} {build : Build}.
Implicit Types (w : World) (sol : option Solana).

(** The abstraction depends on what is visible and on the wallet object. *)
Lemma abs_visible w a f i al u :
  visible w = (a, f, i, al, u) →
  abs w =
  mkModel (walletAddress a) (entry_state (gifList a)) (inputValue a)
    (solana w) (mounted w) (negb (loaded w)) (operation_of <$> f)
    (operation_of <$> i) al u.
Proof. unfold visible, abs. by intros [= <- <- <- <- <-]. Qed.

Lemma abs_initial sol : abs (initial sol) = spec_initial sol.
Proof. reflexivity. Qed.

Lemma commit_solana prev w : solana (commit prev w) = solana w.
Proof. unfold commit. repeat case_match; [done| |done]. apply exec_solana. Qed.

Lemma commit_loaded prev w : loaded (commit prev w) = loaded w.
Proof. unfold commit. repeat case_match; [done| |done]. apply exec_loaded. Qed.

Lemma commit_mounted prev w : mounted (commit prev w) = mounted w.
Proof.
  unfold commit. destruct (mounted w) eqn:Hm; [|done].
  case_decide; [done|]. by rewrite exec_mounted.
Qed.

(** ** Events that start a handler *)

Lemma step_load_refines w w' :
  listening w →
  step EvLoad w = Some w' → spec_step EvLoad (abs w) = Some (abs w').
Proof.
  intros Hm. simpl. case_match eqn:Hg; intros; simplify_eq.
  apply andb_prop in Hg as [Hll Hl%negb_true_iff]. unfold listening in Hm.
  destruct w as [? [[[] ?]|]]; simpl in *; subst; abs_eval.
Qed.

(** Each handler is the operation of the specification it stands for. *)
Lemma closure_refines h value w :
  abs (dispatch (closure h (app w) value) (set_defaultPrevented false w)) =
  operate h value (abs w).
Proof.
  destruct w as [[wa iv gl] [?|]]; destruct h; simpl closure;
    try (unfold sendGif; destruct (String.length iv =? 0) eqn:Hl);
    abs_eval;
    first [by apply string_length_eqb_zero in Hl
          |by apply string_length_eqb_nonzero in Hl].
Qed.

Lemma shown_abs w :
  shown (abs w) =
  if truthy (walletAddress (app w)) then
    match gifList (app w) with
    | None => InitializeButton
    | Some _ => EntryForm
    end
  else ConnectButton.
Proof. unfold shown, abs. simpl. by destruct (gifList (app w)). Qed.

(** A control the render binds is the control the specification shows. *)
Lemma listeners_shown w event h :
  (event, h) ∈ listeners (App (app w)) → control_of h = (shown (abs w), event).
Proof.
  rewrite shown_abs.
  intros [(-> & -> & ->)|[(-> & -> & -> & ->)|[(-> & -> & -> & [? ->])
         |(-> & -> & -> & [? ->])]]]%listeners_App_cases; done.
Qed.

Lemma step_ui_refines w w' event h value :
  step (EvUI event h value) w = Some w' →
  spec_step (EvUI event h value) (abs w) = Some (abs w').
Proof.
  intros (Hm & Hin & ->)%step_ui_offered. rewrite closure_refines.
  cbn [spec_step]. change (attached (abs w)) with (mounted w). rewrite Hm.
  by rewrite bool_decide_eq_true_2 by (by apply listeners_shown).
Qed.

(** ** Settlements *)

Lemma abs_in_flight_lookup w i t :
  pending w !! i = Some t →
  inFlight (abs w) !! i = Some (operation_of (task_request t)).
Proof.
  intros Hi. simpl. unfold in_flight. by rewrite !list_lookup_fmap, Hi.
Qed.

(** The world a resumed task leaves, read through [abs]. *)
Lemma abs_resumed w w0 prev (p : JS ()) a f i al u :
  solana w0 = solana w → loaded w0 = loaded w → mounted w0 = mounted w →
  visible (commit prev (exec p w0)) = (a, f, i, al, u) →
  abs (commit prev (exec p w0)) =
  mkModel (walletAddress a) (entry_state (gifList a)) (inputValue a)
    (solana w) (mounted w) (negb (loaded w)) (operation_of <$> f)
    (operation_of <$> i) al u.
Proof.
  intros Hsol Hld Hmt Hv. rewrite (abs_visible _ _ _ _ _ _ Hv).
  rewrite commit_solana, exec_solana, commit_loaded, exec_loaded.
  by rewrite commit_mounted, exec_mounted, Hsol, Hld, Hmt.
Qed.

Section settled.
Context (w w0 : World) (i : nat).
Hypothesis (Ha : app w0 = app w) (Hf : in_flight w0 = delete i (in_flight w)).
Hypothesis (Hi : issued w0 = issued w) (Hal : alerts w0 = alerts w).
Hypothesis (Hu : uncaught w0 = uncaught w).
Hypothesis (Hfr : fetch_request w0 = fetch_request w).
Hypothesis (Hsol : solana w0 = solana w) (Hld : loaded w0 = loaded w).
Hypothesis (Hmt : mounted w0 = mounted w).

Lemma fetch_refines program address k o s :
  task_law _ (AccountFetch program address) k →
  settle_as (AccountFetch program address) o = Some s →
  settle Fetching o (with_inFlight (delete i) (abs w)) =
  Some (abs (commit (walletAddress (app w)) (exec (k s) w0))).
Proof.
  intros Hk Ho.
  rewrite (abs_resumed _ _ _ _ _ _ _ _ _ Hsol Hld Hmt
             (resume_fetch program address k s i w w0 Hk Ha Hf Hi Hal Hu)).
  destruct o; simplify_eq/=; by rewrite list_fmap_delete.
Qed.

Lemma transaction_refines msgs k o (s : Settled JsError TxSig) op :
  (∀ s w, after_transaction msgs s w (exec (k s) w)) →
  match o with
  | Confirmed sig => s = Fulfilled sig
  | Failed e => s = Rejected e
  | _ => False
  end →
  (∀ m, settle op o m =
        match o with
        | Confirmed _ => Some (refreshList m)
        | Failed _ =>
            Some (mkModel (session m) (entryList m) (draftInput m)
                    (walletProvider m) (attached m) (reconnectDue m)
                    (inFlight m) (started m) (alerted m ++ msgs)
                    (unhandled m))
        | _ => None
        end) →
  settle op o (with_inFlight (delete i) (abs w)) =
  Some (abs (commit (walletAddress (app w)) (exec (k s) w0))).
Proof.
  intros Hk Hshape ->.
  assert (match o with
          | Confirmed _ => ∃ x, s = Fulfilled x
          | _ => ∃ e, s = Rejected e
          end) as Hs by (destruct o; naive_solver).
  pose proof (after_transaction_settled msgs i o s w w0 k Hs
                Ha Hf Hi Hal Hu Hfr (Hk s w0)) as Hv.
  unfold transaction_settled in Hv.
  destruct o; try done;
    rewrite (abs_resumed _ _ _ _ _ _ _ _ _ Hsol Hld Hmt Hv); simpl;
    by rewrite ?fmap_app, ?list_fmap_delete.
Qed.

Lemma connect_refines opts k o (s : Settled JsError ConnectResponse) :
  task_law _ (SolanaConnect opts) k →
  match o with
  | Connected response => s = Fulfilled response
  | Failed e => s = Rejected e
  | _ => False
  end →
  settle (Connecting (if opts is None then true else false)) o
    (with_inFlight (delete i) (abs w)) =
  Some (abs (commit (walletAddress (app w)) (exec (k s) w0))).
Proof.
  intros Hk Hshape.
  pose proof (resume_connect opts k s i o w w0 Hk Hshape Ha Hf Hi Hal Hu Hfr
                Hmt) as Hv.
  unfold connect_settled in Hv.
  destruct o; try done; rewrite (abs_resumed _ _ _ _ _ _ _ _ _ Hsol Hld Hmt Hv).
  - cbv beta iota delta [settle openSession refreshList fetch_request].
    rewrite ?truthy_Some. simpl attached.
    destruct (mounted w) eqn:Hm;
      [|by simpl; rewrite Hm, ?app_nil_r, ?list_fmap_delete].
    destruct (truthy (pk_toString _)); simpl; case_decide; simpl;
      by rewrite Hm, ?fmap_app, ?list_fmap_delete, ?app_nil_r.
  - destruct opts; simpl; by rewrite list_fmap_delete, ?app_nil_r.
Qed.

End settled.

Lemma step_settle_refines w i o w' :
  tasks_ok (lawful task_law) w → step (EvSettle i o) w = Some w' →
  spec_step (EvSettle i o) (abs w) = Some (abs w').
Proof.
  intros Hr Hs.
  destruct (pending w !! i) as [[X c k]|] eqn:Hp;
    [|by simpl in Hs; rewrite Hp in Hs].
  destruct (step_settle_lawful _ _ _ _ _ _ _ Hr Hp Hs)
    as (s & w0 & Ho & Hk & -> & Ha & Hf & Hi0 & Hal & Hu & Hfr & Hsol & Hld
        & Hmt).
  unfold spec_step. rewrite (abs_in_flight_lookup _ _ _ Hp).
  destruct c; simpl option_bind; simpl operation_of.
  - apply connect_refines; try done. by eapply settle_connect_shape.
  - apply (transaction_refines _ _ _ Ha Hf Hi0 Hal Hu Hfr Hsol Hld Hmt ["fal"]);
      [done| |by destruct o]. by destruct o; simplify_eq/=.
  - apply (transaction_refines _ _ _ Ha Hf Hi0 Hal Hu Hfr Hsol Hld Hmt []);
      [done|by destruct o; simplify_eq/=|].
    intros m. destruct o, m; simpl; by rewrite ?app_nil_r.
  - by apply (fetch_refines _ _ _ Ha Hf Hi0 Hal Hu Hfr Hsol Hld Hmt program address).
Qed.

(** ** The simulation *)

(** Every step of the page is the same step of the specification's
    machine, between the abstractions.  What the diagram needs of the
    world it starts from: the pending tasks obey the law of their
    requests, and the listener is registered while the page is mounted. *)
Lemma step_simulation_from w ev w' :
  tasks_ok (lawful task_law) w → listening w → step ev w = Some w' →
  spec_step ev (abs w) = Some (abs w').
Proof.
  intros Ht Hl. destruct ev as [|event h value|i o|s|].
  - by apply step_load_refines.
  - apply step_ui_refines.
  - by apply step_settle_refines.
  - by intros [= <-].
  - simpl. by case_match; intros [= <-].
Qed.

Lemma step_simulation sol w ev w' :
  reachable sol w → step ev w = Some w' →
  spec_step ev (abs w) = Some (abs w').
Proof.
  intros Hr. apply step_simulation_from;
    [by eapply reachable_lawful | by eapply reachable_listening].
Qed.

(** ** The converse: what the page refuses, the machine refuses *)

Lemma shown_listeners w event h :
  control_of h = (shown (abs w), event) → (event, h) ∈ listeners (App (app w)).
Proof.
  rewrite shown_abs, listeners_App.
  destruct (truthy (walletAddress (app w))); [destruct (gifList (app w))|];
    destruct h; intros [= <-]; repeat constructor.
Qed.

Lemma settle_refused {X} (c : Call X) o m :
  settle_as c o = None → settle (operation_of (request_of c)) o m = None.
Proof. by destruct c, o. Qed.

Lemma step_refused sol w ev :
  reachable sol w → step ev w = None → spec_step ev (abs w) = None.
Proof.
  intros Hr. destruct ev as [|event h value|i o|s|]; simpl.
  - apply reachable_listening in Hr. unfold listening in Hr. rewrite Hr.
    by destruct (mounted w), (loaded w).
  - destruct (mounted w); simpl; [|done].
    case_bool_decide as Hin; [done|]. intros _.
    rewrite bool_decide_eq_false_2; [done|]. by intros ?%shown_listeners.
  - unfold in_flight. rewrite !list_lookup_fmap.
    destruct (pending w !! i) as [[X c k]|]; simpl; [|done].
    destruct (settle_as c o) eqn:Ho; [done|]. intros _.
    by apply settle_refused.
  - done.
  - by case_match.
Qed.

(** The abstraction commutes with runs. *)
Lemma run_events_bisimulation sol evs w :
  reachable sol w → abs <$> run_events evs w = spec_run evs (abs w).
Proof.
  revert w. induction evs as [|ev evs IH]; intros w Hr; simpl; [done|].
  destruct (step ev w) as [w1|] eqn:Hs; simpl.
  - rewrite (step_simulation _ _ _ _ Hr Hs). simpl.
    apply IH. by eapply reach_step.
  - by rewrite (step_refused _ _ _ Hr Hs).
Qed.

Lemma abs_reachable sol w : reachable sol w → spec_reachable sol (abs w).
Proof.
  induction 1 as [|w ev w' Hr IH Hs]; [apply spec_reach_initial|].
  by eapply spec_reach_step, step_simulation.
Qed.

Lemma operation_of_connect r : ¬ on_program (operation_of r) → is_connect r.
Proof. by destruct r; simpl; intros H; try (by destruct H). Qed.

(** C2. The page run from its first render is the machine run from its
    initial model: the machine accepts exactly the sequences of events the
    page accepts, and after each of them it holds the abstraction of the
    page's world. *)
Theorem page_refines_spec sol evs :
  abs <$> run_events evs (initial sol) = spec_run evs (spec_initial sol).
Proof.
  rewrite <-abs_initial. apply (run_events_bisimulation sol), reach_initial.
Qed.

(** C33. The specification is tight: every model its machine reaches is the
    abstraction of a world the page reaches. *)
Theorem spec_reachable_realised sol m :
  spec_reachable sol m → ∃ w, reachable sol w ∧ abs w = m.
Proof.
  induction 1 as [|m ev m' _ (w & Hr & <-) Hs].
  - exists (initial sol). split; [apply reach_initial | apply abs_initial].
  - destruct (step ev w) as [w'|] eqn:Hw.
    + exists w'. split; [by eapply reach_step|].
      rewrite (step_simulation _ _ _ _ Hr Hw) in Hs. by injection Hs.
    + by rewrite (step_refused _ _ _ Hr Hw) in Hs.
Qed.

(** C32. Until a session is open the page sends nothing to the program: every
    request sent so far went to the wallet. *)
Theorem program_request_needs_session sol w :
  reachable sol w → walletAddress (app w) = None →
  Forall is_connect (issued w).
Proof.
  intros Hr%abs_reachable%spec_reachable_needs_session Hs.
  destruct (Hr Hs) as [Hst _]. simpl in Hst.
  rewrite Forall_fmap in Hst. eapply Forall_impl; [exact Hst|].
  intros r. apply operation_of_connect.
Qed.

(** However many promises are pending, if each of them is rejected,
    oldest first, the page comes to rest: every handler finishes, nothing
    is left pending, no further request is sent and the session is as it
    was. *)
Theorem fail_all_quiesces sol w e :
  reachable sol w →
  ∃ w', run_events (replicate (length (pending w)) (EvSettle 0 (Failed e))) w
        = Some w' ∧
        pending w' = [] ∧ length (issued w') = length (issued w) ∧
        walletAddress (app w') = walletAddress (app w).
Proof.
  intros Hr. destruct (spec_fail_all e (abs w)) as (m' & Hrun & Hf & Hst & Hse).
  simpl in Hrun. unfold in_flight in Hrun. rewrite !length_fmap in Hrun.
  rewrite <-(run_events_bisimulation sol) in Hrun by done.
  destruct (run_events _ w) as [w'|]; simplify_eq/=. exists w'.
  split_and!; [done| | |done].
  - unfold in_flight in Hf. by repeat apply fmap_nil_inv in Hf.
  - by rewrite <-(length_fmap operation_of), Hst, length_fmap.
Qed.

End refinement.

(** * Worked examples *)

Section refinement_examples.
#[local] Existing Instances demo_web3 demo_build.

(** The model in which the silent reconnection was asked of the Phantom
    wallet is the abstraction of a world the page reaches. *)
Lemma spec_reachable_realised_witness :
  ∃ w, reachable (Some phantom) w ∧
       abs w =
       tryReconnectSilently
         (with_reconnectDue false (spec_initial (Some phantom))).
Proof.
  apply spec_reachable_realised.
  apply (spec_reach_step _ (spec_initial (Some phantom)) EvLoad);
    [apply spec_reach_initial | reflexivity].
Defined.

(** The connect button clicked and the wallet not yet answered: the one
    request sent went to the wallet. *)
Lemma program_request_needs_session_witness :
  Forall is_connect (issued w_connecting).
Proof.
  apply (program_request_needs_session (Some phantom));
    [demo_reachable | vm_compute; reflexivity].
Defined.

(** With the two fetches of [w_two_fetches] in flight and the network
    down, two rejections bring the page to rest. *)
Lemma fail_all_quiesces_witness :
  pending <$>
    run_events (replicate 2 (EvSettle 0 (Failed (TypeError "offline"))))
      w_two_fetches
  = Some [].
Proof.
  assert (length (pending w_two_fetches) = 2) as Hl by (vm_compute; reflexivity).
  destruct (fail_all_quiesces (Some phantom) w_two_fetches (TypeError "offline"))
    as (w' & Hrun & Hp & _); [demo_reachable|].
  rewrite Hl in Hrun. by rewrite Hrun, <-Hp.
Defined.

End refinement_examples.
