(* ===== verification/WellFormed.v ===== *)
(** * WellFormed: the invariant of the page

    [wf] collects what holds of a world of [EventLoop] whatever the
    environment did, in the one form that every step preserves:
    - every pending task is [disciplined]: it obeys the law of its request
      ([Reactions.task_law]), sends only well-formed requests, neither
      touches the [load] listener nor clears the session, and suspends at
      most once more;
    - the listener is registered exactly while the component is mounted,
      the requests sent are well formed, the browser never navigated;
    - the requests in flight were sent, in that order;
    - the books of [Accounting] balance: one silent reconnection at most,
      and for every rejection nobody handled an interactive connection of
      its own;
    - outside a session nothing was asked of the program.
    [wf_invariant] shows that the mounted page is well formed and that
    every step keeps it so.  The part on tasks and the part on the world
    come from the policies of [Safety]; the books come from the machine of
    the specification, through the simulation of [Refinement]. *)

From S2P Require Import Prelude Js Async Remote Config Fixture Handlers Render EventLoop Spec Accounting Scenarios Safety Reactions Refinement.

Section wf_defs.
Context {web3 : Web3} {build : Build}.

(** The request of the silent reconnection, and of the connect button. *)
Definition silently (r : Request) : Prop := silent (operation_of r).
Definition prompting (r : Request) : Prop := prompted (operation_of r).

#[export] Instance silently_dec r : Decision (silently r).
Proof. unfold silently. apply _. Defined.

#[export] Instance prompting_dec r : Decision (prompting r).
Proof. unfold prompting. apply _. Defined.

(** The effects a handler may have, and the programs that keep to them. *)
Definition orderly (X : Type) (a : Action X) : Prop :=
  keeps_listener X a ∧ keeps_session X a.

Definition disciplined (p : JS ()) : Prop :=
  (lawful task_law p ∧ safe orderly call_ok p) ∧ await_bound 2 p.

Definition tidy (w : World) : Prop :=
  (listening w ∧ requests_ok w) ∧ never_navigated w.

(** The books of the page. *)
Definition books (w : World) : Prop :=
  count silently (issued w) ≤ (if loaded w then 1 else 0) ∧
  length (uncaught w) + count prompting (in_flight w)
    ≤ count prompting (issued w).

Record wf (w : World) : Prop := mk_wf {
  wf_tasks : tasks_ok disciplined w;
  wf_tidy : tidy w;
  wf_in_flight : in_flight w `sublist_of` issued w;
  wf_books : books w;
  wf_session : walletAddress (app w) = None → Forall is_connect (issued w)
}.

End wf_defs.

Section wf.
Context {web3 : Web3} {build : Build}.
Implicit Types (w : World) (sol : option Solana) (p : JS ()).

(** ** The discipline of the handlers *)

Lemma handlers_orderly : handlers_ok (safe orderly call_ok).
Proof.
  split; [|intros v|intros [] s v]; simpl; handler_paths;
    by apply string_length_eqb_nonzero.
Qed.

Lemma handlers_disciplined : handlers_ok disciplined.
Proof.
  repeat apply handlers_ok_and;
    [apply handlers_lawful | apply handlers_orderly
    |apply handlers_await_bound].
Qed.

#[export] Instance disciplined_Closed : Closed disciplined.
Proof. repeat apply and_Closed; apply _. Qed.

#[export] Instance tidy_inv : WorldInv orderly call_ok tidy.
Proof.
  repeat apply WorldInv_and.
  - eapply WorldInv_weaken, listening_inv; [by intros X a []|done].
  - eapply WorldInv_weaken, requests_ok_inv; done.
  - eapply WorldInv_weaken, never_navigated_inv; done.
Qed.

Lemma disciplined_lawful w :
  tasks_ok disciplined w → tasks_ok (lawful task_law) w.
Proof. apply tasks_ok_impl. by intros p [[??]?]. Qed.

Lemma disciplined_orderly w :
  tasks_ok disciplined w → tasks_ok (safe orderly call_ok) w.
Proof. apply tasks_ok_impl. by intros p [[??]?]. Qed.

(** ** What a step sends

    A reaction appends the same requests to the record of requests sent
    and to the requests in flight, after a settlement has taken its
    request out of flight. *)

Lemma exec_sends p w :
  ∃ rs, in_flight (exec p w) = in_flight w ++ rs ∧
        issued (exec p w) = issued w ++ rs.
Proof.
  exists (task_request <$> spawned (run perform p w).1). unfold in_flight.
  by rewrite exec_pending, exec_issued, fmap_app.
Qed.

Lemma commit_sends prev w :
  ∃ rs, in_flight (commit prev w) = in_flight w ++ rs ∧
        issued (commit prev w) = issued w ++ rs.
Proof.
  unfold commit. destruct (mounted w); [case_decide|];
    first [apply exec_sends | exists []; by rewrite !app_nil_r].
Qed.

Lemma dispatch_sends p w :
  ∃ rs, in_flight (dispatch p w) = in_flight w ++ rs ∧
        issued (dispatch p w) = issued w ++ rs.
Proof.
  unfold dispatch. destruct (exec_sends p w) as (r1 & Hf1 & Hi1).
  destruct (commit_sends (walletAddress (app w)) (exec p w))
    as (r2 & Hf2 & Hi2).
  exists (r1 ++ r2). by rewrite Hf2, Hi2, Hf1, Hi1, !app_assoc.
Qed.

Lemma step_sends ev w w' :
  step ev w = Some w' →
  ∃ rs, issued w' = issued w ++ rs ∧
        in_flight w' =
        (if ev is EvSettle i _ then delete i (in_flight w) else in_flight w)
        ++ rs.
Proof.
  destruct ev as [|event h value|i o|s|]; cbn [step].
  - case_match; intros [= <-].
    destruct (dispatch_sends onLoad (set_loaded true w)) as (rs & ? & ?).
    by exists rs.
  - intros (_ & _ & ->)%step_ui_offered.
    destruct (dispatch_sends (closure h (app w) value)
                (set_defaultPrevented false w)) as (rs & ? & ?).
    by exists rs.
  - intros (t & _ & (p & _ & Hs)%bind_Some)%bind_Some.
    destruct (dispatch_sends p (set_pending (delete i) w)) as (rs & Hf & Hi).
    exists rs. injection Hs as <-. split; [exact Hi|]. etrans; [exact Hf|].
    unfold in_flight. simpl. by rewrite list_fmap_delete.
  - intros [= <-]. exists []. by rewrite !app_nil_r.
  - case_match; intros [= <-]. exists []. by rewrite !app_nil_r.
Qed.

(** A step keeps every request in flight among the requests sent. *)
Lemma step_in_flight ev w w' :
  step ev w = Some w' →
  in_flight w `sublist_of` issued w → in_flight w' `sublist_of` issued w'.
Proof.
  intros (rs & -> & ->)%step_sends Hsub. apply sublist_app; [|done].
  destruct ev; try done. etrans; [apply sublist_delete | done].
Qed.

(** ** The books of the page are the books of the machine *)

Lemma books_abs w :
  in_flight w `sublist_of` issued w → books w ↔ accounted 0 (abs w).
Proof.
  intros Hsub. unfold books, accounted, abs. simpl.
  rewrite !count_fmap, Nat.add_0_r. destruct (loaded w); simpl;
    (split; [intros [??]; split_and!; [by apply fmap_sublist|done..]
            |by intros (_ & ? & ?)]).
Qed.

Lemma is_connect_operation r : is_connect r ↔ ¬ on_program (operation_of r).
Proof. destruct r; simpl; naive_solver. Qed.

Lemma session_abs w :
  in_flight w `sublist_of` issued w →
  (walletAddress (app w) = None → Forall is_connect (issued w)) ↔
  program_needs_session (abs w).
Proof.
  intros Hsub. unfold program_needs_session, abs. simpl.
  rewrite !Forall_fmap.
  split; intros H Hs; specialize (H Hs).
  - assert (Forall (λ r, ¬ on_program (operation_of r)) (issued w)) as Hi
      by (eapply Forall_impl; [exact H|]; intros r; apply is_connect_operation).
    split; [done|]. by eapply Forall_sublist.
  - destruct H as [H _]. eapply Forall_impl; [exact H|].
    intros r. apply is_connect_operation.
Qed.

(** A well-formed world abstracts to a well-formed model. *)
Lemma wf_model w : wf w → model_wf (abs w).
Proof.
  intros [_ _ Hsub Hb Hs]. split; [by apply books_abs | by apply session_abs].
Qed.

(** ** The invariant *)

Lemma initial_wf sol : wf (initial sol).
Proof.
  split.
  - apply initial_tasks_ok.
  - by split_and!; [|constructor|].
  - apply sublist_nil.
  - split; cbv; lia.
  - constructor.
Qed.

Lemma step_wf ev w w' : wf w → step ev w = Some w' → wf w'.
Proof.
  intros Hw Hs. pose proof Hw as [Ht Hy Hsub Hb Hse].
  assert (in_flight w' `sublist_of` issued w') as Hsub'
    by by eapply step_in_flight.
  assert (model_wf (abs w')) as [Ha' Hs'].
  { eapply spec_step_wf; [|by apply wf_model].
    apply step_simulation_from; [by apply disciplined_lawful| |done].
    by destruct Hy as [[??]?]. }
  split; [| |done|by apply books_abs|by apply session_abs].
  - by eapply (step_tasks_ok _ handlers_disciplined).
  - eapply (step_inv _ _ tidy handlers_orderly); [|done..].
    by apply disciplined_orderly.
Qed.

Lemma reachable_wf sol w : reachable sol w → wf w.
Proof. induction 1; [apply initial_wf | by eapply step_wf]. Qed.

(** C3. The mounted page is well formed, and every event the page accepts
    leads from a well-formed world to a well-formed world: [wf] is the
    invariant of the page. *)
Theorem wf_invariant sol :
  wf (initial sol) ∧ ∀ ev w w', wf w → step ev w = Some w' → wf w'.
Proof. split; [apply initial_wf | apply step_wf]. Qed.

(** C28. For every rejection that nobody handled there is an interactive
    connection of its own that the page asked for and that is no longer
    in flight: nothing but a declined connect button leaves a rejection
    unhandled. *)
Theorem uncaught_from_prompts sol w :
  reachable sol w →
  length (uncaught w) + count prompting (in_flight w)
    ≤ count prompting (issued w).
Proof. by intros [_ _ _ [_ ?] _]%reachable_wf. Qed.

(** C29. The silent reconnection is asked of the wallet once at most, and
    not before the window has loaded. *)
Theorem reconnect_once sol w :
  reachable sol w →
  count silently (issued w) ≤ (if loaded w then 1 else 0).
Proof. by intros [_ _ _ [? _] _]%reachable_wf. Qed.

End wf.

(** * Worked examples *)

Section wf_examples.
#[local] Existing Instances demo_web3 demo_build.

(** The connect button was clicked and the wallet declined: one
    rejection, one interactive connection. *)
Lemma uncaught_from_prompts_witness :
  from_option
    (λ w, length (uncaught w) + count prompting (in_flight w)
          ≤ count prompting (issued w))
    False (run_demo evs_declined).
Proof.
  destruct (run_demo evs_declined) as [w|] eqn:Hw; [|by vm_compute in Hw].
  simpl. apply (uncaught_from_prompts (Some phantom)).
  apply (run_demo_reachable evs_declined), Hw.
Defined.

(** With a link submitted after the reconnection, the one silent
    reconnection is on record. *)
Lemma reconnect_once_witness :
  count silently (issued w_submitted) ≤ (if loaded w_submitted then 1 else 0).
Proof. apply (reconnect_once (Some phantom)). demo_reachable. Defined.

End wf_examples.
