(* ===== verification/Lifecycle.v ===== *)
(** * Lifecycle: the component leaves the page

    The first effect of [App] returns a cleanup (line 213) that React runs
    when the component is unmounted ([EventLoop.unmount]).  The cleanup
    removes the [load] listener and nothing else: the promises in flight
    keep their continuations.  This file shows what that means for the
    page:
    - an unmounted page accepts no event of the window or of the user,
      and never comes back ([unmounted_refuses]);
    - for every request in flight that went to the program, the answer is
      handled exactly as if the component were still mounted
      ([unmount_cancels_nothing]): unmounting and answering commute.
    A connection granted after the unmount is the exception: the session
    is set but the effect that would send the first fetch no longer runs
    ([Reactions.settle_connect]). *)

From S2P Require Import Prelude Js Async Remote Config Fixture Handlers Render EventLoop Spec Accounting Scenarios Safety Reactions Refinement WellFormed.

Section lifecycle.
Context {web3 : Web3} {build : Build}.
Implicit Types (w : World) (sol : option Solana) (p : JS ()).

(** No handler can tell whether the component is mounted: a handler that
    leaves the listener alone runs the same before and after the
    cleanup. *)
Lemma exec_unmount p w :
  safe keeps_listener any_call p → exec p (unmount w) = unmount (exec p w).
Proof.
  intros Hp. rewrite !unmount_eq.
  apply (exec_commute keeps_listener any_call
           (λ w, set_mounted false (set_loadListener false w))); [| |done].
  - intros X a w0 Ha. by destruct a.
  - by intros [| |] w0.
Qed.

Lemma commit_unmounted prev w : mounted w = false → commit prev w = w.
Proof. unfold commit. by intros ->. Qed.

(** The continuation of a request to the program leaves the session as
    it is. *)
Lemma resumed_keeps_session X (c : Call X) k s w :
  task_law X c k → ¬ is_connect (request_of c) →
  walletAddress (app (exec (k s) w)) = walletAddress (app w).
Proof.
  destruct c; simpl; intros Hk Hc; [done|..]; specialize (Hk s w);
    try (unfold after_transaction in Hk; destruct s);
    by rewrite (visible_app _ _ _ _ _ _ Hk).
Qed.

(** A pending task of a well-formed world, taken apart. *)
Lemma wf_task w i X (c : Call X) k s :
  wf w → pending w !! i = Some (mkTask c k) →
  task_law X c k ∧ safe keeps_listener any_call (k s).
Proof.
  intros [Ht _ _ _ _] Hi.
  destruct (Forall_lookup_Some _ _ _ _ Ht Hi) as [[[Hl _] [_ Hs]] _].
  split; [done|]. eapply safe_weaken; [| |apply Hs]; [by intros X' a []|done].
Qed.

Lemma settle_unmounted w i X (c : Call X) k o :
  wf w → pending w !! i = Some (mkTask c k) →
  step (EvSettle i o) (unmount w) =
  (λ s, unmount (exec (k s) (set_pending (delete i) w))) <$> settle_as c o.
Proof.
  intros Hw Hi. rewrite (step_settle (unmount w) i X c k o Hi).
  destruct (settle_as c o) as [s|]; [|done].
  destruct (wf_task w i X c k s Hw Hi) as [_ Hs].
  cbn [fmap option_fmap option_map]. f_equal. unfold dispatch.
  change (set_pending (delete i) (unmount w))
    with (unmount (set_pending (delete i) w)).
  rewrite (exec_unmount _ _ Hs). by rewrite commit_unmounted.
Qed.

Lemma settle_mounted w i X (c : Call X) k o :
  wf w → pending w !! i = Some (mkTask c k) → ¬ is_connect (request_of c) →
  step (EvSettle i o) w =
  (λ s, exec (k s) (set_pending (delete i) w)) <$> settle_as c o.
Proof.
  intros Hw Hi Hc. rewrite (step_settle w i X c k o Hi).
  destruct (settle_as c o) as [s|]; [|done].
  destruct (wf_task w i X c k s Hw Hi) as [Hl _].
  cbn [fmap option_fmap option_map]. f_equal. unfold dispatch.
  by rewrite commit_same
    by (by rewrite (resumed_keeps_session _ _ _ _ _ Hl Hc)).
Qed.

(** Only settlements and changes of the wallet object reach an unmounted
    page. *)
Lemma unmounted_step w ev w' :
  listening w → mounted w = false → step ev w = Some w' →
  (∃ i o, ev = EvSettle i o) ∨ (∃ s, ev = EvWallet s).
Proof.
  unfold listening. intros Hl Hm. rewrite Hm in Hl.
  destruct ev; cbn [step]; rewrite ?Hl, ?Hm; simpl; try done; eauto.
Qed.

Lemma step_stays_unmounted w ev w' :
  mounted w = false → step ev w = Some w' → mounted w' = false.
Proof.
  intros Hm. assert (∀ p w0, mounted w0 = false → mounted (dispatch p w0) = false)
    as Hd by (intros p w0 H0; unfold dispatch;
              by rewrite commit_unmounted; rewrite exec_mounted).
  destruct ev as [|event h value|i o|s|]; cbn [step]; rewrite ?Hm; simpl;
    try done.
  - case_match; intros [= <-]. by apply Hd.
  - intros (t & _ & (p & _ & [= <-])%bind_Some)%bind_Some. by apply Hd.
  - by intros [= <-].
Qed.

(** Once the component is unmounted the page is deaf to the window
    and to the user: the only events it still accepts are the answers to
    requests in flight and changes of the wallet object, and it stays
    unmounted. *)
Theorem unmounted_refuses sol w ev w' :
  reachable sol w → mounted w = false → step ev w = Some w' →
  ((∃ i o, ev = EvSettle i o) ∨ (∃ s, ev = EvWallet s)) ∧ mounted w' = false.
Proof.
  intros Hr Hm Hs. split; [|by eapply step_stays_unmounted].
  eapply unmounted_step; [|done..]. by eapply reachable_listening.
Qed.

(** C30. Unmounting cancels nothing: for a request in flight that went to
    the program, unmounting and then receiving the answer leads to the
    same world as receiving the answer and then unmounting.  The
    continuation runs in full, follow-up request included. *)
Theorem unmount_cancels_nothing sol w i t o :
  reachable sol w → mounted w = true →
  pending w !! i = Some t → ¬ is_connect (task_request t) →
  run_events [EvUnmount; EvSettle i o] w =
  run_events [EvSettle i o; EvUnmount] w.
Proof.
  intros Hw%reachable_wf Hm Hi Hc. destruct t as [X c k].
  cbn [run_events]. rewrite (settle_mounted _ _ _ _ _ _ Hw Hi Hc).
  assert (step EvUnmount w = Some (unmount w)) as ->
    by (cbn [step]; by rewrite Hm).
  cbn [mbind option_bind run_events].
  rewrite (settle_unmounted _ _ _ _ _ _ Hw Hi).
  destruct (settle_as c o) as [s|]; [|done].
  cbn [fmap option_fmap option_map mbind option_bind step].
  rewrite exec_mounted. cbn [set_pending mounted]. by rewrite Hm.
Qed.

End lifecycle.

(** * Worked examples *)

Section lifecycle_examples.
#[local] Existing Instances demo_web3 demo_build.

(** The page was unmounted with an [addGif] in flight: the confirmation
    is still accepted, and the page stays unmounted. *)
Lemma unmounted_refuses_witness :
  from_option (λ w', mounted w' = false) False
    (step (EvSettle 0 (Confirmed "sig1")) w_abandoned).
Proof.
  next_world (EvSettle 0 (Confirmed "sig1")) w_abandoned w' Hs. simpl.
  eapply (unmounted_refuses (Some phantom) w_abandoned);
    [demo_reachable | vm_compute; reflexivity | exact Hs].
Defined.

(** The [addGif] of [w_submitted] is confirmed: the refetch is sent
    whether the component was unmounted before the confirmation or
    after it. *)
Lemma unmount_cancels_nothing_witness :
  run_events [EvUnmount; EvSettle 0 (Confirmed "sig1")] w_submitted =
  run_events [EvSettle 0 (Confirmed "sig1"); EvUnmount] w_submitted.
Proof.
  pending_task w_submitted 0 t Ht.
  apply (unmount_cancels_nothing (Some phantom) w_submitted 0 t);
    [demo_reachable | vm_compute; reflexivity | exact Ht |].
  vm_compute in Ht. injection Ht as <-. simpl. tauto.
Defined.

End lifecycle_examples.
