(* ===== verification/View.v ===== *)
(** * View: what the user sees after an event

    [Render] describes the page as a function of the state, [Reactions]
    the state after an event.  This file composes them and reads the
    result back off the rendered tree:
    - what the user types is what the text box shows ([typed_is_shown]);
    - what the program answers to a fetch is what the grid shows, link by
      link and in the order of the answer ([fetched_is_shown]).
    [text_boxes] and [images] are the observations: the [value] of every
    [input] and the [src] of every [img] of the page. *)

From S2P Require Import Prelude Js Async Remote Config Fixture Handlers Render EventLoop Scenarios Safety Reactions.

Section view_defs.
Context {web3 : Web3} {build : Build}.

Definition text_boxes (w : World) : list (option string) :=
  attr "value" <$> by_tag "input" (App (app w)).

Definition images (w : World) : list (option string) :=
  attr "src" <$> by_tag "img" (App (app w)).

End view_defs.

Section view.
Context {web3 : Web3} {build : Build}.
Implicit Types (w : World) (sol : option Solana).

(** With a session and a list, the page has one text box, and it shows
    the draft. *)
Lemma text_boxes_form w l :
  truthy (walletAddress (app w)) = true → gifList (app w) = Some l →
  text_boxes w = [Some (inputValue (app w))].
Proof.
  intros Hs Hl. unfold text_boxes. rewrite by_tag_input_App, Hs.
  by apply (input_value_shown _ l).
Qed.

(** With a session and a list, the images are the links of the list,
    then the logo. *)
Lemma images_grid w l :
  truthy (walletAddress (app w)) = true → gifList (app w) = Some l →
  images w = (Some ∘ gifLink <$> l) ++ [Some githubLogo].
Proof.
  intros Hs Hl. unfold images.
  rewrite by_tag_img_App, Hs, (by_tag_img_shown _ l Hl), fmap_app.
  by rewrite <-list_fmap_compose.
Qed.

(** The text box is offered with a session and a list only. *)
Lemma change_offered w :
  ("change", H_onInputChange) ∈ listeners (App (app w)) →
  truthy (walletAddress (app w)) = true ∧ is_Some (gifList (app w)).
Proof.
  intros [(?&?&?)|[(?&?&?)|[(?&?&?)|(_&_&?&?)]]]%listeners_App_cases;
    by simplify_eq.
Qed.

(** What the user types is what the text box shows: after a change
    event with a value, the one text box of the page holds that value. *)
Theorem typed_is_shown w w' value :
  step (EvUI "change" H_onInputChange value) w = Some w' →
  text_boxes w' = [Some value].
Proof.
  intros (_ & [Hs [l Hl]]%change_offered & ->)%step_ui_offered.
  assert (app (dispatch (closure H_onInputChange (app w) value)
                 (set_defaultPrevented false w))
          = set_inputValue value (app w)) as Ha by by start_eval.
  by rewrite (text_boxes_form _ l); rewrite Ha.
Qed.

(** C31. What the program answers is what the grid shows: when a fetch
    settles with an account, the images of the page are the links of the
    account's list, in its order, followed by the logo of the footer. *)
Theorem fetched_is_shown sol w i program address a w' :
  reachable sol w → truthy (walletAddress (app w)) = true →
  in_flight w !! i = Some (ReqFetch program address) →
  step (EvSettle i (Fetched a)) w = Some w' →
  images w' = (Some ∘ gifLink <$> acct_gifList a) ++ [Some githubLogo].
Proof.
  intros Hr Hs Hi Hst.
  pose proof (fetch_settled _ _ _ _ _ _ _ Hr Hi Hst) as Ha%visible_app.
  apply images_grid; by rewrite Ha.
Qed.

End view.

(** * Worked examples *)

Section view_examples.
#[local] Existing Instances demo_web3 demo_build.

(** A link typed into the text box of the connected page. *)
Lemma typed_is_shown_witness :
  text_boxes <$> step (EvUI "change" H_onInputChange "https://x/z.gif") w_listed
  = Some [Some "https://x/z.gif"].
Proof.
  next_world (EvUI "change" H_onInputChange "https://x/z.gif") w_listed w' Hs.
  simpl. f_equal. exact (typed_is_shown w_listed w' _ Hs).
Defined.

(** The first fetch of the session returns two entries. *)
Lemma fetched_is_shown_witness :
  images <$> step (EvSettle 0 (Fetched (mkAccount [gif1; gif2]))) w_connected
  = Some [Some "https://x/y.gif"; Some "https://x/z.gif"; Some githubLogo].
Proof.
  next_world (EvSettle 0 (Fetched (mkAccount [gif1; gif2]))) w_connected w' Hs.
  simpl. f_equal.
  apply (fetched_is_shown (Some phantom) w_connected 0
           (program_in w_connected) (kp_publicKey baseAccount)
           (mkAccount [gif1; gif2]) w');
    [demo_reachable | reflexivity | reflexivity | exact Hs].
Defined.

End view_examples.
