(* ===== verification/Chain.v ===== *)
(** * Chain: the page with a wallet and a program behind it

    The wallet and the on-chain program are not part of the repository:
    every theorem of [Safety], [Reactions] and [Refinement] holds for
    whatever they answer.  This file adds one environment among the
    possible ones, the one the page is written for, to state what the
    page and its environment achieve together:
    - [Chain] is the wallet (one key, whether it trusts the site, whether
      it is connected) and the program (one storage account holding a
      list, or not created yet);
    - [process] is what they do with a request, the user approving or
      declining the wallet's dialog;
    - a [Net] is the page, the chain and the answers on their way
      ([inbox]); [move] lets the page take an event, the chain process a
      request in flight, the network deliver an answer or lose it, or
      another visitor of the site create the storage account or append
      an entry, in any order.
    A request is processed at one moment and answered at a later one, so
    an answer can be stale when it arrives; and a request or its answer
    can be lost on the way, in which case the client rejects the promise
    whatever the chain did.

    Every move is one of six cases ([moved], the view the invariants of
    this file and of the files after it are proved by), and every move is
    an event of [EventLoop] ([move_step]): what holds of every reachable
    world holds of the page on the chain.  The class [NetInv] is what an
    invariant of the chain provides; [linked] and [consistent] are its
    first instances.  Beyond that:
    - the list the page shows is a prefix of the list the program holds
      ([shown_is_stored]), however stale the answers are.
    [Journeys] follows single requests from the page to the chain and
    back; [Closed] shows that no request is left unanswered; [Outage]
    shows what one lost answer does to the page. *)

From S2P Require Import Prelude Js Async Remote Config Fixture Handlers Render EventLoop Spec Accounting Scenarios Safety Reactions Refinement WellFormed.

(** ** The wallet and the program *)

Record Chain := mkChain {
  wallet_key : PublicKey;              (* the user's account *)
  trusted : bool;                      (* the wallet trusts the site *)
  connected : bool;                    (* the wallet exposes its key *)
  storage_address : PublicKey;         (* where the list is to be stored *)
  storage : option (list GifItem)      (* the storage account, once created *)
}.

#[export] Instance Chain_eq_dec : EqDecision Chain.
Proof. solve_decision. Defined.

Definition with_connected (c : Chain) : Chain :=
  mkChain (wallet_key c) true true (storage_address c) (storage c).

Definition with_storage (l : list GifItem) (c : Chain) : Chain :=
  mkChain (wallet_key c) (trusted c) (connected c) (storage_address c) (Some l).

(** The list the program holds; empty before the account is created. *)
Definition stored (c : Chain) : list GifItem := default [] (storage c).

(** The object the wallet injects at [window.solana]. *)
Definition wallet_object (c : Chain) : Solana :=
  mkSolana true (if connected c then Some (wallet_key c) else None).

Definition declined : JsError := mkJsError "Error" "User rejected the request.".
Definition refused : JsError := mkJsError "Error" "Transaction simulation failed".
Definition missing : JsError := mkJsError "Error" "Account does not exist".

(** What the wallet and the program do with a request.  [approve] is the
    user's choice in the wallet's dialog.
    - A connection is granted silently to a trusted site, and otherwise
      when the user approves.
    - The initialisation creates the storage account, empty, when it does
      not exist, the transaction is paid by the wallet's key and signed
      by the keypair of the account.
    - [addGif] appends the link with the sender's key when the account
      exists and the sender is the wallet.
    - A fetch returns the account when it exists. *)
Definition process (r : Request) (approve : bool) (c : Chain) : Outcome * Chain :=
  match r with
  | ReqConnect opts =>
      let silent := if opts is Some o then onlyIfTrusted o else false in
      if (if silent then trusted c else approve)
      then (Connected (mkConnectResponse (wallet_key c)), with_connected c)
      else (Failed declined, c)
  | ReqStartStuffOff _ accounts signers =>
      if approve
         && bool_decide (storage c = None)
         && bool_decide (ss_baseAccount accounts = storage_address c)
         && bool_decide (ss_user accounts = Some (wallet_key c))
         && bool_decide (storage_address c ∈ kp_publicKey <$> signers)
      then (Confirmed "sig", with_storage [] c)
      else (Failed refused, c)
  | ReqAddGif _ link accounts =>
      match storage c with
      | Some l =>
          if approve
             && bool_decide (ag_baseAccount accounts = storage_address c)
             && bool_decide (ag_user accounts = Some (wallet_key c))
          then (Confirmed "sig",
                with_storage (l ++ [mkGifItem link (wallet_key c)]) c)
          else (Failed refused, c)
      | None => (Failed refused, c)
      end
  | ReqFetch _ address =>
      match storage c with
      | Some l =>
          if bool_decide (address = storage_address c)
          then (Fetched (mkAccount l), c) else (Failed missing, c)
      | None => (Failed missing, c)
      end
  end.

(** ** The page on the chain *)

(** [inbox] runs parallel to the pending tasks of the page: the answer
    to the request of each, once the chain has processed it. *)
Record Net := mkNet {
  world : World;
  chain : Chain;
  inbox : list (option Outcome)
}.

Inductive Move :=
| MLoad
| MUI (event : string) (h : Handler) (value : string)
| MProcess (i : nat) (approve : bool)
| MDeliver (i : nat)
| MUnmount
| MOther (item : GifItem)
| MCreate
| MFail (i : nat) (e : JsError).

(** New tasks have no answer yet. *)
Definition resize (n : nat) (box : list (option Outcome))
  : list (option Outcome) :=
  box ++ replicate (n - length box) None.

Section net.
Context {web3 : Web3} {build : Build}.

(** The page takes an event of its own. *)
Definition page_move (ev : Event) (n : Net) : option Net :=
  w' ← step ev (world n);
  Some (mkNet w' (chain n) (resize (length (pending w')) (inbox n))).

Definition move (mv : Move) (n : Net) : option Net :=
  match mv with
  | MLoad => page_move EvLoad n
  | MUI event h value => page_move (EvUI event h value) n
  | MUnmount => page_move EvUnmount n
  | MProcess i approve =>
      r ← in_flight (world n) !! i;
      slot ← inbox n !! i;
      match slot with
      | Some _ => None
      | None =>
          let (o, c') := process r approve (chain n) in
          Some (mkNet (set_solana (Some (wallet_object c')) (world n)) c'
                  (<[i := Some o]> (inbox n)))
      end
  | MDeliver i =>
      slot ← inbox n !! i;
      o ← slot;
      w' ← step (EvSettle i o) (world n);
      Some (mkNet w' (chain n)
              (resize (length (pending w')) (delete i (inbox n))))
  | MOther item =>
      l ← storage (chain n);
      Some (mkNet (world n) (with_storage (l ++ [item]) (chain n)) (inbox n))
  | MCreate =>
      match storage (chain n) with
      | None => Some (mkNet (world n) (with_storage [] (chain n)) (inbox n))
      | Some _ => None
      end
  | MFail i e =>
      slot ← inbox n !! i;
      match slot with
      | Some (Failed _) => None
      | _ => Some (mkNet (world n) (chain n) (<[i := Some (Failed e)]> (inbox n)))
      end
  end.

Fixpoint play (mvs : list Move) (n : Net) : option Net :=
  match mvs with
  | [] => Some n
  | mv :: mvs => move mv n ≫= play mvs
  end.

(** The page opens with the wallet installed. *)
Definition net_initial (c : Chain) : Net :=
  mkNet (initial (Some (wallet_object c))) c [].

Inductive net_reachable (c0 : Chain) : Net → Prop :=
| net_reach_initial : net_reachable c0 (net_initial c0)
| net_reach_move n mv n' :
    net_reachable c0 n → move mv n = Some n' → net_reachable c0 n'.

(** The moves that are events of the page itself. *)
Definition page_event (mv : Move) : option Event :=
  match mv with
  | MLoad => Some EvLoad
  | MUI event h value => Some (EvUI event h value)
  | MUnmount => Some EvUnmount
  | _ => None
  end.

(** The events the page takes from the window and the user. *)
Definition plain (ev : Event) : Prop :=
  match ev with EvSettle _ _ | EvWallet _ => False | _ => True end.

(** What a move is, case by case: the view of [move] the invariants are
    proved by. *)
Inductive moved (n : Net) : Move → Net → Prop :=
| moved_page mv ev n' :
    page_event mv = Some ev → page_move ev n = Some n' → moved n mv n'
| moved_process i approve r o c' :
    in_flight (world n) !! i = Some r → inbox n !! i = Some None →
    process r approve (chain n) = (o, c') →
    moved n (MProcess i approve)
      (mkNet (set_solana (Some (wallet_object c')) (world n)) c'
         (<[i := Some o]> (inbox n)))
| moved_deliver i o w' :
    inbox n !! i = Some (Some o) → step (EvSettle i o) (world n) = Some w' →
    moved n (MDeliver i)
      (mkNet w' (chain n) (resize (length (pending w')) (delete i (inbox n))))
| moved_other item l :
    storage (chain n) = Some l →
    moved n (MOther item)
      (mkNet (world n) (with_storage (l ++ [item]) (chain n)) (inbox n))
| moved_create :
    storage (chain n) = None →
    moved n MCreate (mkNet (world n) (with_storage [] (chain n)) (inbox n))
| moved_fail i e slot :
    inbox n !! i = Some slot → (∀ e', slot ≠ Some (Failed e')) →
    moved n (MFail i e)
      (mkNet (world n) (chain n) (<[i := Some (Failed e)]> (inbox n))).

(** The event of the page a move amounts to. *)
Definition event_of (mv : Move) (n : Net) : option Event :=
  match mv with
  | MLoad => Some EvLoad
  | MUI event h value => Some (EvUI event h value)
  | MUnmount => Some EvUnmount
  | MProcess i approve =>
      r ← in_flight (world n) !! i;
      Some (EvWallet (Some (wallet_object (process r approve (chain n)).2)))
  | MDeliver i => o ← mjoin (inbox n !! i); Some (EvSettle i o)
  | MOther _ | MCreate | MFail _ _ => Some (EvWallet (solana (world n)))
  end.

(** The inbox runs parallel to the pending tasks, and the wallet object
    of the page is the one the wallet injects. *)
Definition linked (n : Net) : Prop :=
  length (inbox n) = length (pending (world n)) ∧
  solana (world n) = Some (wallet_object (chain n)).

(** The list the page shows, and every list on its way to the page, is a
    prefix of the list the program holds. *)
Definition consistent (n : Net) : Prop :=
  (∀ l, gifList (app (world n)) = Some l → l `prefix_of` stored (chain n)) ∧
  (∀ i a, inbox n !! i = Some (Some (Fetched a)) →
          acct_gifList a `prefix_of` stored (chain n)).

End net.

(** An invariant of the page on the chain: it holds when the page opens,
    and every move from a state the chain reaches keeps it. *)
Class NetInv `{Web3, Build} (Inv : Net → Prop) : Prop := {
  net_inv_initial c : Inv (net_initial c);
  net_inv_move c0 mv n n' :
    net_reachable c0 n → Inv n → move mv n = Some n' → Inv n'
}.

(** * Every move is an event of the page *)

Section net_facts.
Context {web3 : Web3} {build : Build}.
Implicit Types (n : Net) (c : Chain) (w : World) (mv : Move).

Lemma page_move_inv ev n n' :
  page_move ev n = Some n' →
  step ev (world n) = Some (world n') ∧ chain n' = chain n ∧
  inbox n' = resize (length (pending (world n'))) (inbox n).
Proof.
  unfold page_move. intros (w' & Hs & [= <-])%bind_Some. by rewrite Hs.
Qed.

Lemma page_event_plain mv ev : page_event mv = Some ev → plain ev.
Proof. destruct mv; by intros [= <-]. Qed.

(** Every move is one of the six cases of [moved]. *)
Lemma move_moved mv n n' : move mv n = Some n' → moved n mv n'.
Proof.
  destruct mv as [|event h value|i approve|i| |item| |i e]; cbn [move].
  1,2,5: by apply moved_page.
  - intros (r & Hr & (slot & Hi & Hm)%bind_Some)%bind_Some.
    destruct slot; [done|].
    destruct (process r approve (chain n)) as [o c'] eqn:Hp.
    injection Hm as <-. by eapply moved_process.
  - intros (slot & Hi & (o & -> & (w' & Hs & [= <-])%bind_Some)%bind_Some)
      %bind_Some.
    by eapply moved_deliver.
  - intros (l & Hl & [= <-])%bind_Some. by apply moved_other.
  - case_match; intros [= <-]. by apply moved_create.
  - intros (slot & Hi & Hm)%bind_Some.
    assert (n' = mkNet (world n) (chain n) (<[i := Some (Failed e)]> (inbox n)))
      as -> by (by repeat case_match; simplify_eq).
    apply (moved_fail _ _ _ slot); [done|]. by intros e' ->.
Qed.

Lemma move_step mv n n' :
  move mv n = Some n' →
  ∃ ev, event_of mv n = Some ev ∧ step ev (world n) = Some (world n').
Proof.
  intros [mv' ev n1 Hev (Hs & _)%page_move_inv|i approve r o c' Hr Hi Hp
         |i o w' Hi Hs|item l Hl|Hl|i e slot Hi Hslot]%move_moved;
    cbn [event_of world].
  4-6: by eexists; split; [done|]; cbn [step]; f_equal; destruct (world n).
  - exists ev. by destruct mv'; simplify_eq/=.
  - rewrite Hr. cbn [mbind option_bind]. rewrite Hp. eauto.
  - rewrite Hi. simpl. eauto.
Qed.

(** An invariant holds of every state the chain reaches, and two
    invariants make one. *)
Lemma net_inv_reachable Inv `{!NetInv Inv} c0 n : net_reachable c0 n → Inv n.
Proof. induction 1; [apply net_inv_initial | by eapply net_inv_move]. Qed.

Lemma NetInv_and (I J : Net → Prop) :
  NetInv I → NetInv J → NetInv (λ n, I n ∧ J n).
Proof.
  intros HI HJ. split.
  - intros c. split; apply net_inv_initial.
  - intros c0 mv n n' Hn [] Hm. split; by eapply net_inv_move.
Qed.

(** The page on the chain is in a world the page can reach. *)
Lemma net_reachable_world c0 n :
  net_reachable c0 n → reachable (Some (wallet_object c0)) (world n).
Proof.
  induction 1 as [|n mv n' _ IH Hm]; [apply reach_initial|].
  destruct (move_step _ _ _ Hm) as (ev & _ & Hs). by eapply reach_step.
Qed.

(** ** What a move keeps *)

Lemma dispatch_solana p w : solana (dispatch p w) = solana w.
Proof. unfold dispatch. by rewrite commit_solana, exec_solana. Qed.

Lemma step_solana ev w w' :
  step ev w = Some w' → solana w' = if ev is EvWallet s then s else solana w.
Proof.
  destruct ev as [|event h value|i o|s|]; cbn [step].
  - case_match; intros [= <-]. by rewrite dispatch_solana.
  - intros (_ & _ & ->)%step_ui_offered. by rewrite dispatch_solana.
  - intros (t & _ & (p & _ & [= <-])%bind_Some)%bind_Some.
    by rewrite dispatch_solana.
  - by intros [= <-].
  - by case_match; intros [= <-].
Qed.

(** The pending tasks after a step: those before it, without the one a
    settlement resumed, and the new ones. *)
Lemma step_pending_length ev w w' :
  step ev w = Some w' →
  length (pending w') =
  length (if ev is EvSettle i _ then delete i (pending w) else pending w)
  + (length (issued w') - length (issued w)).
Proof.
  intros (rs & Hi & Hf)%step_sends. rewrite Hi, length_app.
  apply (f_equal length) in Hf. unfold in_flight in Hf.
  rewrite length_app, !length_fmap in Hf. rewrite Hf.
  destruct ev; rewrite ?length_fmap, <-?list_fmap_delete, ?length_fmap; lia.
Qed.

Lemma entry_state_inj l k : entry_state l = entry_state k → l = k.
Proof. destruct l, k; simpl; congruence. Qed.

(** The list of the state changes only when a fetch is answered. *)
Lemma step_gifList sol w ev w' :
  reachable sol w → step ev w = Some w' →
  gifList (app w') = gifList (app w) ∨ gifList (app w') = None ∨
  ∃ i a, ev = EvSettle i (Fetched a) ∧ gifList (app w') = Some (acct_gifList a).
Proof.
  intros Hr Hs%(step_simulation sol)%spec_step_entryList; [|done].
  destruct Hs as [Hs|[Hs|(i & a & -> & Hs)]]; simpl in Hs.
  - left. by apply entry_state_inj.
  - right; left. by apply (entry_state_inj _ None).
  - right; right. exists i, a. split; [done|].
    by apply (entry_state_inj _ (Some _)).
Qed.

(** ** Sequences of moves *)

Lemma play_app mvs1 mvs2 n :
  play (mvs1 ++ mvs2) n = play mvs1 n ≫= play mvs2.
Proof.
  revert n. induction mvs1 as [|mv mvs1 IH]; intros n; simpl; [done|].
  destruct (move mv n); simpl; [apply IH | done].
Qed.

Lemma play_cons mv mvs n n1 :
  move mv n = Some n1 → play (mv :: mvs) n = play mvs n1.
Proof. intros Hm. cbn [play]. by rewrite Hm. Qed.

Lemma play_singleton mv n : play [mv] n = move mv n.
Proof. simpl. by destruct (move mv n). Qed.

Lemma net_reachable_play c0 mvs n n' :
  net_reachable c0 n → play mvs n = Some n' → net_reachable c0 n'.
Proof.
  revert n. induction mvs as [|mv mvs IH]; intros n Hn; simpl.
  - by intros [= <-].
  - intros (n1 & Hm & Hp)%bind_Some. eapply IH; [|done].
    by eapply net_reach_move.
Qed.

(** The chain answers every request with an outcome of its type. *)
Lemma process_fits r approve c : fits r (process r approve c).1.
Proof. destruct r; simpl; by repeat case_match. Qed.

(** ** The inbox stays parallel to the pending tasks *)

Lemma length_resize k (box : list (option Outcome)) :
  length box ≤ k → length (resize k box) = k.
Proof. intros. unfold resize. rewrite length_app, length_replicate. lia. Qed.

Lemma lookup_resize_Some k (box : list (option Outcome)) i o :
  resize k box !! i = Some (Some o) → box !! i = Some (Some o).
Proof.
  unfold resize. intros [?|[_ [? _]%lookup_replicate]]%lookup_app_Some; done.
Qed.

Lemma page_move_linked ev n n' :
  plain ev → linked n → page_move ev n = Some n' → linked n'.
Proof.
  intros Hev [Hl Hs] (Hst & Hc & Hi)%page_move_inv.
  pose proof (step_pending_length _ _ _ Hst) as Hp.
  pose proof (step_solana _ _ _ Hst) as Hsol. split.
  - rewrite Hi. apply length_resize. destruct ev; try done; lia.
  - rewrite Hsol, Hc. by destruct ev.
Qed.

Lemma move_linked mv n n' : linked n → move mv n = Some n' → linked n'.
Proof.
  intros Hn. pose proof Hn as [Hl Hs].
  intros [mv' ev n1 Hev%page_event_plain Hp|i approve r o c' Hr Hi Hp
         |i o w' Hi Hst|item l Hst|Hst|i e slot Hi Hslot]%move_moved.
  - by eapply page_move_linked.
  - split; simpl; [by rewrite length_insert|done].
  - pose proof (step_pending_length _ _ _ Hst) as Hp.
    pose proof (step_solana _ _ _ Hst) as Hsol. split; simpl; [|by rewrite Hsol].
    apply length_resize. rewrite Hp, !length_delete; [lia| |by eauto].
    apply lookup_lt_is_Some. rewrite <-Hl. by eapply lookup_lt_Some.
  - done.
  - done.
  - split; simpl; [by rewrite length_insert|done].
Qed.

#[export] Instance linked_inv : NetInv linked.
Proof. split; [done | intros; by eapply move_linked]. Qed.

Lemma net_reachable_linked c0 n : net_reachable c0 n → linked n.
Proof. apply (net_inv_reachable linked). Qed.

(** ** The program only appends *)

(** What processing a request does to the chain: nothing, a connection,
    the creation of the storage account, or one entry appended. *)
Lemma process_inv r approve c :
  let c' := (process r approve c).2 in
  c' = c ∨ c' = with_connected c ∨
  (storage c = None ∧ c' = with_storage [] c) ∨
  (∃ l link, storage c = Some l ∧
     c' = with_storage (l ++ [mkGifItem link (wallet_key c)]) c).
Proof.
  destruct r as [opts|program link accounts|program accounts signers|];
    cbn [process].
  - cbv zeta. case_match; simpl; eauto.
  - destruct (storage c) as [l|] eqn:Hst; [|by left].
    case_match; simpl; eauto 10.
  - case_match eqn:Hc; simpl; [|by left].
    rewrite !andb_true_iff, !bool_decide_eq_true in Hc. destruct_and!. eauto.
  - repeat case_match; by left.
Qed.

Lemma process_stored r approve c :
  stored c `prefix_of` stored (process r approve c).2.
Proof.
  destruct (process_inv r approve c) as [->|[->|[[Hs ->]|(l & ? & Hs & ->)]]];
    unfold stored; simpl; rewrite ?Hs; simpl;
    [done|done|apply prefix_nil|by apply prefix_app_r].
Qed.

(** A fetch is answered with the list stored when it is processed. *)
Lemma process_fetched r approve c a :
  (process r approve c).1 = Fetched a →
  acct_gifList a = stored c ∧ (process r approve c).2 = c.
Proof.
  destruct r; simpl; repeat case_match; simpl; try done.
  intros [= <-]. unfold stored. by simplify_option_eq.
Qed.

(** ** What the page shows is what the program holds *)

Lemma consistent_grow n c' w' box :
  consistent n → stored (chain n) `prefix_of` stored c' →
  gifList (app w') = gifList (app (world n)) ∨ gifList (app w') = None →
  (∀ i a, box !! i = Some (Some (Fetched a)) →
          inbox n !! i = Some (Some (Fetched a)) ∨ acct_gifList a = stored c') →
  consistent (mkNet w' c' box).
Proof.
  intros [Hl Hb] Hc Hg Hbox. split; simpl.
  - intros l Hw. destruct Hg as [Hg|Hg]; rewrite Hg in Hw; [|done].
    etrans; [by apply Hl | done].
  - intros i a [Hi| ->]%Hbox; [|done]. etrans; [by eapply Hb | done].
Qed.

Lemma page_move_consistent sol ev n n' :
  plain ev → reachable sol (world n) → consistent n → page_move ev n = Some n' →
  consistent n'.
Proof.
  intros Hev Hr Hn (Hst & Hc & Hi)%page_move_inv. destruct n' as [w' c' box].
  simpl in *. subst. apply (consistent_grow n); [done..| |].
  - destruct (step_gifList _ _ _ _ Hr Hst) as [?|[?|(i & a & -> & _)]]; auto.
    done.
  - intros i a ?%lookup_resize_Some. by left.
Qed.

Lemma process_consistent n i r approve :
  consistent n →
  let (o, c') := process r approve (chain n) in
  consistent (mkNet (set_solana (Some (wallet_object c')) (world n)) c'
                (<[i := Some o]> (inbox n))).
Proof.
  intros Hn. pose proof (process_stored r approve (chain n)) as Hp.
  pose proof (process_fetched r approve (chain n)) as Hf.
  destruct (process r approve (chain n)) as [o c']. simpl in *.
  apply (consistent_grow n); [done..|by left|].
  intros j a Hj. destruct (decide (i = j)) as [->|Hij].
  - apply list_lookup_insert_Some in Hj as [(_ & [= ->] & _)|[? _]]; [|done].
    right. destruct (Hf a) as [-> ->]; done.
  - left. by rewrite list_lookup_insert_ne in Hj.
Qed.

Lemma deliver_consistent sol n i o w' :
  reachable sol (world n) → consistent n →
  inbox n !! i = Some (Some o) → step (EvSettle i o) (world n) = Some w' →
  consistent
    (mkNet w' (chain n) (resize (length (pending w')) (delete i (inbox n)))).
Proof.
  intros Hr Hn Hi Hst. pose proof Hn as [Hl Hb]. split; simpl.
  - intros l Hw.
    destruct (step_gifList _ _ _ _ Hr Hst) as [Hg|[Hg|(j & a & [= <- ->] & Hg)]];
      rewrite Hg in Hw; [by apply Hl|done|].
    injection Hw as <-. by eapply Hb.
  - intros j a Hj%lookup_resize_Some.
    destruct (decide (j < i)) as [?|?].
    + rewrite list_lookup_delete_lt in Hj by done. by eapply Hb.
    + rewrite list_lookup_delete_ge in Hj by lia. by eapply Hb.
Qed.

Lemma move_consistent sol mv n n' :
  reachable sol (world n) → consistent n → move mv n = Some n' →
  consistent n'.
Proof.
  intros Hr Hn.
  intros [mv' ev n1 Hev%page_event_plain Hp|i approve r o c' Hr' Hi Hp
         |i o w' Hi Hst|item l Hl|Hl|i e slot Hi Hslot]%move_moved.
  - by eapply page_move_consistent.
  - pose proof (process_consistent n i r approve Hn) as Hc.
    by rewrite Hp in Hc.
  - by eapply deliver_consistent.
  - apply (consistent_grow n); [done| |by left|by left].
    unfold stored. simpl. rewrite Hl. by apply prefix_app_r.
  - apply (consistent_grow n); [done| |by left|by left].
    unfold stored. by rewrite Hl.
  - apply (consistent_grow n); [done..|by left|]. intros j a Hj. left.
    by apply list_lookup_insert_Some in Hj as [(_ & [=] & _)|[_ ?]].
Qed.

#[export] Instance consistent_inv : NetInv consistent.
Proof.
  split.
  - split; simpl; [|done]. intros l [= <-]. apply prefix_nil.
  - intros c0 mv n n' Hn. by eapply move_consistent, net_reachable_world.
Qed.

Lemma net_reachable_consistent c0 n : net_reachable c0 n → consistent n.
Proof. apply (net_inv_reachable consistent). Qed.

(** C5. On the chain, the list the page shows is always a prefix of the
    list the program holds: answers may arrive late and in any order, and
    other users may append in between, but the page never shows an entry
    the program does not hold, nor entries in another order. *)
Theorem shown_is_stored c0 n l :
  net_reachable c0 n → gifList (app (world n)) = Some l →
  l `prefix_of` stored (chain n).
Proof. intros [Hl _]%net_reachable_consistent. apply Hl. Qed.

End net_facts.

(** * Worked examples *)

Section chain_examples.
#[local] Existing Instances demo_web3 demo_build.

(** The wallet of [alice] trusts the site, and the storage account holds
    one entry. *)
Definition demo_chain : Chain := mkChain alice true false demo_key (Some [gif1]).

(** The page reconnects and fetches the list; the user types a link
    while [bob] appends an entry of his own. *)
Definition mvs_typed : list Move :=
  [MLoad; MProcess 0 false; MDeliver 0; MProcess 0 false; MDeliver 0;
   MOther gif2; MUI "change" H_onInputChange "https://x/z.gif"].

Definition n_typed : Net :=
  default (net_initial demo_chain) (play mvs_typed (net_initial demo_chain)).

Lemma n_typed_reachable : net_reachable demo_chain n_typed.
Proof.
  apply (net_reachable_play _ mvs_typed (net_initial demo_chain));
    [apply net_reach_initial | by vm_compute].
Qed.

(** The page shows the entry it fetched; the program holds one more. *)
Lemma shown_is_stored_witness : [gif1] `prefix_of` stored (chain n_typed).
Proof.
  apply (shown_is_stored demo_chain n_typed);
    [apply n_typed_reachable | by vm_compute].
Defined.

End chain_examples.
