(* ===== verification/Journeys.v ===== *)
(** * Journeys: one request, from the page to the chain and back

    On the chain of [Chain], what the user does on the page comes back to
    the page.  Each journey is a sequence of moves, the page sending a
    request, the chain processing it, the network delivering the answer,
    followed to its end from any reachable state that allows it:
    - [net_round_trip_gen]: a request in flight is processed and its
      answer accepted by the page;
    - [net_submit], [net_initialise], [net_confirm], [net_created],
      [net_fetch], [net_connect], [net_load]:
      the legs of a journey, each ending with what is in flight next;
      [net_publish] is the journey of a submission and [net_opens] the
      one of opening the page, leg after leg;
    - [submitted_is_shown]: a link submitted is stored under the wallet's
      key and shown as the last entry;
    - [initialised_is_shown]: the storage account is created from the
      page, and the empty list and the form are shown;
    - [alerted_but_stored]: a confirmation lost on the way leaves the
      link stored and the page alerting a failure;
    - [trusted_page_opens]: a wallet that trusts the site is reconnected
      when the page loads, and the stored list is shown. *)

From S2P Require Import Prelude Js Async Remote Config Fixture Handlers Render EventLoop Spec Accounting Scenarios Safety Reactions Refinement WellFormed Chain.

Section journeys.
Context {web3 : Web3} {build : Build}.
Implicit Types (n : Net) (c : Chain) (w : World) (mv : Move).

Lemma set_solana_same w s : solana w = s → set_solana s w = w.
Proof. intros <-. by destruct w. Qed.

(** A request in flight is processed and answered: the wallet object is
    brought up to date, and the page takes the answer. *)
Lemma net_round_trip_gen c0 n k r approve :
  net_reachable c0 n →
  in_flight (world n) !! k = Some r → inbox n !! k = Some None →
  let o := (process r approve (chain n)).1 in
  let c' := (process r approve (chain n)).2 in
  let w1 := set_solana (Some (wallet_object c')) (world n) in
  ∃ w', reachable (Some (wallet_object c0)) w1 ∧
        step (EvSettle k o) w1 = Some w' ∧
        play [MProcess k approve; MDeliver k] n =
        Some (mkNet w' c' (resize (length (pending w')) (delete k (inbox n)))).
Proof.
  intros Hn Hr Hi o c' w1.
  destruct (step_settle_fits w1 k r o) as [w' Hs]; [done|apply process_fits|].
  exists w'. split_and!; [|done|].
  { apply (reach_step _ (world n) (EvWallet (Some (wallet_object c'))));
      [by apply net_reachable_world | done]. }
  cbn [play move]. rewrite Hr, Hi. cbn [mbind option_bind].
  subst o c' w1. destruct (process r approve (chain n)) as [o c'].
  cbn [fst snd] in *. cbn [mbind option_bind inbox world chain].
  rewrite list_lookup_insert_eq by (by eapply lookup_lt_Some).
  cbn [mbind option_bind]. rewrite Hs. cbn [mbind option_bind].
  by rewrite list_delete_insert.
Qed.

(** A request in flight is processed, and the answer is lost: the chain
    has moved on, and the page takes a failure. *)
Lemma net_answer_lost c0 n k r approve e :
  net_reachable c0 n →
  in_flight (world n) !! k = Some r → inbox n !! k = Some None →
  (∀ e', (process r approve (chain n)).1 ≠ Failed e') →
  let c' := (process r approve (chain n)).2 in
  let w1 := set_solana (Some (wallet_object c')) (world n) in
  ∃ w', reachable (Some (wallet_object c0)) w1 ∧
        step (EvSettle k (Failed e)) w1 = Some w' ∧
        play [MProcess k approve; MFail k e; MDeliver k] n =
        Some (mkNet w' c' (resize (length (pending w')) (delete k (inbox n)))).
Proof.
  intros Hn Hr Hi Ho c' w1.
  destruct (step_settle_fits w1 k r (Failed e)) as [w' Hs]; [done|by destruct r|].
  exists w'. split_and!; [|done|].
  { apply (reach_step _ (world n) (EvWallet (Some (wallet_object c'))));
      [by apply net_reachable_world | done]. }
  cbn [play move]. rewrite Hr, Hi. cbn [mbind option_bind].
  subst c' w1. destruct (process r approve (chain n)) as [o c'].
  cbn [fst snd] in *. cbn [mbind option_bind inbox world chain].
  rewrite list_lookup_insert_eq by (by eapply lookup_lt_Some).
  cbn [mbind option_bind].
  destruct o as [| | |e']; [..|by destruct (Ho e')];
    cbn [mbind option_bind inbox world chain];
    rewrite list_insert_insert_eq,
      list_lookup_insert_eq by (by eapply lookup_lt_Some);
    cbn [mbind option_bind]; rewrite Hs; cbn [mbind option_bind];
    by rewrite list_delete_insert.
Qed.

(** A request that changes nothing of the wallet is processed and
    answered: the page takes the answer in the world it is in. *)
Lemma net_round_trip c0 n k r approve :
  net_reachable c0 n →
  in_flight (world n) !! k = Some r → inbox n !! k = Some None →
  wallet_object (process r approve (chain n)).2 = wallet_object (chain n) →
  ∃ w', step (EvSettle k (process r approve (chain n)).1) (world n) = Some w' ∧
        play [MProcess k approve; MDeliver k] n =
        Some (mkNet w' (process r approve (chain n)).2
                (resize (length (pending w')) (delete k (inbox n)))).
Proof.
  intros Hn Hr Hi Hw. pose proof (net_reachable_linked _ _ Hn) as [_ Hsol].
  destruct (net_round_trip_gen c0 n k r approve Hn Hr Hi) as (w' & _ & Hs & Hp).
  rewrite Hw, (set_solana_same _ _ Hsol) in Hs. eauto.
Qed.

Lemma lookup_resize_new m (box : list (option Outcome)) k :
  length box = k → k < m → resize m box !! k = Some None.
Proof.
  intros <- ?. unfold resize. rewrite lookup_app_r, Nat.sub_diag by done.
  apply lookup_replicate_2. lia.
Qed.

Lemma in_flight_length w : length (in_flight w) = length (pending w).
Proof. apply length_fmap. Qed.

Lemma process_addGif program link accounts c l :
  storage c = Some l → ag_baseAccount accounts = storage_address c →
  ag_user accounts = Some (wallet_key c) →
  process (ReqAddGif program link accounts) true c =
  (Confirmed "sig", with_storage (l ++ [mkGifItem link (wallet_key c)]) c).
Proof.
  intros Hs Hb Hu. cbn [process]. rewrite Hs.
  by rewrite !bool_decide_eq_true_2 by done.
Qed.

Lemma process_fetch program c l approve :
  storage c = Some l →
  process (ReqFetch program (storage_address c)) approve c =
  (Fetched (mkAccount l), c).
Proof.
  intros Hs. cbn [process]. rewrite Hs. by rewrite bool_decide_eq_true_2.
Qed.

Lemma process_startStuffOff program accounts signers c :
  storage c = None → ss_baseAccount accounts = storage_address c →
  ss_user accounts = Some (wallet_key c) →
  storage_address c ∈ kp_publicKey <$> signers →
  process (ReqStartStuffOff program accounts signers) true c =
  (Confirmed "sig", with_storage [] c).
Proof. intros. cbn [process]. by rewrite !bool_decide_eq_true_2 by done. Qed.

(** A journey of three legs: the page sends, the chain answers twice. *)
Lemma play_journey mv p1 d1 p2 d2 n n1 n2 n3 :
  move mv n = Some n1 →
  play [p1; d1] n1 = Some n2 → play [p2; d2] n2 = Some n3 →
  play [mv; p1; d1; p2; d2] n = Some n3.
Proof.
  intros Hm H2 H3. change (play ([mv] ++ [p1; d1] ++ [p2; d2]) n = Some n3).
  rewrite play_app, play_singleton, Hm. cbn [mbind option_bind].
  by rewrite play_app, H2.
Qed.

(** A user event that sends one request: the request is in flight, last,
    and not yet processed. *)
Lemma net_sends c0 n event h value w1 r :
  net_reachable c0 n → step (EvUI event h value) (world n) = Some w1 →
  in_flight w1 = in_flight (world n) ++ [r] →
  ∃ n1, move (MUI event h value) n = Some n1 ∧ chain n1 = chain n ∧
        world n1 = w1 ∧ inbox n1 !! length (in_flight (world n)) = Some None.
Proof.
  intros [Hl _]%net_reachable_linked Hs Hf.
  eexists. cbn [move]. unfold page_move. rewrite Hs.
  split; [done|]. split_and!; cbn [world chain inbox]; [done..|].
  apply lookup_resize_new; [by rewrite in_flight_length|].
  rewrite <-(in_flight_length w1), Hf, length_app. simpl. lia.
Qed.

(** The form is submitted: the [addGif] is in flight. *)
Lemma net_submit c0 n value :
  net_reachable c0 n → mounted (world n) = true →
  ("submit", H_sendGif) ∈ listeners (App (app (world n))) →
  inputValue (app (world n)) ≠ "" →
  ∃ n1, move (MUI "submit" H_sendGif value) n = Some n1 ∧
        chain n1 = chain n ∧
        app (world n1) = set_inputValue "" (app (world n)) ∧
        in_flight (world n1) =
        in_flight (world n)
        ++ [addGif_request (world n) (wallet_object (chain n))] ∧
        inbox n1 !! length (in_flight (world n)) = Some None ∧
        alerts (world n1) = alerts (world n).
Proof.
  intros Hn Hm Ho Hv. pose proof (net_reachable_linked _ _ Hn) as [_ Hsol].
  destruct (step_ui_enabled "submit" H_sendGif value _ Hm Ho) as [w1 Hs].
  pose proof (link_submitted _ _ _ _ Hs Hv Hsol) as Hvis.
  pose proof (visible_in_flight _ _ _ _ _ _ Hvis) as Hf.
  destruct (net_sends c0 n _ _ _ w1 _ Hn Hs Hf) as (n1 & ? & ? & <- & ?).
  exists n1. split_and!;
    [done|done|by apply visible_app in Hvis|done|done
    |by apply visible_alerts in Hvis].
Qed.

(** The initialisation button is clicked: the [startStuffOff] is in
    flight. *)
Lemma net_initialise c0 n value :
  net_reachable c0 n → mounted (world n) = true →
  ("click", H_createGifAccount) ∈ listeners (App (app (world n))) →
  ∃ n1, move (MUI "click" H_createGifAccount value) n = Some n1 ∧
        chain n1 = chain n ∧ app (world n1) = app (world n) ∧
        in_flight (world n1) =
        in_flight (world n)
        ++ [startStuffOff_request (world n) (wallet_object (chain n))] ∧
        inbox n1 !! length (in_flight (world n)) = Some None.
Proof.
  intros Hn Hm Ho. pose proof (net_reachable_linked _ _ Hn) as [_ Hsol].
  destruct (step_ui_enabled "click" H_createGifAccount value _ Hm Ho)
    as [w1 Hs].
  pose proof (createGifAccount_clicked _ _ _ _ Hs Hsol) as Hvis.
  pose proof (visible_in_flight _ _ _ _ _ _ Hvis) as Hf.
  destruct (net_sends c0 n _ _ _ w1 _ Hn Hs Hf) as (n1 & ? & ? & <- & ?).
  exists n1. split_and!; [done|done|by apply visible_app in Hvis|done|done].
Qed.

Lemma in_flight_last w fl r :
  in_flight w = fl ++ [r] →
  ∃ t, pending w !! length fl = Some t ∧ task_request t = r.
Proof. intros Hf. apply in_flight_lookup. by rewrite Hf, list_lookup_middle. Qed.

(** A transaction in flight is processed and confirmed: the chain moves
    on, and the page sends the refetch. *)
Lemma net_confirmed c0 n fl r c' alerted :
  net_reachable c0 n →
  in_flight (world n) = fl ++ [r] → inbox n !! length fl = Some None →
  process r true (chain n) = (Confirmed "sig", c') →
  wallet_object c' = wallet_object (chain n) →
  (∀ w', step (EvSettle (length fl) (Confirmed "sig")) (world n) = Some w' →
         transaction_settled alerted (length fl) (Confirmed "sig") (world n) w') →
  ∃ n', play [MProcess (length fl) true; MDeliver (length fl)] n = Some n' ∧
        chain n' = c' ∧ app (world n') = app (world n) ∧
        in_flight (world n') = fl ++ [fetch_request (world n)] ∧
        inbox n' !! length fl = Some None.
Proof.
  intros Hn Hf Hi Hc Hw Hlaw.
  pose proof (net_reachable_linked _ _ Hn) as [Hl _].
  assert (in_flight (world n) !! length fl = Some r) as Hr
    by (by rewrite Hf, list_lookup_middle).
  destruct (net_round_trip c0 n _ _ true Hn Hr Hi) as (w' & Hst & Hp);
    rewrite Hc in *; [done|].
  cbn [fst snd] in *. pose proof (Hlaw _ Hst) as Hv.
  cbn [transaction_settled] in Hv. rewrite Hf, delete_middle, app_nil_r in Hv.
  pose proof (visible_in_flight _ _ _ _ _ _ Hv) as Hf'.
  eexists. split; [exact Hp|]. cbn [world chain inbox].
  split_and!; [done|by apply visible_app in Hv|done|].
  apply lookup_resize_new.
  - rewrite length_delete by eauto. rewrite Hl, <-in_flight_length, Hf.
    rewrite length_app. simpl. lia.
  - rewrite <-in_flight_length, Hf', length_app. simpl. lia.
Qed.

(** The [addGif] in flight is processed and confirmed: the entry is
    stored, and the page sends the refetch. *)
Lemma net_confirm c0 n fl program link accounts l :
  net_reachable c0 n →
  in_flight (world n) = fl ++ [ReqAddGif program link accounts] →
  inbox n !! length fl = Some None →
  storage (chain n) = Some l →
  ag_baseAccount accounts = storage_address (chain n) →
  ag_user accounts = Some (wallet_key (chain n)) →
  ∃ n', play [MProcess (length fl) true; MDeliver (length fl)] n = Some n' ∧
        chain n' =
        with_storage (l ++ [mkGifItem link (wallet_key (chain n))]) (chain n) ∧
        app (world n') = app (world n) ∧
        in_flight (world n') = fl ++ [fetch_request (world n)] ∧
        inbox n' !! length fl = Some None.
Proof.
  intros Hn Hf Hi Hs Hb Hu.
  apply (net_confirmed c0 n fl _ _ ["fal"] Hn Hf Hi);
    [by apply process_addGif|done|].
  intros w' Hst.
  destruct (in_flight_last _ _ _ Hf) as (t & Ht & Hq).
  eapply addGif_settled; [by eapply net_reachable_world|done..].
Qed.

(** The [startStuffOff] in flight is processed and confirmed: the
    storage account is created, empty, and the page sends the fetch. *)
Lemma net_created c0 n fl program accounts signers :
  net_reachable c0 n →
  in_flight (world n) = fl ++ [ReqStartStuffOff program accounts signers] →
  inbox n !! length fl = Some None →
  storage (chain n) = None →
  ss_baseAccount accounts = storage_address (chain n) →
  ss_user accounts = Some (wallet_key (chain n)) →
  storage_address (chain n) ∈ kp_publicKey <$> signers →
  ∃ n', play [MProcess (length fl) true; MDeliver (length fl)] n = Some n' ∧
        chain n' = with_storage [] (chain n) ∧
        app (world n') = app (world n) ∧
        in_flight (world n') = fl ++ [fetch_request (world n)] ∧
        inbox n' !! length fl = Some None.
Proof.
  intros Hn Hf Hi Hs Hb Hu Hk.
  apply (net_confirmed c0 n fl _ _ [] Hn Hf Hi);
    [by apply process_startStuffOff|done|].
  intros w' Hst.
  destruct (in_flight_last _ _ _ Hf) as (t & Ht & Hq).
  eapply startStuffOff_settled; [by eapply net_reachable_world|done..].
Qed.

(** The fetch in flight is processed and answered: the page shows the
    list the program holds. *)
Lemma net_fetch c0 n fl program l approve :
  net_reachable c0 n →
  in_flight (world n) = fl ++ [ReqFetch program (storage_address (chain n))] →
  inbox n !! length fl = Some None →
  storage (chain n) = Some l →
  ∃ n', play [MProcess (length fl) approve; MDeliver (length fl)] n = Some n' ∧
        chain n' = chain n ∧
        app (world n') = set_gifList (Some l) (app (world n)) ∧
        in_flight (world n') = fl.
Proof.
  intros Hn Hf Hi Hs.
  assert (in_flight (world n) !! length fl
          = Some (ReqFetch program (storage_address (chain n)))) as Hr
    by (by rewrite Hf, list_lookup_middle).
  destruct (net_round_trip c0 n _ _ approve Hn Hr Hi) as (w' & Hst & Hp);
    rewrite (process_fetch _ _ l) in * by done; [done|].
  cbn [fst snd] in *.
  pose proof (fetch_settled _ _ _ _ _ _ _
                (net_reachable_world _ _ Hn) Hr Hst) as Hv.
  cbn [acct_gifList] in Hv. rewrite Hf, delete_middle, app_nil_r in Hv.
  eexists. split; [exact Hp|]. cbn [world chain].
  split_and!; [done|by apply visible_app in Hv|by apply visible_in_flight in Hv].
Qed.

Lemma process_connect opts approve c :
  (if (if opts is Some o then onlyIfTrusted o else false)
   then trusted c else approve) = true →
  process (ReqConnect opts) approve c =
  (Connected (mkConnectResponse (wallet_key c)), with_connected c).
Proof. intros H. cbn [process]. cbv zeta. by rewrite H. Qed.

(** The connection in flight is granted: the wallet exposes its key, the
    session opens, and the effect of the mounted page sends the first
    fetch. *)
Lemma net_connect c0 n fl opts approve :
  net_reachable c0 n → mounted (world n) = true →
  in_flight (world n) = fl ++ [ReqConnect opts] →
  inbox n !! length fl = Some None →
  (if (if opts is Some o then onlyIfTrusted o else false)
   then trusted (chain n) else approve) = true →
  walletAddress (app (world n)) ≠ Some (pk_toString (wallet_key (chain n))) →
  pk_toString (wallet_key (chain n)) ≠ "" →
  ∃ n' program,
    play [MProcess (length fl) approve; MDeliver (length fl)] n = Some n' ∧
    chain n' = with_connected (chain n) ∧
    app (world n') =
    set_walletAddress (Some (pk_toString (wallet_key (chain n))))
      (app (world n)) ∧
    in_flight (world n') = fl ++ [ReqFetch program (kp_publicKey baseAccount)] ∧
    inbox n' !! length fl = Some None.
Proof.
  intros Hn Hm Hf Hi Hg Hw Hk%truthy_string_spec.
  pose proof (net_reachable_linked _ _ Hn) as [Hl _].
  assert (in_flight (world n) !! length fl = Some (ReqConnect opts)) as Hr
    by (by rewrite Hf, list_lookup_middle).
  destruct (net_round_trip_gen c0 n _ _ approve Hn Hr Hi)
    as (w' & Hr1 & Hst & Hp).
  rewrite (process_connect _ _ _ Hg) in *. cbn [fst snd] in *.
  set (w1 := set_solana _ (world n)) in *.
  apply in_flight_lookup in Hr as (t & Ht & Hq).
  pose proof (connect_answered _ w1 _ _ _ _ _ Hr1 Ht Hq Hst) as Hv.
  cbn [connect_settled publicKey] in Hv.
  change (mounted w1) with (mounted (world n)) in Hv.
  change (app w1) with (app (world n)) in Hv.
  change (in_flight w1) with (in_flight (world n)) in Hv.
  rewrite Hm, decide_False, truthy_Some, Hk, Hf, delete_middle, app_nil_r
    in Hv by done.
  pose proof (visible_in_flight _ _ _ _ _ _ Hv) as Hf'.
  eexists _, (program_in w1). split; [exact Hp|]. cbn [world chain inbox].
  split_and!; [done|by apply visible_app in Hv|done|].
  apply lookup_resize_new.
  - rewrite length_delete by eauto. rewrite Hl, <-in_flight_length, Hf.
    rewrite length_app. simpl. lia.
  - rewrite <-in_flight_length, Hf', length_app. simpl. lia.
Qed.

(** The page after the load event, on a chain whose wallet has not
    connected yet: the silent reconnection is in flight. *)
Lemma net_load c :
  connected c = false →
  ∃ n1, move MLoad (net_initial c) = Some n1 ∧ chain n1 = c ∧
        mounted (world n1) = true ∧ app (world n1) = initialState ∧
        in_flight (world n1) = [] ++ [ReqConnect (Some (mkConnectOpts true))] ∧
        inbox n1 !! 0 = Some None.
Proof.
  intros Hc. eexists.
  split; [unfold net_initial, wallet_object; by rewrite Hc | done].
Qed.

(** The whole journey of a submission: the page submits, the chain
    confirms, the page refetches and the chain answers with the list. *)
Lemma net_publish c0 n value l0 :
  net_reachable c0 n →
  mounted (world n) = true →
  ("submit", H_sendGif) ∈ listeners (App (app (world n))) →
  inputValue (app (world n)) ≠ "" →
  connected (chain n) = true →
  storage (chain n) = Some l0 →
  storage_address (chain n) = kp_publicKey baseAccount →
  let k := length (pending (world n)) in
  let l := l0 ++ [mkGifItem (inputValue (app (world n))) (wallet_key (chain n))] in
  ∃ n', play [MUI "submit" H_sendGif value; MProcess k true; MDeliver k;
              MProcess k true; MDeliver k] n = Some n' ∧
        storage (chain n') = Some l ∧
        gifList (app (world n')) = Some l ∧
        inputValue (app (world n')) = "" ∧
        in_flight (world n') = in_flight (world n).
Proof.
  intros Hn Hm Ho Hv Hc Hs Ha k l. subst k. rewrite <-in_flight_length.
  destruct (net_submit c0 n value Hn Hm Ho Hv)
    as (n1 & Hm1 & Hc1 & Ha1 & Hf1 & Hi1 & _).
  assert (net_reachable c0 n1) as Hn1 by by eapply net_reach_move.
  destruct (net_confirm c0 n1 _ _ _ _ l0 Hn1 Hf1 Hi1)
    as (n2 & Hp2 & Hc2 & Ha2 & Hf2 & Hi2);
    rewrite ?Hc1; [done|by rewrite Ha|by simpl; rewrite Hc|].
  assert (net_reachable c0 n2) as Hn2 by by eapply net_reachable_play.
  destruct (net_fetch c0 n2 (in_flight (world n)) (program_in (world n1)) l
              true)
    as (n3 & Hp3 & Hc3 & Ha3 & Hf3);
    [done|by rewrite Hf2, Hc2; simpl; rewrite Hc1, Ha|done
    |by rewrite Hc2; simpl; rewrite Hc1|].
  exists n3. split_and!.
  - by eapply play_journey.
  - by rewrite Hc3, Hc2, Hc1.
  - by rewrite Ha3.
  - by rewrite Ha3, Ha2, Ha1.
  - done.
Qed.

(** C4. A link submitted on the chain comes back: on a mounted page
    whose form is offered, with the wallet connected and the storage
    account created, submitting the draft, letting the chain process the
    [addGif] and deliver the confirmation, then process the refetch and
    deliver the list, ends with the link stored under the wallet's key as
    the last entry, and with the page showing exactly the stored list,
    the draft cleared and nothing new in flight. *)
Theorem submitted_is_shown c0 n value l0 :
  net_reachable c0 n →
  mounted (world n) = true →
  ("submit", H_sendGif) ∈ listeners (App (app (world n))) →
  inputValue (app (world n)) ≠ "" →
  connected (chain n) = true →
  storage (chain n) = Some l0 →
  storage_address (chain n) = kp_publicKey baseAccount →
  let k := length (pending (world n)) in
  let l := l0 ++ [mkGifItem (inputValue (app (world n))) (wallet_key (chain n))] in
  ∃ n', play [MUI "submit" H_sendGif value; MProcess k true; MDeliver k;
              MProcess k true; MDeliver k] n = Some n' ∧
        storage (chain n') = Some l ∧
        gifList (app (world n')) = Some l ∧
        inputValue (app (world n')) = "" ∧
        in_flight (world n') = in_flight (world n).
Proof. apply net_publish. Qed.

(** The whole journey of opening the page: the load event, the silent
    reconnection granted, the first fetch answered. *)
Lemma net_opens c l approve1 approve2 :
  trusted c = true → connected c = false →
  storage c = Some l → storage_address c = kp_publicKey baseAccount →
  pk_toString (wallet_key c) ≠ "" →
  ∃ n', play [MLoad; MProcess 0 approve1; MDeliver 0;
              MProcess 0 approve2; MDeliver 0] (net_initial c) = Some n' ∧
        walletAddress (app (world n')) = Some (pk_toString (wallet_key c)) ∧
        gifList (app (world n')) = Some l ∧
        in_flight (world n') = [] ∧
        connected (chain n') = true.
Proof.
  intros Ht Hc Hs Ha Hk.
  destruct (net_load c Hc) as (n1 & Hm1 & Hc1 & Hmt & Ha1 & Hf1 & Hi1).
  assert (net_reachable c n1) as Hn1
    by (eapply net_reach_move; [apply net_reach_initial|done]).
  destruct (net_connect c n1 [] _ approve1 Hn1 Hmt Hf1 Hi1)
    as (n2 & program & Hp2 & Hc2 & Ha2 & Hf2 & Hi2);
    rewrite ?Hc1, ?Ha1; [done..|].
  assert (net_reachable c n2) as Hn2 by by eapply net_reachable_play.
  rewrite Hc1 in Hc2, Ha2.
  destruct (net_fetch c n2 [] program l approve2 Hn2)
    as (n3 & Hp3 & Hc3 & Ha3 & Hf3);
    [by rewrite Hf2, Hc2; simpl; rewrite Ha|done|by rewrite Hc2|].
  cbn [length] in Hp2, Hp3.
  exists n3. split_and!; [by eapply play_journey|by rewrite Ha3, Ha2
                         |by rewrite Ha3|done|by rewrite Hc3, Hc2].
Qed.

(** C6. Opening the page with a wallet that trusts the site: after the
    load event the chain grants the silent reconnection and answers the
    first fetch, and the page ends with the session of the wallet's key,
    showing the list the program holds, with nothing in flight. *)
Theorem trusted_page_opens c l approve1 approve2 :
  trusted c = true → connected c = false →
  storage c = Some l → storage_address c = kp_publicKey baseAccount →
  pk_toString (wallet_key c) ≠ "" →
  ∃ n', play [MLoad; MProcess 0 approve1; MDeliver 0;
              MProcess 0 approve2; MDeliver 0] (net_initial c) = Some n' ∧
        walletAddress (app (world n')) = Some (pk_toString (wallet_key c)) ∧
        gifList (app (world n')) = Some l ∧
        in_flight (world n') = [] ∧
        connected (chain n') = true.
Proof. apply net_opens. Qed.

(** C24. An alert does not mean that the link was not stored.  On a mounted
    page that offers the form, with the wallet connected and the storage
    account created, let the draft be submitted, the chain process and
    confirm the [addGif], and the confirmation be lost on the way, so
    that the client rejects the promise.  Then the link is stored under
    the wallet's key, while the page alerts the failure, shows the list
    it showed before, has discarded the draft and sends no refetch. *)
Theorem alerted_but_stored c0 n value l0 e :
  net_reachable c0 n →
  mounted (world n) = true →
  ("submit", H_sendGif) ∈ listeners (App (app (world n))) →
  inputValue (app (world n)) ≠ "" →
  connected (chain n) = true →
  storage (chain n) = Some l0 →
  storage_address (chain n) = kp_publicKey baseAccount →
  let k := length (pending (world n)) in
  ∃ n', play [MUI "submit" H_sendGif value; MProcess k true; MFail k e;
              MDeliver k] n = Some n' ∧
        storage (chain n')
        = Some (l0 ++ [mkGifItem (inputValue (app (world n)))
                         (wallet_key (chain n))]) ∧
        alerts (world n') = alerts (world n) ++ ["fal"] ∧
        gifList (app (world n')) = gifList (app (world n)) ∧
        inputValue (app (world n')) = "" ∧
        in_flight (world n') = in_flight (world n).
Proof.
  intros Hn Hm Ho Hv Hc Hs Ha k. subst k. rewrite <-in_flight_length.
  destruct (net_submit c0 n value Hn Hm Ho Hv)
    as (n1 & Hm1 & Hc1 & Ha1 & Hf1 & Hi1 & Hal1).
  assert (net_reachable c0 n1) as Hn1 by by eapply net_reach_move.
  destruct (in_flight_last _ _ _ Hf1) as (t & Ht & Hq).
  pose proof (proj2 (in_flight_lookup _ _ _) (ex_intro _ t (conj Ht Hq))) as Hr.
  assert (process (addGif_request (world n) (wallet_object (chain n))) true
            (chain n1)
          = (Confirmed "sig",
             with_storage
               (l0 ++ [mkGifItem (inputValue (app (world n)))
                         (wallet_key (chain n1))]) (chain n1))) as Hproc.
  { apply process_addGif; rewrite Hc1; [done|by rewrite Ha|by cbn; rewrite Hc]. }
  destruct (net_answer_lost c0 n1 _ _ true e Hn1 Hr Hi1)
    as (w' & Hr1 & Hst & Hp); [by rewrite Hproc|].
  rewrite Hproc in *. cbn [fst snd] in *.
  pose proof (addGif_settled _ _ _ _ _ _ _ _ _ Hr1 Ht Hq Hst) as Hvis.
  cbn [transaction_settled] in Hvis.
  change (in_flight (set_solana _ ?w)) with (in_flight w) in Hvis.
  rewrite Hf1, delete_middle, app_nil_r in Hvis.
  eexists. split; [rewrite (play_cons _ _ _ _ Hm1); exact Hp|].
  cbn [world chain]. rewrite (visible_app _ _ _ _ _ _ Hvis).
  rewrite (visible_alerts _ _ _ _ _ _ Hvis), (visible_in_flight _ _ _ _ _ _ Hvis).
  cbn [app alerts set_solana storage with_storage]. by rewrite Ha1, Hal1, Hc1.
Qed.

(** C7. The storage account is created from the page: on a mounted page
    that offers the initialisation button, with the wallet connected and
    no storage account yet, clicking the button, letting the chain
    process the [startStuffOff] and deliver the confirmation, then process
    the fetch and deliver the list, ends with the account created and
    empty, with the page showing the empty list and offering the form,
    and with nothing new in flight. *)
Theorem initialised_is_shown c0 n value approve :
  net_reachable c0 n →
  mounted (world n) = true →
  ("click", H_createGifAccount) ∈ listeners (App (app (world n))) →
  connected (chain n) = true →
  storage (chain n) = None →
  storage_address (chain n) = kp_publicKey baseAccount →
  let k := length (pending (world n)) in
  ∃ n', play [MUI "click" H_createGifAccount value; MProcess k true;
              MDeliver k; MProcess k approve; MDeliver k] n = Some n' ∧
        storage (chain n') = Some [] ∧
        gifList (app (world n')) = Some [] ∧
        in_flight (world n') = in_flight (world n) ∧
        listeners (App (app (world n')))
        = [("submit", H_sendGif); ("change", H_onInputChange)].
Proof.
  intros Hn Hm Ho Hc Hs Ha k. subst k. rewrite <-in_flight_length.
  destruct (net_initialise c0 n value Hn Hm Ho)
    as (n1 & Hm1 & Hc1 & Ha1 & Hf1 & Hi1).
  assert (net_reachable c0 n1) as Hn1 by by eapply net_reach_move.
  destruct (net_created c0 n1 _ _ _ _ Hn1 Hf1 Hi1)
    as (n2 & Hp2 & Hc2 & Ha2 & Hf2 & Hi2);
    rewrite ?Hc1;
    [done|by rewrite Ha|by simpl; rewrite Hc|rewrite Ha; cbn; constructor|].
  assert (net_reachable c0 n2) as Hn2 by by eapply net_reachable_play.
  destruct (net_fetch c0 n2 (in_flight (world n)) (program_in (world n1)) []
              approve)
    as (n3 & Hp3 & Hc3 & Ha3 & Hf3);
    [done|by rewrite Hf2, Hc2; simpl; rewrite Hc1, Ha|done|by rewrite Hc2|].
  apply listeners_App_cases in Ho
    as [(? & ? & ?)|[(_ & _ & Hw & _)|[(? & ? & ?)|(? & ? & ?)]]];
    simplify_eq.
  exists n3. split_and!;
    [by eapply play_journey|by rewrite Hc3, Hc2|by rewrite Ha3|done|].
  rewrite listeners_App, Ha3. simpl. by rewrite Ha2, Ha1, Hw.
Qed.

End journeys.

(** * Worked examples *)

Section journey_examples.
#[local] Existing Instances demo_web3 demo_build.

(** The typed link is submitted, stored as the third entry under
    [alice]'s key, and shown with the entry [bob] appended meanwhile. *)
Lemma submitted_is_shown_witness :
  ∃ n', play [MUI "submit" H_sendGif ""; MProcess 0 true; MDeliver 0;
              MProcess 0 true; MDeliver 0] n_typed = Some n' ∧
        storage (chain n')
        = Some [gif1; gif2; mkGifItem "https://x/z.gif" alice] ∧
        gifList (app (world n'))
        = Some [gif1; gif2; mkGifItem "https://x/z.gif" alice] ∧
        inputValue (app (world n')) = "" ∧
        in_flight (world n') = [].
Proof.
  apply (submitted_is_shown demo_chain n_typed "" [gif1; gif2]);
    [apply n_typed_reachable | by vm_compute | | by vm_compute..].
  vm_compute. repeat constructor.
Defined.

(** The page opens on [demo_chain]: the session is [alice]'s and the
    one stored entry is shown. *)
Lemma trusted_page_opens_witness :
  ∃ n', play [MLoad; MProcess 0 false; MDeliver 0;
              MProcess 0 false; MDeliver 0] (net_initial demo_chain) = Some n' ∧
        walletAddress (app (world n')) = Some "ALiCE111" ∧
        gifList (app (world n')) = Some [gif1] ∧
        in_flight (world n') = [] ∧
        connected (chain n') = true.
Proof. by apply (trusted_page_opens demo_chain [gif1] false false). Defined.


(** The wallet of [alice] trusts the site, and nobody has created the
    storage account: the page reconnects, the first fetch fails, and the
    initialisation button is offered. *)
Definition fresh_chain : Chain := mkChain alice true false demo_key None.

Definition mvs_fresh : list Move :=
  [MLoad; MProcess 0 false; MDeliver 0; MProcess 0 false; MDeliver 0].

Definition n_fresh : Net :=
  default (net_initial fresh_chain) (play mvs_fresh (net_initial fresh_chain)).

Lemma n_fresh_reachable : net_reachable fresh_chain n_fresh.
Proof.
  apply (net_reachable_play _ mvs_fresh (net_initial fresh_chain));
    [apply net_reach_initial | by vm_compute].
Qed.

(** The button is clicked and the account created; the user declines
    nothing, the fetch needs no approval. *)
Lemma initialised_is_shown_witness :
  ∃ n', play [MUI "click" H_createGifAccount ""; MProcess 0 true; MDeliver 0;
              MProcess 0 false; MDeliver 0] n_fresh = Some n' ∧
        storage (chain n') = Some [] ∧
        gifList (app (world n')) = Some [] ∧
        in_flight (world n') = [] ∧
        listeners (App (app (world n')))
        = [("submit", H_sendGif); ("change", H_onInputChange)].
Proof.
  apply (initialised_is_shown fresh_chain n_fresh "" false);
    [apply n_fresh_reachable | by vm_compute | | by vm_compute..].
  vm_compute. repeat constructor.
Defined.


(** The typed link of [n_typed] is submitted and stored, and the
    confirmation times out. *)
Lemma alerted_but_stored_witness :
  ∃ n', play [MUI "submit" H_sendGif ""; MProcess 0 true;
              MFail 0 (mkJsError "Error" "timeout"); MDeliver 0] n_typed
        = Some n' ∧
        storage (chain n')
        = Some ([gif1; gif2] ++ [mkGifItem "https://x/z.gif" alice]) ∧
        alerts (world n') = [] ++ ["fal"] ∧
        gifList (app (world n')) = Some [gif1] ∧
        inputValue (app (world n')) = "" ∧
        in_flight (world n') = [].
Proof.
  apply (alerted_but_stored demo_chain n_typed "" [gif1; gif2]
           (mkJsError "Error" "timeout"));
    [apply n_typed_reachable | by vm_compute | | by vm_compute..].
  vm_compute. repeat constructor.
Defined.

End journey_examples.
