(* ===== verification/Progress.v ===== *)
(** * Progress: every handler finishes

    A handler waits for at most two promises, and what follows an answer
    is at most one more request.  So the requests in flight run out: if
    the environment keeps answering the oldest one, with whatever answer
    of the right type, nothing is pending after at most twice as many
    answers as there were tasks.

    The measure is [weight]: a fetch counts once; a connection, a
    submission and an initialisation count twice, for the fetch that may
    follow them.  It is defined on the machine of [Spec], where every
    answer lowers it ([settle_weight]), and carried to the page by the
    simulation of [Refinement].  [drain] answers the oldest request until
    nothing is pending or the fuel runs out; [drain_terminates] shows that
    the fuel [2 * length (pending w)] is enough. *)

From S2P Require Import Prelude Js Async Remote Config Fixture Handlers Render EventLoop Spec Accounting Scenarios Safety Reactions Refinement.

(** What an operation in flight may still cost: itself and, unless it is
    a fetch, the fetch that follows it. *)
Definition op_weight (op : Operation) : nat :=
  match op with Fetching => 1 | _ => 2 end.

Definition weight (m : Model) : nat := sum_list_with op_weight (inFlight m).

Section drain_defs.
Context {web3 : Web3} {build : Build}.

(** Answer the oldest request in flight, [fuel] times at most. *)
Fixpoint drain (answer : Request → Outcome) (fuel : nat) (w : World)
  : option World :=
  match fuel with
  | 0 => Some w
  | S fuel =>
      match in_flight w with
      | [] => Some w
      | r :: _ => step (EvSettle 0 (answer r)) w ≫= drain answer fuel
      end
  end.

End drain_defs.

Section progress.
Context {web3 : Web3} {build : Build}.
Implicit Types (m : Model) (w : World) (op : Operation) (o : Outcome).

Lemma op_weight_pos op : 0 < op_weight op.
Proof. destruct op; simpl; lia. Qed.

Lemma weight_start op m : weight (start op m) = weight m + op_weight op.
Proof. unfold weight. simpl. rewrite sum_list_with_app. simpl. lia. Qed.

(** The answer to an operation starts at most the fetch the operation
    was counted with. *)
Lemma settle_weight op o m m' :
  settle op o m = Some m' → weight m' + 1 ≤ weight m + op_weight op.
Proof.
  destruct op as [[]| | |], o; simpl; intros [= <-];
    unfold openSession, refreshList; repeat case_match;
    rewrite ?weight_start; unfold weight; simpl; lia.
Qed.

(** Every answer lowers the weight. *)
Lemma spec_settle_weight i o m m' :
  spec_step (EvSettle i o) m = Some m' → weight m' < weight m.
Proof.
  cbn [spec_step]. intros (op & Hi & Hs%settle_weight)%bind_Some.
  unfold weight in *. simpl in Hs.
  rewrite (sum_list_with_delete op_weight _ _ _ Hi). lia.
Qed.

Lemma weight_zero m : weight m = 0 → inFlight m = [].
Proof.
  unfold weight. destruct (inFlight m) as [|op l]; [done|]. simpl.
  pose proof (op_weight_pos op). lia.
Qed.

Lemma weight_bound m : weight m ≤ 2 * length (inFlight m).
Proof. apply sum_list_with_bound. intros []; simpl; lia. Qed.

Lemma abs_pending_nil w : inFlight (abs w) = [] → pending w = [].
Proof. simpl. unfold in_flight. by intros ?%fmap_nil_inv%fmap_nil_inv. Qed.

(** With fuel for the weight of the world, [drain] runs until nothing is
    pending. *)
Lemma drain_weight sol answer fuel w :
  (∀ r, fits r (answer r)) → reachable sol w → weight (abs w) ≤ fuel →
  ∃ w', drain answer fuel w = Some w' ∧ pending w' = [] ∧ reachable sol w'.
Proof.
  intros Hfit. revert w. induction fuel as [|fuel IH]; intros w Hr Hw.
  - exists w. split_and!; [done| |done]. apply abs_pending_nil, weight_zero. lia.
  - cbn [drain]. destruct (in_flight w) as [|r fl] eqn:Hf.
    { exists w. split_and!; [done| |done]. by apply fmap_nil_inv in Hf. }
    destruct (step_settle_fits w 0 r (answer r)) as [w1 Hs];
      [by rewrite Hf|done|].
    rewrite Hs. cbn [mbind option_bind]. apply IH; [by eapply reach_step|].
    pose proof (step_simulation _ _ _ _ Hr Hs) as Hsim%spec_settle_weight. lia.
Qed.

(** C20. Every handler finishes: from any reachable world, if the oldest
    request in flight is answered again and again, with whatever answers
    of the right type, then after at most twice as many answers as there
    are pending tasks nothing is pending. *)
Theorem drain_terminates sol answer w :
  (∀ r, fits r (answer r)) → reachable sol w →
  ∃ w', drain answer (2 * length (pending w)) w = Some w' ∧
        pending w' = [] ∧ reachable sol w'.
Proof.
  intros Hfit Hr. apply drain_weight; [done..|].
  etrans; [apply weight_bound|]. simpl. unfold in_flight.
  by rewrite !length_fmap.
Qed.

End progress.

(** * Worked examples *)

Section progress_examples.
#[local] Existing Instances demo_web3 demo_build.

(** The network the user hopes for: every connection is granted to
    [alice], every transaction confirmed, every fetch answered with one
    entry. *)
Definition all_well (r : Request) : Outcome :=
  match r with
  | ReqConnect _ => connect_alice
  | ReqAddGif _ _ _ | ReqStartStuffOff _ _ _ => Confirmed "sig"
  | ReqFetch _ _ => Fetched (mkAccount [gif1])
  end.

(** The submitted link of [w_submitted] is confirmed and the refetch
    answered: two answers for one pending task. *)
Lemma drain_terminates_witness :
  ∃ w', drain all_well (2 * length (pending w_submitted)) w_submitted = Some w' ∧
        pending w' = [] ∧ reachable (Some phantom) w'.
Proof.
  apply (drain_terminates (Some phantom) all_well w_submitted);
    [by intros [] | demo_reachable].
Defined.

End progress_examples.
