(* ===== verification/Closed.v ===== *)
(** * Closed: no request is left unanswered

    The page and the chain of [Chain] together, with nobody else to wait
    for.  Two things could leave a request in flight for ever: the page
    refusing the answer the chain gives, or requests breeding requests
    without end.  Neither happens:
    - every answer on its way fits the request it answers ([typed], an
      invariant of the moves), so the chain can process every request it
      has not processed and the page accepts every answer delivered
      ([process_enabled], [deliver_enabled]);
    - [serve] lets the chain process the oldest request, unless it has,
      and delivers the answer; every round lowers the weight of
      [Progress], so [serve_all] comes to rest with nothing in flight
      after at most twice as many rounds as there were tasks
      ([chain_quiesces]), whatever the user approves or declines;
    - the order does not matter: every move that answers (the chain
      processing a request, the network delivering or losing an answer)
      lowers [budget], so every schedule of answers is finite, and it can
      go on as long as something is pending ([every_schedule_ends],
      [answers_sn]). *)

From stdpp Require Import relations.
From S2P Require Import Prelude Js Async Remote Config Fixture Handlers Render EventLoop Spec Accounting Scenarios Safety Reactions Refinement WellFormed Chain Journeys Progress.

(** An answer on its way fits the request it answers. *)
Definition slot_fits (r : Request) (slot : option Outcome) : Prop :=
  if slot is Some o then fits r o else True.

#[export] Instance slot_fits_dec r slot : Decision (slot_fits r slot).
Proof. destruct slot; apply _. Defined.

Section closed_defs.
Context {web3 : Web3} {build : Build}.

(** The inbox runs parallel to the requests in flight, and holds answers
    of their types. *)
Definition typed (n : Net) : Prop :=
  Forall2 slot_fits (in_flight (world n)) (inbox n).

(** One round: the chain processes the oldest request, unless it has, and
    the answer is delivered.  [approve] is what the user does in the
    wallet's dialog, by request. *)
Definition serve (approve : Request → bool) (n : Net) : option Net :=
  r ← in_flight (world n) !! 0;
  slot ← inbox n !! 0;
  match slot with
  | None => play [MProcess 0 (approve r); MDeliver 0] n
  | Some _ => move (MDeliver 0) n
  end.

(** Rounds until nothing is pending, [fuel] at most. *)
Fixpoint serve_all (approve : Request → bool) (fuel : nat) (n : Net)
  : option Net :=
  match fuel with
  | 0 => Some n
  | S fuel =>
      match pending (world n) with
      | [] => Some n
      | _ :: _ => serve approve n ≫= serve_all approve fuel
      end
  end.

(** The moves of the chain and the network on a request in flight. *)
Definition answering (mv : Move) : Prop :=
  match mv with
  | MProcess _ _ | MDeliver _ | MFail _ _ => True
  | _ => False
  end.

(** What a slot may still cost: a request is processed or lost, an answer
    may still be lost. *)
Definition slot_cost (slot : option Outcome) : nat :=
  match slot with
  | None => 2
  | Some (Failed _) => 0
  | Some _ => 1
  end.

(** The moves the chain and the network have left: three for the weight
    of each request, for the fetch it may be followed by and the two
    moves on that fetch, and the cost of each slot. *)
Definition budget (n : Net) : nat :=
  3 * weight (abs (world n)) + sum_list_with slot_cost (inbox n).

(** One answering move, from a state the page can be in. *)
Definition answer_step (c0 : Chain) (n n' : Net) : Prop :=
  net_reachable c0 n ∧ ∃ mv, answering mv ∧ move mv n = Some n'.

End closed_defs.

#[export] Instance answering_dec mv : Decision (answering mv).
Proof. destruct mv; apply _. Defined.

#[export] Instance typed_dec `{Web3, Build} n : Decision (typed n).
Proof. unfold typed. apply _. Defined.

Section closed.
Context {web3 : Web3} {build : Build}.
Implicit Types (n : Net) (c : Chain) (w : World) (r : Request) (o : Outcome).

(** ** Answers fit their requests *)

(** New requests come with empty slots. *)
Lemma typed_resize fl rs box :
  Forall2 slot_fits fl box →
  Forall2 slot_fits (fl ++ rs) (resize (length (fl ++ rs)) box).
Proof.
  intros Hf. unfold resize. apply Forall2_app; [done|].
  rewrite length_app, <-(Forall2_length _ _ _ Hf).
  apply Forall2_replicate_r; [lia|]. by apply Forall_forall.
Qed.

Lemma page_move_typed ev n n' :
  plain ev → typed n → page_move ev n = Some n' → typed n'.
Proof.
  intros Hev Hn (Hst & _ & Hi)%page_move_inv. unfold typed.
  rewrite Hi, <-in_flight_length.
  destruct (step_sends _ _ _ Hst) as (rs & _ & ->).
  apply typed_resize. by destruct ev.
Qed.

Lemma deliver_typed n i o w' :
  typed n → step (EvSettle i o) (world n) = Some w' →
  typed (mkNet w' (chain n) (resize (length (pending w')) (delete i (inbox n)))).
Proof.
  intros Hn Hst. unfold typed. cbn [world inbox]. rewrite <-in_flight_length.
  destruct (step_sends _ _ _ Hst) as (rs & _ & ->).
  by apply typed_resize, Forall2_delete.
Qed.

Lemma process_typed n i r approve :
  typed n → in_flight (world n) !! i = Some r →
  let (o, c') := process r approve (chain n) in
  typed (mkNet (set_solana (Some (wallet_object c')) (world n)) c'
           (<[i := Some o]> (inbox n))).
Proof.
  intros Hn Hr. pose proof (process_fits r approve (chain n)) as Hfit.
  destruct (process r approve (chain n)) as [o c']. unfold typed.
  cbn [world inbox]. change (in_flight (set_solana _ ?w)) with (in_flight w).
  rewrite <-(list_insert_id _ _ _ Hr). by apply Forall2_insert.
Qed.

Lemma move_typed mv n n' : typed n → move mv n = Some n' → typed n'.
Proof.
  intros Hn.
  intros [mv' ev n1 Hev%page_event_plain Hp|i approve r o c' Hr Hi Hp
         |i o w' Hi Hst|item l Hl|Hl|i e slot Hi Hslot]%move_moved.
  - by eapply page_move_typed.
  - pose proof (process_typed n i r approve Hn Hr) as Ht. by rewrite Hp in Ht.
  - by eapply deliver_typed.
  - done.
  - done.
  - unfold typed. cbn [world inbox].
    destruct (Forall2_lookup_r _ _ _ _ _ Hn Hi) as (r & Hr & _).
    rewrite <-(list_insert_id _ _ _ Hr). apply Forall2_insert; [done|].
    by destruct r.
Qed.

#[export] Instance typed_inv : NetInv typed.
Proof. split; [constructor | intros; by eapply move_typed]. Qed.

Lemma net_reachable_typed c0 n : net_reachable c0 n → typed n.
Proof. apply (net_inv_reachable typed). Qed.

(** ** Every request can be answered *)

Lemma process_enabled n i r approve :
  in_flight (world n) !! i = Some r → inbox n !! i = Some None →
  is_Some (move (MProcess i approve) n).
Proof.
  intros Hr Hi. cbn [move]. rewrite Hr, Hi. cbn [mbind option_bind].
  by destruct (process r approve (chain n)).
Qed.

Lemma deliver_enabled n i r o :
  in_flight (world n) !! i = Some r → inbox n !! i = Some (Some o) →
  fits r o → is_Some (move (MDeliver i) n).
Proof.
  intros Hr Hi Hfit. destruct (step_settle_fits _ _ _ _ Hr Hfit) as [w' Hs].
  cbn [move]. rewrite Hi. cbn [mbind option_bind]. by rewrite Hs.
Qed.

(** ** The page and the chain come to rest *)

(** A round settles the oldest request: the weight goes down. *)
Lemma serve_lowers c0 approve n r :
  net_reachable c0 n → in_flight (world n) !! 0 = Some r →
  ∃ n', serve approve n = Some n' ∧ net_reachable c0 n' ∧
        weight (abs (world n')) < weight (abs (world n)).
Proof.
  intros Hn Hr. pose proof (net_reachable_typed _ _ Hn) as Ht.
  destruct (Forall2_lookup_l _ _ _ _ _ Ht Hr) as (slot & Hi & Hfit).
  unfold serve. rewrite Hr, Hi. cbn [mbind option_bind].
  destruct slot as [o|].
  - destruct (deliver_enabled n 0 r o Hr Hi Hfit) as [n' Hm].
    destruct (move_step _ _ _ Hm) as (ev & Hev & Hs).
    exists n'. split_and!; [done|by eapply net_reach_move|].
    eapply spec_settle_weight, step_simulation;
      [by eapply net_reachable_world|].
    cbn [event_of] in Hev. rewrite Hi in Hev. by injection Hev as <-.
  - destruct (net_round_trip_gen c0 n 0 r (approve r) Hn Hr Hi)
      as (w' & Hr1 & Hs & Hp).
    eexists. split_and!; [exact Hp|by eapply net_reachable_play|].
    by pose proof (step_simulation _ _ _ _ Hr1 Hs) as Hsim%spec_settle_weight.
Qed.

(** With fuel for the weight of the page, [serve_all] runs until nothing
    is pending. *)
Lemma serve_all_weight c0 approve fuel n :
  net_reachable c0 n → weight (abs (world n)) ≤ fuel →
  ∃ n', serve_all approve fuel n = Some n' ∧ pending (world n') = [] ∧
        net_reachable c0 n'.
Proof.
  revert n. induction fuel as [|fuel IH]; intros n Hn Hw.
  - exists n. split_and!; [done| |done]. apply abs_pending_nil, weight_zero. lia.
  - cbn [serve_all]. destruct (pending (world n)) as [|t ts] eqn:Hp.
    { by exists n. }
    destruct (serve_lowers c0 approve n (task_request t) Hn)
      as (n1 & -> & Hn1 & Hlt); [unfold in_flight; by rewrite Hp|].
    cbn [mbind option_bind]. apply IH; [done|lia].
Qed.

(** C21. The page on the chain comes to rest: from any reachable state,
    if the chain keeps processing the oldest request in flight and its
    answer is delivered, then whatever the user approves or declines,
    after at most twice as many rounds as there are pending tasks nothing
    is pending and no answer is on its way. *)
Theorem chain_quiesces c0 approve n :
  net_reachable c0 n →
  ∃ n', serve_all approve (2 * length (pending (world n))) n = Some n' ∧
        pending (world n') = [] ∧ inbox n' = [] ∧ net_reachable c0 n'.
Proof.
  intros Hn.
  destruct (serve_all_weight c0 approve (2 * length (pending (world n))) n Hn)
    as (n' & Hs & Hp & Hn').
  { etrans; [apply weight_bound|]. simpl. unfold in_flight.
    by rewrite !length_fmap. }
  exists n'. split_and!; [done..| |done].
  apply net_reachable_linked in Hn' as [Hl _]. rewrite Hp in Hl.
  by apply nil_length_inv.
Qed.

(** ** Every schedule comes to rest *)

(** An answer takes one request out of flight and starts [k] new ones;
    the weight pays for them. *)
Lemma settle_budget sol w i o w' :
  reachable sol w → step (EvSettle i o) w = Some w' →
  ∃ k, length (pending w') + 1 = length (pending w) + k ∧
       3 * weight (abs w') + 2 * k < 3 * weight (abs w).
Proof.
  intros Hr Hs. pose proof (step_simulation _ _ _ _ Hr Hs) as Hw%spec_settle_weight.
  destruct (step_sends _ _ _ Hs) as (rs & _ & Hf).
  pose proof Hs as (t & Ht & _)%bind_Some.
  assert (in_flight w !! i = Some (task_request t)) as Hi
    by (apply in_flight_lookup; eauto).
  exists (length rs). split.
  - rewrite <-!in_flight_length, Hf, length_app, length_delete by eauto.
    apply lookup_lt_Some in Hi. lia.
  - unfold weight in *. cbn [inFlight abs] in *. rewrite Hf in Hw |- *.
    rewrite fmap_app, sum_list_with_app, list_fmap_delete in Hw |- *.
    rewrite (sum_list_with_delete op_weight (operation_of <$> in_flight w) i
               (operation_of (task_request t))) in Hw |- *
      by (by rewrite list_lookup_fmap, Hi).
    pose proof (sum_list_with_lower op_weight (operation_of <$> rs) 1) as Hrs.
    rewrite length_fmap in Hrs.
    assert (op_weight (operation_of (task_request t)) ≤ 2)
      by (destruct (operation_of _); simpl; lia).
    specialize (Hrs (λ op, op_weight_pos op)). lia.
Qed.

Lemma budget_resize k box :
  sum_list_with slot_cost (resize k box)
  = sum_list_with slot_cost box + 2 * (k - length box).
Proof.
  unfold resize. rewrite sum_list_with_app, sum_list_with_replicate. simpl. lia.
Qed.

(** Every answering move lowers the budget. *)
Lemma move_budget c0 mv n n' :
  net_reachable c0 n → answering mv → move mv n = Some n' →
  budget n' < budget n.
Proof.
  intros Hn Ha Hm. pose proof (net_reachable_linked _ _ Hn) as [Hl _].
  unfold budget.
  destruct (move_moved _ _ _ Hm)
    as [mv' ev n1 Hev Hp|i approve r o c' Hr Hi Hp|i o w' Hi Hs| | |i e slot Hi Hslot];
    try done; cbn [world inbox].
  - by destruct mv'.
  - pose proof (sum_list_with_insert slot_cost _ _ _ (Some o) Hi) as Hs.
    change (weight (abs (set_solana _ ?w))) with (weight (abs w)).
    simpl in Hs. destruct o; simpl in Hs; lia.
  - destruct (settle_budget _ _ _ _ _ (net_reachable_world _ _ Hn) Hs)
      as (k & Hk & Hw).
    rewrite budget_resize, length_delete by eauto.
    rewrite (sum_list_with_delete slot_cost _ _ _ Hi). lia.
  - pose proof (sum_list_with_insert slot_cost _ _ _ (Some (Failed e)) Hi) as Hs.
    simpl in Hs. destruct slot as [[]|]; simpl in Hs; try lia.
    by destruct (Hslot e0).
Qed.

Lemma play_budget c0 mvs n n' :
  net_reachable c0 n → Forall answering mvs → play mvs n = Some n' →
  length mvs + budget n' ≤ budget n.
Proof.
  revert n. induction mvs as [|mv mvs IH]; intros n Hn Ha; simpl.
  - intros [= <-]. lia.
  - apply Forall_cons in Ha as [Hmv Ha]. intros (n1 & Hm & Hp)%bind_Some.
    pose proof (move_budget _ _ _ _ Hn Hmv Hm).
    pose proof (IH n1 (net_reach_move _ _ _ _ Hn Hm) Ha Hp). lia.
Qed.

Lemma budget_bound c0 n :
  net_reachable c0 n → budget n ≤ 8 * length (pending (world n)).
Proof.
  intros [Hl _]%net_reachable_linked. unfold budget.
  pose proof (weight_bound (abs (world n))) as Hw. simpl in Hw.
  unfold in_flight in Hw. rewrite !length_fmap in Hw.
  pose proof (sum_list_with_bound slot_cost (inbox n) 2) as Hs.
  rewrite Hl in Hs. specialize (Hs (λ slot, ltac:(by destruct slot as [[]|]; simpl; lia))).
  lia.
Qed.

(** While something is pending, some answering move is possible. *)
Lemma answer_enabled c0 n :
  net_reachable c0 n → pending (world n) ≠ [] →
  ∃ mv, answering mv ∧ is_Some (move mv n).
Proof.
  intros Hn Hp. destruct (pending (world n)) as [|t ts] eqn:Hpen; [done|].
  pose proof (net_reachable_typed _ _ Hn) as Ht.
  assert (in_flight (world n) !! 0 = Some (task_request t)) as Hr
    by (unfold in_flight; by rewrite Hpen).
  destruct (Forall2_lookup_l _ _ _ _ _ Ht Hr) as ([o|] & Hi & Hfit).
  - exists (MDeliver 0). split; [done|]. by eapply deliver_enabled.
  - exists (MProcess 0 true). split; [done|]. by eapply process_enabled.
Qed.

(** The answering moves are strongly normalising: there is no infinite
    schedule of answers. *)
Lemma answers_sn c0 n : sn (answer_step c0) n.
Proof.
  apply (wf_projected lt budget); [|apply lt_wf].
  intros n1 n2 (Hn & mv & Ha & Hm). by eapply move_budget.
Qed.

(** C22. Every schedule of answers comes to rest.  On the chain, in
    whatever order the chain processes the requests in flight and the
    network delivers or loses the answers, a schedule has at most eight
    moves for each task pending when it starts; and as long as something
    is pending, a further answering move is possible.  So every schedule
    that is continued as long as it can be ends with nothing pending. *)
Theorem every_schedule_ends c0 n mvs n' :
  net_reachable c0 n → Forall answering mvs → play mvs n = Some n' →
  length mvs ≤ 8 * length (pending (world n)) ∧
  (pending (world n') ≠ [] → ∃ mv, answering mv ∧ is_Some (move mv n')).
Proof.
  intros Hn Ha Hp. split.
  - pose proof (play_budget _ _ _ _ Hn Ha Hp). pose proof (budget_bound _ _ Hn).
    lia.
  - apply (answer_enabled c0). by eapply net_reachable_play.
Qed.

End closed.

(** * Worked examples *)

Section closed_examples.
#[local] Existing Instances demo_web3 demo_build.

(** The page of [n_typed] with the typed link submitted: one [addGif]
    in flight, not yet processed. *)
Definition n_submitted : Net :=
  default n_typed (move (MUI "submit" H_sendGif "") n_typed).

Lemma n_submitted_reachable : net_reachable demo_chain n_submitted.
Proof.
  apply (net_reach_move _ n_typed (MUI "submit" H_sendGif ""));
    [apply n_typed_reachable | by vm_compute].
Qed.

(** The user declines every request: the page of [n_submitted] comes to
    rest all the same. *)
Lemma chain_quiesces_witness :
  ∃ n', serve_all (λ _, false) (2 * length (pending (world n_submitted)))
          n_submitted = Some n' ∧
        pending (world n') = [] ∧ inbox n' = [] ∧
        net_reachable demo_chain n'.
Proof. apply (chain_quiesces demo_chain (λ _, false)), n_submitted_reachable. Defined.

(** The [addGif] of [n_submitted] is processed and confirmed, the
    confirmation is lost, and the failure is delivered: three answering
    moves, and nothing is pending. *)
Definition mvs_lost_answer : list Move :=
  [MProcess 0 true; MFail 0 (mkJsError "Error" "timeout"); MDeliver 0].

Lemma every_schedule_ends_witness :
  from_option
    (λ n', length mvs_lost_answer ≤ 8 * length (pending (world n_submitted)) ∧
           (pending (world n') ≠ [] →
            ∃ mv, answering mv ∧ is_Some (move mv n')))
    False (play mvs_lost_answer n_submitted).
Proof.
  destruct (play mvs_lost_answer n_submitted) as [n'|] eqn:Hp;
    [|by vm_compute in Hp].
  cbn [from_option].
  apply (every_schedule_ends demo_chain n_submitted mvs_lost_answer n');
    [apply n_submitted_reachable | repeat constructor | exact Hp].
Defined.

End closed_examples.
