(* ===== verification/Outage.v ===== *)
(** * Outage: a list that is lost stays lost

    [getGifList] reads every failed fetch as "the storage account does not
    exist" and sets the list to [null]; the page then offers the
    initialisation button and nothing else.  When the account does exist,
    because the fetch failed for another reason or because another visitor
    created the account in the meantime, that button cannot help: the
    program refuses to create the account twice, [createGifAccount] logs
    the refusal and sends nothing, and no other event of the page sends a
    fetch.  The page is [lost]: this file shows that every move keeps it
    so ([move_lost]), hence that the list is never shown again, whatever
    the user, the chain and the network do ([lost_list_stays_lost]).
    Only a reload, which is a new [net_initial], recovers it. *)

From S2P Require Import Prelude Js Async Remote Config Fixture Handlers Render EventLoop Spec Accounting Scenarios Safety Reactions Refinement WellFormed Chain Journeys.

(** A request to create the storage account. *)
Definition is_initialise (r : Request) : Prop :=
  if r is ReqStartStuffOff _ _ _ then True else False.

(** A slot that holds no success. *)
Definition no_news (slot : option Outcome) : Prop :=
  match slot with
  | None | Some (Failed _) => True
  | Some _ => False
  end.

#[export] Instance is_initialise_dec r : Decision (is_initialise r).
Proof. destruct r; apply _. Defined.

#[export] Instance no_news_dec slot : Decision (no_news slot).
Proof. destruct slot as [[]|]; apply _. Defined.

(** The page has a session and shows the initialisation button, the load
    event has fired, the storage account exists, and nothing but
    initialisations is in flight, none of them answered with a success. *)
Record lost (n : Net) : Prop := mk_lost {
  lost_list : gifList (app (world n)) = None;
  lost_session : truthy (walletAddress (app (world n))) = true;
  lost_loaded : loaded (world n) = true;
  lost_storage : is_Some (storage (chain n));
  lost_flight : Forall is_initialise (in_flight (world n));
  lost_inbox : Forall no_news (inbox n)
}.

#[export] Instance lost_dec n : Decision (lost n).
Proof.
  refine (cast_if (decide (gifList (app (world n)) = None ∧
                           truthy (walletAddress (app (world n))) = true ∧
                           loaded (world n) = true ∧
                           is_Some (storage (chain n)) ∧
                           Forall is_initialise (in_flight (world n)) ∧
                           Forall no_news (inbox n))));
    [destruct_and!; by split | intros []; tauto].
Defined.

Section outage.
Context {web3 : Web3} {build : Build}.
Implicit Types (n : Net) (c : Chain) (w : World) (r : Request) (o : Outcome).

(** ** What the page does when it is lost *)

Lemma dispatch_loaded p w : loaded (dispatch p w) = loaded w.
Proof. unfold dispatch. by rewrite commit_loaded, exec_loaded. Qed.

(** The load event fires once. *)
Lemma step_loaded ev w w' :
  step ev w = Some w' → loaded w = true → loaded w' = true.
Proof.
  intros Hs Hl. destruct ev as [|event h value|i o|s|]; cbn [step] in Hs.
  - by rewrite Hl, andb_false_r in Hs.
  - apply step_ui_offered in Hs as (_ & _ & ->). by rewrite dispatch_loaded.
  - apply bind_Some in Hs as (t & _ & (p & _ & [= <-])%bind_Some).
    by rewrite dispatch_loaded.
  - by injection Hs as <-.
  - case_match; [|done]. by injection Hs as <-.
Qed.

(** The only control a lost page offers is the initialisation button. *)
Lemma lost_offers s event h :
  gifList s = None → truthy (walletAddress s) = true →
  (event, h) ∈ listeners (App s) → event = "click" ∧ h = H_createGifAccount.
Proof.
  intros Hg Hw [(_ & _ & ?)|[(-> & -> & _)|[(_ & _ & _ & [? ?])|(_ & _ & _ & [? ?])]]]
    %listeners_App_cases; [congruence|done|congruence..].
Qed.

(** An event of the user or of the window, on a lost page: the state is
    left as it is, and only initialisations are sent. *)
Lemma lost_page_step w ev w' wallet :
  plain ev → solana w = Some wallet → gifList (app w) = None →
  truthy (walletAddress (app w)) = true → loaded w = true →
  step ev w = Some w' →
  app w' = app w ∧
  ∃ rs, in_flight w' = in_flight w ++ rs ∧ Forall is_initialise rs.
Proof.
  intros Hev Hsol Hg Hw Hl Hs.
  destruct ev as [|event h value|i o|s|]; [| |done..|].
  - cbn [step] in Hs. by rewrite Hl, andb_false_r in Hs.
  - pose proof Hs as (_ & [-> ->]%(lost_offers _ _ _ Hg Hw) & _)%step_ui_offered.
    pose proof (createGifAccount_clicked _ _ _ _ Hs Hsol) as Hv.
    split; [by apply visible_app in Hv|]. eexists.
    split; [by apply visible_in_flight in Hv|by repeat constructor].
  - cbn [step] in Hs. case_match; [|done]. injection Hs as <-.
    rewrite unmount_eq. split; [done|]. exists []. by rewrite app_nil_r.
Qed.

(** The program does not create the storage account twice. *)
Lemma process_initialise_refused r approve c :
  is_initialise r → is_Some (storage c) →
  process r approve c = (Failed refused, c).
Proof.
  destruct r; [done..| |done]. intros _ [l Hl]. cbn [process].
  rewrite (bool_decide_eq_false_2 (storage c = None)) by (by rewrite Hl).
  by rewrite andb_false_r.
Qed.

(** A refused initialisation is answered: the request is out of flight,
    and nothing else has changed. *)
Lemma lost_deliver sol w i r e w' :
  reachable sol w → in_flight w !! i = Some r → is_initialise r →
  step (EvSettle i (Failed e)) w = Some w' →
  app w' = app w ∧ in_flight w' = delete i (in_flight w).
Proof.
  intros Hr (t & Ht & Hq)%in_flight_lookup Hi Hs. destruct r; try done.
  pose proof (startStuffOff_settled _ _ _ _ _ _ _ _ _ Hr Ht Hq Hs) as Hv.
  cbn [transaction_settled] in Hv.
  split; [by apply visible_app in Hv|by apply visible_in_flight in Hv].
Qed.

(** ** Every move keeps the page lost *)

Lemma resize_no_news k box : Forall no_news box → Forall no_news (resize k box).
Proof.
  intros Hb. unfold resize. apply Forall_app. split; [done|].
  by apply Forall_replicate.
Qed.

Lemma page_move_lost c0 ev n n' :
  plain ev → net_reachable c0 n → lost n → page_move ev n = Some n' → lost n'.
Proof.
  intros Hev [_ Hsol]%net_reachable_linked [] (Hs & Hc & Hi)%page_move_inv.
  destruct (lost_page_step _ _ _ _ Hev Hsol lost_list0 lost_session0
              lost_loaded0 Hs) as (Ha & rs & Hf & Hrs).
  split; rewrite ?Ha, ?Hc, ?Hi, ?Hf; try done.
  - by eapply step_loaded.
  - by apply Forall_app.
  - by apply resize_no_news.
Qed.

Lemma process_lost n i r approve :
  lost n → in_flight (world n) !! i = Some r →
  let (o, c') := process r approve (chain n) in
  lost (mkNet (set_solana (Some (wallet_object c')) (world n)) c'
          (<[i := Some o]> (inbox n))).
Proof.
  intros [] Hr.
  rewrite process_initialise_refused; [|by eapply Forall_lookup_1|done].
  split; try done. by apply Forall_insert.
Qed.

Lemma deliver_lost c0 n i o w' :
  net_reachable c0 n → lost n → inbox n !! i = Some (Some o) →
  step (EvSettle i o) (world n) = Some w' →
  lost (mkNet w' (chain n) (resize (length (pending w')) (delete i (inbox n)))).
Proof.
  intros Hn [] Hi Hs.
  pose proof (Forall_lookup_1 _ _ _ _ lost_inbox0 Hi) as Ho.
  destruct o as [| | |e]; try done.
  pose proof (net_reachable_linked _ _ Hn) as [Hl _].
  destruct (lookup_lt_is_Some_2 (in_flight (world n)) i) as [r Hr].
  { rewrite in_flight_length, <-Hl. by eapply lookup_lt_Some. }
  destruct (lost_deliver _ _ _ _ _ _ (net_reachable_world _ _ Hn) Hr
              (Forall_lookup_1 _ _ _ _ lost_flight0 Hr) Hs) as [Ha Hf].
  split; cbn [world chain inbox]; rewrite ?Ha, ?Hf; try done.
  - by eapply step_loaded.
  - by apply Forall_delete.
  - by apply resize_no_news, Forall_delete.
Qed.

Lemma move_lost c0 mv n n' :
  net_reachable c0 n → lost n → move mv n = Some n' → lost n'.
Proof.
  intros Hn Hlost.
  intros [mv' ev n1 Hev%page_event_plain Hp|i approve r o c' Hr Hi Hp
         |i o w' Hi Hs|item l Hl|Hl|i e slot Hi Hslot]%move_moved.
  - by eapply page_move_lost.
  - pose proof (process_lost n i r approve Hlost Hr) as Hpl.
    by rewrite Hp in Hpl.
  - by eapply deliver_lost.
  - by destruct Hlost.
  - destruct Hlost as [_ _ _ [? ?] _ _]. congruence.
  - destruct Hlost. split; try done. by apply Forall_insert.
Qed.

Lemma play_lost c0 mvs n n' :
  net_reachable c0 n → lost n → play mvs n = Some n' → lost n'.
Proof.
  revert n. induction mvs as [|mv mvs IH]; intros n Hn Hlost; simpl.
  - by intros [= <-].
  - intros (n1 & Hm & Hp)%bind_Some.
    eapply IH; [by eapply net_reach_move|by eapply move_lost|done].
Qed.

(** C8. A list that is lost stays lost.  On the chain, take a page with a
    session whose load event has fired, showing the initialisation button
    with nothing in flight, while the storage account exists (a fetch
    failed on the way, or another visitor created the account first).
    Then whatever the user, the chain, the network and the other visitors
    do from there, the page never shows the list again: it offers the
    initialisation button and nothing else, every request in flight is
    an initialisation (no fetch is sent), and no answer on its way is a
    success. *)
Theorem lost_list_stays_lost c0 n mvs n' :
  net_reachable c0 n →
  gifList (app (world n)) = None →
  truthy (walletAddress (app (world n))) = true →
  loaded (world n) = true →
  is_Some (storage (chain n)) →
  pending (world n) = [] →
  play mvs n = Some n' →
  gifList (app (world n')) = None ∧
  listeners (App (app (world n'))) = [("click", H_createGifAccount)] ∧
  is_Some (storage (chain n')) ∧
  Forall is_initialise (in_flight (world n')) ∧
  Forall no_news (inbox n').
Proof.
  intros Hn Hg Hw Hl Hs Hp Hplay.
  pose proof (net_reachable_linked _ _ Hn) as [Hlen _].
  rewrite Hp in Hlen. apply nil_length_inv in Hlen.
  destruct (play_lost c0 mvs n n' Hn) as []; [|done|].
  { split; try done; [unfold in_flight; by rewrite Hp|by rewrite Hlen]. }
  split_and!; [done| |done..].
  by rewrite listeners_App, lost_session0, lost_list0.
Qed.

End outage.

(** * Worked examples *)

Section outage_examples.
#[local] Existing Instances demo_web3 demo_build.

(** The page opens on [fresh_chain], where nobody has created the storage
    account: the first fetch is answered "account does not exist".
    Before the answer arrives another visitor creates the account. *)
Definition mvs_late : list Move :=
  [MLoad; MProcess 0 false; MDeliver 0; MProcess 0 false; MCreate; MDeliver 0].

Definition n_late : Net :=
  default (net_initial fresh_chain) (play mvs_late (net_initial fresh_chain)).

Lemma n_late_reachable : net_reachable fresh_chain n_late.
Proof.
  apply (net_reachable_play _ mvs_late (net_initial fresh_chain));
    [apply net_reach_initial | by vm_compute].
Qed.

(** The user clicks the button and approves the transaction; the other
    visitor submits a link.  The page still shows the button. *)
Definition mvs_retry : list Move :=
  [MUI "click" H_createGifAccount ""; MProcess 0 true; MOther gif2; MDeliver 0].

Lemma lost_list_stays_lost_witness :
  from_option
    (λ n', gifList (app (world n')) = None ∧
           listeners (App (app (world n'))) = [("click", H_createGifAccount)] ∧
           is_Some (storage (chain n')) ∧
           Forall is_initialise (in_flight (world n')) ∧
           Forall no_news (inbox n'))
    False
    (play mvs_retry n_late).
Proof.
  destruct (play mvs_retry n_late) as [n'|] eqn:Hp; [|by vm_compute in Hp].
  cbn [from_option].
  apply (lost_list_stays_lost fresh_chain n_late mvs_retry n' n_late_reachable);
    [by vm_compute..| |by vm_compute|exact Hp].
  vm_compute. eauto.
Defined.

End outage_examples.
