(* ===== verification/Shared.v ===== *)
(** * Shared: two visitors on one program

    The program holds one list for every visitor of the site.  [Chain]
    has one page and lets the others appear as moves [MOther] and
    [MCreate] of nobody in particular.  This file puts a second page
    beside the first, each with a wallet of its own, both on the same
    storage account:
    - a [Duo] is the two pages, each as a [Net] with its own wallet and
      inbox; the storage account is one, held in step in both;
    - [duo_move] lets one visitor make a move of [Chain.move]; the other
      then observes the storage account as the move left it ([observe]);
    - [news] is what a change of the storage account amounts to for a
      page that did not cause it: moves of other visitors, none when the
      account did not change.
    Every move of the pair is a move of the visitor who makes it and a
    sequence of [news] for the other ([duo_move_inv]); so each page of a
    reachable pair is a page [Chain] reaches ([duo_reachable_visitor]),
    and every theorem about one page on the chain holds of both.  In the
    other direction every schedule of one page alone is a schedule of the
    pair ([duo_play_lift]).  On top of that:
    - [visitors_agree]: the lists two visitors see never contradict each
      other, one is a prefix of the other;
    - [visitors_independent]: a move that touches only a visitor's own
      page ([local]) and any move of the other visitor give the same
      state in either order;
    - [neighbour_is_shown]: when two visitors submit one after the
      other, the second is shown both entries in the order the program
      took them, and the first still shows the list without the entry
      of the second: nothing tells a page that the list has grown;
    - [duo_schedule_ends]: the answers to both pages, interleaved in any
      way, are a finite schedule, bounded by the sum of the budgets of
      [Closed]. *)

From S2P Require Import Prelude Js Async Remote Config Fixture Handlers Render EventLoop Spec Accounting Scenarios Safety Reactions Refinement WellFormed Chain Journeys Progress Closed.

(** ** The pair *)

Inductive Visitor := Near | Far.

#[export] Instance Visitor_eq_dec : EqDecision Visitor.
Proof. solve_decision. Defined.

Definition other (v : Visitor) : Visitor :=
  match v with Near => Far | Far => Near end.

Record Duo := mkDuo { near : Net; far : Net }.

Definition visitor (v : Visitor) (d : Duo) : Net :=
  match v with Near => near d | Far => far d end.

(** The page sees the storage account as somebody else left it: its
    wallet, its world and its inbox are its own. *)
Definition observe (s : option (list GifItem)) (n : Net) : Net :=
  mkNet (world n)
    (mkChain (wallet_key (chain n)) (trusted (chain n)) (connected (chain n))
       (storage_address (chain n)) s)
    (inbox n).

(** The pair after visitor [v] has moved to [n']. *)
Definition place (v : Visitor) (n' : Net) (d : Duo) : Duo :=
  match v with
  | Near => mkDuo n' (observe (storage (chain n')) (far d))
  | Far => mkDuo (observe (storage (chain n')) (near d)) n'
  end.

(** What a page is told when the storage account changes under it. *)
Definition news (before after : option (list GifItem)) : list Move :=
  match before, after with
  | None, Some l => MCreate :: (MOther <$> l)
  | Some l, Some l' => MOther <$> drop (length l) l'
  | _, None => []
  end.

(** The storage account is created once and only appended to. *)
Definition grows (before after : option (list GifItem)) : Prop :=
  match before, after with
  | None, _ => True
  | Some l, Some l' => l `prefix_of` l'
  | Some _, None => False
  end.

(** Both wallets are on the same program. *)
Definition same_program (c1 c2 : Chain) : Prop :=
  storage_address c1 = storage_address c2 ∧ storage c1 = storage c2.

Definition synced (d : Duo) : Prop :=
  same_program (chain (near d)) (chain (far d)).

#[export] Instance grows_dec before after : Decision (grows before after).
Proof. destruct before, after; simpl; apply _. Defined.

#[export] Instance same_program_dec c1 c2 : Decision (same_program c1 c2).
Proof. unfold same_program. apply _. Defined.

#[export] Instance synced_dec d : Decision (synced d).
Proof. unfold synced. apply _. Defined.

Section duo.
Context {web3 : Web3} {build : Build}.

Definition duo_move (v : Visitor) (mv : Move) (d : Duo) : option Duo :=
  n' ← move mv (visitor v d); Some (place v n' d).

Fixpoint duo_play (sch : list (Visitor * Move)) (d : Duo) : option Duo :=
  match sch with
  | [] => Some d
  | (v, mv) :: sch => duo_move v mv d ≫= duo_play sch
  end.

Definition duo_initial (c1 c2 : Chain) : Duo :=
  mkDuo (net_initial c1) (net_initial c2).

Inductive duo_reachable (c1 c2 : Chain) : Duo → Prop :=
| duo_reach_initial : duo_reachable c1 c2 (duo_initial c1 c2)
| duo_reach_move d v mv d' :
    duo_reachable c1 c2 d → duo_move v mv d = Some d' →
    duo_reachable c1 c2 d'.

(** The moves of one visitor, as a schedule of the pair. *)
Definition alone (v : Visitor) (mvs : list Move) : list (Visitor * Move) :=
  pair v <$> mvs.

(** The journey of a submission by visitor [v] from [d]. *)
Definition publish (v : Visitor) (value : string) (d : Duo)
  : list (Visitor * Move) :=
  let k := length (pending (world (visitor v d))) in
  alone v [MUI "submit" H_sendGif value; MProcess k true; MDeliver k;
           MProcess k true; MDeliver k].

(** The moves that touch nothing but the visitor's own page and inbox:
    events of the page, deliveries and losses. *)
Definition local (mv : Move) : bool :=
  match mv with
  | MLoad | MUI _ _ _ | MDeliver _ | MUnmount | MFail _ _ => true
  | MProcess _ _ | MOther _ | MCreate => false
  end.

(** The page is ready for a submission. *)
Record ready (n : Net) : Prop := mkReady {
  ready_mounted : mounted (world n) = true;
  ready_form : ("submit", H_sendGif) ∈ listeners (App (app (world n)));
  ready_draft : inputValue (app (world n)) ≠ "";
  ready_connected : connected (chain n) = true;
  ready_address : storage_address (chain n) = kp_publicKey baseAccount
}.

End duo.

(** * Each visitor is a page on the chain *)

Section duo_facts.
Context {web3 : Web3} {build : Build}.
Implicit Types (n m : Net) (c : Chain) (d : Duo) (v : Visitor) (mv : Move)
  (s : option (list GifItem)) (sch : list (Visitor * Move)).

Lemma observe_same n : observe (storage (chain n)) n = n.
Proof. by destruct n as [? [] ?]. Qed.

Lemma storage_observe s n : storage (chain (observe s n)) = s.
Proof. done. Qed.

Lemma observe_observe s s' n : observe s' (observe s n) = observe s' n.
Proof. done. Qed.

Lemma visitor_place v n' d : visitor v (place v n' d) = n'.
Proof. by destruct v. Qed.

Lemma visitor_place_other v n' d :
  visitor (other v) (place v n' d) = observe (storage (chain n')) (visitor (other v) d).
Proof. by destruct v. Qed.

Lemma grows_refl s : grows s s.
Proof. destruct s; simpl; [reflexivity|done]. Qed.

(** ** The news are moves *)

Lemma play_others k n l :
  storage (chain n) = Some l →
  play (MOther <$> k) n = Some (observe (Some (l ++ k)) n).
Proof.
  revert n l. induction k as [|item k IH]; intros n l Hl.
  - by rewrite app_nil_r, <-Hl, observe_same.
  - rewrite fmap_cons.
    rewrite (play_cons _ _ _
               (mkNet (world n) (with_storage (l ++ [item]) (chain n)) (inbox n)))
      by (cbn [move]; by rewrite Hl).
    rewrite (IH _ (l ++ [item])) by done. by rewrite <-app_assoc.
Qed.

Lemma play_news s s' n :
  storage (chain n) = s → grows s s' → play (news s s') n = Some (observe s' n).
Proof.
  intros Hs Hg. destruct s as [l|], s' as [l'|]; simpl in *; try done.
  - destruct Hg as [k ->]. rewrite drop_app_length. by apply play_others.
  - rewrite Hs. cbn [mbind option_bind].
    by rewrite (play_others l' _ []).
  - by rewrite <-Hs, observe_same.
Qed.

(** ** What a move does to the storage account *)

Lemma move_grows mv n n' :
  move mv n = Some n' →
  grows (storage (chain n)) (storage (chain n')) ∧
  storage_address (chain n') = storage_address (chain n).
Proof.
  intros [mv' ev n1 Hev (_ & -> & _)%page_move_inv|i approve r o c' Hr Hi Hp
         |i o w' Hi Hst|item l Hl|Hl|i e slot Hi Hslot]%move_moved;
    cbn [chain]; rewrite ?Hl; try (split; [apply grows_refl|done]).
  - pose proof (process_inv r approve (chain n)) as Hc. rewrite Hp in Hc.
    cbn [snd] in Hc. destruct Hc as [->|[->|[[Hs ->]|(l & link & Hs & ->)]]]; simpl;
      rewrite ?Hs; split; try done; try apply grows_refl.
    by apply prefix_app_r.
  - split; [by apply prefix_app_r|done].
  - done.
Qed.

(** ** A move of the pair, seen from each side *)

Lemma synced_sym v d :
  synced d →
  same_program (chain (visitor v d)) (chain (visitor (other v) d)).
Proof. intros [? ?]. by destruct v. Qed.

Lemma duo_move_inv v mv d d' :
  synced d → duo_move v mv d = Some d' →
  move mv (visitor v d) = Some (visitor v d') ∧
  play (news (storage (chain (visitor v d))) (storage (chain (visitor v d'))))
    (visitor (other v) d) = Some (visitor (other v) d') ∧
  synced d'.
Proof.
  intros Hd (n' & Hm & [= <-])%bind_Some.
  destruct (move_grows _ _ _ Hm) as [Hg Ha].
  destruct (synced_sym v d Hd) as [Hsa Hss].
  rewrite visitor_place, visitor_place_other. split_and!; [done| |].
  - apply play_news; [by rewrite Hss|done].
  - destruct Hd as [Hda _]. destruct v; (split; simpl in *; [|done]);
      congruence.
Qed.

Lemma duo_initial_synced c1 c2 :
  same_program c1 c2 → synced (duo_initial c1 c2).
Proof. done. Qed.

(** Each page of a reachable pair is a page the chain reaches with the
    other visitors left anonymous, and the two hold the same account. *)
Lemma duo_reachable_visitor c1 c2 d :
  same_program c1 c2 → duo_reachable c1 c2 d →
  net_reachable c1 (near d) ∧ net_reachable c2 (far d) ∧ synced d.
Proof.
  intros Hc. induction 1 as [|d v mv d' _ (Hn & Hf & Hs) Hm].
  { split_and!; [apply net_reach_initial..|done]. }
  destruct (duo_move_inv _ _ _ _ Hs Hm) as (Hv & Ho & Hs').
  split_and!; [| |done]; destruct v; simpl in *;
    first [by eapply net_reach_move | by eapply net_reachable_play].
Qed.

(** ** One visitor alone *)

Lemma duo_play_cons v mv sch d d1 :
  duo_move v mv d = Some d1 → duo_play ((v, mv) :: sch) d = duo_play sch d1.
Proof. intros Hm. cbn [duo_play]. by rewrite Hm. Qed.

Lemma duo_play_app sch1 sch2 d :
  duo_play (sch1 ++ sch2) d = duo_play sch1 d ≫= duo_play sch2.
Proof.
  revert d. induction sch1 as [|[v mv] sch1 IH]; intros d; simpl; [done|].
  destruct (duo_move v mv d); simpl; [apply IH | done].
Qed.

Lemma duo_reachable_play c1 c2 sch d d' :
  duo_reachable c1 c2 d → duo_play sch d = Some d' → duo_reachable c1 c2 d'.
Proof.
  revert d. induction sch as [|[v mv] sch IH]; intros d Hd; simpl.
  - by intros [= <-].
  - intros (d1 & Hm & Hp)%bind_Some. eapply IH; [|done].
    by eapply duo_reach_move.
Qed.

Lemma place_same v d : synced d → place v (visitor v d) d = d.
Proof.
  intros [_ Hs]. destruct d as [n m], v; simpl in *.
  - by rewrite Hs, observe_same.
  - by rewrite <-Hs, observe_same.
Qed.

Lemma place_place v n1 n2 d : place v n2 (place v n1 d) = place v n2 d.
Proof. by destruct v. Qed.

Lemma duo_play_place v mvs n n' d :
  play mvs n = Some n' →
  duo_play (alone v mvs) (place v n d) = Some (place v n' d).
Proof.
  revert n. induction mvs as [|mv mvs IH]; intros n; simpl.
  - by intros [= ->].
  - intros (n1 & Hm & Hp)%bind_Some. unfold duo_move.
    rewrite visitor_place, Hm. simpl. rewrite place_place. by apply IH.
Qed.

(** Every schedule of one page on the chain is a schedule of the pair,
    the other page watching the account. *)
Lemma duo_play_lift v mvs d n' :
  synced d → play mvs (visitor v d) = Some n' →
  duo_play (alone v mvs) d = Some (place v n' d).
Proof.
  intros Hd Hp%(duo_play_place v _ _ _ d). by rewrite place_same in Hp.
Qed.

(** ** Independence *)

(** A local move does not look at the storage account and leaves the
    chain as it is. *)
Lemma move_observe mv s n :
  local mv → move mv (observe s n) = observe s <$> move mv n.
Proof.
  destruct mv as [|event h value|i approve|i| |item| |i e]; try done;
    intros _; cbn [move]; unfold page_move; cbn [world inbox observe].
  1,2,4: by destruct (step _ (world n)).
  - destruct (inbox n !! i) as [[o|]|]; try done. cbn [mbind option_bind].
    by destruct (step _ (world n)).
  - by destruct (inbox n !! i) as [[[]|]|].
Qed.

Lemma move_local_chain mv n n' :
  local mv → move mv n = Some n' → chain n' = chain n.
Proof.
  intros Hl Hm%move_moved.
  by destruct Hm as [mv' ev n1 Hev (_ & -> & _)%page_move_inv| | | | |].
Qed.

(** ** Coming to rest *)

(** What the answers to both pages may still cost. *)
Definition duo_budget d : nat := budget (near d) + budget (far d).

Lemma duo_move_budget c1 c2 v mv d d' :
  same_program c1 c2 → duo_reachable c1 c2 d →
  answering mv → duo_move v mv d = Some d' → duo_budget d' < duo_budget d.
Proof.
  intros Hc (Hn & Hf & _)%duo_reachable_visitor Ha
    (n' & Hm & [= <-])%bind_Some; [|done].
  unfold duo_budget.
  destruct v; cbn [visitor place near far] in *;
    change (budget (observe ?s ?n)) with (budget n);
    [pose proof (move_budget _ _ _ _ Hn Ha Hm)
    |pose proof (move_budget _ _ _ _ Hf Ha Hm)]; lia.
Qed.

(** C40. The answers to two pages are a bounded schedule: from a reachable
    state of the pair, every schedule of answering moves (the program
    processing a request of either page, the network delivering or
    losing an answer), in any order and interleaving, has at most eight
    moves for each task pending on either page when it starts, although
    an answer may make its page send a further request. *)
Theorem duo_schedule_ends c1 c2 sch d d' :
  same_program c1 c2 → duo_reachable c1 c2 d →
  Forall (λ vm, answering vm.2) sch → duo_play sch d = Some d' →
  length sch ≤ 8 * (length (pending (world (near d)))
                    + length (pending (world (far d)))).
Proof.
  intros Hc Hd Ha Hp.
  destruct (duo_reachable_visitor _ _ _ Hc Hd) as (Hn%budget_bound & Hf%budget_bound & _).
  enough (length sch + duo_budget d' ≤ duo_budget d)
    by (unfold duo_budget in *; lia).
  clear Hn Hf. revert d Hd Hp.
  induction Ha as [|[v mv] sch Hmv _ IH]; intros d Hd; simpl.
  - intros [= <-]. lia.
  - intros (d1 & Hm & Hp)%bind_Some.
    pose proof (duo_move_budget _ _ _ _ _ _ Hc Hd Hmv Hm).
    pose proof (IH d1 (duo_reach_move _ _ _ _ _ _ Hd Hm) Hp). lia.
Qed.

(** ** What two visitors see *)

(** C16. The lists two visitors see never contradict each other: in every
    reachable state of the pair both are prefixes of the list the
    program holds, so one of them is a prefix of the other. *)
Theorem visitors_agree c1 c2 d l1 l2 :
  same_program c1 c2 → duo_reachable c1 c2 d →
  gifList (app (world (near d))) = Some l1 →
  gifList (app (world (far d))) = Some l2 →
  (l1 `prefix_of` l2 ∨ l2 `prefix_of` l1) ∧
  l1 `prefix_of` stored (chain (near d)) ∧
  l2 `prefix_of` stored (chain (near d)).
Proof.
  intros Hc (Hn & Hf & _ & Hs)%duo_reachable_visitor Hl1 Hl2; [|done].
  apply net_reachable_consistent in Hn as [Hn _], Hf as [Hf _].
  apply Hn in Hl1. apply Hf in Hl2. unfold stored in *. rewrite <-Hs in Hl2.
  split_and!; [by eapply prefix_weak_total|done..].
Qed.

(** Watching the account does not make a page less ready. *)
Lemma ready_observe s n : ready n → ready (observe s n).
Proof. intros []. by split. Qed.

(** The state a visitor's own journey leaves the pair in. *)
Lemma duo_publish c1 c2 v d value l0 :
  same_program c1 c2 → duo_reachable c1 c2 d →
  ready (visitor v d) → storage (chain (visitor v d)) = Some l0 →
  let n := visitor v d in
  let l := l0 ++ [mkGifItem (inputValue (app (world n))) (wallet_key (chain n))] in
  ∃ n', duo_play (publish v value d) d = Some (place v n' d) ∧
        storage (chain n') = Some l ∧ gifList (app (world n')) = Some l.
Proof.
  intros Hc Hd [Hm Ho Hv Hcn Ha] Hs n l.
  destruct (duo_reachable_visitor _ _ _ Hc Hd) as (Hn & Hf & Hsy).
  assert (∃ c0, net_reachable c0 n) as [c0 Hr] by (destruct v; eauto).
  destruct (net_publish c0 n value l0 Hr Hm Ho Hv Hcn Hs Ha)
    as (n' & Hp & Hs' & Hg & _).
  exists n'. split_and!; [|done..]. by apply duo_play_lift.
Qed.

(** What a visitor does on their own page and what the other visitor
    does are independent: a local move of one and any move of the other
    lead to the same state of the pair in either order, and are refused
    in one order when they are refused in the other. *)
Theorem visitors_independent v mv1 mv2 d :
  synced d → local mv1 →
  duo_move v mv1 d ≫= duo_move (other v) mv2
  = duo_move (other v) mv2 d ≫= duo_move v mv1.
Proof.
  intros [_ Hs] Hl. unfold duo_move.
  destruct d as [n m], v; cbn [visitor other place near far] in *;
    [pose (a := n); pose (b := m) | pose (a := m); pose (b := n)];
    (destruct (move mv1 a) as [a1|] eqn:H1; subst a b; rewrite H1;
     cbn [mbind option_bind near far];
     [rewrite (move_local_chain _ _ _ Hl H1);
      first [rewrite Hs, observe_same | rewrite <-Hs, observe_same]|]);
    (destruct (move mv2 _) as [b2|]; [|done]);
    cbn [mbind option_bind near far place]; rewrite move_observe, H1 by done;
    [|done| |done]; cbn [fmap option_fmap option_map mbind option_bind];
    by rewrite storage_observe, observe_same.
Qed.

(** C17. When two visitors submit one after the other, the program holds
    both entries in the order it took them and the second visitor is
    shown both; the first is still shown the list as it was when their
    own entry came back, without the entry of the second. *)
Theorem neighbour_is_shown c1 c2 d value1 value2 l0 :
  same_program c1 c2 → duo_reachable c1 c2 d →
  ready (near d) → ready (far d) → storage (chain (near d)) = Some l0 →
  let first := mkGifItem (inputValue (app (world (near d))))
                 (wallet_key (chain (near d))) in
  let second := mkGifItem (inputValue (app (world (far d))))
                  (wallet_key (chain (far d))) in
  ∃ d', duo_play (publish Near value1 d ++ publish Far value2 d) d = Some d' ∧
        storage (chain (near d')) = Some (l0 ++ [first; second]) ∧
        storage (chain (far d')) = Some (l0 ++ [first; second]) ∧
        gifList (app (world (far d'))) = Some (l0 ++ [first; second]) ∧
        gifList (app (world (near d'))) = Some (l0 ++ [first]).
Proof.
  intros Hc Hd Hn Hf Hs first second.
  destruct (duo_publish c1 c2 Near d value1 l0 Hc Hd Hn Hs)
    as (n1 & Hp1 & Hs1 & Hg1).
  pose proof (duo_reachable_play _ _ _ _ _ Hd Hp1) as Hd1.
  destruct (duo_publish c1 c2 Far _ value2 _ Hc Hd1
              (ready_observe (storage (chain n1)) _ Hf) Hs1)
    as (n2 & Hp2 & Hs2 & Hg2).
  exists (place Far n2 (place Near n1 d)).
  rewrite duo_play_app, Hp1. rewrite <-app_assoc in Hs2, Hg2.
  by split_and!.
Qed.

End duo_facts.

(** * Worked examples *)

Section duo_examples.
#[local] Existing Instances demo_web3 demo_build.

(** The wallet of [bob], on the program of [demo_chain]. *)
Definition bob_chain : Chain := mkChain bob true false demo_key (Some [gif1]).

(** A visitor opens the page and types a link. *)
Definition opens (link : string) : list Move :=
  [MLoad; MProcess 0 false; MDeliver 0; MProcess 0 false; MDeliver 0;
   MUI "change" H_onInputChange link].

Definition sch_open : list (Visitor * Move) :=
  alone Near (opens "https://x/a.gif") ++ alone Far (opens "https://x/b.gif").

Definition d_open : Duo :=
  default (duo_initial demo_chain bob_chain)
    (duo_play sch_open (duo_initial demo_chain bob_chain)).

Definition gif_a : GifItem := mkGifItem "https://x/a.gif" alice.
Definition gif_b : GifItem := mkGifItem "https://x/b.gif" bob.

Definition d_told : Duo :=
  default d_open
    (duo_play (publish Near "" d_open ++ publish Far "" d_open) d_open).

Lemma demo_same_program : same_program demo_chain bob_chain.
Proof. done. Qed.

Lemma d_open_reachable : duo_reachable demo_chain bob_chain d_open.
Proof.
  apply (duo_reachable_play _ _ sch_open (duo_initial demo_chain bob_chain));
    [apply duo_reach_initial | by vm_compute].
Qed.

Lemma d_open_ready_near : ready (near d_open).
Proof. split; vm_compute; by repeat constructor. Qed.

Lemma d_open_ready_far : ready (far d_open).
Proof. split; vm_compute; by repeat constructor. Qed.

Lemma d_told_reachable : duo_reachable demo_chain bob_chain d_told.
Proof.
  apply (duo_reachable_play _ _ (publish Near "" d_open ++ publish Far "" d_open)
           d_open); [apply d_open_reachable | by vm_compute].
Qed.

(** [bob] has submitted his link; the program has not seen it yet. *)
Definition d_busy : Duo :=
  default d_open (duo_move Far (MUI "submit" H_sendGif "") d_open).

Lemma d_busy_synced : synced d_busy.
Proof. by vm_compute. Qed.

(** [alice] submitting hers and the program taking [bob]'s, in either
    order. *)
Lemma visitors_independent_witness :
  duo_move Near (MUI "submit" H_sendGif "") d_busy
    ≫= duo_move Far (MProcess 0 true)
  = duo_move Far (MProcess 0 true) d_busy
    ≫= duo_move Near (MUI "submit" H_sendGif "").
Proof.
  apply (visitors_independent Near (MUI "submit" H_sendGif "")
           (MProcess 0 true) d_busy); [apply d_busy_synced | done].
Defined.

(** Both have submitted, and the answers to the two pages interleave:
    [bob]'s transaction is taken first, both are confirmed, and the
    refetch of [alice] is answered before [bob]'s confirmation arrives. *)
Definition d_both : Duo :=
  default d_busy (duo_move Near (MUI "submit" H_sendGif "") d_busy).

Definition sch_answers : list (Visitor * Move) :=
  [(Far, MProcess 0 true); (Near, MProcess 0 true); (Near, MDeliver 0);
   (Near, MProcess 0 true); (Far, MDeliver 0); (Near, MDeliver 0)].

Lemma d_both_reachable : duo_reachable demo_chain bob_chain d_both.
Proof.
  apply (duo_reachable_play _ _
           [(Far, MUI "submit" H_sendGif ""); (Near, MUI "submit" H_sendGif "")]
           d_open); [apply d_open_reachable | by vm_compute].
Qed.

Lemma duo_schedule_ends_witness :
  from_option
    (λ _, length sch_answers
          ≤ 8 * (length (pending (world (near d_both)))
                 + length (pending (world (far d_both)))))
    False (duo_play sch_answers d_both).
Proof.
  destruct (duo_play sch_answers d_both) as [d'|] eqn:Hp;
    [|by vm_compute in Hp].
  cbn [from_option].
  apply (duo_schedule_ends demo_chain bob_chain sch_answers d_both d');
    [apply demo_same_program | apply d_both_reachable
    | repeat constructor | exact Hp].
Defined.

(** [alice] is shown her entry, [bob] hers and his. *)
Lemma visitors_agree_witness :
  ([gif1; gif_a] `prefix_of` [gif1; gif_a; gif_b] ∨
   [gif1; gif_a; gif_b] `prefix_of` [gif1; gif_a]) ∧
  [gif1; gif_a] `prefix_of` stored (chain (near d_told)) ∧
  [gif1; gif_a; gif_b] `prefix_of` stored (chain (near d_told)).
Proof.
  apply (visitors_agree demo_chain bob_chain d_told);
    [apply demo_same_program | apply d_told_reachable | by vm_compute..].
Defined.

Lemma neighbour_is_shown_witness :
  ∃ d', duo_play (publish Near "" d_open ++ publish Far "" d_open) d_open
        = Some d' ∧
        storage (chain (near d')) = Some ([gif1] ++ [gif_a; gif_b]) ∧
        storage (chain (far d')) = Some ([gif1] ++ [gif_a; gif_b]) ∧
        gifList (app (world (far d'))) = Some ([gif1] ++ [gif_a; gif_b]) ∧
        gifList (app (world (near d'))) = Some ([gif1] ++ [gif_a]).
Proof.
  generalize (neighbour_is_shown demo_chain bob_chain d_open "" "" [gif1]
                demo_same_program d_open_reachable
                d_open_ready_near d_open_ready_far).
  vm_compute. intros H. by apply H.
Defined.

End duo_examples.
