(* ===== verification/Reload.v ===== *)
(** * Reload: the session, and what a reload does to it

    The page has no disconnect and keeps its session in the component
    state, so the session ends when the page is reloaded; the wallet
    keeps its key and its trust in the site.  On the chain of [Chain]:
    - [session_granted] is the invariant that ties the session of the
      page to the wallet: the session is the wallet's key, it was
      granted by the wallet, and so is every grant on its way;
    - [after_reload] is the wallet after a reload of the page (the key
      is no longer exposed, the trust stays) and [reload] the page
      opened again on it;
    - [reload_restores]: a page that had a session gets it back after a
      reload without asking the user, and shows the whole list the
      program holds, the entries of other visitors included. *)

From S2P Require Import Prelude Js Async Remote Config Fixture Handlers Render EventLoop Spec Accounting Scenarios Safety Reactions Refinement WellFormed Chain Journeys.

(** The wallet when the page is opened again: it exposes its key only
    when asked, and remembers the sites it trusts. *)
Definition after_reload (c : Chain) : Chain :=
  mkChain (wallet_key c) (trusted c) false (storage_address c) (storage c).

Section reload_defs.
Context {web3 : Web3} {build : Build}.

(** The page opened again: the component state is the initial one, and
    the promises of the page before are gone with it. *)
Definition reload (n : Net) : Net := net_initial (after_reload (chain n)).

(** The wallet has granted the site a connection with its key: it
    exposes the key and trusts the site. *)
Definition grants (c : Chain) (key : PublicKey) : Prop :=
  key = wallet_key c ∧ trusted c = true ∧ connected c = true.

(** The session of the page, and every grant on its way to the page, is
    one the wallet has given. *)
Definition session_granted (n : Net) : Prop :=
  (∀ a, walletAddress (app (world n)) = Some a →
        ∃ key, a = pk_toString key ∧ grants (chain n) key) ∧
  (∀ i response, inbox n !! i = Some (Some (Connected response)) →
                 grants (chain n) (publicKey response)).

End reload_defs.

#[export] Instance grants_dec c key : Decision (grants c key).
Proof. unfold grants. apply _. Defined.

Section reload_facts.
Context {web3 : Web3} {build : Build}.
Implicit Types (n : Net) (c : Chain) (w : World) (mv : Move).

(** ** The session changes only when the wallet grants one *)

Lemma step_session sol w ev w' :
  reachable sol w → step ev w = Some w' →
  walletAddress (app w') = walletAddress (app w) ∨
  ∃ i response, ev = EvSettle i (Connected response) ∧
                walletAddress (app w') = Some (pk_toString (publicKey response)).
Proof. intros Hr Hs%(step_simulation sol)%spec_step_session_inv; done. Qed.

(** ** What the chain keeps *)

(** The wallet never changes its key nor withdraws its trust. *)
Lemma process_grants r approve c key :
  grants c key → grants (process r approve c).2 key.
Proof.
  intros (-> & Ht & Hc).
  by destruct (process_inv r approve c) as [->|[->|[[_ ->]|(? & ? & _ & ->)]]].
Qed.

(** A connection is granted with the wallet's key, by a wallet that
    trusts the site from then on. *)
Lemma process_connected r approve c response :
  (process r approve c).1 = Connected response →
  grants (process r approve c).2 (publicKey response).
Proof.
  destruct r; simpl; repeat case_match; simpl; try done; by intros [= <-].
Qed.

(** ** The invariant *)

Lemma session_granted_grow n w' c' box :
  session_granted n →
  (∀ key, grants (chain n) key → grants c' key) →
  walletAddress (app w') = walletAddress (app (world n)) →
  (∀ i response, box !! i = Some (Some (Connected response)) →
     inbox n !! i = Some (Some (Connected response)) ∨
     grants c' (publicKey response)) →
  session_granted (mkNet w' c' box).
Proof.
  intros [Hw Hb] Hc Ha Hbox. split; simpl.
  - intros a Hs. rewrite Ha in Hs. destruct (Hw a Hs) as (key & -> & Hk).
    eauto.
  - intros i response [Hi|Hg]%Hbox; [|done]. by eapply Hc, Hb.
Qed.

Lemma page_move_session_granted sol ev n n' :
  plain ev → reachable sol (world n) → session_granted n → page_move ev n = Some n' →
  session_granted n'.
Proof.
  intros Hev Hr Hn (Hst & Hc & Hi)%page_move_inv. destruct n' as [w' c' box].
  simpl in *. subst. apply (session_granted_grow n); [done..| |].
  - by destruct (step_session _ _ _ _ Hr Hst) as [?|(i & a & -> & _)].
  - intros i a ?%lookup_resize_Some. by left.
Qed.

Lemma process_session_granted n i r approve :
  session_granted n →
  let (o, c') := process r approve (chain n) in
  session_granted (mkNet (set_solana (Some (wallet_object c')) (world n)) c'
                     (<[i := Some o]> (inbox n))).
Proof.
  intros Hn. pose proof (λ key, process_grants r approve (chain n) key) as Hg.
  pose proof (process_connected r approve (chain n)) as Hc.
  destruct (process r approve (chain n)) as [o c']. simpl in *.
  apply (session_granted_grow n); [done..|].
  intros j a Hj. destruct (decide (i = j)) as [->|Hij].
  - apply list_lookup_insert_Some in Hj as [(_ & [= ->] & _)|[? _]]; [|done].
    right. by apply Hc.
  - left. by rewrite list_lookup_insert_ne in Hj.
Qed.

Lemma deliver_session_granted sol n i o w' :
  reachable sol (world n) → session_granted n →
  inbox n !! i = Some (Some o) → step (EvSettle i o) (world n) = Some w' →
  session_granted
    (mkNet w' (chain n) (resize (length (pending w')) (delete i (inbox n)))).
Proof.
  intros Hr Hn Hi Hst. pose proof Hn as [Hw Hb]. split; simpl.
  - intros a Hs.
    destruct (step_session _ _ _ _ Hr Hst) as [Hg|(j & response & [= <- ->] & Hg)];
      rewrite Hg in Hs; [by apply Hw|].
    injection Hs as <-. eauto.
  - intros j a Hj%lookup_resize_Some.
    destruct (decide (j < i)) as [?|?].
    + rewrite list_lookup_delete_lt in Hj by done. by eapply Hb.
    + rewrite list_lookup_delete_ge in Hj by lia. by eapply Hb.
Qed.

Lemma move_session_granted sol mv n n' :
  reachable sol (world n) → session_granted n → move mv n = Some n' →
  session_granted n'.
Proof.
  intros Hr Hn.
  intros [mv' ev n1 Hev%page_event_plain Hp|i approve r o c' Hr' Hi Hp
         |i o w' Hi Hst|item l Hl|Hl|i e slot Hi Hslot]%move_moved.
  - by eapply page_move_session_granted.
  - pose proof (process_session_granted n i r approve Hn) as Hc.
    by rewrite Hp in Hc.
  - by eapply deliver_session_granted.
  - apply (session_granted_grow n); [done|done|done|by left].
  - apply (session_granted_grow n); [done|done|done|by left].
  - apply (session_granted_grow n); [done..|]. intros j a Hj. left.
    by apply list_lookup_insert_Some in Hj as [(_ & [=] & _)|[_ ?]].
Qed.

(** On the chain the session of the page is always the key of the
    wallet, granted by the wallet. *)
#[export] Instance session_granted_inv : NetInv session_granted.
Proof.
  split; [by split|]. intros c0 mv n n' Hn.
  by eapply move_session_granted, net_reachable_world.
Qed.

Lemma net_reachable_session c0 n : net_reachable c0 n → session_granted n.
Proof. apply (net_inv_reachable session_granted). Qed.

(** ** The reload *)

(** C18. A reload restores the session.  On the chain, a page that has a
    session and is reloaded starts again without one; the load event
    then asks the wallet for a connection without a prompt, the wallet,
    which has granted one before, grants it again, and the first fetch is
    answered: the page ends with the same session as before the reload,
    showing the whole list the program holds, with nothing in flight,
    whatever the user would have answered to a prompt. *)
Theorem reload_restores c0 n a l approve1 approve2 :
  net_reachable c0 n →
  walletAddress (app (world n)) = Some a → a ≠ "" →
  storage (chain n) = Some l →
  storage_address (chain n) = kp_publicKey baseAccount →
  walletAddress (app (world (reload n))) = None ∧
  ∃ n', play [MLoad; MProcess 0 approve1; MDeliver 0;
              MProcess 0 approve2; MDeliver 0] (reload n) = Some n' ∧
        walletAddress (app (world n')) = Some a ∧
        gifList (app (world n')) = Some l ∧
        in_flight (world n') = [].
Proof.
  intros [Hw _]%net_reachable_session Ha Hne Hs Hb. split; [done|].
  destruct (Hw a Ha) as (key & -> & -> & Ht & _).
  destruct (net_opens (after_reload (chain n)) l approve1 approve2)
    as (n' & Hp & Hw' & Hg & Hf & _); by eauto.
Qed.

End reload_facts.

(** * Worked example *)

Section reload_examples.
#[local] Existing Instances demo_web3 demo_build.

(** The page of [alice] shows the entry it fetched while the program
    holds the one [bob] appended since; reloaded, it shows both. *)
Lemma reload_restores_witness :
  walletAddress (app (world (reload n_typed))) = None ∧
  ∃ n', play [MLoad; MProcess 0 false; MDeliver 0;
              MProcess 0 false; MDeliver 0] (reload n_typed) = Some n' ∧
        walletAddress (app (world n')) = Some "ALiCE111" ∧
        gifList (app (world n')) = Some [gif1; gif2] ∧
        in_flight (world n') = [].
Proof.
  apply (reload_restores demo_chain n_typed "ALiCE111" [gif1; gif2] false false);
    [apply n_typed_reachable | by vm_compute..].
Defined.

End reload_examples.
