(* ===== verification/Signer.v ===== *)
(** * Signer: whose key the transactions carry

    The specification says that a submission is authorised by the
    connected user's identity.  The page holds that identity in
    [walletAddress], and never uses it for a transaction: [sendGif] and
    [createGifAccount] take the user account from [window.solana] at the
    moment they run.  This file shows that the two are the same key as
    long as the wallet has one:
    - [step_signs]: whatever the wallet, a step of the page sends
      transactions only from the form and the initialisation button,
      hence with a session, and under the key [window.solana] exposes;
    - [authorised]: on the chain of [Chain], every transaction the page
      has sent carries the key of the wallet, and the page has a
      session;
    - [sender_is_session]: so the user account of every transaction is
      the key whose address the page shows as its session. *)

From S2P Require Import Prelude Js Async Remote Config Fixture Handlers Render EventLoop Spec Accounting Scenarios Safety Reactions Refinement WellFormed Chain Journeys Progress Closed Reload.

(** The requests that change what the program holds. *)
Definition is_transaction (r : Request) : Prop := transaction (operation_of r).

(** The user account a transaction names. *)
Definition sent_as (key : option PublicKey) (r : Request) : Prop :=
  match r with
  | ReqAddGif _ _ accounts => ag_user accounts = key
  | ReqStartStuffOff _ accounts _ => ss_user accounts = key
  | _ => True
  end.

#[export] Instance is_transaction_dec r : Decision (is_transaction r).
Proof. destruct r; simpl; apply _. Defined.

#[export] Instance sent_as_dec key r : Decision (sent_as key r).
Proof. destruct r; simpl; apply _. Defined.

Section signer_defs.
Context {web3 : Web3} {build : Build}.

(** Every transaction the page has sent names the wallet's key, and was
    sent by a page that has a session since. *)
Definition authorised (n : Net) : Prop :=
  ∀ r, r ∈ issued (world n) → is_transaction r →
       sent_as (Some (wallet_key (chain n))) r ∧
       is_Some (walletAddress (app (world n))).

End signer_defs.

Section signer_facts.
Context {web3 : Web3} {build : Build}.
Implicit Types (n : Net) (c : Chain) (w : World) (mv : Move) (r : Request).

Lemma sent_as_any key r : ¬ is_transaction r → sent_as key r.
Proof. by destruct r; simpl; intros ?; try done. Qed.

(** ** One step of the page *)

(** A step sends transactions from the form and the initialisation
    button only, which a page without a session does not show, and
    under the key the wallet object exposes at that moment. *)
Lemma step_signs sol w ev w' wallet rs :
  reachable sol w → solana w = Some wallet → step ev w = Some w' →
  issued w' = issued w ++ rs →
  Forall (λ r, ¬ is_transaction r) rs ∨
  (truthy (walletAddress (app w)) = true ∧
   Forall (sent_as (sol_publicKey wallet)) rs).
Proof.
  intros Hr Hsol Hs Hi.
  destruct (spec_step_transaction _ _ _ (step_simulation _ _ _ _ Hr Hs))
    as (ops & Hops & [Hev|Hno]).
  - right. destruct ev as [|event h value| | |]; try done.
    pose proof Hs as (_ & Hin%listeners_App_cases & _)%step_ui_offered.
    destruct Hin as [(-> & -> & _)|[(-> & -> & Ht & _)|[(-> & -> & Ht & _)
                                                       |(-> & -> & _)]]];
      try done; (split; [done|]).
    + apply (createGifAccount_clicked _ _ _ _ Hs), visible_issued in Hsol.
      rewrite Hsol in Hi. apply app_inv_head in Hi as <-. by repeat constructor.
    + destruct (decide (inputValue (app w) = "")) as [He|He].
      * apply (empty_submitted _ _ _ Hs) in He. injection He as _ _ He _ _.
        assert (rs = []) as ->; [|done].
        apply (app_inv_head (issued w)). by rewrite app_nil_r, <-Hi.
      * apply (link_submitted _ _ _ _ Hs He), visible_issued in Hsol.
        rewrite Hsol in Hi. apply app_inv_head in Hi as <-.
        by repeat constructor.
  - left. simpl in Hops. rewrite Hi, fmap_app in Hops.
    apply app_inv_head in Hops as <-. apply Forall_forall. intros r Hin.
    by apply (proj1 (Forall_forall _ _) Hno), list_elem_of_fmap_2.
Qed.

(** ** On the chain *)

Lemma move_wallet_key mv n n' :
  move mv n = Some n' → wallet_key (chain n') = wallet_key (chain n).
Proof.
  intros [mv' ev n1 Hev (_ & -> & _)%page_move_inv|i approve r o c' Hr Hi Hp
         |i o w' Hi Hst|item l Hl|Hl|i e slot Hi Hslot]%move_moved;
    try done.
  pose proof (process_inv r approve (chain n)) as Hc. rewrite Hp in Hc.
  cbn [snd] in Hc.
  by destruct Hc as [->|[->|[[_ ->]|(? & ? & _ & ->)]]].
Qed.

Lemma move_authorised c0 mv n n' :
  net_reachable c0 n → authorised n → move mv n = Some n' → authorised n'.
Proof.
  intros Hn Ha Hm r. rewrite (move_wallet_key _ _ _ Hm).
  destruct (move_step _ _ _ Hm) as (ev & _ & Hs).
  pose proof (net_reachable_world _ _ Hn) as Hr.
  pose proof (net_reachable_linked _ _ Hn) as [_ Hsol].
  pose proof (net_reachable_session _ _ Hn) as [Hg _].
  destruct (step_sends _ _ _ Hs) as (rs & Hi & _).
  assert (is_Some (walletAddress (app (world n))) →
          is_Some (walletAddress (app (world n')))) as Hkeep.
  { destruct (step_session _ _ _ _ Hr Hs) as [->|(? & ? & _ & ->)]; eauto. }
  rewrite Hi. intros [Hold|Hnew]%elem_of_app Htx.
  - destruct (Ha r Hold Htx). eauto.
  - destruct (step_signs _ _ _ _ _ _ Hr Hsol Hs Hi) as [Hno|[Ht Hrs]].
    { by destruct (proj1 (Forall_forall _ _) Hno r Hnew). }
    destruct (truthy_is_Some _ Ht) as [a Hw].
    destruct (Hg a Hw) as (key & _ & _ & _ & Hc).
    apply (proj1 (Forall_forall _ _) Hrs) in Hnew.
    unfold wallet_object in Hnew. rewrite Hc in Hnew. split; [done|].
    apply Hkeep. eauto.
Qed.

#[export] Instance authorised_inv : NetInv authorised.
Proof.
  split; [by intros c r ?%elem_of_nil | intros; by eapply move_authorised].
Qed.

Lemma net_reachable_authorised c0 n : net_reachable c0 n → authorised n.
Proof. apply (net_inv_reachable authorised). Qed.

(** C19. The sender is the session.  On the chain, every transaction the
    page has sent, a submission or the initialisation, names as its user
    the key of the wallet, and the session the page shows is the address
    of that key: the identity that authorises the transaction is the
    connected user's, although the page never reads its session for
    it. *)
Theorem sender_is_session c0 n r :
  net_reachable c0 n → r ∈ issued (world n) → is_transaction r →
  sent_as (Some (wallet_key (chain n))) r ∧
  walletAddress (app (world n)) = Some (pk_toString (wallet_key (chain n))).
Proof.
  intros Hn Hr Htx.
  destruct (net_reachable_authorised _ _ Hn r Hr Htx) as [Hs [a Ha]].
  destruct (net_reachable_session _ _ Hn) as [Hg _].
  by destruct (Hg a Ha) as (key & -> & -> & _).
Qed.

End signer_facts.

(** * Worked example *)

Section signer_examples.
#[local] Existing Instances demo_web3 demo_build.

(** The [addGif] the page of [n_submitted] has sent names [alice], whose
    address is the session. *)
Lemma sender_is_session_witness :
  sent_as (Some alice)
    (addGif_request (world n_typed) (wallet_object (chain n_typed))) ∧
  walletAddress (app (world n_submitted)) = Some "ALiCE111".
Proof.
  generalize (sender_is_session demo_chain n_submitted
                (addGif_request (world n_typed) (wallet_object (chain n_typed)))
                n_submitted_reachable).
  vm_compute. intros H. apply H; [by repeat constructor|done].
Defined.

End signer_examples.
