(* ===== verification/Examples.v ===== *)
(** * Examples: the scenarios, evaluated

    The runs of [Scenarios] evaluated from the first render to the last
    event: what the page holds after a session of the kind the source was
    written for, and after the two sessions in which it goes wrong; one
    run of the specification's machine; a component unmounted with a
    request in flight; and the page on the chain of [Chain], from the
    first render to a submitted link on screen, with the storage account
    created from the page, served to rest, with a second visitor who
    creates the account first, and with a confirmation lost on the
    way; two visitors of [Shared] submitting at the same time; and the
    page of [Reload] opened again. *)

From S2P Require Import Prelude Js Async Remote Config Fixture Handlers Render EventLoop Spec Accounting Scenarios Safety Reactions Refinement WellFormed View Chain Journeys Progress Closed Outage Shared Reload.

Section examples.
#[local] Existing Instances demo_web3 demo_build.

(** The silent reconnection and the first fetch. *)
Example reconnect_state :
  state_after evs_reconnect =
  Some {| walletAddress := Some "ALiCE111";
          inputValue := inputValue initialState;
          gifList := Some [gif1] |}.
Proof. vm_compute. reflexivity. Qed.

(** A link typed, submitted and confirmed; the refetch shows it. *)
Example submit_state :
  state_after evs_submit =
  Some {| walletAddress := Some "ALiCE111";
          inputValue := "";
          gifList := Some [gif1; gif2] |}.
Proof. vm_compute. reflexivity. Qed.

(** The storage account created from the page. *)
Example initialise_state :
  state_after evs_initialise =
  Some {| walletAddress := Some "ALiCE111";
          inputValue := inputValue initialState;
          gifList := Some [] |}.
Proof. vm_compute. reflexivity. Qed.

(** The connection declined in the wallet's dialog: the rejection is left
    unhandled. *)
Example declined_uncaught :
  uncaught <$> run_demo evs_declined =
  Some [mkJsError "Error" "User rejected the request."].
Proof. vm_compute. reflexivity. Qed.

(** The answer to the older fetch is applied last: the page shows the empty
    list although the newer answer held an entry. *)
Example stale_state :
  gifList <$> state_after evs_stale = Some (Some []).
Proof. vm_compute. reflexivity. Qed.

(** The same session on the machine of the specification. *)
Example submit_model :
  spec_run evs_submit (spec_initial (Some phantom)) =
  Some {| session := Some "ALiCE111";
          entryList := Populated [gif1; gif2];
          draftInput := "";
          walletProvider := Some phantom;
          attached := true;
          reconnectDue := false;
          inFlight := [];
          started := [Connecting false; Fetching;
                      Submitting "https://x/z.gif"; Fetching];
          alerted := [];
          unhandled := [] |}.
Proof. vm_compute. reflexivity. Qed.

(** The model of that session is well formed, by evaluation. *)
Example submit_model_wf :
  from_option (λ m, bool_decide (model_wf m)) false
    (spec_run evs_submit (spec_initial (Some phantom))) = true.
Proof. vm_compute. reflexivity. Qed.

(** Unmounted with the [addGif] in flight: the confirmation still sends
    the refetch, and the answer to it still reaches the state. *)
Example abandoned_requests :
  (λ w, (mounted w, length (issued w), gifList (app w))) <$>
    run_events [EvSettle 0 (Confirmed "sig1");
                EvSettle 0 (Fetched (mkAccount [gif1; gif2]))] w_abandoned
  = Some (false, 4, Some [gif1; gif2]).
Proof. vm_compute. reflexivity. Qed.

(** After the unmount the window's load event and the form are gone. *)
Example abandoned_refuses :
  step EvLoad w_abandoned = None ∧
  step (EvUI "submit" H_sendGif "") w_abandoned = None.
Proof. split; vm_compute; reflexivity. Qed.

(** The page on the chain: opened with [alice]'s trusted wallet, a link
    typed while [bob] appends an entry, then submitted, confirmed and
    refetched.  The page shows the three entries the program holds. *)
Example chain_session :
  (λ n, (images (world n), stored (chain n))) <$>
    play [MUI "submit" H_sendGif ""; MProcess 0 true; MDeliver 0;
          MProcess 0 true; MDeliver 0] n_typed
  = Some ([Some "https://x/y.gif"; Some "https://x/z.gif";
           Some "https://x/z.gif"; Some githubLogo],
          [gif1; gif2; mkGifItem "https://x/z.gif" alice]).
Proof. vm_compute. reflexivity. Qed.

(** A user who declines the transaction in the wallet: the chain refuses,
    the page alerts, and nothing is stored. *)
Example chain_declined :
  (λ n, (alerts (world n), stored (chain n), inputValue (app (world n)))) <$>
    play [MUI "submit" H_sendGif ""; MProcess 0 false; MDeliver 0] n_typed
  = Some (["fal"], [gif1; gif2], "").
Proof. vm_compute. reflexivity. Qed.

(** The storage account created from the page of [n_fresh]: the page
    shows the initialisation button before, the form after. *)
Example chain_initialised :
  listeners (App (app (world n_fresh))) = [("click", H_createGifAccount)] ∧
  (λ n, (stored (chain n), gifList (app (world n)),
         listeners (App (app (world n))))) <$>
    play [MUI "click" H_createGifAccount ""; MProcess 0 true; MDeliver 0;
          MProcess 0 false; MDeliver 0] n_fresh
  = Some ([], Some [], [("submit", H_sendGif); ("change", H_onInputChange)]).
Proof. split; vm_compute; reflexivity. Qed.

(** The page of [n_submitted] served to rest, every dialog approved: two
    rounds, and the three entries are shown. *)
Example chain_served :
  (λ n, (gifList (app (world n)), length (pending (world n)))) <$>
    serve_all (λ _, true) 2 n_submitted
  = Some (Some [gif1; gif2; mkGifItem "https://x/z.gif" alice], 0).
Proof. vm_compute. reflexivity. Qed.

(** Two visitors on a fresh deployment: the other one creates the
    storage account first and submits a link.  This page keeps the
    initialisation button; its click is refused and only logged. *)
Example chain_second_visitor :
  (λ n, (gifList (app (world n)), stored (chain n),
         listeners (App (app (world n))), last (console (world n)))) <$>
    play mvs_retry n_late
  = Some (None, [gif2], [("click", H_createGifAccount)],
          Some (LogLine [VStr "Error creating BaseAccount account:";
                         VError refused])).
Proof. vm_compute. reflexivity. Qed.

(** A confirmation that is lost: the link of [n_submitted] is stored,
    and the page alerts a failure. *)
Example chain_lost_answer :
  (λ n, (alerts (world n), stored (chain n), gifList (app (world n)))) <$>
    play mvs_lost_answer n_submitted
  = Some (["fal"], [gif1; gif2; mkGifItem "https://x/z.gif" alice],
          Some [gif1]).
Proof. vm_compute. reflexivity. Qed.

(** Two visitors submit at the same time and the program takes the link
    of [bob] first and answers his refetch before it takes the link of
    [alice]: [bob]'s is stored first, [bob] is shown the list without
    the link of [alice], and [alice], answered later, is shown both. *)
Example pair_race :
  (λ d, (stored (chain (near d)), gifList (app (world (near d))),
         gifList (app (world (far d))))) <$>
    duo_play [(Near, MUI "submit" H_sendGif ""); (Far, MUI "submit" H_sendGif "");
              (Far, MProcess 0 true); (Far, MDeliver 0);
              (Far, MProcess 0 true); (Near, MProcess 0 true);
              (Far, MDeliver 0);
              (Near, MDeliver 0); (Near, MProcess 0 true); (Near, MDeliver 0)]
      d_open
  = Some ([gif1; gif_b; gif_a], Some [gif1; gif_b; gif_a],
          Some [gif1; gif_b]).
Proof. vm_compute. reflexivity. Qed.

(** The page of [n_typed] opened again: no session at first, then the
    session of [alice] again and the two entries the program holds. *)
Example page_reloaded :
  walletAddress (app (world (reload n_typed))) = None ∧
  (λ n, (walletAddress (app (world n)), gifList (app (world n)))) <$>
    play [MLoad; MProcess 0 false; MDeliver 0; MProcess 0 false; MDeliver 0]
      (reload n_typed)
  = Some (Some "ALiCE111", Some [gif1; gif2]).
Proof. split; vm_compute; reflexivity. Qed.

(** With every request answered well, the submitted link of
    [w_submitted] needs two answers. *)
Example drain_submitted :
  (λ w, length (issued w)) <$> drain all_well 2 w_submitted = Some 4.
Proof. vm_compute. reflexivity. Qed.

End examples.
